(* ===== verification/_CoqProject ===== *)
-Q . S2P
Prelude.v
Machine.v
Invariant.v
Flat.v
KvmDebug.v
GuestMem.v
CpuState.v
Vmi.v
Window.v
ExecControl.v
Breakpoint.v
RunState.v
VmiHint.v
Kssb.v
Hcall.v
VcpuLoop.v
System.v
HwTable.v
Reads.v
Frames.v
Accounting.v
WindowSpec.v
ExecSpec.v
HcallSpec.v
KssbSpec.v
Release.v
Accesses.v
Comms.v
Hints.v
Knotter.v
KnotterSpec.v
HintSpec.v
Threading.v
ThreadingSpec.v
ExecWire.v
Fuzzer.v
FuzzerSpec.v
ExecWireSpec.v
Executor.v
ExecutorSpec.v
Defects.v
Setup.v
SetupSpec.v
StoreBuffer.v
Pso.v
Tso.v
Exclusive.v
TurnSpec.v
Encoding.v
EncodingSpec.v
Request.v
Output.v
Ipc.v
OutputSpec.v
ReportSpec.v
Call.v
CallSpec.v
Copyin.v
CopyinSpec.v
CsumSpec.v
WorkQueue.v
CpuList.v
