(* ===== verification/Prelude.v ===== *)
(** * Ozz: a fuzzer for out-of-order bugs in kernels

    Ozz runs two system calls of a test program against each other and
    controls, breakpoint by breakpoint, how they interleave, while an emulated
    store buffer in the guest kernel delays stores or lets loads read old
    values.  This library models the parts of the repository that decide which
    reordering is tested and that enforce the interleaving, and proves them
    correct down to the debug registers.

    ** The parts and how they interact

    - The fuzzer (src/gotools/.../syzkaller: syz-fuzzer, pkg/interleaving,
      pkg/scheduler, prog) runs a program sequentially, reads a trace of memory
      accesses for two of its calls, computes from the traces the hints (which
      accesses of a call may be reordered around a communication between the
      two), and turns a hint into a program whose two contenders run in one
      epoch under a schedule of breakpoints and a flush vector.
    - The program is serialised to 64-bit words, read by the executor inside the
      guest (executor/executor.cc) and executed by worker threads, each pinned
      to a vCPU of its own.  The workers pass their breakpoints to the hypervisor
      by hypercalls and meet there at a barrier.  What the calls did, the
      accesses they made and the fate of their breakpoints go back to the fuzzer
      through shared memory.
    - The hypervisor (src/tools/qemu: qcsched/ and the vCPU loop around it)
      keeps the schedule.  A vCPU that reaches a breakpoint out of turn has its
      task suspended until its turn comes; as a vCPU has four debug registers,
      each vCPU installs only a window of its own breakpoints and moves it as
      the schedule advances.

    ** Files

    Foundations: Prelude (this file: C integers, the monad [prog] of state,
    exit, undefined behaviour and fuel, its logic [wp] and [wlp], arrays, record
    updates, tactics); Machine (constants, structs and globals of QEMU, the
    class [Platform] of what is outside the repository, the class
    [Interference] of what other threads may do while the big lock is
    released); Invariant (well-formedness [wf], the judgement [safe]); Flat (an
    executable platform, on which the witnesses run); Reads, Frames (which
    functions only read, what the others leave alone).

    Hypervisor: KvmDebug (target/i386/kvm/kvm-percpu.c, accel/kvm/kvm-percpu.c,
    kvm_update_guest_debug, run_on_cpu); GuestMem (cpu_memory_rw_debug);
    CpuState (qcsched/state.c, cookie.c, the list of CPUs, the big lock); Vmi
    and VmiHint (qcsched/vmi.c); Window (qcsched/window.c); ExecControl
    (exec_control.c, blocker.c, trampoline.c, timer.c, qcsched.c); Breakpoint
    (breakpoint.c); RunState (softmmu/runstate.c, softmmu/cpus.c); Kssb
    (kssb.c); Hcall (hcall.c); VcpuLoop (kvm_cpu_exec, kvm_vcpu_thread_fn);
    System (all vCPU threads and timers, interleaved);
    Exclusive, WorkQueue and CpuList (the exclusive sections, the work items and
    the list of CPUs of cpus-common.c).

    Fuzzer: Accesses, Comms, Hints (pkg/interleaving); Knotter (pkg/scheduler);
    Threading (prog/threading.go, schedule.go, clone.go); Encoding (what
    prog/encoding.go adds to the text of programs); Fuzzer (syz-fuzzer:
    fuzzer.go, proc.go, workqueue.go, and pkg/ipc's footprints).

    Store-buffer runtimes (src/tools/SoftStoreBufferPass/runtime): StoreBuffer
    (input and callbacks, over the class [MemoryModel]), Pso and Tso (its two
    instances).

    Between them: Request (the request of an execution: pkg/ipc, sys/targets,
    receive_execute); ExecWire (prog/encodingexec.go and the reader of
    executor.cc); Copyin (arguments in memory, checksums and results:
    executor.cc, common.h, prog/checksum.go); Executor (threads and epochs);
    Setup (the hypercalls of the workers); Call (the execution of a call by a
    worker: execute_call, over the class [Kernel]); Output (coverage and the reports of
    executor.cc, executor_linux.h, cov_filter.h); Ipc (their reader, parseOutput
    of pkg/ipc).

    Theorems about a file X are in XSpec, or in X itself for the small ones;
    HwTable is about KvmDebug, Accounting about Window and Breakpoint, TurnSpec
    about Breakpoint, Release and Defects about Hcall, HintSpec about Knotter,
    CsumSpec about the checksums of Copyin, OutputSpec and ReportSpec about
    Output and Ipc together.

    ** What is proved

    - Safety of the VM.  From every reachable state of the interleaved system
      every round of a vCPU is free of undefined behaviour, keeps every array
      index in its array and keeps the discipline of locks and threads; it can
      end QEMU only by an assertion about something else (System).  The guest is
      assumed to respect the scheduler's limits ([GuestLaws] in VcpuLoop: fewer
      than 256 points, no negative order, no debug exit on vCPU 0); what happens
      otherwise is in Defects.  The windows keep their books, so a breakpoint
      always finds a debug register (Accounting), and the breakpoint tables
      refine sets of at most four addresses (HwTable).
    - Control of the interleaving.  A vCPU that reaches its scheduling point in
      turn marks it and moves the focus of the schedule on; it goes on when the
      next point is its own or the next vCPU waits for one of its locks, and is
      suspended otherwise (TurnSpec).  A suspended task does not run, and
      is released by its timer, by deactivation or by reset (ExecSpec, Release;
      the last two as long as no other thread interferes, [Quiet]).
      HCALL_ACTIVATE_BP is a barrier (HcallSpec); whatever the order of the
      workers' hypercalls the hypervisor ends up with the fuzzer's schedule
      (SetupSpec).  Switching the store-buffer emulation leaves the VM running,
      since stopping the VM on a vCPU thread is only a request (KssbSpec).
    - Hints.  Every hint is a possible reordering (soundness), every
      reordering of the right kind is in some hint (completeness), both up to
      collisions of the 32-bit hashes by which the code identifies knots and
      communications, and the analysis does not panic (HintSpec).  Communications, knots, signals and
      flush vectors mean what they should (Comms, Hints).
    - From hint to race.  Threading puts the contenders in one epoch and can be
      undone (ThreadingSpec); such a program survives being stored as text
      (EncodingSpec); the executor decodes what the fuzzer encoded, with at most
      32 entries in the flush vector and its table, beyond which it overruns its
      arrays (ExecWireSpec), and releases the contenders together and every other call
      alone and in order (ExecutorSpec).
    - Requests, arguments and reports.  The executor reads a request as it was
      meant, for every flag it reads (Request).  Integers, bitfields and raw data
      reach memory as the program has them, results reach the arguments that
      refer to them (CopyinSpec), and checksums are those of RFC 1071 (CsumSpec).
      As long as the kernel keeps to its coverage buffers ([KernelLaws]) and the
      hypervisor answers for the breakpoints, a call that was executed can be
      reported, and the report is that of its first execution (CallSpec); what
      the executor reports is what the fuzzer reads, through filter,
      deduplication and layout, and lies within the file the two share, beyond
      whose end a write stops the executor (OutputSpec, ReportSpec).
    - The fuzzer's books.  New hints, bins, retries, filters and the work queue;
      executing a program ends after at most twelve attempts or because a call is
      disabled, serialisation panics or the executor keeps failing (FuzzerSpec).
    - The synchronisation of QEMU's threads: an exclusive section excludes every
      executing vCPU (Exclusive); work items run once, in order and while their
      owner waits (WorkQueue); no wake-up is lost in either.  Two vCPUs that wait
      for each other's work do so for ever (WorkQueue), and numbers identify CPUs
      (CpuList).
    - The store-buffer runtimes: for every interleaving of the threads and every
      input of at most 32 elements, the PSO runtime implements the operational model of partial store
      order on aligned words; the TSO runtime implements total store order in
      the runs that avoid four defects, which are shown by example (Pso, Tso).
    - Defects holds runs of the model on arguments the hypercalls do not guard
      against.

    ** How the code is modelled

    C and Go integers are [Z] with their conversions written out ([wrapu],
    [wraps]).  C code is
    a program of type [prog W A]: it returns, ends the process ([Exit]), has
    undefined behaviour ([UB], such as an index out of range) or runs out of
    fuel.  Go panics are [Exit] or [None].  Maps whose order the code does not
    depend on are [gmap]; where Go iterates over a map the order is a parameter.

    Fuel bounds the loops that are not structural.  Loops over the schedule
    have MAX_SCHEDPOINTS rounds, the size of its table; transfers to and from
    the guest and the flushing of a store buffer have a round for each byte or
    store; binary search, the loop over new hints and the choice of a hint have
    the length of their list; the decoder has a round for each word it is given,
    the parser one for each line; folding a checksum takes two rounds and a
    test; the retries of executeRaw count to twelve and pickBin doubles at most 63 times.
    Theorems about these functions exclude [OutOfFuel] or state the result, so
    that the fuel is shown to be enough.  Only the wait of pause_all_vcpus, which
    depends on other threads, takes its fuel as an argument.

    The vCPU threads run under the big lock.  A step of System is what a vCPU
    does between taking and releasing it; where a function waits with the lock
    released (run_on_cpu, kvm_cpu_exec around KVM_RUN), [Interference] may
    change the state within the invariant.

    ** Not modelled

    The guest kernel and its store-buffer emulation (git submodules and patches
    against kernels that are not in the repository) and KVM are parameters.
    The LLVM pass of src/tools/SoftStoreBufferPass changes LLVM IR, whose
    semantics is not here.
    The rest of QEMU and of syzkaller (devices, TCG, migration; the manager, VM
    drivers, system-call descriptions, program generation and mutation, reports)
    is stock code on which the modelled parts do not depend.  Of the executor
    the system calls themselves, the sandboxes and the fork server are left out,
    of the wire format call properties, and of the text format of programs the
    names, arguments and properties of calls.  What abandoned code leaves behind
    when memory is not mapped, the order in which std::sort leaves equal
    elements and Go's order of maps are parameters.
    Logging is left out throughout. *)

From stdpp Require Import base list gmap strings.
From Stdlib Require Import ZArith Lia.

Local Open Scope Z_scope.

(** ** C integers *)

Declare Scope cint_scope.
Delimit Scope cint_scope with C.

(** Conversion to an unsigned type of [n] bits. *)
Definition wrapu (n : Z) (x : Z) : Z := x `mod` 2 ^ n.

(** Conversion to a signed type of [n] bits, two's complement (what gcc and
    clang implement for out-of-range conversions). *)
Definition wraps (n : Z) (x : Z) : Z :=
  let y := x `mod` 2 ^ n in
  if y <? 2 ^ (n - 1) then y else y - 2 ^ n.

Abbreviation u32 := (wrapu 32).
Abbreviation u64 := (wrapu 64).
Abbreviation i32 := (wraps 32).

Notation "x +u64 y" := (wrapu 64 (x + y)) (at level 50, left associativity) : cint_scope.
Notation "x +i32 y" := (wraps 32 (x + y)) (at level 50, left associativity) : cint_scope.

Lemma wrapu_range n x : 0 <= n -> 0 <= wrapu n x < 2 ^ n.
Proof. intros. apply Z.mod_pos_bound, Z.pow_pos_nonneg; lia. Qed.

Lemma wrapu_id n x : 0 <= x < 2 ^ n -> wrapu n x = x.
Proof. intros. by apply Z.mod_small. Qed.

Lemma u64_add a b : u64 (u64 a + b) = u64 (a + b).
Proof. unfold wrapu. apply Zplus_mod_idemp_l. Qed.

Lemma u64_sub a b : u64 (u64 a - b) = u64 (a - b).
Proof. unfold wrapu. apply Zminus_mod_idemp_l. Qed.

Lemma wraps_range n x : 0 < n -> - 2 ^ (n - 1) <= wraps n x < 2 ^ (n - 1).
Proof.
  intros Hn. unfold wraps.
  assert (2 ^ n = 2 * 2 ^ (n - 1)) by (rewrite <- Z.pow_succ_r by lia; f_equal; lia).
  pose proof (Z.mod_pos_bound x (2 ^ n) ltac:(apply Z.pow_pos_nonneg; lia)).
  destruct (Z.ltb_spec (x `mod` 2 ^ n) (2 ^ (n - 1))); lia.
Qed.

Lemma wraps_id n x : 0 < n -> - 2 ^ (n - 1) <= x < 2 ^ (n - 1) -> wraps n x = x.
Proof.
  intros Hn Hx. unfold wraps.
  assert (2 ^ n = 2 * 2 ^ (n - 1)) by (rewrite <- Z.pow_succ_r by lia; f_equal; lia).
  destruct (Z.ltb_spec x 0).
  - assert (x `mod` 2 ^ n = x + 2 ^ n) as ->.
    { symmetry. apply (Z.mod_unique x (2 ^ n) (-1)); lia. }
    destruct (Z.ltb_spec (x + 2 ^ n) (2 ^ (n - 1))); lia.
  - rewrite Z.mod_small by lia. destruct (Z.ltb_spec x (2 ^ (n - 1))); lia.
Qed.

(** ** Record update

    [r <| f := v |>] is the record [r] with field [f] set to [v], the
    assignment [r.f = v] of the source.  Each record type gives its
    eta-expansion as an instance of [Eta]; setters are derived from it. *)

Class Eta (R : Type) := eta : R -> R.
Class Setter {R T : Type} (proj : R -> T) := set : (T -> T) -> R -> R.
Arguments set {R T} proj {_} _ _.

Ltac app_head e := match e with ?f _ => app_head f | _ => e end.

Ltac build_setter :=
  match goal with
  | |- @Setter ?R ?T ?proj =>
      let x := constr:(fun r : R =>
        ltac:(let e := eval cbv [eta] in (@eta R _ r) in
              let h := app_head e in
              let e := eval unfold h in e in
              let e := eval cbv beta in e in exact e)) in
      exact (fun (f : T -> T) (r : R) =>
        ltac:(let b := eval cbv beta in (x r) in
              let pt := eval pattern (proj r) in b in
              match pt with ?g _ => let t := eval cbv beta in (g (f (proj r))) in exact t end))
  end.

#[export] Hint Extern 1 (Setter _) => build_setter : typeclass_instances.

Declare Scope record_scope.
Delimit Scope record_scope with rec.
Notation "r <| p := v |>" := (set p (fun _ => v) r)
  (at level 12, left associativity, p at level 11, v at level 99) : record_scope.
Notation "r <| p ::= f |>" := (set p f r)
  (at level 12, left associativity, p at level 11, f at level 99) : record_scope.

(** ** Arrays

    A C array is a list; an index is an [int], so a negative one is out of
    range. *)

Definition aget {A} (l : list A) (i : Z) : option A :=
  if i <? 0 then None else l !! Z.to_nat i.

Definition aset {A} (l : list A) (i : Z) (x : A) : list A :=
  if i <? 0 then l else <[Z.to_nat i := x]> l.

Definition alen {A} (l : list A) : Z := Z.of_nat (length l).

Lemma alen_nonneg {A} (l : list A) : 0 <= alen l.
Proof. unfold alen. lia. Qed.

Lemma aget_is_Some {A} (l : list A) i :
  is_Some (aget l i) <-> 0 <= i < alen l.
Proof.
  unfold aget, alen. destruct (Z.ltb_spec i 0).
  - split; [intros []; done | lia].
  - rewrite lookup_lt_is_Some. lia.
Qed.

Lemma aget_Some_range {A} (l : list A) i x : aget l i = Some x -> 0 <= i < alen l.
Proof. intros H. apply aget_is_Some. by eexists. Qed.

Lemma alen_aset {A} (l : list A) i x : alen (aset l i x) = alen l.
Proof. unfold alen, aset. case_match; [done|]. by rewrite length_insert. Qed.

Lemma aget_aset_eq {A} (l : list A) i x :
  0 <= i < alen l -> aget (aset l i x) i = Some x.
Proof.
  unfold aget, aset, alen. intros. destruct (Z.ltb_spec i 0); [lia|].
  apply list_lookup_insert_eq. lia.
Qed.

Lemma aget_aset_ne {A} (l : list A) i j x :
  i <> j -> aget (aset l i x) j = aget l j.
Proof.
  unfold aget, aset. intros. destruct (Z.ltb_spec j 0), (Z.ltb_spec i 0); try done.
  apply list_lookup_insert_ne. lia.
Qed.

Lemma aget_aset {A} (l : list A) i j x :
  aget (aset l i x) j =
  if decide (i = j /\ 0 <= i < alen l) then Some x else aget l j.
Proof.
  case_decide as H.
  - destruct H as [-> H]. by apply aget_aset_eq.
  - destruct (decide (i = j)) as [->|Hne]; [|by apply aget_aset_ne].
    unfold aset, aget, alen in *. destruct (Z.ltb_spec j 0); [done|].
    rewrite list_insert_ge; [done|]. lia.
Qed.

Lemma aset_id {A} (l : list A) i x : aget l i = Some x -> aset l i x = l.
Proof.
  unfold aget, aset. destruct (i <? 0); [done|]. intros. by apply list_insert_id.
Qed.

Lemma aset_aset_eq {A} (l : list A) i x y : aset (aset l i x) i y = aset l i y.
Proof. unfold aset. destruct (i <? 0); [done|]. by rewrite list_insert_insert_eq. Qed.

(** A property of every element of an array. *)
Definition aforall {A} (P : Z -> A -> Prop) (l : list A) : Prop :=
  forall i x, aget l i = Some x -> P i x.

Lemma aforall_aset {A} (P : Z -> A -> Prop) l i x :
  aforall P l -> (0 <= i < alen l -> P i x) -> aforall P (aset l i x).
Proof.
  intros HP Hx j y. rewrite aget_aset. case_decide as H; [|apply HP].
  intros [= <-]. destruct H as [<- H]. auto.
Qed.

Lemma aget_replicate {A} n (x : A) i y :
  aget (replicate n x) i = Some y <-> y = x /\ 0 <= i < Z.of_nat n.
Proof.
  unfold aget. destruct (Z.ltb_spec i 0).
  - split; [done | lia].
  - rewrite lookup_replicate. naive_solver lia.
Qed.

Lemma alen_replicate {A} n (x : A) : alen (replicate n x) = Z.of_nat n.
Proof. unfold alen. by rewrite length_replicate. Qed.

Lemma aget_app_r {A} (pre l : list A) : aget (pre ++ l) (alen pre) = l !! 0%nat.
Proof.
  unfold aget, alen. destruct (Z.ltb_spec (Z.of_nat (length pre)) 0); [lia|].
  rewrite Nat2Z.id, lookup_app_r, Nat.sub_diag by lia. done.
Qed.

Lemma aset_app_r {A} (pre l : list A) x y : aset (pre ++ x :: l) (alen pre) y = pre ++ y :: l.
Proof.
  unfold aset, alen. destruct (Z.ltb_spec (Z.of_nat (length pre)) 0); [lia|].
  rewrite Nat2Z.id, insert_app_r_alt by lia. by rewrite Nat.sub_diag.
Qed.

Lemma alen_app {A} (l1 l2 : list A) : alen (l1 ++ l2) = alen l1 + alen l2.
Proof. unfold alen. rewrite length_app. lia. Qed.

Lemma alen_cons {A} (x : A) l : alen (x :: l) = 1 + alen l.
Proof. unfold alen. cbn. lia. Qed.

(** ** Little-endian layout of integers *)

Fixpoint le_bytes (n : nat) (v : Z) : list Z :=
  match n with
  | O => []
  | S n' => v `mod` 256 :: le_bytes n' (v / 256)
  end.

Fixpoint le_value (l : list Z) : Z :=
  match l with
  | [] => 0
  | b :: l' => b `mod` 256 + 256 * le_value l'
  end.

Lemma length_le_bytes n v : length (le_bytes n v) = n.
Proof. revert v. induction n as [|n IH]; intros v; cbn; [done|]. by rewrite IH. Qed.

Lemma le_value_range l : 0 <= le_value l < 2 ^ (8 * alen l).
Proof.
  induction l as [|b l IH]; cbn [le_value]; [done|]. rewrite alen_cons.
  replace (8 * (1 + alen l)) with (8 + 8 * alen l) by lia. rewrite Z.pow_add_r by (pose proof (alen_nonneg l); lia).
  pose proof (Z.mod_pos_bound b 256 ltac:(lia)). change (2 ^ 8) with 256.
  set (X := 2 ^ (8 * alen l)) in *. clearbody X. nia.
Qed.

Lemma le_value_bytes n v : le_value (le_bytes n v) = v `mod` 2 ^ (8 * Z.of_nat n).
Proof.
  revert v. induction n as [|n IH]; intros v; cbn [le_bytes le_value].
  { change (2 ^ (8 * Z.of_nat 0)) with 1. by rewrite Z.mod_1_r. }
  rewrite IH, Z.mod_mod by lia. replace (8 * Z.of_nat (S n)) with (8 + 8 * Z.of_nat n) by lia.
  rewrite Z.pow_add_r by lia. change (2 ^ 8) with 256. rewrite Z.rem_mul_r by (try (apply Z.pow_pos_nonneg); lia). done.
Qed.

(** ** Functions with one value changed *)

Definition upd {A} (f : Z -> A) (k : Z) (x : A) : Z -> A := fun k' => if decide (k' = k) then x else f k'.

Lemma upd_eq {A} (f : Z -> A) k x : upd f k x k = x.
Proof. unfold upd. by rewrite decide_True. Qed.

Lemma upd_ne {A} (f : Z -> A) k k' x : k' <> k -> upd f k x k' = f k'.
Proof. intros. unfold upd. by rewrite decide_False. Qed.

(** ** Programs

    A piece of C is a function from the machine state to an outcome: it
    returns, it ends the process ([ASSERT], [g_assert], [exit]), it does
    something the C standard leaves undefined (an access out of an array, a
    NULL dereference), or it did not finish within the fuel a loop was given. *)

Inductive outcome (W A : Type) : Type :=
| Ret (a : A) (w : W)
| Exit (msg : string)
| UB (what : string)
| OutOfFuel.
Arguments Ret {W A} a w.
Arguments Exit {W A} msg.
Arguments UB {W A} what.
Arguments OutOfFuel {W A}.

Definition prog (W A : Type) : Type := W -> outcome W A.

#[export] Instance prog_ret {W} : MRet (prog W) := fun A a w => Ret a w.

#[export] Instance prog_bind {W} : MBind (prog W) := fun A B f m w =>
  match m w with
  | Ret a w' => f a w'
  | Exit s => Exit s
  | UB s => UB s
  | OutOfFuel => OutOfFuel
  end.

Definition gets {W A} (f : W -> A) : prog W A := fun w => Ret (f w) w.
Definition modify {W} (f : W -> W) : prog W unit := fun w => Ret tt (f w).
Definition exit_ {W A} (msg : string) : prog W A := fun _ => Exit msg.
Definition ub {W A} (what : string) : prog W A := fun _ => UB what.

(** [ASSERT(cond, msg)] of qcsched.h: print and [exit(1)]. *)
Definition ASSERT {W} (cond : bool) (msg : string) : prog W unit :=
  if cond then mret tt else exit_ msg.

(** Dereference: [None] is a NULL pointer or an index outside its array. *)
Definition deref {W A} (what : string) (o : option A) : prog W A :=
  match o with Some a => mret a | None => ub what end.

(** [loop fuel step s]: run [step] from [s] until it yields [inr]. *)
Fixpoint loop {W S R} (fuel : nat) (step : S -> prog W (S + R)) (s : S) : prog W R :=
  match fuel with
  | O => fun _ => OutOfFuel
  | Datatypes.S n =>
      r ← step s;
      match r with inl s' => loop n step s' | inr x => mret x end
  end.

(** Visit the elements of a list in order ([CPU_FOREACH]). *)
Fixpoint foreach {W A} (l : list A) (body : A -> prog W unit) : prog W unit :=
  match l with
  | [] => mret tt
  | x :: l' => body x ;; foreach l' body
  end.

(** ** Weakest preconditions

    [wp E m Q w]: from [w], [m] neither runs into undefined behaviour nor out
    of fuel; if it returns, [Q] holds; if it ends the process with message
    [s], [E s] holds.  [any_exit] tolerates every failed assertion, [no_exit]
    rules them all out. *)

Definition any_exit (_ : string) : Prop := True.
Definition no_exit (_ : string) : Prop := False.

Definition wp {W A} (E : string -> Prop) (m : prog W A) (Q : A -> W -> Prop) (w : W) : Prop :=
  match m w with
  | Ret a w' => Q a w'
  | Exit s => E s
  | UB _ => False
  | OutOfFuel => False
  end.

Section wp.
Context {W : Type} (E : string -> Prop).

Lemma wp_ret {A} (a : A) (Q : A -> W -> Prop) w : Q a w -> wp E (mret a) Q w.
Proof. done. Qed.

Lemma wp_bind {A B} (m : prog W A) (f : A -> prog W B) Q w :
  wp E m (fun a w' => wp E (f a) Q w') w -> wp E (m ≫= f) Q w.
Proof. unfold wp, mbind, prog_bind. by destruct (m w). Qed.

Lemma wp_mono {A} (m : prog W A) (Q Q' : A -> W -> Prop) w :
  wp E m Q w -> (forall a w', Q a w' -> Q' a w') -> wp E m Q' w.
Proof. unfold wp. destruct (m w); auto. Qed.

Lemma wp_gets {A} (f : W -> A) (Q : A -> W -> Prop) w : Q (f w) w -> wp E (gets f) Q w.
Proof. done. Qed.

Lemma wp_modify (f : W -> W) (Q : unit -> W -> Prop) w : Q tt (f w) -> wp E (modify f) Q w.
Proof. done. Qed.

Lemma wp_deref {A} what (o : option A) (Q : A -> W -> Prop) w :
  (exists a, o = Some a /\ Q a w) -> wp E (deref what o) Q w.
Proof. intros (a & -> & ?). done. Qed.

Lemma wp_ASSERT cond msg (Q : unit -> W -> Prop) w :
  (cond = true -> Q tt w) -> (cond = false -> E msg) -> wp E (ASSERT cond msg) Q w.
Proof. destruct cond; unfold wp; simpl; auto. Qed.

Lemma wp_if {A} (b : bool) (m1 m2 : prog W A) Q w :
  (b = true -> wp E m1 Q w) -> (b = false -> wp E m2 Q w) ->
  wp E (if b then m1 else m2) Q w.
Proof. destruct b; auto. Qed.

(** Loops: an invariant and a measure that the fuel dominates. *)
Lemma wp_loop {S R} (I : S -> W -> Prop) (meas : S -> W -> nat)
      (step : S -> prog W (S + R)) (Q : R -> W -> Prop) fuel s w :
  I s w -> (meas s w < fuel)%nat ->
  (forall s w, I s w ->
     wp E (step s) (fun r w' =>
       match r with
       | inl s' => I s' w' /\ (meas s' w' < meas s w)%nat
       | inr x => Q x w'
       end) w) ->
  wp E (loop fuel step s) Q w.
Proof.
  intros HI Hf Hstep. revert s w HI Hf. induction fuel as [|n IH]; intros s w HI Hf; [lia|].
  cbn [loop]. apply wp_bind. eapply wp_mono; [apply Hstep, HI|].
  intros [s'|x] w'; [|done]. intros [HI' Hm]. apply IH; [done | lia].
Qed.

Lemma wp_foreach {A} (I : W -> Prop) (l : list A) body (Q : unit -> W -> Prop) w :
  I w ->
  (forall x w, x ∈ l -> I w -> wp E (body x) (fun _ w' => I w') w) ->
  (forall w, I w -> Q tt w) ->
  wp E (foreach l body) Q w.
Proof.
  intros HI Hb HQ. revert w HI. induction l as [|x l IH]; intros w HI; [by apply HQ|].
  cbn [foreach]. apply wp_bind. eapply wp_mono; [apply Hb; [set_solver | done]|].
  intros [] w' HI'. apply IH; [|done]. intros. apply Hb; [set_solver | done].
Qed.

(** Each iteration establishes [P] of its element, and [P] is stable along the
    preorder [R] in which the iterations move the state. *)
Lemma wp_foreach_all {A} (I : W -> Prop) (R : W -> W -> Prop) `{!PreOrder R}
    (P : A -> W -> Prop) (l : list A) body w :
  (forall x w w', R w w' -> P x w -> P x w') ->
  I w ->
  (forall x w, x ∈ l -> I w -> wp E (body x) (fun _ w' => I w' /\ R w w' /\ P x w') w) ->
  wp E (foreach l body) (fun _ w' => I w' /\ R w w' /\ forall x, x ∈ l -> P x w') w.
Proof.
  intros HP HI Hb. revert w HI. induction l as [|x l IH]; intros w HI.
  { cbn [foreach]. apply wp_ret. split_and!; [done|reflexivity|set_solver]. }
  cbn [foreach]. apply wp_bind. eapply wp_mono; [apply Hb; [set_solver|done]|].
  intros [] w1 (HI1 & HR1 & HPx). eapply wp_mono; [apply IH; [set_solver|done]|].
  intros [] w2 (HI2 & HR2 & HPl). split_and!; [done|by etransitivity|].
  intros y [->|Hy]%elem_of_cons; [by eapply HP|by apply HPl].
Qed.
End wp.

(** Running a program that is known to return. *)
Lemma bind_run {W A B} (m : prog W A) (f : A -> prog W B) w a w' :
  m w = Ret a w' -> (m ≫= f) w = f a w'.
Proof. unfold mbind, prog_bind. by intros ->. Qed.

Lemma wp_run {W A} E (m : prog W A) (Q : A -> W -> Prop) w a w' :
  m w = Ret a w' -> Q a w' -> wp E m Q w.
Proof. unfold wp. by intros ->. Qed.

(** What [wp] says of the outcome. *)
Lemma wp_outcome {W A} E (m : prog W A) (Q : A -> W -> Prop) w :
  wp E m Q w ->
  (exists a w', m w = Ret a w' /\ Q a w') \/ (exists s, m w = Exit s /\ E s).
Proof. unfold wp. destruct (m w) as [a w'|s| |]; intros H; [left|right|done|done]; eauto. Qed.

Lemma wp_returned {W A} E (m : prog W A) (Q : A -> W -> Prop) w a w' :
  wp E m Q w -> m w = Ret a w' -> Q a w'.
Proof. unfold wp. intros Hwp Em. by rewrite Em in Hwp. Qed.

Lemma wp_outcome_total {W A} (m : prog W A) (Q : A -> W -> Prop) w :
  wp no_exit m Q w -> exists a w', m w = Ret a w' /\ Q a w'.
Proof. unfold wp. destruct (m w) as [a w'| | |]; intros H; [eauto|done..]. Qed.

Lemma wp_weaken {W A} (E E' : string -> Prop) (m : prog W A) (Q : A -> W -> Prop) w :
  wp E m Q w -> (forall s, E s -> E' s) -> wp E' m Q w.
Proof. unfold wp. destruct (m w); auto. Qed.

(** [wlp m Q w]: if [m] returns from [w], [Q] holds.  Used together with a
    [wp] that says that it returns. *)
Definition wlp {W A} (m : prog W A) (Q : A -> W -> Prop) (w : W) : Prop :=
  match m w with Ret a w' => Q a w' | _ => True end.

Section wlp.
Context {W : Type}.

Lemma wlp_ret {A} (a : A) (Q : A -> W -> Prop) w : Q a w -> wlp (mret a) Q w.
Proof. done. Qed.

Lemma wlp_bind {A B} (m : prog W A) (f : A -> prog W B) Q w :
  wlp m (fun a w' => wlp (f a) Q w') w -> wlp (m ≫= f) Q w.
Proof. unfold wlp, mbind, prog_bind. by destruct (m w). Qed.

Lemma wlp_mono {A} (m : prog W A) (Q Q' : A -> W -> Prop) w :
  wlp m Q w -> (forall a w', Q a w' -> Q' a w') -> wlp m Q' w.
Proof. unfold wlp. destruct (m w); auto. Qed.

Lemma wlp_true {A} (m : prog W A) (Q : A -> W -> Prop) w :
  (forall a w', Q a w') -> wlp m Q w.
Proof. unfold wlp. destruct (m w); auto. Qed.

Lemma wlp_gets {A} (f : W -> A) (Q : A -> W -> Prop) w : Q (f w) w -> wlp (gets f) Q w.
Proof. done. Qed.

Lemma wlp_modify (f : W -> W) (Q : unit -> W -> Prop) w : Q tt (f w) -> wlp (modify f) Q w.
Proof. done. Qed.

Lemma wlp_deref {A} what (o : option A) (Q : A -> W -> Prop) w :
  (forall a, o = Some a -> Q a w) -> wlp (deref what o) Q w.
Proof. destruct o; [|done]. intros H. by apply H. Qed.

Lemma wlp_ASSERT cond msg (Q : unit -> W -> Prop) w :
  (cond = true -> Q tt w) -> wlp (ASSERT cond msg) Q w.
Proof. destruct cond; unfold wlp; simpl; auto. Qed.

Lemma wlp_loop {S R} (I : S -> W -> Prop) (step : S -> prog W (S + R))
    (Q : R -> W -> Prop) fuel s w :
  I s w ->
  (forall s w, I s w -> wlp (step s) (fun r w' =>
     match r with inl s' => I s' w' | inr x => Q x w' end) w) ->
  wlp (loop fuel step s) Q w.
Proof.
  intros HI Hstep. revert s w HI. induction fuel as [|n IH]; intros s w HI; [done|].
  cbn [loop]. apply wlp_bind. eapply wlp_mono; [apply Hstep, HI|].
  intros [s'|x] w'; [apply IH|done].
Qed.

Lemma wlp_foreach {A} (I : W -> Prop) (l : list A) body (Q : unit -> W -> Prop) w :
  I w ->
  (forall x w, x ∈ l -> I w -> wlp (body x) (fun _ w' => I w') w) ->
  (forall w, I w -> Q tt w) ->
  wlp (foreach l body) Q w.
Proof.
  intros HI Hb HQ. revert w HI. induction l as [|x l IH]; intros w HI; [by apply HQ|].
  cbn [foreach]. apply wlp_bind. eapply wlp_mono; [apply Hb; [set_solver | done]|].
  intros [] w' HI'. apply IH; [|done]. intros. apply Hb; [set_solver | done].
Qed.

Lemma wp_wlp {A} E (m : prog W A) (Q Q' : A -> W -> Prop) w :
  wp E m Q w -> wlp m Q' w -> wp E m (fun a w' => Q a w' /\ Q' a w') w.
Proof. unfold wp, wlp. destruct (m w); auto. Qed.

Lemma wlp_wp {A} E (m : prog W A) (Q : A -> W -> Prop) w : wp E m Q w -> wlp m Q w.
Proof. unfold wp, wlp. by destruct (m w). Qed.

Lemma wlp_conj {A} (m : prog W A) (Q Q' : A -> W -> Prop) w :
  wlp m Q w -> wlp m Q' w -> wlp m (fun a w' => Q a w' /\ Q' a w') w.
Proof. unfold wlp. destruct (m w); auto. Qed.
End wlp.

(** ** Automation *)

Create HintDb ozz.
#[export] Hint Resolve alen_nonneg : ozz.
#[export] Hint Rewrite @alen_aset @alen_replicate : ozz.

(** Boolean tests of the source as propositions. *)
Ltac bool_to_prop :=
  repeat match goal with
  | H : (_ && _) = true |- _ => apply andb_prop in H as [? ?]
  | H : (_ || _) = false |- _ => apply orb_false_elim in H as [? ?]
  | H : negb _ = true |- _ => apply negb_true_iff in H
  | H : negb _ = false |- _ => apply negb_false_iff in H
  | H : (_ =? _)%Z = true |- _ => apply Z.eqb_eq in H
  | H : (_ =? _)%Z = false |- _ => apply Z.eqb_neq in H
  | H : (_ <? _)%Z = true |- _ => apply Z.ltb_lt in H
  | H : (_ <? _)%Z = false |- _ => apply Z.ltb_ge in H
  | H : (_ <=? _)%Z = true |- _ => apply Z.leb_le in H
  | H : (_ <=? _)%Z = false |- _ => apply Z.leb_gt in H
  | H : bool_decide _ = true |- _ => apply bool_decide_eq_true in H
  | H : bool_decide _ = false |- _ => apply bool_decide_eq_false in H
  end.

(** One step of symbolic execution. *)
Ltac wp_step :=
  match goal with
  | |- wp _ (mret _) _ _ => apply wp_ret
  | |- wp _ (mbind _ _) _ _ => apply wp_bind
  | |- wp _ (gets _) _ _ => apply wp_gets
  | |- wp _ (modify _) _ _ => apply wp_modify
  | |- wp _ (ASSERT _ _) _ _ => apply wp_ASSERT; intros ?; bool_to_prop
  | |- wp _ (if ?b then _ else _) _ _ =>
      let H := fresh "Hb" in destruct b eqn:H; bool_to_prop
  | |- wp _ (match ?o with Some _ => _ | None => _ end) _ _ =>
      let H := fresh "Ho" in destruct o eqn:H
  | |- wp _ (let '(_, _) := ?p in _) _ _ =>
      let H := fresh "Hp" in destruct p eqn:H
  end.

Ltac wlp_step :=
  match goal with
  | |- wlp (mret _) _ _ => apply wlp_ret
  | |- wlp (mbind _ _) _ _ => apply wlp_bind
  | |- wlp (gets _) _ _ => apply wlp_gets
  | |- wlp (modify _) _ _ => apply wlp_modify
  | |- wlp (deref _ _) _ _ => apply wlp_deref; intros
  | |- wlp (ASSERT _ _) _ _ => apply wlp_ASSERT; intros ?; bool_to_prop
  | |- wlp (let x := _ in _) _ _ => cbv zeta
  | |- wlp (if ?b then _ else _) _ _ =>
      let H := fresh "Hb" in destruct b eqn:H; bool_to_prop
  | |- wlp (match ?o with _ => _ end) _ _ =>
      let H := fresh "Ho" in destruct o eqn:H
  end.
