(* ===== verification/Machine.v ===== *)
(** * The state of the customised QEMU

    The constants and data types of [include/qemu/qcsched/*.h], the fields of
    [CPUState] the scheduler and the vCPU loop use, the per-CPU breakpoint
    table of [target/i386/kvm/kvm-percpu.c], and [machine], the record of all
    the globals of the process.  What QEMU gets from outside this repository
    (the KVM kernel module, the guest's physical memory and page tables, the
    POSIX timers) is the class [Platform]. *)

From stdpp Require Import base list gmap strings.
From Stdlib Require Import ZArith Lia.
From S2P Require Import Prelude.

Local Open Scope Z_scope.
Local Open Scope record_scope.

(** ** Constants *)

(** constant.h *)
Definition MAX_SCHEDPOINTS : Z := 256.
Definition MAX_CPUS : Z := 8.
Definition QCSCHED_DUMMY_BREAKPOINT : Z := 2 ^ 64 - 1.
Definition WATCHDOG_BREAKPOINT_COUNT_MAX : Z := 10.
Definition WATCHDOG_BREAKPOINT_COUNT_KILL_QEMU : Z := 100.
Definition END_OF_SCHEDPOINT_WINDOW : Z := MAX_SCHEDPOINTS + 1.
Definition TRAMPOLINE_ESCAPE_MAGIC : Z := 0x75da1791.

(** window.h *)
Definition SCHEDPOINT_WINDOW_SIZE : Z := 3.

(** cpu.h, vmi.h *)
Definition MAX_NR_CPUS : Z := 32.
Definition MAX_LOCKS : Z := 128.
Definition MAX_WHITELIST_ITEM : Z := 16.

(** hcall_constant.h *)
Definition HCALL_RESET : Z := 0x3e444ddf.
Definition HCALL_PREPARE : Z := 0x23564d5a.
Definition HCALL_INSTALL_BP : Z := 0xf477909a.
Definition HCALL_ACTIVATE_BP : Z := 0x40ab903.
Definition HCALL_DEACTIVATE_BP : Z := 0xf327524f.
Definition HCALL_FOOTPRINT_BP : Z := 0xd677b5d9.
Definition HCALL_CLEAR_BP : Z := 0xba220681.
Definition HCALL_VMI_HINT : Z := 0x7ca889f0.
Definition HCALL_ENABLE_KSSB : Z := 0x3dcb4536.
Definition HCALL_DISABLE_KSSB : Z := 0xbed348f5.
Definition VMI_TRAMPOLINE : Z := 0x939aef52.
Definition VMI_HOOK : Z := 0x30f4b16.
Definition VMI_CURRENT_TASK : Z := 0xfb40de5.
Definition VMI__PER_CPU_OFFSET0 : Z := 0x4a157131.
Definition VMI__SSB_DO_EMULATE : Z := 0xdb17901.
Definition VMI__PREEMPT_COUNT : Z := 0x3259b990.
Definition VMI_LOCK_ACQUIRE : Z := 0x7867ffae.
Definition VMI_LOCK_RELEASE : Z := 0x8287b1f7.
Definition VMI_LOCKDEP_WHITELIST : Z := 0x34825dc2.

(** errno values the code returns, negated by their users. *)
Definition ENOENT : Z := 2.
Definition EINTR : Z := 4.
Definition EAGAIN : Z := 11.
Definition EFAULT : Z := 14.
Definition EBUSY : Z := 16.
Definition EEXIST : Z := 17.
Definition EINVAL : Z := 22.
Definition ENOSYS : Z := 38.
Definition ENOBUFS : Z := 105.

(** gdbstub.h *)
Definition GDB_BREAKPOINT_SW : Z := 0.
Definition GDB_BREAKPOINT_HW : Z := 1.
Definition GDB_WATCHPOINT_WRITE : Z := 2.
Definition GDB_WATCHPOINT_READ : Z := 3.
Definition GDB_WATCHPOINT_ACCESS : Z := 4.

(** linux/kvm.h, asm-x86/kvm.h *)
Definition KVM_GUESTDBG_ENABLE : Z := 0x1.
Definition KVM_GUESTDBG_SINGLESTEP : Z := 0x2.
Definition KVM_GUESTDBG_USE_HW_BP : Z := 0x20000.

(** ** Data *)

Inductive qcschedpoint_footprint : Type :=
| footprint_preserved
| footprint_missed
| footprint_dropped
| footprint_hit
| footprint_not_addressed.

#[export] Instance footprint_eq_dec : EqDecision qcschedpoint_footprint.
Proof. solve_decision. Defined.

(** The value of the enumerator, as the guest reads it. *)
Definition footprint_code (f : qcschedpoint_footprint) : Z :=
  match f with
  | footprint_preserved => 0
  | footprint_missed => 1
  | footprint_dropped => 2
  | footprint_hit => 3
  | footprint_not_addressed => 4
  end.

Inductive qcsched_cpu_state : Type :=
| qcsched_cpu_idle
| qcsched_cpu_ready
| qcsched_cpu_activated
| qcsched_cpu_deactivated.

#[export] Instance cpu_state_eq_dec : EqDecision qcsched_cpu_state.
Proof. solve_decision. Defined.

Definition cpu_state_code (s : qcsched_cpu_state) : Z :=
  match s with
  | qcsched_cpu_idle => 0
  | qcsched_cpu_ready => 1
  | qcsched_cpu_activated => 2
  | qcsched_cpu_deactivated => 3
  end.

Record qcschedpoint := mk_schedpoint {
  addr : Z;
  order : Z;
  footprint : qcschedpoint_footprint;
}.

Record qcsched_breakpoint := mk_breakpoint {
  bp_schedpoint : option Z;
  installed : bool;
}.

Record qcsched_vmi_task := mk_task { task_struct : Z }.

Record qcsched_entry := mk_entry {
  schedpoint : qcschedpoint;
  breakpoint : qcsched_breakpoint;
  t : qcsched_vmi_task;
  e_cpu : Z;
}.

Record qcsched_breakpoint_record := mk_bp_record {
  rec_RIP : Z;
  rec_count : Z;
}.

Record qcsched_schedpoint_window := mk_window {
  w_total : Z;
  w_activated : Z;
  w_from : Z;
  w_until : Z;
  w_cpu : Z;
  w_left_behind : Z;
}.

Record qcsched := mk_qcsched {
  entries : list qcsched_entry;
  last_breakpoint : list qcsched_breakpoint_record;
  schedpoint_window : list qcsched_schedpoint_window;
  cpu_state : list qcsched_cpu_state;
  total : Z;
  current : Z;
  orig_nr_bps : Z;
  nr_cpus : Z;
  kssb_enabled : bool;
  activated : bool;
  used : bool;
}.

(** vmi.h *)
Record qcsched_vmi_lock := mk_lock {
  lockdep_addr : Z;
  ip : Z;
  trylock : Z;
  read : Z;
}.

#[export] Instance vmi_lock_eq_dec : EqDecision qcsched_vmi_lock.
Proof. solve_decision. Defined.

Record qcsched_vmi_lock_info := mk_lock_info {
  li_count : Z;
  acquired : list qcsched_vmi_lock;
}.

Record qcsched_lockdep_whitelist := mk_whitelist {
  wl_count : Z;
  whitelist : list Z;
}.

Record qcsched_vmi_info := mk_vmi_info {
  trampoline_addr : list Z;
  hook_addr : Z;
  per_cpu_offset : list Z;
  vmi_current_task : Z;
  ssb_do_emulate : Z;
  preempt_count : Z;
  lock_info : list qcsched_vmi_lock_info;
  lockdep_whitelist : qcsched_lockdep_whitelist;
}.

(** asm-x86/kvm.h *)
Record kvm_regs := mk_regs {
  rax : Z; rbx : Z; rcx : Z; rdx : Z;
  rsi : Z; rdi : Z; rsp : Z; rbp : Z;
  r8 : Z; r9 : Z; r10 : Z; r11 : Z;
  r12 : Z; r13 : Z; r14 : Z; r15 : Z;
  rip : Z; rflags : Z;
}.

(** The argument of [KVM_SET_GUEST_DEBUG].  QEMU leaves it on the stack
    uninitialised, so a debug register that was not written is [None]. *)
Record kvm_guest_debug := mk_guest_debug {
  control : Z;
  debugreg : list (option Z);
}.

(** exec_control.h, trampoline.h, blocker.h *)
Record qcsched_trampoline_info := mk_trampoline {
  tr_t : qcsched_vmi_task;
  orig_regs : kvm_regs;
  trampoled : bool;
}.

Record qcsched_blocker_info := mk_blocker {
  blocked : bool;
  waking_up : bool;
}.

(** A POSIX timer: not created, created and disarmed, or armed to expire once
    after that many seconds. *)
Inductive timer_state : Type :=
| timer_none
| timer_disarmed
| timer_armed (tv_sec : Z).

Record qcsched_exec_info := mk_exec_info {
  trampoline : qcsched_trampoline_info;
  blocker : qcsched_blocker_info;
  kicked : bool;
  timerid : timer_state;
}.

(** kvm-percpu.c *)
Record hw_bp := mk_hw_bp { bp_addr : Z; bp_len : Z; bp_type : Z }.

#[export] Instance hw_bp_eq_dec : EqDecision hw_bp.
Proof. solve_decision. Defined.

Record percpu_hw_breakpoint := mk_percpu_hw {
  bp : list hw_bp;
  nb : Z;
}.

(** The fields of [CPUState] that the modelled code touches. *)
Record CPUState := mk_cpu {
  regs : kvm_regs;
  qcsched_dirty : bool;
  qcsched_force_wakeup : bool;
  hcall_cookie : Z;
  breakpoint_cookie : Z;
  timer_cookie : Z;
  singlestep_enabled : bool;
  immediate_exit : bool;
  exit_request : bool;
  thread_kicked : bool;
  stop : bool;
  stopped : bool;
}.

(** The run states of qapi/run-state.json. *)
Inductive RunState : Type :=
| RUN_STATE_DEBUG | RUN_STATE_INMIGRATE | RUN_STATE_INTERNAL_ERROR
| RUN_STATE_IO_ERROR | RUN_STATE_PAUSED | RUN_STATE_POSTMIGRATE
| RUN_STATE_PRELAUNCH | RUN_STATE_FINISH_MIGRATE | RUN_STATE_RESTORE_VM
| RUN_STATE_RUNNING | RUN_STATE_SAVE_VM | RUN_STATE_SHUTDOWN
| RUN_STATE_SUSPENDED | RUN_STATE_WATCHDOG | RUN_STATE_GUEST_PANICKED
| RUN_STATE_COLO
| RUN_STATE__MAX.

#[export] Instance RunState_eq_dec : EqDecision RunState.
Proof. solve_decision. Defined.

(** ** The platform *)

(** The result of the [KVM_RUN] ioctl: [-errno], or the exit reason with the
    fields of [struct kvm_run] that QEMU reads. *)
Inductive kvm_exit : Type :=
| KVM_EXIT_HCALL (args : list Z)
| KVM_EXIT_DEBUG (exception dr6 dr7 pc : Z)
| KVM_EXIT_IO
| KVM_EXIT_MMIO
| KVM_EXIT_IRQ_WINDOW_OPEN
| KVM_EXIT_SHUTDOWN
| KVM_EXIT_UNKNOWN
| KVM_EXIT_SYSTEM_EVENT (type : Z)
| KVM_EXIT_INTERNAL_ERROR
| KVM_EXIT_HLT
| KVM_EXIT_SET_TPR
| KVM_EXIT_TPR_ACCESS
| KVM_EXIT_FAIL_ENTRY
| KVM_EXIT_EXCEPTION
| KVM_EXIT_HYPERV
| KVM_EXIT_IOAPIC_EOI
| KVM_EXIT_OTHER (reason : Z).

Inductive run_result : Type :=
| run_error (err : Z)
| run_exit (reason : kvm_exit).

Class Platform := {
  (** [CONFIG_QCSCHED_TRAMPOLINE]: suspend a task by a jump to the guest's
      trampoline, rather than by not entering the guest. *)
  config_trampoline : bool;
  (** [-action reboot=shutdown] *)
  reboot_action_shutdown : bool;
  (** Guest physical memory and the state KVM keeps for the VM. *)
  pmem : Type;
  kst : Type;
  (** [cpu_get_phys_page_attrs_debug]: the page walk of vCPU [cpu]. *)
  phys_page_debug : kst -> pmem -> Z -> Z -> option Z;
  (** [address_space_read] and [address_space_write_rom]. *)
  as_read : pmem -> Z -> Z -> option (list Z);
  as_write : pmem -> Z -> list Z -> option pmem;
  (** The ioctls of a vCPU: a result, 0 or -errno, and the new KVM state. *)
  ioctl_set_guest_debug : kst -> Z -> kvm_guest_debug -> Z * kst;
  ioctl_set_regs : kst -> Z -> kvm_regs -> Z * kst;
  ioctl_get_regs : kst -> Z -> (Z * kvm_regs) * kst;
  ioctl_run : kst -> pmem -> Z -> bool -> (run_result * kst) * pmem;
  (** [timer_create]: does the host kernel have a timer left? *)
  sys_timer_create : kst -> bool * kst;
  (** The parts of QEMU behind the vCPU loop that are not modelled: pending
      events of the CPU ([kvm_arch_process_async_events]), the device side of
      an exit with the value the loop continues with, the injection of a
      debug exception into the guest, and the block layer's flush. *)
  arch_process_async_events : kst -> Z -> bool * kst;
  cpus_are_resettable : kst -> bool;
  device_exit : kst -> pmem -> Z -> kvm_exit -> (Z * kst) * pmem;
  queue_exception : kst -> Z -> Z -> kst;
  bdrv_flush_all : kst -> Z * kst;
}.

Section Machine.
Context {P : Platform}.

(** All the globals.  A [CPUState *] is represented by the [cpu_index] of the
    CPU it points to; [cpu_list] is the order in which [CPU_FOREACH] visits
    the CPUs.  [current_cpu] and [iothread_locked] are thread-local in the
    source: they are those of the thread whose code is being run. *)
Record machine := mk_machine {
  sched : qcsched;
  vmi_info : qcsched_vmi_info;
  infos : list qcsched_exec_info;
  hw_breakpoint : list percpu_hw_breakpoint;
  cpu_list : list Z;
  cpus : gmap Z CPUState;
  warn_once_kidnapped : bool;
  current_cpu : Z;
  iothread_locked : bool;
  current_run_state : RunState;
  vmstop_requested : RunState;
  reset_requested : Z;
  shutdown_requested : Z;
  kvm_sw_breakpoints : list Z;
  mem : pmem;
  kvm : kst;
}.

Definition M (A : Type) : Type := prog machine A.
End Machine.

(** ** Eta-expansions, for record update *)

#[export] Instance eta_schedpoint : Eta qcschedpoint :=
  fun r => mk_schedpoint (addr r) (order r) (footprint r).
#[export] Instance eta_breakpoint : Eta qcsched_breakpoint :=
  fun r => mk_breakpoint (bp_schedpoint r) (installed r).
#[export] Instance eta_entry : Eta qcsched_entry :=
  fun r => mk_entry (schedpoint r) (breakpoint r) (t r) (e_cpu r).
#[export] Instance eta_bp_record : Eta qcsched_breakpoint_record :=
  fun r => mk_bp_record (rec_RIP r) (rec_count r).
#[export] Instance eta_window : Eta qcsched_schedpoint_window :=
  fun r => mk_window (w_total r) (w_activated r) (w_from r) (w_until r) (w_cpu r)
             (w_left_behind r).
#[export] Instance eta_qcsched : Eta qcsched :=
  fun r => mk_qcsched (entries r) (last_breakpoint r) (schedpoint_window r) (cpu_state r)
             (total r) (current r) (orig_nr_bps r) (nr_cpus r) (kssb_enabled r)
             (activated r) (used r).
#[export] Instance eta_lock_info : Eta qcsched_vmi_lock_info :=
  fun r => mk_lock_info (li_count r) (acquired r).
#[export] Instance eta_whitelist : Eta qcsched_lockdep_whitelist :=
  fun r => mk_whitelist (wl_count r) (whitelist r).
#[export] Instance eta_vmi_info : Eta qcsched_vmi_info :=
  fun r => mk_vmi_info (trampoline_addr r) (hook_addr r) (per_cpu_offset r)
             (vmi_current_task r) (ssb_do_emulate r) (preempt_count r) (lock_info r)
             (lockdep_whitelist r).
#[export] Instance eta_regs : Eta kvm_regs :=
  fun r => mk_regs (rax r) (rbx r) (rcx r) (rdx r) (rsi r) (rdi r) (rsp r) (rbp r)
             (r8 r) (r9 r) (r10 r) (r11 r) (r12 r) (r13 r) (r14 r) (r15 r) (rip r) (rflags r).
#[export] Instance eta_guest_debug : Eta kvm_guest_debug :=
  fun r => mk_guest_debug (control r) (debugreg r).
#[export] Instance eta_trampoline : Eta qcsched_trampoline_info :=
  fun r => mk_trampoline (tr_t r) (orig_regs r) (trampoled r).
#[export] Instance eta_blocker : Eta qcsched_blocker_info :=
  fun r => mk_blocker (blocked r) (waking_up r).
#[export] Instance eta_exec_info : Eta qcsched_exec_info :=
  fun r => mk_exec_info (trampoline r) (blocker r) (kicked r) (timerid r).
#[export] Instance eta_percpu_hw : Eta percpu_hw_breakpoint :=
  fun r => mk_percpu_hw (bp r) (nb r).
#[export] Instance eta_cpu : Eta CPUState :=
  fun r => mk_cpu (regs r) (qcsched_dirty r) (qcsched_force_wakeup r) (hcall_cookie r)
             (breakpoint_cookie r) (timer_cookie r) (singlestep_enabled r)
             (immediate_exit r) (exit_request r) (thread_kicked r) (stop r) (stopped r).
#[export] Instance eta_machine `{P : Platform} : Eta machine :=
  fun r => mk_machine (sched r) (vmi_info r) (infos r) (hw_breakpoint r) (cpu_list r)
             (cpus r) (warn_once_kidnapped r) (current_cpu r) (iothread_locked r)
             (current_run_state r) (vmstop_requested r) (reset_requested r)
             (shutdown_requested r) (kvm_sw_breakpoints r) (mem r) (kvm r).

(** ** Access to the globals

    Reading or writing an element of an array checks the index: outside the
    array the behaviour is undefined. *)
Section Access.
Context {P : Platform}.

Definition get_entry (i : Z) : M qcsched_entry :=
  w ← gets id; deref "sched.entries" (aget (entries (sched w)) i).

Definition upd_entry (i : Z) (f : qcsched_entry -> qcsched_entry) : M unit :=
  e ← get_entry i;
  modify (fun w => w <| sched ::= set entries (fun l => aset l i (f e)) |>).

Definition get_window (k : Z) : M qcsched_schedpoint_window :=
  w ← gets id; deref "sched.schedpoint_window" (aget (schedpoint_window (sched w)) k).

Definition upd_window (k : Z)
    (f : qcsched_schedpoint_window -> qcsched_schedpoint_window) : M unit :=
  x ← get_window k;
  modify (fun w => w <| sched ::= set schedpoint_window (fun l => aset l k (f x)) |>).

Definition get_cpu_state (k : Z) : M qcsched_cpu_state :=
  w ← gets id; deref "sched.cpu_state" (aget (cpu_state (sched w)) k).

Definition set_cpu_state (k : Z) (s : qcsched_cpu_state) : M unit :=
  _ ← get_cpu_state k;
  modify (fun w => w <| sched ::= set cpu_state (fun l => aset l k s) |>).

Definition get_record (k : Z) : M qcsched_breakpoint_record :=
  w ← gets id; deref "sched.last_breakpoint" (aget (last_breakpoint (sched w)) k).

Definition set_record (k : Z) (r : qcsched_breakpoint_record) : M unit :=
  _ ← get_record k;
  modify (fun w => w <| sched ::= set last_breakpoint (fun l => aset l k r) |>).

Definition get_exec (k : Z) : M qcsched_exec_info :=
  w ← gets id; deref "infos" (aget (infos w) k).

Definition upd_exec (k : Z) (f : qcsched_exec_info -> qcsched_exec_info) : M unit :=
  x ← get_exec k; modify (fun w => w <| infos ::= fun l => aset l k (f x) |>).

Definition get_hw (k : Z) : M percpu_hw_breakpoint :=
  w ← gets id; deref "hw_breakpoint" (aget (hw_breakpoint w) k).

Definition set_hw (k : Z) (h : percpu_hw_breakpoint) : M unit :=
  _ ← get_hw k; modify (fun w => w <| hw_breakpoint ::= fun l => aset l k h |>).

Definition get_lock_info (k : Z) : M qcsched_vmi_lock_info :=
  w ← gets id; deref "vmi_info.lock_info" (aget (lock_info (vmi_info w)) k).

Definition set_lock_info (k : Z) (li : qcsched_vmi_lock_info) : M unit :=
  _ ← get_lock_info k;
  modify (fun w => w <| vmi_info ::= set lock_info (fun l => aset l k li) |>).

Definition get_cpu (c : Z) : M CPUState :=
  w ← gets id; deref "CPUState" (cpus w !! c).

Definition upd_cpu (c : Z) (f : CPUState -> CPUState) : M unit :=
  x ← get_cpu c; modify (fun w => w <| cpus ::= fun m => <[c := f x]> m |>).

Definition upd_sched (f : qcsched -> qcsched) : M unit :=
  modify (fun w => w <| sched ::= f |>).

Definition upd_vmi (f : qcsched_vmi_info -> qcsched_vmi_info) : M unit :=
  modify (fun w => w <| vmi_info ::= f |>).

(** A field of [sched] or of [vmi_info]. *)
Definition sched_ {A} (f : qcsched -> A) : M A := gets (fun w => f (sched w)).
Definition vmi_ {A} (f : qcsched_vmi_info -> A) : M A := gets (fun w => f (vmi_info w)).

(** [for (i = start; cond(i); i++) body(i)].  The loops of the scheduler index
    [sched.entries], so [MAX_SCHEDPOINTS + 1] rounds are enough. *)
Definition for_loop (start : Z) (cond : Z -> M bool) (body : Z -> M unit) : M unit :=
  loop (S (Z.to_nat MAX_SCHEDPOINTS)) (fun i =>
    b ← cond i;
    if (b : bool) then body i ;; mret (inl (i + 1)) else mret (inr tt)) start.

(** [for (i = start; i < sched.total; i++) if (found(&sched.entries[i])) return i] *)
Definition find_entry (start : Z) (found : Z -> qcsched_entry -> bool) : M (option Z) :=
  loop (S (Z.to_nat MAX_SCHEDPOINTS)) (fun i =>
    n ← sched_ total;
    if i <? n then
      e ← get_entry i;
      if found i e then mret (inr (Some i)) else mret (inl (i + 1))
    else mret (inr None)) start.

(** [RIP(cpu)] *)
Definition RIP (cpu : Z) : M Z := c ← get_cpu cpu; mret (rip (regs c)).
End Access.

(** ** Rules for the accessors *)
Section AccessRules.
Context {P : Platform}.

Lemma wlp_get_entry i (Q : qcsched_entry -> machine -> Prop) w :
  (forall e, aget (entries (sched w)) i = Some e -> Q e w) -> wlp (get_entry i) Q w.
Proof. intros H. by apply wlp_bind, wlp_gets, wlp_deref. Qed.

Lemma wlp_upd_entry i f (Q : unit -> machine -> Prop) w :
  (forall e, aget (entries (sched w)) i = Some e ->
     Q tt (w <| sched ::= set entries (fun l => aset l i (f e)) |>)) ->
  wlp (upd_entry i f) Q w.
Proof. intros H. apply wlp_bind, wlp_get_entry. intros. by apply wlp_modify, H. Qed.

Lemma wlp_get_window k (Q : qcsched_schedpoint_window -> machine -> Prop) w :
  (forall x, aget (schedpoint_window (sched w)) k = Some x -> Q x w) -> wlp (get_window k) Q w.
Proof. intros H. by apply wlp_bind, wlp_gets, wlp_deref. Qed.

Lemma wlp_upd_window k f (Q : unit -> machine -> Prop) w :
  (forall x, aget (schedpoint_window (sched w)) k = Some x ->
     Q tt (w <| sched ::= set schedpoint_window (fun l => aset l k (f x)) |>)) ->
  wlp (upd_window k f) Q w.
Proof. intros H. apply wlp_bind, wlp_get_window. intros. by apply wlp_modify, H. Qed.

Lemma wlp_get_cpu_state k (Q : qcsched_cpu_state -> machine -> Prop) w :
  (forall x, aget (cpu_state (sched w)) k = Some x -> Q x w) -> wlp (get_cpu_state k) Q w.
Proof. intros H. by apply wlp_bind, wlp_gets, wlp_deref. Qed.

Lemma wlp_set_cpu_state k s (Q : unit -> machine -> Prop) w :
  (forall x, aget (cpu_state (sched w)) k = Some x ->
     Q tt (w <| sched ::= set cpu_state (fun l => aset l k s) |>)) ->
  wlp (set_cpu_state k s) Q w.
Proof. intros H. apply wlp_bind, wlp_get_cpu_state. intros. by apply wlp_modify, H with x. Qed.

Lemma wlp_get_record k (Q : qcsched_breakpoint_record -> machine -> Prop) w :
  (forall x, aget (last_breakpoint (sched w)) k = Some x -> Q x w) -> wlp (get_record k) Q w.
Proof. intros H. by apply wlp_bind, wlp_gets, wlp_deref. Qed.

Lemma wlp_set_record k r (Q : unit -> machine -> Prop) w :
  (forall x, aget (last_breakpoint (sched w)) k = Some x ->
     Q tt (w <| sched ::= set last_breakpoint (fun l => aset l k r) |>)) ->
  wlp (set_record k r) Q w.
Proof. intros H. apply wlp_bind, wlp_get_record. intros. by apply wlp_modify, H with x. Qed.

Lemma wlp_get_exec k (Q : qcsched_exec_info -> machine -> Prop) w :
  (forall x, aget (infos w) k = Some x -> Q x w) -> wlp (get_exec k) Q w.
Proof. intros H. by apply wlp_bind, wlp_gets, wlp_deref. Qed.

Lemma wlp_upd_exec k f (Q : unit -> machine -> Prop) w :
  (forall x, aget (infos w) k = Some x ->
     Q tt (w <| infos ::= fun l => aset l k (f x) |>)) ->
  wlp (upd_exec k f) Q w.
Proof. intros H. apply wlp_bind, wlp_get_exec. intros. by apply wlp_modify, H. Qed.

Lemma wlp_get_lock_info k (Q : qcsched_vmi_lock_info -> machine -> Prop) w :
  (forall x, aget (lock_info (vmi_info w)) k = Some x -> Q x w) -> wlp (get_lock_info k) Q w.
Proof. intros H. by apply wlp_bind, wlp_gets, wlp_deref. Qed.

Lemma wlp_set_lock_info k li (Q : unit -> machine -> Prop) w :
  (forall x, aget (lock_info (vmi_info w)) k = Some x ->
     Q tt (w <| vmi_info ::= set lock_info (fun l => aset l k li) |>)) ->
  wlp (set_lock_info k li) Q w.
Proof. intros H. apply wlp_bind, wlp_get_lock_info. intros. by apply wlp_modify, H with x. Qed.

Lemma wlp_get_cpu c (Q : CPUState -> machine -> Prop) w :
  (forall x, cpus w !! c = Some x -> Q x w) -> wlp (get_cpu c) Q w.
Proof. intros H. by apply wlp_bind, wlp_gets, wlp_deref. Qed.

Lemma wlp_upd_cpu c f (Q : unit -> machine -> Prop) w :
  (forall x, cpus w !! c = Some x -> Q tt (w <| cpus ::= fun m => <[c := f x]> m |>)) ->
  wlp (upd_cpu c f) Q w.
Proof. intros H. apply wlp_bind, wlp_get_cpu. intros. by apply wlp_modify, H. Qed.

Lemma wlp_upd_sched f (Q : unit -> machine -> Prop) w :
  Q tt (w <| sched ::= f |>) -> wlp (upd_sched f) Q w.
Proof. done. Qed.

Lemma wlp_upd_vmi f (Q : unit -> machine -> Prop) w :
  Q tt (w <| vmi_info ::= f |>) -> wlp (upd_vmi f) Q w.
Proof. done. Qed.

Lemma wlp_sched_ {A} (f : qcsched -> A) (Q : A -> machine -> Prop) w :
  Q (f (sched w)) w -> wlp (sched_ f) Q w.
Proof. done. Qed.

Lemma wlp_vmi_ {A} (f : qcsched_vmi_info -> A) (Q : A -> machine -> Prop) w :
  Q (f (vmi_info w)) w -> wlp (vmi_ f) Q w.
Proof. done. Qed.

Lemma wlp_RIP c (Q : Z -> machine -> Prop) w :
  (forall x, cpus w !! c = Some x -> Q (rip (regs x)) w) -> wlp (RIP c) Q w.
Proof. intros H. apply wlp_bind, wlp_get_cpu. intros. by apply wlp_ret, H. Qed.

(** A search for an entry changes nothing. *)
Lemma wlp_find_entry start found (Q : option Z -> machine -> Prop) w :
  (forall r, Q r w) -> wlp (find_entry start found) Q w.
Proof.
  intros H. apply (wlp_loop (fun _ w' => w' = w)); [done|]. intros i w' ->.
  apply wlp_bind, wlp_sched_. destruct (_ <? _); [|by apply wlp_ret].
  apply wlp_bind, wlp_get_entry. intros e _. by destruct (found i e); apply wlp_ret.
Qed.

(** What it finds satisfies the test. *)
Lemma wlp_find_entry_found start found (Q : option Z -> machine -> Prop) w :
  (forall r, match r with
             | Some i => exists e, aget (entries (sched w)) i = Some e /\ found i e = true
             | None => True
             end -> Q r w) ->
  wlp (find_entry start found) Q w.
Proof.
  intros H. apply (wlp_loop (fun _ w' => w' = w)); [done|]. intros i w' ->.
  apply wlp_bind, wlp_sched_. destruct (_ <? _); [|by apply wlp_ret, H].
  apply wlp_bind, wlp_get_entry. intros e He. destruct (found i e) eqn:Hf; apply wlp_ret; [|done].
  apply H. eauto.
Qed.

Lemma wlp_for_loop (J : Z -> machine -> Prop) start cond body (Q : unit -> machine -> Prop) w :
  J start w ->
  (forall i w, J i w -> wlp (cond i) (fun b w' =>
     if (b : bool) then wlp (body i) (fun _ => J (i + 1)) w' else Q tt w') w) ->
  wlp (for_loop start cond body) Q w.
Proof.
  intros HJ Hs. apply (wlp_loop J); [done|]. intros i w' Hi. apply wlp_bind.
  eapply wlp_mono; [by apply Hs|]. intros [] w'' H; [|by apply wlp_ret].
  apply wlp_bind. eapply wlp_mono; [exact H|]. intros [] w3 H3. by apply wlp_ret.
Qed.
End AccessRules.

Ltac wlp_access :=
  match goal with
  | |- wlp (get_entry _) _ _ => apply wlp_get_entry; intros
  | |- wlp (upd_entry _ _) _ _ => apply wlp_upd_entry; intros
  | |- wlp (get_window _) _ _ => apply wlp_get_window; intros
  | |- wlp (upd_window _ _) _ _ => apply wlp_upd_window; intros
  | |- wlp (get_cpu_state _) _ _ => apply wlp_get_cpu_state; intros
  | |- wlp (set_cpu_state _ _) _ _ => apply wlp_set_cpu_state; intros
  | |- wlp (get_record _) _ _ => apply wlp_get_record; intros
  | |- wlp (set_record _ _) _ _ => apply wlp_set_record; intros
  | |- wlp (get_exec _) _ _ => apply wlp_get_exec; intros
  | |- wlp (upd_exec _ _) _ _ => apply wlp_upd_exec; intros
  | |- wlp (get_cpu _) _ _ => apply wlp_get_cpu; intros
  | |- wlp (upd_cpu _ _) _ _ => apply wlp_upd_cpu; intros
  | |- wlp (upd_sched _) _ _ => apply wlp_upd_sched
  | |- wlp (upd_vmi _) _ _ => apply wlp_upd_vmi
  | |- wlp (sched_ _) _ _ => apply wlp_sched_
  | |- wlp (vmi_ _) _ _ => apply wlp_vmi_
  | |- wlp (RIP _) _ _ => apply wlp_RIP; intros
  | |- wlp (find_entry _ _) _ _ => apply wlp_find_entry; intros
  end.

(** Run through a program, case by case. *)
Ltac wlp_auto := repeat first [wlp_step | wlp_access].

(** ** The state at start-up

    Globals of C are zero-initialised. *)

Definition zero_schedpoint : qcschedpoint := mk_schedpoint 0 0 footprint_preserved.
Definition zero_entry : qcsched_entry :=
  mk_entry zero_schedpoint (mk_breakpoint None false) (mk_task 0) 0.
Definition zero_window : qcsched_schedpoint_window := mk_window 0 0 0 0 0 0.
Definition zero_record : qcsched_breakpoint_record := mk_bp_record 0 0.
Definition zero_sched : qcsched :=
  mk_qcsched (replicate (Z.to_nat MAX_SCHEDPOINTS) zero_entry)
    (replicate (Z.to_nat MAX_CPUS) zero_record)
    (replicate (Z.to_nat MAX_CPUS) zero_window)
    (replicate (Z.to_nat MAX_CPUS) qcsched_cpu_idle)
    0 0 0 0 false false false.
Definition zero_lock : qcsched_vmi_lock := mk_lock 0 0 0 0.
Definition zero_lock_info : qcsched_vmi_lock_info :=
  mk_lock_info 0 (replicate (Z.to_nat MAX_LOCKS) zero_lock).
Definition zero_vmi_info : qcsched_vmi_info :=
  mk_vmi_info (replicate 2 0) 0 (replicate 64 0) 0 0 0
    (replicate (Z.to_nat MAX_CPUS) zero_lock_info)
    (mk_whitelist 0 (replicate (Z.to_nat MAX_WHITELIST_ITEM) 0)).
Definition zero_regs : kvm_regs := mk_regs 0 0 0 0 0 0 0 0 0 0 0 0 0 0 0 0 0 0.
Definition zero_trampoline : qcsched_trampoline_info :=
  mk_trampoline (mk_task 0) zero_regs false.
Definition zero_exec_info : qcsched_exec_info :=
  mk_exec_info zero_trampoline (mk_blocker false false) false timer_none.
Definition zero_percpu_hw : percpu_hw_breakpoint :=
  mk_percpu_hw (replicate 4 (mk_hw_bp 0 0 0)) 0.
Definition zero_cpu : CPUState :=
  mk_cpu zero_regs false false 0 0 0 false false false false false false.

(** The process before the first vCPU thread runs, with [n] vCPUs. *)
Definition init_machine `{P : Platform} (n : nat) (m : pmem) (k : kst) : machine :=
  mk_machine zero_sched zero_vmi_info
    (replicate (Z.to_nat MAX_NR_CPUS) zero_exec_info)
    (replicate (Z.to_nat MAX_NR_CPUS) zero_percpu_hw)
    (Z.of_nat <$> seq 0 n)
    (list_to_map ((fun i => (Z.of_nat i, zero_cpu)) <$> seq 0 n))
    false 0 false RUN_STATE_RUNNING RUN_STATE__MAX 0 0 [] m k.
