(* ===== verification/Invariant.v ===== *)
(** * Well-formed machines and safe programs

    [wf]: the arrays have their declared lengths and every index stored in the
    state stays inside the array it is used with.  [safe m R]: from a
    well-formed machine, on the thread of a vCPU that holds the big lock, [m]
    has no undefined behaviour, terminates, fails no assertion about locks and
    threads, leaves a well-formed machine and returns a value that satisfies
    [R].  The rules below make [safe] compositional. *)

From stdpp Require Import base list gmap strings.
From Stdlib Require Import ZArith Lia.
From S2P Require Import Prelude Machine.

Local Open Scope Z_scope.
Local Open Scope record_scope.

(** ** The invariant *)

Definition hw_ok (h : percpu_hw_breakpoint) : Prop :=
  alen (bp h) = 4 /\ 0 <= nb h <= 4 /\
  forall i b, aget (bp h) i = Some b -> i < nb h ->
    bp_type b = GDB_BREAKPOINT_HW /\ bp_len b = 1.

(** An entry that belongs to a worker CPU sits at the index of its order. *)
Definition entry_ok (i : Z) (e : qcsched_entry) : Prop :=
  0 <= e_cpu e < MAX_CPUS /\ 0 <= order (schedpoint e) <= i /\
  (e_cpu e <> 0 -> order (schedpoint e) = i).

Definition window_ok (x : qcsched_schedpoint_window) : Prop :=
  0 <= w_from x /\ 0 <= w_until x /\ 0 <= w_left_behind x.

Record sched_ok (s : qcsched) : Prop := {
  len_entries : alen (entries s) = MAX_SCHEDPOINTS;
  len_last_breakpoint : alen (last_breakpoint s) = MAX_CPUS;
  len_schedpoint_window : alen (schedpoint_window s) = MAX_CPUS;
  len_cpu_state : alen (cpu_state s) = MAX_CPUS;
  total_range : 0 <= total s < MAX_SCHEDPOINTS;
  current_range : 0 <= current s < MAX_SCHEDPOINTS;
  entries_ok : aforall entry_ok (entries s);
  windows_ok : aforall (fun _ => window_ok) (schedpoint_window s);
}.

Definition lock_info_ok (li : qcsched_vmi_lock_info) : Prop :=
  alen (acquired li) = MAX_LOCKS /\ 0 <= li_count li <= MAX_LOCKS.

Record vmi_ok (v : qcsched_vmi_info) : Prop := {
  len_trampoline_addr : alen (trampoline_addr v) = 2;
  len_per_cpu_offset : alen (per_cpu_offset v) = 64;
  len_lock_info : alen (lock_info v) = MAX_CPUS;
  lock_infos_ok : aforall (fun _ => lock_info_ok) (lock_info v);
  len_whitelist : alen (whitelist (lockdep_whitelist v)) = MAX_WHITELIST_ITEM;
  whitelist_range : 0 <= wl_count (lockdep_whitelist v) <= MAX_WHITELIST_ITEM;
}.

(** [r] is the first index from [start] whose entry satisfies [found]. *)
Definition first_from (s : qcsched) (start : Z) (found : Z -> qcsched_entry -> bool)
    (r : option Z) : Prop :=
  (forall j e, start <= j < from_option id (total s) r ->
     aget (entries s) j = Some e -> found j e = false) /\
  match r with
  | Some i => start <= i < total s /\ exists e, aget (entries s) i = Some e /\ found i e = true
  | None => True
  end.

Section wf.
Context {P : Platform}.

(** [L] lists the vCPUs. *)
Record wf (L : list Z) (w : machine) : Prop := {
  wf_sched : sched_ok (sched w);
  wf_vmi : vmi_ok (vmi_info w);
  wf_infos : alen (infos w) = MAX_NR_CPUS;
  wf_hw_len : alen (hw_breakpoint w) = MAX_NR_CPUS;
  wf_hw : aforall (fun _ => hw_ok) (hw_breakpoint w);
  wf_cpu_list : cpu_list w = L;
  wf_cpus : forall c, c ∈ L -> is_Some (cpus w !! c);
}.

(** The code runs on the thread of vCPU [cpu], which holds the big lock. *)
Record inside (L : list Z) (cpu : Z) (w : machine) : Prop := {
  in_wf :> wf L w;
  in_self : current_cpu w = cpu;
  in_locked : iothread_locked w = true;
}.

(** The same thread without the lock. *)
Record outside (L : list Z) (cpu : Z) (w : machine) : Prop := {
  out_wf :> wf L w;
  out_self : current_cpu w = cpu;
  out_unlocked : iothread_locked w = false;
}.
End wf.

(** The assertions that check who holds the big lock and on which thread the
    code runs. *)
Definition discipline_assertions : list string := [
  "assertion failed: (qemu_mutex_iothread_locked())";
  "assertion failed: (!qemu_mutex_iothread_locked())";
  "assertion failed: (qemu_cpu_is_self(cpu))";
  "iothread mutex is not locked";
  "cpu != current_cpu";
  "something wrong: cpu != current_cpu" ]%string.

(** Ways to end the process other than by those. *)
Definition disciplined (msg : string) : Prop := msg ∉ discipline_assertions.

#[export] Instance disciplined_dec msg : Decision (disciplined msg).
Proof. unfold disciplined. apply _. Defined.

(** The vCPUs of a VM small enough for the scheduler's arrays. *)
Class Small (L : list Z) := small : Forall (fun c => 0 <= c < MAX_CPUS) L.

Section safe.
Context {P : Platform} (L : list Z) (cpu : Z).

Definition safe {A} (m : M A) (R : A -> Prop) : Prop :=
  forall w, inside L cpu w -> wp disciplined m (fun a w' => inside L cpu w' /\ R a) w.

Lemma safe_mono {A} (m : M A) (R R' : A -> Prop) :
  safe m R -> (forall a, R a -> R' a) -> safe m R'.
Proof. intros Hm HR w Hw. eapply wp_mono; [by apply Hm|]. naive_solver. Qed.

Lemma safe_ret {A} (a : A) (R : A -> Prop) : R a -> safe (mret a) R.
Proof. intros Ha w Hw. by apply wp_ret. Qed.

Lemma safe_bind {A B} (m : M A) (f : A -> M B) (R : A -> Prop) (R' : B -> Prop) :
  safe m R -> (forall a, R a -> safe (f a) R') -> safe (m ≫= f) R'.
Proof.
  intros Hm Hf w Hw. apply wp_bind. eapply wp_mono; [by apply Hm|].
  intros a w' [Hw' Ha]. by apply Hf.
Qed.

Lemma safe_gets {A} (f : machine -> A) (R : A -> Prop) :
  (forall w, inside L cpu w -> R (f w)) -> safe (gets f) R.
Proof. intros Hf w Hw. apply wp_gets. auto. Qed.

Lemma safe_modify (f : machine -> machine) :
  (forall w, inside L cpu w -> inside L cpu (f w)) -> safe (modify f) (fun _ => True).
Proof. intros Hf w Hw. apply wp_modify. auto. Qed.

Lemma safe_deref {A} what (o : option A) (R : A -> Prop) :
  (exists a, o = Some a /\ R a) -> safe (deref what o) R.
Proof. intros (a & -> & Ha). by apply safe_ret. Qed.

Lemma safe_ASSERT cond msg :
  disciplined msg -> safe (ASSERT cond msg) (fun _ => cond = true).
Proof. intros Hm w Hw. by apply wp_ASSERT. Qed.

Lemma safe_ASSERT_true cond msg : cond = true -> safe (ASSERT cond msg) (fun _ => True).
Proof. intros -> w Hw. by apply wp_ret. Qed.

Lemma safe_exit {A} msg (R : A -> Prop) : disciplined msg -> safe (exit_ msg) R.
Proof. intros Hm w Hw. done. Qed.

Lemma safe_loop {S T} (J : S -> Prop) (meas : S -> nat) (step : S -> M (S + T))
    (R : T -> Prop) fuel s :
  J s -> (meas s < fuel)%nat ->
  (forall s, J s -> safe (step s) (fun r =>
     match r with inl s' => J s' /\ (meas s' < meas s)%nat | inr x => R x end)) ->
  safe (loop fuel step s) R.
Proof.
  intros HJ Hf Hs w Hw.
  apply (wp_loop _ (fun s w => inside L cpu w /\ J s) (fun s _ => meas s)); [done..|].
  intros s' w' [Hw' HJ']. eapply wp_mono; [by apply Hs|]. intros [?|?] ?; naive_solver.
Qed.

Lemma safe_foreach {A} (l : list A) body :
  (forall x, x ∈ l -> safe (body x) (fun _ => True)) ->
  safe (foreach l body) (fun _ => True).
Proof.
  intros Hb w Hw. apply (wp_foreach _ (inside L cpu)); [done| |done].
  intros x w' Hx Hw'. eapply wp_mono; [by apply Hb|]. naive_solver.
Qed.

(** ** Access to the globals *)

Lemma safe_sched_ {A} (f : qcsched -> A) (R : A -> Prop) :
  (forall s, sched_ok s -> R (f s)) -> safe (sched_ f) R.
Proof. intros H. apply safe_gets. intros w Hw. apply H, Hw. Qed.

Lemma safe_vmi_ {A} (f : qcsched_vmi_info -> A) (R : A -> Prop) :
  (forall v, vmi_ok v -> R (f v)) -> safe (vmi_ f) R.
Proof. intros H. apply safe_gets. intros w Hw. apply H, Hw. Qed.

(** Reading an element of a global array. *)
Lemma safe_read {A} what (f : machine -> list A) i (n : Z) (R : Z -> A -> Prop) :
  0 <= i < n ->
  (forall w, inside L cpu w -> alen (f w) = n /\ aforall R (f w)) ->
  safe (w ← gets id; deref what (aget (f w) i)) (R i).
Proof.
  intros Hi Hf w Hw. apply wp_bind, wp_gets, wp_deref.
  destruct (Hf w Hw) as [Hl HR].
  destruct (proj2 (aget_is_Some (f w) i)) as [a Ha]; [unfold id; lia|].
  exists a. split; [done|]. split; [done|]. by apply HR.
Qed.

Lemma inside_upd_sched f w :
  inside L cpu w -> (sched_ok (sched w) -> sched_ok (f (sched w))) ->
  inside L cpu (w <| sched ::= f |>).
Proof. intros [[] ? ?] Hf. split; [split|..]; simpl; auto. Qed.

Lemma inside_upd_vmi f w :
  inside L cpu w -> (vmi_ok (vmi_info w) -> vmi_ok (f (vmi_info w))) ->
  inside L cpu (w <| vmi_info ::= f |>).
Proof. intros [[] ? ?] Hf. split; [split|..]; simpl; auto. Qed.

Lemma safe_upd_sched f :
  (forall s, sched_ok s -> sched_ok (f s)) -> safe (upd_sched f) (fun _ => True).
Proof. intros Hf. apply safe_modify. intros w Hw. apply inside_upd_sched; auto. Qed.

Lemma safe_upd_vmi f :
  (forall v, vmi_ok v -> vmi_ok (f v)) -> safe (upd_vmi f) (fun _ => True).
Proof. intros Hf. apply safe_modify. intros w Hw. apply inside_upd_vmi; auto. Qed.

Lemma safe_get_entry i : 0 <= i < MAX_SCHEDPOINTS -> safe (get_entry i) (entry_ok i).
Proof.
  intros Hi. apply (safe_read _ (fun w => entries (sched w)) i MAX_SCHEDPOINTS entry_ok); [done|].
  intros w [[[] ? ? ? ? ? ?] ? ?]; auto.
Qed.

Lemma safe_upd_entry i f :
  0 <= i < MAX_SCHEDPOINTS -> (forall e, entry_ok i e -> entry_ok i (f e)) ->
  safe (upd_entry i f) (fun _ => True).
Proof.
  intros Hi Hf. eapply safe_bind; [by apply safe_get_entry|]. intros e He.
  apply safe_modify. intros w Hw. apply inside_upd_sched; [done|].
  intros []; split; simpl; rewrite ?alen_aset; auto. apply aforall_aset; auto.
Qed.

Lemma safe_get_window k : 0 <= k < MAX_CPUS -> safe (get_window k) window_ok.
Proof.
  intros Hi. apply (safe_read _ (fun w => schedpoint_window (sched w)) k MAX_CPUS
                      (fun _ => window_ok)); [done|].
  intros w [[[] ? ? ? ? ? ?] ? ?]; auto.
Qed.

Lemma safe_upd_window k f :
  0 <= k < MAX_CPUS -> (forall x, window_ok x -> window_ok (f x)) ->
  safe (upd_window k f) (fun _ => True).
Proof.
  intros Hk Hf. eapply safe_bind; [by apply safe_get_window|]. intros x Hx.
  apply safe_modify. intros w Hw. apply inside_upd_sched; [done|].
  intros []; split; simpl; rewrite ?alen_aset; auto. apply aforall_aset; auto.
Qed.

Lemma safe_get_cpu_state k : 0 <= k < MAX_CPUS -> safe (get_cpu_state k) (fun _ => True).
Proof.
  intros Hi. apply (safe_read _ (fun w => cpu_state (sched w)) k MAX_CPUS (fun _ _ => True)); [done|].
  intros w [[[] ? ? ? ? ? ?] ? ?]; by split.
Qed.

Lemma safe_set_cpu_state k s : 0 <= k < MAX_CPUS -> safe (set_cpu_state k s) (fun _ => True).
Proof.
  intros Hk. eapply safe_bind; [by apply safe_get_cpu_state|]. intros _ _.
  apply safe_modify. intros w Hw. apply inside_upd_sched; [done|].
  intros []; split; simpl; rewrite ?alen_aset; auto.
Qed.

Lemma safe_get_record k : 0 <= k < MAX_CPUS -> safe (get_record k) (fun _ => True).
Proof.
  intros Hi. apply (safe_read _ (fun w => last_breakpoint (sched w)) k MAX_CPUS
                      (fun _ _ => True)); [done|].
  intros w [[[] ? ? ? ? ? ?] ? ?]; by split.
Qed.

Lemma safe_set_record k r : 0 <= k < MAX_CPUS -> safe (set_record k r) (fun _ => True).
Proof.
  intros Hk. eapply safe_bind; [by apply safe_get_record|]. intros _ _.
  apply safe_modify. intros w Hw. apply inside_upd_sched; [done|].
  intros []; split; simpl; rewrite ?alen_aset; auto.
Qed.

Lemma safe_get_exec k : 0 <= k < MAX_CPUS -> safe (get_exec k) (fun _ => True).
Proof.
  intros Hi. apply (safe_read _ infos k MAX_NR_CPUS (fun _ _ => True));
    [unfold MAX_NR_CPUS, MAX_CPUS in *; lia|].
  intros w [[] ? ?]; by split.
Qed.

Lemma safe_upd_exec k f : 0 <= k < MAX_CPUS -> safe (upd_exec k f) (fun _ => True).
Proof.
  intros Hk. eapply safe_bind; [by apply safe_get_exec|]. intros x _.
  apply safe_modify. intros w [[] ? ?]. split; [split|..]; simpl; rewrite ?alen_aset; auto.
Qed.

Lemma safe_get_hw k : 0 <= k < MAX_CPUS -> safe (get_hw k) hw_ok.
Proof.
  intros Hi. apply (safe_read _ hw_breakpoint k MAX_NR_CPUS (fun _ => hw_ok));
    [unfold MAX_NR_CPUS, MAX_CPUS in *; lia|].
  intros w [[] ? ?]; by split.
Qed.

Lemma safe_set_hw k h : 0 <= k < MAX_CPUS -> hw_ok h -> safe (set_hw k h) (fun _ => True).
Proof.
  intros Hk Hh. eapply safe_bind; [by apply safe_get_hw|]. intros x _.
  apply safe_modify. intros w [[] ? ?]. split; [split|..]; simpl; rewrite ?alen_aset; auto.
  by apply aforall_aset.
Qed.

Lemma safe_get_lock_info k : 0 <= k < MAX_CPUS -> safe (get_lock_info k) lock_info_ok.
Proof.
  intros Hi. apply (safe_read _ (fun w => lock_info (vmi_info w)) k MAX_CPUS
                      (fun _ => lock_info_ok)); [done|].
  intros w [[? [] ? ? ? ? ?] ? ?]; by split.
Qed.

Lemma safe_set_lock_info k li :
  0 <= k < MAX_CPUS -> lock_info_ok li -> safe (set_lock_info k li) (fun _ => True).
Proof.
  intros Hk Hli. eapply safe_bind; [by apply safe_get_lock_info|]. intros x _.
  apply safe_modify. intros w Hw. apply inside_upd_vmi; [done|].
  intros []; split; simpl; rewrite ?alen_aset; auto. by apply aforall_aset.
Qed.

Lemma safe_get_cpu c : c ∈ L -> safe (get_cpu c) (fun _ => True).
Proof.
  intros Hc w Hw. apply wp_bind, wp_gets, wp_deref.
  destruct (wf_cpus _ _ (in_wf _ _ _ Hw) c Hc) as [x Hx]. eauto.
Qed.

Lemma safe_upd_cpu c f : c ∈ L -> safe (upd_cpu c f) (fun _ => True).
Proof.
  intros Hc. eapply safe_bind; [by apply safe_get_cpu|]. intros x _.
  apply safe_modify. intros w [[] ? ?]. split; [split|..]; simpl; auto.
  intros d Hd. destruct (decide (c = d)) as [<-|].
  - rewrite lookup_insert_eq. eauto.
  - rewrite lookup_insert_ne by done. auto.
Qed.

Lemma safe_RIP c : c ∈ L -> safe (RIP c) (fun _ => True).
Proof. intros. eapply safe_bind; [by apply safe_get_cpu|]. intros. by apply safe_ret. Qed.

(** ** Loops over the schedule *)

Lemma safe_for_loop start cond body :
  0 <= start ->
  (forall i, start <= i -> safe (cond i) (fun b => b = true -> i < MAX_SCHEDPOINTS)) ->
  (forall i, start <= i < MAX_SCHEDPOINTS -> safe (body i) (fun _ => True)) ->
  safe (for_loop start cond body) (fun _ => True).
Proof.
  intros Hs Hc Hb.
  apply (safe_loop (fun i => start <= i) (fun i => Z.to_nat (MAX_SCHEDPOINTS - i)));
    [lia..|].
  intros i Hi. eapply safe_bind; [by apply Hc|]. intros b Hbi.
  destruct b; [|by apply safe_ret]. specialize (Hbi eq_refl).
  eapply safe_bind; [by apply Hb|]. intros _ _. apply safe_ret. lia.
Qed.

Lemma safe_find_entry start found :
  0 <= start ->
  safe (find_entry start found)
    (fun r => match r with Some i => start <= i < MAX_SCHEDPOINTS | None => True end).
Proof.
  intros Hs.
  apply (safe_loop (fun i => start <= i) (fun i => Z.to_nat (MAX_SCHEDPOINTS - i)));
    [lia..|].
  intros i Hi. eapply safe_bind.
  { apply (safe_sched_ total (fun n => n < MAX_SCHEDPOINTS)). intros s []. lia. }
  intros n Hn; cbv beta in Hn. destruct (Z.ltb_spec i n); [|by apply safe_ret].
  eapply safe_bind; [apply safe_get_entry; lia|]. intros e He.
  destruct (found i e); apply safe_ret; lia.
Qed.
End safe.

(** ** Searching the schedule *)
Section find.
Context {P : Platform}.

Lemma sched_ok_entry s i :
  sched_ok s -> 0 <= i < MAX_SCHEDPOINTS ->
  exists e, aget (entries s) i = Some e /\ entry_ok i e.
Proof.
  intros [] Hi. destruct (proj2 (aget_is_Some (entries s) i)) as [e He]; [lia|]. eauto.
Qed.

Lemma sched_ok_window s k :
  sched_ok s -> 0 <= k < MAX_CPUS ->
  exists x, aget (schedpoint_window s) k = Some x /\ window_ok x.
Proof.
  intros [] Hk. destruct (proj2 (aget_is_Some (schedpoint_window s) k)) as [x Hx]; [lia|]. eauto.
Qed.

Lemma get_entry_ret i e (w : machine) :
  aget (entries (sched w)) i = Some e -> get_entry i w = Ret e w.
Proof. intros H. unfold get_entry, mbind, prog_bind, gets, deref, id. simpl. by rewrite H. Qed.

Lemma get_window_ret k x (w : machine) :
  aget (schedpoint_window (sched w)) k = Some x -> get_window k w = Ret x w.
Proof. intros H. unfold get_window, mbind, prog_bind, gets, deref, id. simpl. by rewrite H. Qed.

(** The search changes nothing and returns the first match. *)
Lemma find_entry_spec start found (w : machine) :
  sched_ok (sched w) -> 0 <= start ->
  exists r, find_entry start found w = Ret r w /\ first_from (sched w) start found r.
Proof.
  intros Hw Hs.
  destruct (wp_outcome_total (find_entry start found)
    (fun r w' => w' = w /\ first_from (sched w) start found r) w) as (r & w' & -> & -> & ?); [|eauto].
  apply (wp_loop _ (fun i w' => w' = w /\ start <= i /\
      forall j e, start <= j < i -> aget (entries (sched w)) j = Some e -> found j e = false)
    (fun i _ => Z.to_nat (MAX_SCHEDPOINTS - i))); [| |].
  - split; [done|]. split; [done|]. intros; lia.
  - unfold MAX_SCHEDPOINTS in *. lia.
  - intros i ? (-> & Hi & Hnot). apply wp_bind, wp_gets.
    pose proof (total_range _ Hw). destruct (Z.ltb_spec i (total (sched w))) as [Hlt|Hge].
    + destruct (sched_ok_entry (sched w) i) as (e & He & _); [done|lia|].
      apply wp_bind. unfold wp at 1. rewrite (get_entry_ret i e) by done.
      destruct (found i e) eqn:Hf; apply wp_ret.
      * split; [done|]. split; [done|]. split; [lia|]. eauto.
      * split; [|lia]. split; [done|]. split; [lia|].
        intros j e' Hj He'. destruct (decide (j = i)) as [->|]; [congruence|].
        apply (Hnot j); [lia|done].
    + apply wp_ret. split; [done|]. split; [|done]. simpl. intros j e Hj. apply Hnot. lia.
Qed.
End find.

(** ** Common reads, and automation *)
Section reads.
Context {P : Platform} (L : list Z) (cpu : Z).

Lemma safe_total : safe L cpu (sched_ total) (fun n => 0 <= n < MAX_SCHEDPOINTS).
Proof. apply safe_sched_. by intros s []. Qed.

Lemma safe_current : safe L cpu (sched_ current) (fun n => 0 <= n < MAX_SCHEDPOINTS).
Proof. apply safe_sched_. by intros s []. Qed.

Lemma safe_sched_id : safe L cpu (sched_ id) sched_ok.
Proof. by apply safe_sched_. Qed.

Lemma safe_sched_any {A} (f : qcsched -> A) : safe L cpu (sched_ f) (fun _ => True).
Proof. by apply safe_sched_. Qed.

Lemma safe_vmi_id : safe L cpu (vmi_ id) vmi_ok.
Proof. by apply safe_vmi_. Qed.

Lemma safe_vmi_any {A} (f : qcsched_vmi_info -> A) : safe L cpu (vmi_ f) (fun _ => True).
Proof. by apply safe_vmi_. Qed.

Lemma safe_vmi_trampoline_addr : safe L cpu (vmi_ trampoline_addr) (fun l => alen l = 2).
Proof. apply safe_vmi_. by intros v []. Qed.

Lemma safe_vmi_per_cpu_offset : safe L cpu (vmi_ per_cpu_offset) (fun l => alen l = 64).
Proof. apply safe_vmi_. by intros v []. Qed.

Lemma safe_vmi_whitelist :
  safe L cpu (vmi_ lockdep_whitelist) (fun l =>
    alen (whitelist l) = MAX_WHITELIST_ITEM /\ 0 <= wl_count l <= MAX_WHITELIST_ITEM).
Proof. apply safe_vmi_. by intros v []. Qed.

Lemma safe_cpu_list : safe L cpu (gets cpu_list) (fun l => l = L).
Proof. apply safe_gets. by intros w [[] ? ?]. Qed.

Lemma safe_current_cpu : safe L cpu (gets current_cpu) (fun c => c = cpu).
Proof. apply safe_gets. by intros w [[] ? ?]. Qed.

Lemma safe_iothread_locked : safe L cpu (gets iothread_locked) (fun b => b = true).
Proof. apply safe_gets. by intros w [[] ? ?]. Qed.

Lemma safe_gets_any {A} (f : machine -> A) : safe L cpu (gets f) (fun _ => True).
Proof. by apply safe_gets. Qed.

Lemma safe_deref_aget {A} what (l : list A) i :
  0 <= i < alen l -> safe L cpu (deref what (aget l i)) (fun x => aget l i = Some x).
Proof. intros H. apply safe_deref. destruct (proj2 (aget_is_Some l i) H). eauto. Qed.
End reads.

Lemma small_range {L} `{Small L} c : c ∈ L -> 0 <= c < MAX_CPUS.
Proof. intros Hc. by apply (proj1 (Forall_forall _ L) small c). Qed.

(** A change of the state that the invariant does not look at. *)
Ltac inside_trivial := intros ? [[] ? ?]; split; [split|..]; simpl; by auto.

(** [lia] with the constants of the source unfolded. *)
Ltac clia :=
  unfold MAX_SCHEDPOINTS, MAX_CPUS, MAX_NR_CPUS, MAX_LOCKS, MAX_WHITELIST_ITEM,
    SCHEDPOINT_WINDOW_SIZE, VMI_TRAMPOLINE, VMI__PER_CPU_OFFSET0 in *;
  repeat match goal with
  | _ : context [END_OF_SCHEDPOINT_WINDOW] |- _ =>
      unfold END_OF_SCHEDPOINT_WINDOW, MAX_SCHEDPOINTS in *
  | |- context [END_OF_SCHEDPOINT_WINDOW] =>
      unfold END_OF_SCHEDPOINT_WINDOW, MAX_SCHEDPOINTS in *
  end; lia.

Create HintDb safe.
#[export] Hint Resolve safe_get_entry safe_upd_entry safe_get_window safe_upd_window
  safe_get_cpu_state safe_set_cpu_state safe_get_record safe_set_record safe_get_exec
  safe_upd_exec safe_get_hw safe_set_hw safe_get_lock_info safe_set_lock_info safe_get_cpu
  safe_upd_cpu safe_RIP safe_upd_sched safe_upd_vmi safe_find_entry safe_deref_aget : safe.
#[export] Hint Resolve safe_total safe_current safe_sched_id safe_vmi_id
  safe_vmi_trampoline_addr safe_vmi_per_cpu_offset safe_vmi_whitelist safe_cpu_list
  safe_current_cpu safe_iothread_locked | 1 : safe.
#[export] Hint Resolve safe_sched_any safe_vmi_any safe_gets_any | 5 : safe.
#[export] Hint Resolve small_range : safe.
#[export] Hint Extern 4 (0 <= _ < _) => clia : safe.
#[export] Hint Extern 4 (0 <= _) => clia : safe.
#[export] Hint Extern 4 (forall x, window_ok x -> window_ok _) =>
  intros ? (? & ? & ?); repeat split; simpl; repeat case_match; simpl; clia : safe.
#[export] Hint Extern 4 (forall e, entry_ok _ e -> entry_ok _ _) =>
  intros ? (? & ? & ?); repeat split; simpl; by auto with lia : safe.
#[export] Hint Extern 4 (disciplined _) => by apply (bool_decide_unpack _) : safe.

(** Use what is known of a value. *)
Ltac safe_facts :=
  repeat match goal with
  | H : _ /\ _ |- _ => destruct H
  | H : True |- _ => clear H
  | H : entry_ok _ _ |- _ => destruct H as (? & ? & ?)
  | H : window_ok _ |- _ => destruct H as (? & ? & ?)
  | H : ?x = ?y |- _ => is_var x; subst x
  end.

Ltac safe_intros := intros ? ?; cbv beta in *; safe_facts.

(** One step through a program; what it leaves is for the caller. *)
Ltac safe_step :=
  match goal with
  | |- safe _ _ (mret _) _ => apply safe_ret
  | |- safe _ _ (exit_ _) _ => apply safe_exit; by apply (bool_decide_unpack _)
  | |- safe _ _ (@mbind _ _ Z _ _ (match _ with _ => _ end)) _ =>
      eapply (safe_bind _ _ _ _ (fun o => 0 <= o)); [|safe_intros]
  | |- safe _ _ (mbind _ (if _ then _ else _)) _ =>
      eapply (safe_bind _ _ _ _ (fun _ => True)); [|safe_intros]
  | |- safe _ _ (mbind _ (match _ with _ => _ end)) _ =>
      eapply (safe_bind _ _ _ _ (fun _ => True)); [|safe_intros]
  | |- safe _ _ (mbind _ (mbind _ _)) _ =>
      eapply (safe_bind _ _ _ _ (fun _ => True)); [|safe_intros]
  | |- safe _ _ (mbind _ (mret _)) _ => eapply safe_bind; [by apply (safe_ret _ _ _ (eq _))|]
  | |- safe _ _ (mbind _ (ASSERT _ _)) _ =>
      eapply safe_bind;
        [first [apply safe_ASSERT_true; solve [auto using Z.eqb_refl] | apply safe_ASSERT; by apply (bool_decide_unpack _)]
        |safe_intros; bool_to_prop]
  | |- safe _ _ (mbind _ _) _ => eapply safe_bind; [solve [eauto with safe]|safe_intros]
  | |- safe _ _ (ASSERT _ _) _ =>
      eapply safe_mono;
        [first [apply safe_ASSERT_true; solve [auto using Z.eqb_refl] | apply safe_ASSERT; by apply (bool_decide_unpack _)]|done]
  | |- safe _ _ (if ?b then _ else _) _ =>
      let H := fresh "Hb" in destruct b eqn:H; bool_to_prop
  | |- safe _ _ (match ?o with _ => _ end) _ =>
      let H := fresh "Ho" in destruct o eqn:H
  | |- safe _ _ _ _ =>
      eapply safe_mono; [solve [eauto with safe]|]; intros; cbv beta in *; safe_facts
  end.

Ltac safe_auto := repeat (safe_step; try done); try clia.
