(* ===== verification/Flat.v ===== *)
(** * A concrete platform

    Flat guest memory, identity page tables and a guest that produces a
    scripted sequence of exits: an instance of [Platform] on which the
    definitions evaluate.  [KVM_RUN] with [immediate_exit] set returns -EINTR
    without running the guest, as the KVM API documents. *)

From stdpp Require Import base list gmap strings.
From Stdlib Require Import ZArith Lia.
From S2P Require Import Prelude Machine.

Local Open Scope Z_scope.
Local Open Scope record_scope.

Record flat_kvm := mk_flat_kvm {
  script : list kvm_exit;
  vregs : gmap Z kvm_regs;
  vdebug : gmap Z kvm_guest_debug;
}.

#[export] Instance eta_flat_kvm : Eta flat_kvm :=
  fun r => mk_flat_kvm (script r) (vregs r) (vdebug r).

Definition flat_byte (m : gmap Z Z) (a : Z) : Z := default 0 (m !! a).

Definition flat_read (m : gmap Z Z) (a l : Z) : option (list Z) :=
  Some ((fun i => flat_byte m (a + Z.of_nat i)) <$> seq 0 (Z.to_nat l)).

Fixpoint flat_write (m : gmap Z Z) (a : Z) (l : list Z) : gmap Z Z :=
  match l with
  | [] => m
  | b :: l' => flat_write (<[a := b]> m) (a + 1) l'
  end.

(** The scripted guest is well behaved: it asks for at most 255 scheduling
    points, its orders are not negative, and CPU 0 does not stop for the
    debugger. *)
Definition flat_exit_ok (cpu : Z) (e : kvm_exit) : bool :=
  match e with
  | KVM_EXIT_HCALL (cmd :: a1 :: a2 :: a3 :: _) =>
      (negb (cmd =? HCALL_PREPARE) || (u32 a1 <? MAX_SCHEDPOINTS)) &&
      (negb (cmd =? HCALL_INSTALL_BP) || (0 <=? i32 a2))
  | KVM_EXIT_HCALL _ => false
  | KVM_EXIT_DEBUG _ _ _ _ => negb (cpu =? 0)
  | _ => true
  end.

Definition flat_run (k : flat_kvm) (m : gmap Z Z) (cpu : Z) (ie : bool) :
    (run_result * flat_kvm) * gmap Z Z :=
  if ie then ((run_error (- EINTR), k), m) else
  match script k with
  | [] => ((run_exit KVM_EXIT_IRQ_WINDOW_OPEN, k), m)
  | e :: s =>
      if flat_exit_ok cpu e then ((run_exit e, k <| script := s |>), m)
      else ((run_exit KVM_EXIT_IRQ_WINDOW_OPEN, k <| script := s |>), m)
  end.

#[export] Instance flat_platform : Platform := {|
  config_trampoline := false;
  reboot_action_shutdown := false;
  pmem := gmap Z Z;
  kst := flat_kvm;
  phys_page_debug := fun _ _ _ page => Some page;
  as_read := flat_read;
  as_write := fun m a l => Some (flat_write m a l);
  ioctl_set_guest_debug := fun k c d => (0, k <| vdebug ::= <[c := d]> |>);
  ioctl_set_regs := fun k c r => (0, k <| vregs ::= <[c := r]> |>);
  ioctl_get_regs := fun k c => ((0, default zero_regs (vregs k !! c)), k);
  ioctl_run := flat_run;
  sys_timer_create := fun k => (true, k);
  arch_process_async_events := fun k _ => (false, k);
  cpus_are_resettable := fun _ => true;
  device_exit := fun k m _ _ => ((0, k), m);
  queue_exception := fun k _ _ => k;
  bdrv_flush_all := fun k => (0, k);
|}.

(** A VM with [n] vCPUs whose guest makes the given exits. *)
Definition flat_machine (n : nat) (s : list kvm_exit) : machine :=
  init_machine n (∅ : gmap Z Z) (mk_flat_kvm s ∅ ∅).
