(* ===== verification/KvmDebug.v ===== *)
(** * Per-CPU hardware breakpoints

    [target/i386/kvm/kvm-percpu.c] keeps, for each vCPU, a table of at most
    four breakpoints; [accel/kvm/kvm-percpu.c] and [kvm_update_guest_debug] of
    [accel/kvm/kvm-all.c] push the table into KVM's debug registers, on the
    thread of the vCPU ([run_on_cpu] of [cpus-common.c]). *)

From stdpp Require Import base list gmap strings.
From Stdlib Require Import ZArith Lia.
From S2P Require Import Prelude Machine Invariant Flat.

Local Open Scope Z_scope.
Local Open Scope record_scope.

(** What the other threads do to the process while this one waits, with the
    big lock released, for vCPU [cpu] to run a work item. *)
Class Interference `{P : Platform} := other_threads : Z -> machine -> machine.

(** The other threads keep the machine well formed, as every handler does. *)
Class StableInterference `{P : Platform} {I : Interference} (L : list Z) :=
  other_threads_wf : forall c w, wf L w -> wf L (other_threads c w).

(** Nobody else runs. *)
Definition no_interference `{P : Platform} : Interference := fun _ w => w.

Section KvmDebug.
Context {P : Platform} {I : Interference}.

(** ** target/i386/kvm/kvm-percpu.c *)

Fixpoint find_hw (l : list hw_bp) (n : nat) (i : Z) (a len type : Z) : M Z :=
  match n, l with
  | O, _ => mret (-1)
  | S _, [] => ub "hw_breakpoint[].bp"
  | S n', b :: l' =>
      if (bp_addr b =? a) && (bp_type b =? type) && ((bp_len b =? len) || (len =? -1))
      then mret i
      else find_hw l' n' (i + 1) a len type
  end.

Definition find_hw_breakpoint_cpu (cpu a len type : Z) : M Z :=
  h ← get_hw cpu; find_hw (bp h) (Z.to_nat (nb h)) 0 a len type.

Definition kvm_arch_insert_hw_breakpoint_cpu (cpu a len type : Z) : M Z :=
  if negb (type =? GDB_BREAKPOINT_HW) then mret (- ENOSYS) else
  n ← find_hw_breakpoint_cpu cpu a 1 type;
  if 0 <=? n then mret (- EEXIST) else
  h ← get_hw cpu;
  if nb h =? 4 then mret (- ENOBUFS) else
  _ ← deref "hw_breakpoint[].bp" (aget (bp h) (nb h));
  set_hw cpu (mk_percpu_hw (aset (bp h) (nb h) (mk_hw_bp a 1 type)) (nb h + 1)) ;;
  mret 0.

Definition kvm_arch_remove_hw_breakpoint_cpu (cpu a len type : Z) : M Z :=
  n ← find_hw_breakpoint_cpu cpu a (if type =? GDB_BREAKPOINT_HW then 1 else i32 len) type;
  if n <? 0 then mret (- ENOENT) else
  h ← get_hw cpu;
  last ← deref "hw_breakpoint[].bp" (aget (bp h) (nb h - 1));
  set_hw cpu (mk_percpu_hw (aset (bp h) n last) (nb h - 1)) ;;
  mret 0.

Definition kvm_arch_remove_all_hw_breakpoints_cpu (cpu : Z) : M unit :=
  h ← get_hw cpu; set_hw cpu (h <| nb := 0 |>).

Definition type_code : list Z := [0; 0x0; 0x1; 0; 0x3].
Definition len_code : list Z := [0; 0x0; 0x1; 0; 0x3; 0; 0; 0; 0x2].

(** One round of the loop that fills the debug registers. *)
Definition debugreg_step (n : Z) (b : hw_bp) (d : list (option Z)) : M (list (option Z)) :=
  let d := aset d n (Some (bp_addr b)) in
  tc ← deref "type_code" (aget type_code (bp_type b));
  lc ← deref "len_code" (aget len_code (bp_len b));
  let bits := Z.lor (Z.lor (Z.shiftl 2 (n * 2)) (Z.shiftl tc (16 + n * 4)))
                (u32 (Z.shiftl lc (18 + n * 4))) in
  mret (aset d 7 (match aget d 7 with Some (Some v) => Some (Z.lor v bits) | _ => None end)).

Fixpoint debugreg_fill (l : list hw_bp) (cnt : nat) (n : Z) (d : list (option Z)) :
    M (list (option Z)) :=
  match cnt, l with
  | O, _ => mret d
  | S _, [] => ub "hw_breakpoint[].bp"
  | S c, b :: l' => d' ← debugreg_step n b d; debugreg_fill l' c (n + 1) d'
  end.

Definition kvm_arch_update_guest_debug_cpu (cpu : Z) (dbg : kvm_guest_debug) :
    M kvm_guest_debug :=
  h ← get_hw cpu;
  if 0 <? nb h then
    d ← debugreg_fill (bp h) (Z.to_nat (nb h)) 0 (aset (debugreg dbg) 7 (Some 0x0600));
    mret (mk_guest_debug
            (Z.lor (control dbg) (Z.lor KVM_GUESTDBG_ENABLE KVM_GUESTDBG_USE_HW_BP)) d)
  else mret dbg.

(** ** cpus-common.c: running a function on the thread of a vCPU *)

Definition qemu_cpu_is_self (cpu : Z) : M bool := gets (fun w => current_cpu w =? cpu).

(** [do_run_on_cpu]: on its own thread the function is called at once.
    Otherwise it is queued and this thread waits, with the big lock released,
    before and after the target runs it; [current_cpu] is restored. *)
Definition run_on_cpu (cpu : Z) (func : M Z) : M Z :=
  self ← qemu_cpu_is_self cpu;
  if (self : bool) then func else
  self_cpu ← gets current_cpu;
  modify (fun w => (other_threads cpu w) <| current_cpu := cpu |> <| iothread_locked := true |>) ;;
  r ← func;
  modify (fun w => (other_threads cpu w) <| current_cpu := self_cpu |> <| iothread_locked := true |>) ;;
  mret r.

(** ** accel/kvm/kvm-all.c and accel/kvm/kvm-percpu.c *)

Definition kvm_invoke_set_guest_debug (cpu : Z) (dbg : kvm_guest_debug) : M Z :=
  w ← gets id;
  let '(err, k) := ioctl_set_guest_debug (kvm w) cpu dbg in
  modify (fun w => w <| kvm := k |>) ;; mret err.

Definition kvm_update_guest_debug (cpu reinject_trap : Z) : M Z :=
  c ← get_cpu cpu;
  let ctl := if singlestep_enabled c
             then Z.lor reinject_trap (Z.lor KVM_GUESTDBG_ENABLE KVM_GUESTDBG_SINGLESTEP)
             else reinject_trap in
  dbg ← kvm_arch_update_guest_debug_cpu cpu (mk_guest_debug ctl (replicate 8 None));
  run_on_cpu cpu (kvm_invoke_set_guest_debug cpu dbg).

Definition kvm_insert_breakpoint_cpu (cpu a len type : Z) : M Z :=
  err ← (if type =? GDB_BREAKPOINT_SW then mret 0
         else kvm_arch_insert_hw_breakpoint_cpu cpu a len type);
  if negb (err =? 0) then mret err else kvm_update_guest_debug cpu 0.

Definition kvm_remove_breakpoint_cpu (cpu a len type : Z) : M Z :=
  err ← (if type =? GDB_BREAKPOINT_SW then mret 0
         else kvm_arch_remove_hw_breakpoint_cpu cpu a len type);
  if negb (err =? 0) then mret err else kvm_update_guest_debug cpu 0.

Definition kvm_remove_all_breakpoints_cpu (cpu : Z) : M unit :=
  kvm_arch_remove_all_hw_breakpoints_cpu cpu ;;
  _ ← kvm_update_guest_debug cpu 0; mret tt.
End KvmDebug.

(** ** Searching the table *)

Definition hw_match (a len type : Z) (b : hw_bp) : Prop :=
  bp_addr b = a /\ bp_type b = type /\ (bp_len b = len \/ len = -1).

#[export] Instance hw_match_dec a len type b : Decision (hw_match a len type b).
Proof. unfold hw_match. apply _. Defined.

(** The addresses in use, in table order. *)
Definition hw_addrs (h : percpu_hw_breakpoint) : list Z :=
  bp_addr <$> take (Z.to_nat (nb h)) (bp h).

(** The table after an insertion and after the removal of slot [k]. *)
Definition hw_push (h : percpu_hw_breakpoint) (a : Z) : percpu_hw_breakpoint :=
  mk_percpu_hw (aset (bp h) (nb h) (mk_hw_bp a 1 GDB_BREAKPOINT_HW)) (nb h + 1).
Definition hw_drop (h : percpu_hw_breakpoint) (k : nat) (last : hw_bp) : percpu_hw_breakpoint :=
  mk_percpu_hw (aset (bp h) (Z.of_nat k) last) (nb h - 1).

(** DR7 for [cnt] execution breakpoints from register [n] on: the global
    enable bits, with type and length fields 0. *)
Fixpoint dr7_enable (n : Z) (cnt : nat) : Z :=
  match cnt with
  | O => 0
  | S c => Z.lor (Z.shiftl 2 (n * 2)) (dr7_enable (n + 1) c)
  end.

(** [w'] differs from [w] at most in the breakpoint tables and in KVM. *)
Definition hw_only `{P : Platform} (w w' : machine) : Prop :=
  exists hw k, w' = w <| hw_breakpoint := hw |> <| kvm := k |>.

Section KvmDebugLemmas.
Context {P : Platform} {I : Interference}.

Lemma hw_ok_length h : hw_ok h -> (Z.to_nat (nb h) <= length (bp h))%nat.
Proof. intros (Hl & Hn & _). unfold alen in Hl. lia. Qed.

Lemma hw_ok_elem h b :
  hw_ok h -> b ∈ take (Z.to_nat (nb h)) (bp h) ->
  bp_type b = GDB_BREAKPOINT_HW /\ bp_len b = 1.
Proof.
  intros (_ & _ & Hb) (k & Hk)%list_elem_of_lookup.
  apply lookup_take_Some in Hk as [Hk Hlt]. apply (Hb (Z.of_nat k)); [|lia].
  unfold aget. destruct (Z.ltb_spec (Z.of_nat k) 0); [lia|]. by rewrite Nat2Z.id.
Qed.

Lemma find_hw_spec l n i a len type (w : machine) :
  (n <= length l)%nat ->
  find_hw l n i a len type w =
  Ret (match list_find (hw_match a len type) (take n l) with
       | Some (k, _) => i + Z.of_nat k
       | None => -1
       end) w.
Proof.
  revert l i. induction n as [|n IH]; intros [|b l] i Hn; [done|done|simpl in Hn; lia|]. simpl in *.
  destruct (decide (hw_match a len type b)) as [Hm|Hm].
  - rewrite Z.add_0_r. destruct Hm as (-> & -> & Hl). rewrite !Z.eqb_refl. simpl.
    destruct Hl as [->| ->]; by rewrite Z.eqb_refl, ?orb_true_r.
  - replace ((bp_addr b =? a) && (bp_type b =? type) && ((bp_len b =? len) || (len =? -1)))
      with false.
    + rewrite IH by lia. destruct (list_find _ _) as [[k ?]|]; simpl; [|done].
      f_equal. lia.
    + symmetry. apply not_true_is_false. intros Hc. apply Hm.
      bool_to_prop. split; [done|]. split; [done|].
      match goal with H : _ || _ = true |- _ => apply orb_prop in H as [H|H] end;
        bool_to_prop; auto.
Qed.

(** For the tables the code builds, searching is searching for an address. *)
Lemma hw_find_None h a :
  hw_ok h ->
  list_find (hw_match a 1 GDB_BREAKPOINT_HW) (take (Z.to_nat (nb h)) (bp h)) = None <->
  a ∉ hw_addrs h.
Proof.
  intros Hh. rewrite list_find_None, Forall_forall. unfold hw_addrs.
  rewrite list_elem_of_fmap. split.
  - intros Hn (b & -> & Hb). apply (Hn b Hb). destruct (hw_ok_elem h b Hh Hb). repeat split; auto.
  - intros Ha b Hb (Hab & _). apply Ha. eauto.
Qed.

Lemma hw_find_Some h a k b :
  hw_ok h ->
  list_find (hw_match a 1 GDB_BREAKPOINT_HW) (take (Z.to_nat (nb h)) (bp h)) = Some (k, b) ->
  hw_addrs h !! k = Some a /\ (k < Z.to_nat (nb h))%nat.
Proof.
  intros Hh (Hk & Hm & _)%list_find_Some. unfold hw_addrs.
  rewrite list_lookup_fmap, Hk. destruct Hm as (<- & _). split; [done|].
  apply lookup_take_Some in Hk as [_ ?]. done.
Qed.

Lemma hw_ok_push h a : hw_ok h -> nb h <> 4 -> hw_ok (hw_push h a).
Proof.
  intros (Hl & Hn & Hb) H4. split; [by rewrite <- Hl; apply alen_aset|].
  split; [simpl; lia|].
  intros i b. simpl. rewrite aget_aset. case_decide; [by intros [= <-]|].
  intros Hi Hlt. apply (Hb i b Hi).
  apply aget_Some_range in Hi. destruct (decide (nb h = i)); lia.
Qed.

Lemma hw_ok_drop h k last :
  hw_ok h -> aget (bp h) (nb h - 1) = Some last -> hw_ok (hw_drop h k last).
Proof.
  intros (Hl & Hn & Hb) Hlast. pose proof (aget_Some_range _ _ _ Hlast).
  split; [by rewrite <- Hl; apply alen_aset|]. split; [simpl; lia|].
  intros i b. simpl. rewrite aget_aset. case_decide.
  - intros [= <-] _. apply (Hb _ _ Hlast). lia.
  - intros Hi Hlt. apply (Hb i b Hi). lia.
Qed.

Lemma insert_hw_spec c a len h (w : machine) :
  aget (hw_breakpoint w) c = Some h -> hw_ok h ->
  kvm_arch_insert_hw_breakpoint_cpu c a len GDB_BREAKPOINT_HW w =
  if decide (a ∈ hw_addrs h) then Ret (- EEXIST) w
  else if decide (nb h = 4) then Ret (- ENOBUFS) w
  else Ret 0 (w <| hw_breakpoint ::= fun l => aset l c (hw_push h a) |>).
Proof.
  intros Hc Hh. unfold kvm_arch_insert_hw_breakpoint_cpu, find_hw_breakpoint_cpu, get_hw, set_hw.
  unfold mbind, prog_bind, gets, deref, get_hw. simpl. unfold id.
  rewrite Hc. unfold mret, prog_ret. simpl.
  rewrite find_hw_spec by by apply hw_ok_length.
  destruct (list_find _ _) as [[k b]|] eqn:Hf.
  - apply hw_find_Some in Hf as [Hk _]; [|done].
    rewrite decide_True by by eapply list_elem_of_lookup_2.
    by destruct (Z.leb_spec 0 (0 + Z.of_nat k)); [|lia].
  - apply hw_find_None in Hf; [|done]. rewrite decide_False by done. simpl.
    rewrite Hc. destruct (decide (nb h = 4)) as [->|Hne]; [done|].
    rewrite (proj2 (Z.eqb_neq _ _) Hne).
    destruct (proj2 (aget_is_Some (bp h) (nb h))) as [x ->].
    { destruct Hh as (-> & ? & _). lia. }
    unfold mbind, prog_bind, get_hw, gets, deref. simpl. unfold id. rewrite Hc. done.
Qed.

Lemma remove_hw_spec c a len h (w : machine) :
  aget (hw_breakpoint w) c = Some h -> hw_ok h ->
  kvm_arch_remove_hw_breakpoint_cpu c a len GDB_BREAKPOINT_HW w =
  match list_find (hw_match a 1 GDB_BREAKPOINT_HW) (take (Z.to_nat (nb h)) (bp h)) with
  | None => Ret (- ENOENT) w
  | Some (k, _) =>
      match aget (bp h) (nb h - 1) with
      | Some last => Ret 0 (w <| hw_breakpoint ::= fun l => aset l c (hw_drop h k last) |>)
      | None => UB "hw_breakpoint[].bp"
      end
  end.
Proof.
  intros Hc Hh. unfold kvm_arch_remove_hw_breakpoint_cpu, find_hw_breakpoint_cpu, get_hw, set_hw.
  unfold mbind, prog_bind, gets, deref, get_hw. simpl. unfold id.
  rewrite Hc. unfold mret, prog_ret. simpl.
  rewrite find_hw_spec by by apply hw_ok_length.
  destruct (list_find _ _) as [[k b]|] eqn:Hf; [|done].
  destruct (Z.ltb_spec (0 + Z.of_nat k) 0); [lia|]. simpl. rewrite Hc.
  destruct (aget (bp h) (nb h - 1)); [|done].
  unfold mbind, prog_bind, get_hw, gets, deref. simpl. unfold id. rewrite Hc. done.
Qed.

Lemma hw_last h k b a :
  hw_ok h -> list_find (hw_match a 1 GDB_BREAKPOINT_HW) (take (Z.to_nat (nb h)) (bp h)) = Some (k, b) ->
  exists last, aget (bp h) (nb h - 1) = Some last.
Proof.
  intros Hh [_ Hk]%hw_find_Some; [|done]. destruct Hh as (Hl & ? & _).
  apply aget_is_Some. lia.
Qed.

(** ** Debug registers *)

Lemma debugreg_step_spec n b d v (w : machine) :
  0 <= n < 4 -> alen d = 8 -> aget d 7 = Some (Some v) ->
  bp_type b = GDB_BREAKPOINT_HW -> bp_len b = 1 ->
  debugreg_step n b d w =
  Ret (aset (aset d n (Some (bp_addr b))) 7 (Some (Z.lor v (Z.shiftl 2 (n * 2))))) w.
Proof.
  intros Hn Hl H7 Ht Hlen. unfold debugreg_step. rewrite Ht, Hlen. simpl.
  unfold mbind, prog_bind, mret, prog_ret. rewrite aget_aset_ne by lia. rewrite H7.
  rewrite !Z.shiftl_0_l. by rewrite !Z.lor_0_r.
Qed.

Lemma debugreg_fill_spec l cnt n d v (w : machine) :
  0 <= n -> n + Z.of_nat cnt <= 4 -> (cnt <= length l)%nat ->
  (forall b, b ∈ take cnt l -> bp_type b = GDB_BREAKPOINT_HW /\ bp_len b = 1) ->
  alen d = 8 -> aget d 7 = Some (Some v) ->
  exists d', debugreg_fill l cnt n d w = Ret d' w /\ alen d' = 8 /\
    aget d' 7 = Some (Some (Z.lor v (dr7_enable n cnt))) /\
    (forall k b, (k < cnt)%nat -> l !! k = Some b ->
       aget d' (n + Z.of_nat k) = Some (Some (bp_addr b))) /\
    (forall j, j <> 7 -> ~ n <= j < n + Z.of_nat cnt -> aget d' j = aget d j).
Proof.
  revert l n d v. induction cnt as [|c IH]; intros l n d v Hn Hc Hl Hb Hd H7.
  { exists d. simpl. rewrite Z.lor_0_r. split; [by destruct l|].
    split; [done|]. split; [done|]. split; [intros; lia|done]. }
  destruct l as [|b l]; [simpl in Hl; lia|].
  destruct (Hb b) as [Ht Hlen]; [simpl; set_solver|].
  cbn [debugreg_fill]. unfold mbind, prog_bind.
  rewrite (debugreg_step_spec _ _ _ v) by (done || lia).
  edestruct (IH l (n + 1) (aset (aset d n (Some (bp_addr b))) 7
    (Some (Z.lor v (Z.shiftl 2 (n * 2)))))) as (d' & -> & Hd' & H7' & Hk & Hj).
  - lia.
  - lia.
  - simpl in Hl; lia.
  - intros b' Hb'. apply Hb. simpl. set_solver.
  - by rewrite !alen_aset.
  - apply aget_aset_eq. rewrite alen_aset. lia.
  - exists d'. split; [done|]. split; [done|]. split; [|split].
    + rewrite H7'. cbn [dr7_enable]. by rewrite Z.lor_assoc.
    + intros [|k] b' Hkc Hlk; simpl in Hlk.
      * injection Hlk as ->. rewrite Z.add_0_r, Hj by lia.
        rewrite aget_aset_ne by lia. apply aget_aset_eq. lia.
      * replace (n + Z.of_nat (S k)) with (n + 1 + Z.of_nat k) by lia. apply Hk; [lia|done].
    + intros j Hj7 Hjn. rewrite Hj by lia. rewrite !aget_aset_ne by lia. done.
Qed.

Lemma update_guest_debug_spec c dbg h (w : machine) :
  aget (hw_breakpoint w) c = Some h -> hw_ok h -> alen (debugreg dbg) = 8 ->
  exists d, kvm_arch_update_guest_debug_cpu c dbg w =
    Ret (if 0 <? nb h
         then mk_guest_debug
                (Z.lor (control dbg) (Z.lor KVM_GUESTDBG_ENABLE KVM_GUESTDBG_USE_HW_BP)) d
         else dbg) w /\
    (0 < nb h ->
     aget d 7 = Some (Some (Z.lor 0x0600 (dr7_enable 0 (Z.to_nat (nb h))))) /\
     forall k a, hw_addrs h !! k = Some a -> aget d (Z.of_nat k) = Some (Some a)).
Proof.
  intros Hc Hh Hd. unfold kvm_arch_update_guest_debug_cpu, get_hw.
  unfold mbind, prog_bind, gets, deref. simpl. unfold id. rewrite Hc. unfold mret at 1, prog_ret.
  destruct (Z.ltb_spec 0 (nb h)); [|exists []; split; [done|lia]].
  pose proof (hw_ok_length h Hh). destruct Hh as (Hl & Hn & Hb) eqn:E.
  edestruct (debugreg_fill_spec (bp h) (Z.to_nat (nb h)) 0
    (aset (debugreg dbg) 7 (Some 0x600)) 0x600) as (d' & -> & Hd' & H7' & Hk & _).
  - lia.
  - lia.
  - done.
  - intros b. by apply hw_ok_elem.
  - by rewrite alen_aset.
  - apply aget_aset_eq. lia.
  - exists d'. split; [done|]. intros _. split; [done|]. intros k a.
    unfold hw_addrs. rewrite list_lookup_fmap, fmap_Some.
    intros (b & [Hk1 Hk2]%lookup_take_Some & ->). by apply Hk.
Qed.
End KvmDebugLemmas.

(** ** Safety *)
Section KvmDebugSafe.
Context {P : Platform} {I : Interference} (L : list Z) `{!Small L} `{!StableInterference L}.
Context (cpu : Z).

Lemma safe_hw_slot c w :
  0 <= c < MAX_CPUS -> inside L cpu w ->
  exists h, aget (hw_breakpoint w) c = Some h /\ hw_ok h.
Proof.
  intros Hc [[] ? ?]. destruct (proj2 (aget_is_Some (hw_breakpoint w) c)) as [h Hh].
  { clia. }
  eauto.
Qed.

Lemma inside_upd_hw c h w :
  inside L cpu w -> hw_ok h ->
  inside L cpu (w <| hw_breakpoint ::= fun l => aset l c h |>).
Proof.
  intros [[] ? ?] Hh. split; [split|..]; simpl; rewrite ?alen_aset; auto.
  by apply aforall_aset.
Qed.

Lemma safe_insert_hw c a len type :
  0 <= c < MAX_CPUS ->
  safe L cpu (kvm_arch_insert_hw_breakpoint_cpu c a len type) (fun _ => True).
Proof.
  intros Hc. destruct (decide (type = GDB_BREAKPOINT_HW)) as [->|Hne].
  - intros w Hw. destruct (safe_hw_slot c w Hc Hw) as (h & Hh & Hok).
    unfold wp. rewrite (insert_hw_spec _ _ _ h) by done.
    repeat case_decide; try done. split; [|done].
    apply inside_upd_hw; [done|by apply hw_ok_push].
  - unfold kvm_arch_insert_hw_breakpoint_cpu.
    rewrite (proj2 (Z.eqb_neq _ _) Hne). by apply safe_ret.
Qed.

Lemma safe_remove_hw c a len :
  0 <= c < MAX_CPUS ->
  safe L cpu (kvm_arch_remove_hw_breakpoint_cpu c a len GDB_BREAKPOINT_HW) (fun _ => True).
Proof.
  intros Hc w Hw. destruct (safe_hw_slot c w Hc Hw) as (h & Hh & Hok).
  unfold wp. rewrite (remove_hw_spec _ _ _ h) by done.
  destruct (list_find _ _) as [[k b]|] eqn:Hf; [|done].
  destruct (hw_last _ _ _ _ Hok Hf) as [last Hlast]. rewrite Hlast. split; [|done].
  apply inside_upd_hw; [done|by apply hw_ok_drop].
Qed.

Lemma safe_remove_all_hw c :
  0 <= c < MAX_CPUS ->
  safe L cpu (kvm_arch_remove_all_hw_breakpoints_cpu c) (fun _ => True).
Proof.
  intros Hc. eapply safe_bind; [by apply safe_get_hw|]. intros h (Hl & Hn & Hb).
  apply safe_set_hw; [done|]. split; [done|]. split; [simpl; lia|].
  intros i b Hi Hlt. simpl in *. apply aget_Some_range in Hi. lia.
Qed.

Lemma inside_kvm k w : inside L cpu w -> inside L cpu (w <| kvm := k |>).
Proof. revert w. inside_trivial. Qed.

Lemma safe_set_guest_debug c dbg : safe L cpu (kvm_invoke_set_guest_debug c dbg) (fun _ => True).
Proof.
  eapply safe_bind; [apply safe_gets_any|]. intros w _.
  destruct (ioctl_set_guest_debug _ _ _) as [err k].
  eapply safe_bind; [|intros; by apply safe_ret].
  apply safe_modify. intros. by apply inside_kvm.
Qed.

Lemma safe_arch_update_guest_debug c dbg :
  0 <= c < MAX_CPUS -> alen (debugreg dbg) = 8 ->
  safe L cpu (kvm_arch_update_guest_debug_cpu c dbg) (fun _ => True).
Proof.
  intros Hc Hd w Hw. destruct (safe_hw_slot c w Hc Hw) as (h & Hh & Hok).
  destruct (update_guest_debug_spec c dbg h w) as (d & Heq & _); [done..|].
  unfold wp. by rewrite Heq.
Qed.
End KvmDebugSafe.

Section RunOnCpu.
Context {P : Platform} {I : Interference} (L : list Z) `{!Small L} `{!StableInterference L}.

Lemma wf_inside c w :
  wf L w -> inside L c (w <| current_cpu := c |> <| iothread_locked := true |>).
Proof. intros []. split; [split|..]; simpl; auto. Qed.

(** A function that is safe on its vCPU's thread is safe when it is sent there. *)
Lemma safe_run_on_cpu cpu c func :
  safe L c func (fun _ => True) -> safe L cpu (run_on_cpu c func) (fun _ => True).
Proof.
  intros Hf w Hw. apply wp_bind, wp_gets. destruct (Z.eqb_spec (current_cpu w) c) as [<-|Hne].
  { rewrite (in_self _ _ _ Hw) in *. by apply Hf. }
  apply wp_bind, wp_gets, wp_bind, wp_modify, wp_bind.
  eapply wp_mono; [apply Hf, wf_inside, other_threads_wf, Hw|].
  intros r w' [Hw' _]. apply wp_bind, wp_modify, wp_ret. split; [|done].
  rewrite (in_self _ _ _ Hw). apply wf_inside, other_threads_wf, Hw'.
Qed.

Lemma safe_kvm_update_guest_debug cpu c rt :
  c ∈ L -> safe L cpu (kvm_update_guest_debug c rt) (fun _ => True).
Proof.
  intros Hc. eapply safe_bind; [by apply safe_get_cpu|]. intros x _.
  eapply safe_bind; [apply safe_arch_update_guest_debug; [by apply small_range|done]|].
  intros dbg _. apply safe_run_on_cpu, safe_set_guest_debug.
Qed.

Lemma safe_kvm_insert_breakpoint cpu c a len type :
  c ∈ L -> safe L cpu (kvm_insert_breakpoint_cpu c a len type) (fun _ => True).
Proof.
  intros Hc. pose proof (small_range c Hc).
  apply (safe_bind _ _ _ _ (fun _ => True)).
  { destruct (_ =? _); [by apply safe_ret|]. by apply safe_insert_hw. }
  intros err _. destruct (negb _); [by apply safe_ret|]. by apply safe_kvm_update_guest_debug.
Qed.

Lemma safe_kvm_remove_breakpoint cpu c a len :
  c ∈ L -> safe L cpu (kvm_remove_breakpoint_cpu c a len GDB_BREAKPOINT_HW) (fun _ => True).
Proof.
  intros Hc. pose proof (small_range c Hc).
  apply (safe_bind _ _ _ _ (fun _ => True)); [by apply safe_remove_hw|].
  intros err _. destruct (negb _); [by apply safe_ret|]. by apply safe_kvm_update_guest_debug.
Qed.

Lemma safe_kvm_remove_all_breakpoints cpu c :
  c ∈ L -> safe L cpu (kvm_remove_all_breakpoints_cpu c) (fun _ => True).
Proof.
  intros Hc. eapply safe_bind; [by apply safe_remove_all_hw, small_range|]. intros _ _.
  eapply safe_bind; [by apply safe_kvm_update_guest_debug|]. intros. by apply safe_ret.
Qed.

(** On the CPU's own thread there is no window for other threads: nothing but
    the table and KVM changes. *)
Lemma hw_only_refl (w : machine) : hw_only w w.
Proof. exists (hw_breakpoint w), (kvm w). by destruct w. Qed.

Lemma hw_only_trans (w1 w2 w3 : machine) : hw_only w1 w2 -> hw_only w2 w3 -> hw_only w1 w3.
Proof. intros (h & k & ->) (h' & k' & ->). by exists h', k'. Qed.

Lemma self_insert_hw cpu a len w :
  cpu ∈ L -> inside L cpu w ->
  wp no_exit (kvm_arch_insert_hw_breakpoint_cpu cpu a len GDB_BREAKPOINT_HW)
    (fun _ w' => inside L cpu w' /\ hw_only w w') w.
Proof.
  intros Hc Hw. destruct (safe_hw_slot L cpu cpu w) as (h & Hh & Hok); [by apply small_range|done|].
  unfold wp. rewrite (insert_hw_spec _ _ _ h) by done.
  repeat case_decide; try (split; [done|apply hw_only_refl]).
  split; [by apply inside_upd_hw, hw_ok_push|].
  exists (aset (hw_breakpoint w) cpu (hw_push h a)), (kvm w). by destruct w.
Qed.

Lemma self_remove_hw cpu a len w :
  cpu ∈ L -> inside L cpu w ->
  wp no_exit (kvm_arch_remove_hw_breakpoint_cpu cpu a len GDB_BREAKPOINT_HW)
    (fun _ w' => inside L cpu w' /\ hw_only w w') w.
Proof.
  intros Hc Hw. destruct (safe_hw_slot L cpu cpu w) as (h & Hh & Hok); [by apply small_range|done|].
  unfold wp. rewrite (remove_hw_spec _ _ _ h) by done.
  destruct (list_find _ _) as [[k b]|] eqn:Hf; [|split; [done|apply hw_only_refl]].
  destruct (hw_last _ _ _ _ Hok Hf) as [last Hlast]. rewrite Hlast.
  split; [by apply inside_upd_hw, hw_ok_drop|].
  exists (aset (hw_breakpoint w) cpu (hw_drop h k last)), (kvm w). by destruct w.
Qed.

Lemma self_update_guest_debug cpu rt w :
  cpu ∈ L -> inside L cpu w ->
  wp no_exit (kvm_update_guest_debug cpu rt)
    (fun _ w' => inside L cpu w' /\ exists k, w' = w <| kvm := k |>) w.
Proof.
  intros Hc Hw. unfold kvm_update_guest_debug.
  destruct (wf_cpus _ _ (in_wf _ _ _ Hw) cpu Hc) as [x Hx].
  apply wp_bind, wp_bind, wp_gets, wp_deref. exists x. split; [done|]. apply wp_bind.
  destruct (safe_hw_slot L cpu cpu w) as (h & Hh & Hok); [by apply small_range|done|].
  set (dbg := mk_guest_debug _ _).
  destruct (update_guest_debug_spec cpu dbg h w) as (d & Heq & _); [done..|].
  unfold wp at 1. rewrite Heq.
  apply wp_bind, wp_gets. rewrite (in_self _ _ _ Hw), Z.eqb_refl.
  apply wp_bind, wp_gets. destruct (ioctl_set_guest_debug _ _ _) as [err k].
  apply wp_bind, wp_modify, wp_ret. split; [by apply inside_kvm|eauto].
Qed.

Lemma self_kvm_insert_breakpoint cpu a len w :
  cpu ∈ L -> inside L cpu w ->
  wp no_exit (kvm_insert_breakpoint_cpu cpu a len GDB_BREAKPOINT_HW)
    (fun _ w' => inside L cpu w' /\ hw_only w w') w.
Proof.
  intros Hc Hw. apply wp_bind. eapply wp_mono; [by apply self_insert_hw|].
  intros err w1 [Hw1 H1]. destruct (negb _); [by apply wp_ret|].
  eapply wp_mono; [by apply self_update_guest_debug|].
  intros err' w2 [Hw2 [k ->]]. split; [done|]. eapply hw_only_trans; [done|].
  exists (hw_breakpoint w1), k. by destruct w1.
Qed.

Lemma self_kvm_remove_breakpoint cpu a len w :
  cpu ∈ L -> inside L cpu w ->
  wp no_exit (kvm_remove_breakpoint_cpu cpu a len GDB_BREAKPOINT_HW)
    (fun _ w' => inside L cpu w' /\ hw_only w w') w.
Proof.
  intros Hc Hw. apply wp_bind. eapply wp_mono; [by apply self_remove_hw|].
  intros err w1 [Hw1 H1]. destruct (negb _); [by apply wp_ret|].
  eapply wp_mono; [by apply self_update_guest_debug|].
  intros err' w2 [Hw2 [k ->]]. split; [done|]. eapply hw_only_trans; [done|].
  exists (hw_breakpoint w1), k. by destruct w1.
Qed.
End RunOnCpu.

#[export] Hint Resolve safe_kvm_update_guest_debug safe_kvm_insert_breakpoint
  safe_kvm_remove_breakpoint safe_kvm_remove_all_breakpoints : safe.

#[export] Instance flat_interference : @Interference flat_platform := no_interference.

#[export] Instance flat_stable L : @StableInterference flat_platform flat_interference L.
Proof. intros c w Hw. exact Hw. Qed.
