(* ===== verification/GuestMem.v ===== *)
(** * Guest memory as the debugger sees it

    [cpu_memory_rw_debug] of [softmmu/physmem.c]: a read or a write at a guest
    virtual address, page by page.  The page walk and the physical address
    space are those of the [Platform]. *)

From stdpp Require Import base list gmap strings.
From Stdlib Require Import ZArith Lia.
From S2P Require Import Prelude Machine Invariant Flat.

Local Open Scope Z_scope.
Local Open Scope record_scope.

Definition TARGET_PAGE_BITS : Z := 12.
Definition TARGET_PAGE_SIZE : Z := 2 ^ TARGET_PAGE_BITS.
(** [~TARGET_PAGE_MASK] *)
Definition TARGET_PAGE_OFFSET_MASK : Z := TARGET_PAGE_SIZE - 1.

(** [address_space_read] fills the buffer it is given. *)
Class MemLaws `{P : Platform} :=
  as_read_length : forall m p l bytes, 0 <= l -> as_read m p l = Some bytes -> alen bytes = l.

Section GuestMem.
Context {P : Platform}.

(** One round of the loop: [a] the address, [buf] what is left of the buffer.
    [inl]: the number of bytes transferred, with the bytes; [inr]: -1. *)
Definition rw_chunk (cpu a : Z) (buf : list Z) (is_write : bool) : M (list Z + Z) :=
  let len := alen buf in
  let page := a - Z.land a TARGET_PAGE_OFFSET_MASK in
  w ← gets id;
  match phys_page_debug (kvm w) (mem w) cpu page with
  | None => mret (inr (-1))
  | Some phys_addr =>
      let l := u64 (u64 (page + TARGET_PAGE_SIZE) - a) in
      let l := if len <? l then len else l in
      let phys_addr := u64 (phys_addr + Z.land a TARGET_PAGE_OFFSET_MASK) in
      let chunk := take (Z.to_nat l) buf in
      if is_write then
        match as_write (mem w) phys_addr chunk with
        | Some m => modify (fun w => w <| mem := m |>) ;; mret (inl chunk)
        | None => mret (inr (-1))
        end
      else
        match as_read (mem w) phys_addr l with
        | Some bytes => mret (inl bytes)
        | None => mret (inr (-1))
        end
  end.

(** The result, 0 or -1, and the buffer at the end: transferred bytes, then
    the part that was not reached. *)
Definition cpu_memory_rw_debug (cpu a : Z) (buf : list Z) (is_write : bool) :
    M (Z * list Z) :=
  loop (S (length buf)) (fun '(a, done_, buf) =>
    if alen buf <=? 0 then mret (inr (0, done_)) else
    r ← rw_chunk cpu a buf is_write;
    match r with
    | inr e => mret (inr (e, done_ ++ buf))
    | inl bytes =>
        mret (inl (u64 (a + alen bytes), done_ ++ bytes, drop (length bytes) buf))
    end) (a, [], buf).

(** Writing a [target_ulong] and reading integers back, as the callers do. *)
Definition write_guest (cpu a : Z) (n : nat) (v : Z) : M Z :=
  r ← cpu_memory_rw_debug cpu a (le_bytes n v) true; mret r.1.

Definition read_guest (cpu a : Z) (n : nat) : M (Z * Z) :=
  r ← cpu_memory_rw_debug cpu a (replicate n 0) false; mret (r.1, le_value r.2).
End GuestMem.

(** ** Page arithmetic *)

Lemma page_offset_range a : 0 <= Z.land a TARGET_PAGE_OFFSET_MASK < TARGET_PAGE_SIZE.
Proof.
  change TARGET_PAGE_OFFSET_MASK with (Z.ones TARGET_PAGE_BITS).
  rewrite Z.land_ones by done. by apply Z.mod_pos_bound.
Qed.

(** What is left of the page, in the 64-bit arithmetic of the code. *)
Lemma page_remainder a :
  u64 (u64 (a - Z.land a TARGET_PAGE_OFFSET_MASK + TARGET_PAGE_SIZE) - a) =
  TARGET_PAGE_SIZE - Z.land a TARGET_PAGE_OFFSET_MASK.
Proof.
  pose proof (page_offset_range a). unfold wrapu. rewrite Zminus_mod_idemp_l.
  rewrite Z.mod_small; [lia|]. split; [lia|]. unfold TARGET_PAGE_SIZE, TARGET_PAGE_BITS in *. lia.
Qed.

(** ** Safety *)
Section GuestMemSafe.
Context {P : Platform} (L : list Z) (cpu : Z) `{!MemLaws}.

Lemma inside_mem m w : inside L cpu w -> inside L cpu (w <| mem := m |>).
Proof. revert w. inside_trivial. Qed.

Lemma safe_rw_chunk c a buf is_write :
  0 < alen buf ->
  safe L cpu (rw_chunk c a buf is_write) (fun r =>
    match r with inl bytes => 0 < alen bytes <= alen buf | inr _ => True end).
Proof.
  intros Hbuf. pose proof (page_offset_range a). eapply safe_bind; [apply safe_gets_any|].
  intros w _. cbv zeta. rewrite page_remainder.
  set (rest := TARGET_PAGE_SIZE - Z.land a TARGET_PAGE_OFFSET_MASK).
  set (l := if alen buf <? rest then alen buf else rest).
  assert (0 < l <= alen buf) as Hl
    by (subst l rest; destruct (Z.ltb_spec (alen buf)
          (TARGET_PAGE_SIZE - Z.land a TARGET_PAGE_OFFSET_MASK)); lia).
  destruct (phys_page_debug _ _ _ _) as [p|]; [|by apply safe_ret].
  destruct is_write.
  - destruct (as_write _ _ _) as [m|]; [|by apply safe_ret].
    eapply safe_bind; [apply safe_modify; intros; by apply inside_mem|]. intros _ _.
    apply safe_ret. unfold alen in *. rewrite length_take. lia.
  - destruct (as_read _ _ _) as [bytes|] eqn:Hr; [|by apply safe_ret].
    apply as_read_length in Hr; [|lia]. apply safe_ret. lia.
Qed.

Lemma safe_cpu_memory_rw_debug c a buf is_write :
  safe L cpu (cpu_memory_rw_debug c a buf is_write) (fun _ => True).
Proof.
  apply (safe_loop _ _ (fun _ => True) (fun s => length s.2)); [done|simpl; lia|].
  intros [[a' d] b] _. simpl. destruct (Z.leb_spec (alen b) 0); [by apply safe_ret|].
  eapply safe_bind; [by apply safe_rw_chunk|]. intros [bytes|e] Hr; apply safe_ret; [|done].
  simpl. split; [done|]. rewrite length_drop. unfold alen in *. lia.
Qed.

Lemma safe_write_guest c a n v : safe L cpu (write_guest c a n v) (fun _ => True).
Proof. eapply safe_bind; [apply safe_cpu_memory_rw_debug|]. intros. by apply safe_ret. Qed.

Lemma safe_read_guest c a n : safe L cpu (read_guest c a n) (fun _ => True).
Proof. eapply safe_bind; [apply safe_cpu_memory_rw_debug|]. intros. by apply safe_ret. Qed.
End GuestMemSafe.

#[export] Hint Resolve safe_write_guest safe_read_guest : safe.

#[export] Instance flat_mem_laws : @MemLaws flat_platform.
Proof.
  intros m p l bytes Hl [= <-]. unfold alen. rewrite length_fmap, length_seq. lia.
Qed.
