(* ===== verification/CpuState.v ===== *)
(** * vCPUs and their scheduling state

    [qcsched/state.c], [qcsched/cookie.c], the list of CPUs of
    [cpus-common.c] and the big lock of [softmmu/cpus.c]. *)

From stdpp Require Import base list gmap strings.
From Stdlib Require Import ZArith Lia.
From S2P Require Import Prelude Machine Invariant.

Local Open Scope Z_scope.
Local Open Scope record_scope.

Section CpuState.
Context {P : Platform}.

(** ** The big lock (softmmu/cpus.c) *)

Definition qemu_mutex_iothread_locked : M bool := gets iothread_locked.

Definition qemu_mutex_lock_iothread : M unit :=
  b ← qemu_mutex_iothread_locked;
  ASSERT (negb b) "assertion failed: (!qemu_mutex_iothread_locked())" ;;
  modify (fun w => w <| iothread_locked := true |>).

Definition qemu_mutex_unlock_iothread : M unit :=
  b ← qemu_mutex_iothread_locked;
  ASSERT b "assertion failed: (qemu_mutex_iothread_locked())" ;;
  modify (fun w => w <| iothread_locked := false |>).

(** ** The list of CPUs (cpus-common.c) *)

(** [CPU_FOREACH(cpu)] *)
Definition CPU_FOREACH (body : Z -> M unit) : M unit :=
  l ← gets cpu_list; foreach l body.

Definition qemu_get_cpu (index : Z) : M (option Z) :=
  l ← gets cpu_list;
  mret (if decide (index ∈ l) then Some index else None).

(** ** state.c *)

Definition qcsched_cpu_transition (cpu : Z) (from to : qcsched_cpu_state) : M bool :=
  b ← qemu_mutex_iothread_locked;
  ASSERT b "assertion failed: (qemu_mutex_iothread_locked())" ;;
  cur ← get_cpu_state cpu;
  if negb (bool_decide (cur = from)) then mret false else
  set_cpu_state cpu to ;; mret true.

Definition cpu_is_used (cpu : Z) : M bool :=
  n ← sched_ nr_cpus; mret ((1 <=? cpu) && (cpu <? 1 + n)).

Definition qcsched_check_cpu_state (cpu : Z) (state : qcsched_cpu_state) : M bool :=
  cur ← get_cpu_state cpu; mret (cpu_state_code state <=? cpu_state_code cur).

Fixpoint check_cpus (l : list Z) (state : qcsched_cpu_state) : M bool :=
  match l with
  | [] => mret true
  | cpu :: l' =>
      u ← cpu_is_used cpu;
      if negb u then check_cpus l' state else
      ok ← qcsched_check_cpu_state cpu state;
      if negb ok then mret false else check_cpus l' state
  end.

Definition qcsched_check_all_cpu_state (state : qcsched_cpu_state) : M bool :=
  b ← qemu_mutex_iothread_locked;
  ASSERT b "assertion failed: (qemu_mutex_iothread_locked())" ;;
  l ← gets cpu_list; check_cpus l state.

Definition qcsched_set_cpu_state (cpu : Z) (state : qcsched_cpu_state) : M unit :=
  set_cpu_state cpu state.

(** ** cookie.c *)

Inductive qcsched_cookie : Type := cookie_hcall | cookie_breakpoint | cookie_timer.

Definition qcsched_eat_cookie (cpu : Z) (type : qcsched_cookie) : M unit :=
  match type with
  | cookie_hcall => upd_cpu cpu (fun c => c <| hcall_cookie ::= fun n => u64 (n + 1) |>)
  | cookie_breakpoint => upd_cpu cpu (fun c => c <| breakpoint_cookie ::= fun n => u64 (n + 1) |>)
  | cookie_timer => upd_cpu cpu (fun c => c <| timer_cookie ::= fun n => u64 (n + 1) |>)
  end.
End CpuState.

(** ** Safety *)
Section CpuStateSafe.
Context {P : Platform} (L : list Z) `{!Small L} (cpu : Z).

Lemma safe_qemu_mutex_iothread_locked :
  safe L cpu qemu_mutex_iothread_locked (fun b => b = true).
Proof. apply safe_iothread_locked. Qed.

Lemma safe_CPU_FOREACH body :
  (forall c, c ∈ L -> safe L cpu (body c) (fun _ => True)) ->
  safe L cpu (CPU_FOREACH body) (fun _ => True).
Proof. intros Hb. eapply safe_bind; [apply safe_cpu_list|]. intros l ->. by apply safe_foreach. Qed.

Lemma safe_qemu_get_cpu i :
  safe L cpu (qemu_get_cpu i) (fun r => match r with Some c => c ∈ L | None => True end).
Proof.
  eapply safe_bind; [apply safe_cpu_list|]. intros l ->. apply safe_ret. by case_decide.
Qed.

Lemma safe_qcsched_cpu_transition c f t :
  0 <= c < MAX_CPUS -> safe L cpu (qcsched_cpu_transition c f t) (fun _ => True).
Proof.
  intros Hc. unfold qcsched_cpu_transition.
  eapply safe_bind; [apply safe_qemu_mutex_iothread_locked|]. intros b ->.
  eapply safe_bind; [by apply safe_ASSERT_true|]. intros _ _. safe_auto.
Qed.

Lemma safe_cpu_is_used c : safe L cpu (cpu_is_used c) (fun _ => True).
Proof. unfold cpu_is_used. safe_auto. Qed.

Lemma safe_qcsched_check_cpu_state c s :
  0 <= c < MAX_CPUS -> safe L cpu (qcsched_check_cpu_state c s) (fun _ => True).
Proof. intros. unfold qcsched_check_cpu_state. safe_auto. Qed.

Lemma safe_check_cpus l s :
  (forall c, c ∈ l -> 0 <= c < MAX_CPUS) -> safe L cpu (check_cpus l s) (fun _ => True).
Proof.
  induction l as [|c l IH]; intros Hl; [by apply safe_ret|].
  assert (safe L cpu (check_cpus l s) (fun _ => True)) by (apply IH; set_solver).
  pose proof (Hl c ltac:(set_solver)). cbn [check_cpus].
  eapply safe_bind; [apply safe_cpu_is_used|]. intros u _. destruct (negb u); [done|].
  eapply safe_bind; [by apply safe_qcsched_check_cpu_state|]. intros ok _.
  destruct (negb ok); [by apply safe_ret|done].
Qed.

Lemma safe_qcsched_check_all_cpu_state s :
  safe L cpu (qcsched_check_all_cpu_state s) (fun _ => True).
Proof.
  eapply safe_bind; [apply safe_qemu_mutex_iothread_locked|]. intros b ->.
  eapply safe_bind; [by apply safe_ASSERT_true|]. intros _ _.
  eapply safe_bind; [apply safe_cpu_list|]. intros l ->.
  apply safe_check_cpus, small_range.
Qed.

Lemma safe_qcsched_eat_cookie c t :
  c ∈ L -> safe L cpu (qcsched_eat_cookie c t) (fun _ => True).
Proof. intros. destruct t; by apply safe_upd_cpu. Qed.

(** Entering and leaving the critical section. *)
Lemma wp_lock_iothread E (Q : unit -> machine -> Prop) w :
  outside L cpu w -> (forall w', inside L cpu w' -> Q tt w') ->
  wp E qemu_mutex_lock_iothread Q w.
Proof.
  intros [[] Hs Hl] HQ. apply wp_bind, wp_gets. rewrite Hl. apply wp_bind, wp_ret, wp_modify, HQ.
  split; [split|..]; done.
Qed.

Lemma wp_unlock_iothread E (Q : unit -> machine -> Prop) w :
  inside L cpu w -> (forall w', outside L cpu w' -> Q tt w') ->
  wp E qemu_mutex_unlock_iothread Q w.
Proof.
  intros [[] Hs Hl] HQ. apply wp_bind, wp_gets. rewrite Hl. apply wp_bind, wp_ret, wp_modify, HQ.
  split; [split|..]; done.
Qed.
End CpuStateSafe.

(** ** Code outside the critical sections *)
Section OutsideSafe.
Context {P : Platform} (L : list Z) (cpu : Z).

Definition osafe {A} (m : M A) (R : A -> Prop) : Prop :=
  forall w, outside L cpu w -> wp disciplined m (fun a w' => outside L cpu w' /\ R a) w.

Lemma osafe_ret {A} (a : A) (R : A -> Prop) : R a -> osafe (mret a) R.
Proof. intros Ha w Hw. by apply wp_ret. Qed.

Lemma osafe_bind {A B} (m : M A) (f : A -> M B) (R : A -> Prop) (R' : B -> Prop) :
  osafe m R -> (forall a, R a -> osafe (f a) R') -> osafe (m ≫= f) R'.
Proof.
  intros Hm Hf w Hw. apply wp_bind. eapply wp_mono; [by apply Hm|].
  intros a w' [Hw' Ha]. by apply Hf.
Qed.

Lemma osafe_gets {A} (f : machine -> A) : osafe (gets f) (fun _ => True).
Proof. intros w Hw. by apply wp_gets. Qed.

Lemma osafe_modify (f : machine -> machine) :
  (forall w, outside L cpu w -> outside L cpu (f w)) -> osafe (modify f) (fun _ => True).
Proof. intros Hf w Hw. apply wp_modify. auto. Qed.

Lemma osafe_ASSERT cond msg :
  disciplined msg -> osafe (ASSERT cond msg) (fun _ => True).
Proof. intros Hm w Hw. by apply wp_ASSERT. Qed.

Lemma osafe_get_cpu c : c ∈ L -> osafe (get_cpu c) (fun _ => True).
Proof.
  intros Hc w Hw. apply wp_bind, wp_gets, wp_deref.
  destruct (wf_cpus _ _ (out_wf _ _ _ Hw) c Hc) as [x Hx]. eauto.
Qed.

Lemma osafe_upd_cpu c f : c ∈ L -> osafe (upd_cpu c f) (fun _ => True).
Proof.
  intros Hc. eapply osafe_bind; [by apply osafe_get_cpu|]. intros x _.
  apply osafe_modify. intros w [[] ? ?]. split; [split|..]; simpl; auto.
  intros d Hd. destruct (decide (c = d)) as [<-|].
  - rewrite lookup_insert_eq. eauto.
  - rewrite lookup_insert_ne by done. auto.
Qed.

Lemma osafe_current_cpu : osafe (gets current_cpu) (fun c => c = cpu).
Proof. intros w Hw. apply wp_gets. split; [done|]. apply Hw. Qed.

Lemma osafe_get_exec k : 0 <= k < MAX_CPUS -> osafe (get_exec k) (fun _ => True).
Proof.
  intros Hk w Hw. apply wp_bind, wp_gets, wp_deref.
  destruct (proj2 (aget_is_Some (infos w) k)) as [x Hx]; [|eauto].
  rewrite (wf_infos _ _ (out_wf _ _ _ Hw)). clia.
Qed.

(** A critical section: [m] runs with the lock held. *)
Lemma osafe_section {A B} (m : M A) (f : A -> M B) (R : A -> Prop) (R' : B -> Prop) :
  safe L cpu m R -> (forall a, R a -> osafe (f a) R') ->
  osafe (qemu_mutex_lock_iothread ;; a ← m; qemu_mutex_unlock_iothread ;; f a) R'.
Proof.
  intros Hm Hf w Hw. apply wp_bind. eapply wp_lock_iothread; [done|]. intros w1 Hw1.
  apply wp_bind. eapply wp_mono; [by apply Hm|]. intros a w2 [Hw2 Ha].
  apply wp_bind. eapply wp_unlock_iothread; [done|]. intros w3 Hw3. by apply Hf.
Qed.
End OutsideSafe.

#[export] Hint Resolve safe_qemu_mutex_iothread_locked safe_qemu_get_cpu
  safe_qcsched_cpu_transition safe_cpu_is_used safe_qcsched_check_cpu_state
  safe_qcsched_check_all_cpu_state safe_qcsched_eat_cookie : safe.
