(* ===== verification/Vmi.v ===== *)
(** * Virtual machine introspection: what runs on a vCPU

    The part of [qcsched/vmi.c] that reads the guest: the current task, the
    preemption count, and the lock information; the hypercalls that update
    [vmi_info] are in [VmiHint]. *)

From stdpp Require Import base list gmap strings.
From Stdlib Require Import ZArith Lia.
From S2P Require Import Prelude Machine Invariant GuestMem.

Local Open Scope Z_scope.
Local Open Scope record_scope.

(** ** vmi.h *)

Definition PREEMPT_BITS : Z := 8.
Definition SOFTIRQ_BITS : Z := 8.
Definition HARDIRQ_BITS : Z := 4.
Definition NMI_BITS : Z := 4.
Definition PREEMPT_SHIFT : Z := 0.
Definition SOFTIRQ_SHIFT : Z := PREEMPT_SHIFT + PREEMPT_BITS.
Definition HARDIRQ_SHIFT : Z := SOFTIRQ_SHIFT + SOFTIRQ_BITS.
Definition NMI_SHIFT : Z := HARDIRQ_SHIFT + HARDIRQ_BITS.
Definition IRQ_MASK (x : Z) : Z := Z.shiftl 1 x - 1.
Definition SOFTIRQ_MASK : Z := Z.shiftl (IRQ_MASK SOFTIRQ_BITS) SOFTIRQ_SHIFT.
Definition HARDIRQ_MASK : Z := Z.shiftl (IRQ_MASK HARDIRQ_BITS) HARDIRQ_SHIFT.
Definition NMI_MASK : Z := Z.shiftl (IRQ_MASK NMI_BITS) NMI_SHIFT.
Definition SOFTIRQ_OFFSET : Z := Z.shiftl 1 SOFTIRQ_SHIFT.

Section Vmi.
Context {P : Platform}.

(** ** The running task *)

Definition vmi_same_task (t0 t1 : qcsched_vmi_task) : bool :=
  task_struct t0 =? task_struct t1.

Definition current_task (cpu : Z) : M Z :=
  v ← vmi_ id;
  off ← deref "vmi_info.__per_cpu_offset" (aget (per_cpu_offset v) cpu);
  if off =? 0 then mret 0 else
  let pcpu_ptr := u64 (off + vmi_current_task v) in
  r ← read_guest cpu pcpu_ptr 8;
  ASSERT (r.1 =? 0) "Can't read pcpu section" ;;
  mret r.2.

Definition vmi_task (cpu : Z) : M qcsched_vmi_task :=
  task ← current_task cpu; mret (mk_task task).

Definition vmi_scheduling_subject (t0 : qcsched_vmi_task) : M bool :=
  r ← find_entry 0 (fun _ e => vmi_same_task t0 (t e));
  mret (match r with Some _ => true | None => false end).

(** ** The execution context *)

Definition vmi__preempt_count (cpu : Z) : M Z :=
  v ← vmi_ id;
  off ← deref "vmi_info.__per_cpu_offset" (aget (per_cpu_offset v) cpu);
  if off =? 0 then mret 0 else
  let pcpu_ptr := u64 (off + preempt_count v) in
  r ← read_guest cpu pcpu_ptr 4;
  ASSERT (r.1 =? 0) "Can't read pcpu section" ;;
  mret r.2.

(** The bits of the preemption count that say what kind of code runs. *)
Definition preempt_count_in_task (c : Z) : bool :=
  let in_nmi := negb (Z.land c NMI_MASK =? 0) in
  let in_hardirq := negb (Z.land c HARDIRQ_MASK =? 0) in
  let in_serving_softirq := negb (Z.land (Z.land c SOFTIRQ_MASK) SOFTIRQ_OFFSET =? 0) in
  negb (in_nmi || in_hardirq || in_serving_softirq).

Definition qcsched_vmi_in_task (cpu : Z) : M bool :=
  c ← vmi__preempt_count cpu; mret (preempt_count_in_task c).

Definition qcsched_vmi_running_context_being_scheduled (cpu : Z) (task_only : bool) : M bool :=
  running ← vmi_task cpu;
  ret ← vmi_scheduling_subject running;
  if task_only then
    if (ret : bool) then qcsched_vmi_in_task cpu else mret false
  else mret ret.

(** [entry] points one past the array when [sched.current] is
    [MAX_SCHEDPOINTS]; it is dereferenced only if the running task is one of
    the scheduled ones. *)
Definition qcsched_vmi_can_progress (cpu : Z) : M bool :=
  running ← vmi_task cpu;
  subject ← vmi_scheduling_subject running;
  if negb subject then mret true else
  cur ← sched_ current;
  entry ← get_entry cur;
  if vmi_same_task running (t entry) then mret true else
  s ← sched_ id;
  if total s =? current s then mret true else
  c ← get_cpu cpu;
  mret (qcsched_force_wakeup c || negb (activated s)).

(** ** Lock contention *)

Definition lock_contending (l0 l1 : qcsched_vmi_lock) : bool :=
  if negb (lockdep_addr l0 =? lockdep_addr l1) then false
  else if negb (trylock l0 =? 0) || negb (trylock l1 =? 0) then false
  else if negb (read l0 =? 0) && negb (read l1 =? 0) then false
  else true.

(** Two nested loops over the first [count] locks of each CPU. *)
Definition vmi_lock_info_contending (li0 li1 : qcsched_vmi_lock_info) : bool :=
  existsb (fun l0 => existsb (lock_contending l0) (take (Z.to_nat (li_count li1)) (acquired li1)))
    (take (Z.to_nat (li_count li0)) (acquired li0)).

Definition qcsched_vmi_lock_contending (cpu0 cpu1 : Z) : M bool :=
  if cpu0 =? cpu1 then mret false else
  li0 ← get_lock_info cpu0;
  li1 ← get_lock_info cpu1;
  mret (vmi_lock_info_contending li0 li1).

Definition qcsched_vmi_lock_info_reset (cpu : Z) : M unit :=
  li ← get_lock_info cpu; set_lock_info cpu (li <| li_count := 0 |>).
End Vmi.

(** ** Safety *)
Section VmiSafe.
Context {P : Platform} (L : list Z) `{!Small L} (cpu : Z) `{!MemLaws}.

(** A word of the per-CPU section of CPU [c]. *)
Lemma safe_pcpu_read c (f : qcsched_vmi_info -> Z) n :
  0 <= c < MAX_CPUS ->
  safe L cpu
    (v ← vmi_ id;
     off ← deref "vmi_info.__per_cpu_offset" (aget (per_cpu_offset v) c);
     if off =? 0 then mret 0 else
     let pcpu_ptr := u64 (off + f v) in
     r ← read_guest c pcpu_ptr n;
     ASSERT (r.1 =? 0) "Can't read pcpu section" ;;
     mret r.2) (fun _ => True).
Proof.
  intros Hc. eapply safe_bind; [apply safe_vmi_id|]. intros v [].
  eapply safe_bind; [apply safe_deref_aget; clia|]. intros off _. cbv zeta. safe_auto.
Qed.

Lemma safe_current_task c : 0 <= c < MAX_CPUS -> safe L cpu (current_task c) (fun _ => True).
Proof. apply safe_pcpu_read. Qed.

Lemma safe_vmi__preempt_count c :
  0 <= c < MAX_CPUS -> safe L cpu (vmi__preempt_count c) (fun _ => True).
Proof. apply safe_pcpu_read. Qed.

Lemma safe_vmi_task c : 0 <= c < MAX_CPUS -> safe L cpu (vmi_task c) (fun _ => True).
Proof. intros. eapply safe_bind; [by apply safe_current_task|]. intros. by apply safe_ret. Qed.

Lemma safe_vmi_scheduling_subject t0 : safe L cpu (vmi_scheduling_subject t0) (fun _ => True).
Proof. unfold vmi_scheduling_subject. safe_auto. Qed.

Lemma safe_qcsched_vmi_in_task c :
  0 <= c < MAX_CPUS -> safe L cpu (qcsched_vmi_in_task c) (fun _ => True).
Proof. intros. eapply safe_bind; [by apply safe_vmi__preempt_count|]. intros. by apply safe_ret. Qed.

Lemma safe_running_context c b :
  0 <= c < MAX_CPUS ->
  safe L cpu (qcsched_vmi_running_context_being_scheduled c b) (fun _ => True).
Proof.
  intros. eapply safe_bind; [by apply safe_vmi_task|]. intros r _.
  eapply safe_bind; [apply safe_vmi_scheduling_subject|]. intros ret _.
  destruct b, ret; solve [by apply safe_ret | by apply safe_qcsched_vmi_in_task].
Qed.

Lemma safe_qcsched_vmi_can_progress c :
  c ∈ L -> safe L cpu (qcsched_vmi_can_progress c) (fun _ => True).
Proof.
  intros Hc. pose proof (small_range c Hc). eapply safe_bind; [by apply safe_vmi_task|].
  intros r _. eapply safe_bind; [apply safe_vmi_scheduling_subject|]. intros sub _. safe_auto.
Qed.

Lemma safe_qcsched_vmi_lock_contending c0 c1 :
  0 <= c0 < MAX_CPUS -> 0 <= c1 < MAX_CPUS ->
  safe L cpu (qcsched_vmi_lock_contending c0 c1) (fun _ => True).
Proof. intros. unfold qcsched_vmi_lock_contending. safe_auto. Qed.

Lemma safe_qcsched_vmi_lock_info_reset c :
  0 <= c < MAX_CPUS -> safe L cpu (qcsched_vmi_lock_info_reset c) (fun _ => True).
Proof.
  intros. eapply safe_bind; [by apply safe_get_lock_info|]. intros li [].
  apply safe_set_lock_info; [done|]. split; [done|simpl; clia].
Qed.
End VmiSafe.

#[export] Hint Resolve safe_vmi_task safe_qcsched_vmi_in_task safe_running_context
  safe_qcsched_vmi_can_progress safe_qcsched_vmi_lock_contending
  safe_qcsched_vmi_lock_info_reset : safe.
