(* ===== verification/Window.v ===== *)
(** * Schedpoint windows

    [qcsched/window.c].  A schedule is an array of scheduling points in the
    order in which they must be hit; each belongs to a vCPU.  A vCPU has fewer
    hardware breakpoints than scheduling points, so it installs breakpoints
    only for a window [from, until) of its own points.

    A pointer to an entry is its index in [sched.entries]; a pointer to a
    window is the index of its CPU in [sched.schedpoint_window]. *)

From stdpp Require Import base list gmap strings.
From Stdlib Require Import ZArith Lia.
From S2P Require Import Prelude Machine Invariant KvmDebug CpuState GuestMem Vmi.

Local Open Scope Z_scope.
Local Open Scope record_scope.

Definition schedpoint_window_full (x : qcsched_schedpoint_window) : bool :=
  w_activated x =? SCHEDPOINT_WINDOW_SIZE.
Definition schedpoint_window_empty (x : qcsched_schedpoint_window) : bool :=
  w_activated x =? 0.

(** The tests of the two lookup loops. *)
Definition entry_on_cpu (cpu : option Z) (e : qcsched_entry) : bool :=
  match cpu with None => true | Some c => e_cpu e =? c end.
Definition entry_missed (e : qcsched_entry) : bool :=
  bool_decide (footprint (schedpoint e) = footprint_missed).

Section Window.
Context {P : Platform} {I : Interference}.

(** ** Lookups *)

Definition lookup_entry_by_order (cpu : option Z) (from : Z) : M (option Z) :=
  if from =? END_OF_SCHEDPOINT_WINDOW then mret None else
  find_entry from (fun _ e => entry_on_cpu cpu e && negb (entry_missed e)).

Definition lookup_entry_by_address (cpu : Z) (inst : Z) : M (option Z) :=
  x ← get_window cpu;
  if w_from x =? END_OF_SCHEDPOINT_WINDOW then mret None else
  find_entry (w_from x) (fun _ e => entry_on_cpu (Some cpu) e && (addr (schedpoint e) =? inst)).

Definition entry_order (i : Z) : M Z := e ← get_entry i; mret (order (schedpoint e)).

Definition next_valid_order_of (cpu : option Z) (order : Z) : M Z :=
  entry ← lookup_entry_by_order cpu (order + 1);
  match entry with
  | None => sched_ total
  | Some i => entry_order i
  end.

(** ** Expanding a window *)

Definition qcsched_window_activate_entry (cpu k i : Z) : M unit :=
  x ← get_window k;
  ASSERT (negb (schedpoint_window_full x)) "Schedpoint window is full" ;;
  e ← get_entry i;
  if addr (schedpoint e) =? QCSCHED_DUMMY_BREAKPOINT then mret tt else
  if installed (breakpoint e) then mret tt else
  err ← kvm_insert_breakpoint_cpu cpu (addr (schedpoint e)) 1 GDB_BREAKPOINT_HW;
  ASSERT (err =? 0) "failed to insert a breakpiont at a scheduling point" ;;
  upd_entry i (fun e => e <| breakpoint ::= set installed (fun _ => true) |>) ;;
  upd_window k (fun x => x <| w_activated ::= Z.succ |>).

Definition qcsched_window_expand_window_1 (cpu k : Z) : M unit :=
  x ← get_window k;
  entry ← lookup_entry_by_order (Some cpu) (w_until x);
  match entry with
  | None => mret tt
  | Some i =>
      o ← entry_order i;
      (if schedpoint_window_empty x
       then upd_window k (fun x => x <| w_from := o |>) else mret tt) ;;
      qcsched_window_activate_entry cpu k i ;;
      o ← entry_order i;
      next ← lookup_entry_by_order (Some cpu) (o + 1);
      match next with
      | Some j => o' ← entry_order j; upd_window k (fun x => x <| w_until := o' |>)
      | None => upd_window k (fun x => x <| w_until := END_OF_SCHEDPOINT_WINDOW |>)
      end
  end.

Definition qcsched_window_expand_window_n (cpu n : Z) : M unit :=
  for_loop 0 (fun i => x ← get_window cpu; mret ((i <? n) && negb (schedpoint_window_full x)))
    (fun _ => qcsched_window_expand_window_1 cpu cpu).

Definition qcsched_window_expand_window (cpu : Z) : M unit :=
  qcsched_window_expand_window_n cpu SCHEDPOINT_WINDOW_SIZE.

(** ** Footprints *)

Definition qcsched_window_leave_footprint_at (cpu : Z) (f : qcschedpoint_footprint)
    (order : Z) : M unit :=
  n ← sched_ total;
  if n <=? order then mret tt else
  e ← get_entry order;
  if negb (e_cpu e =? cpu) then mret tt else
  let f := if addr (schedpoint e) =? QCSCHED_DUMMY_BREAKPOINT then footprint_hit else f in
  upd_entry order (fun e => e <| schedpoint ::= set footprint (fun _ => f) |>).

Definition qcsched_window_leave_footprint (cpu : Z) (f : qcschedpoint_footprint) : M unit :=
  x ← get_window cpu;
  qcsched_window_leave_footprint_at cpu f (w_from x).

(** ** Shrinking a window *)

Definition qcsched_window_deactivate_entry_remote (cpu k i : Z) : M unit :=
  x ← get_window k;
  o ← entry_order i;
  if (w_left_behind x =? END_OF_SCHEDPOINT_WINDOW) || (o <? w_left_behind x)
  then upd_window k (fun x => x <| w_left_behind := o |>)
  else mret tt.

Definition qcsched_window_deactivate_entry_local (cpu k i : Z) : M unit :=
  self ← gets current_cpu;
  ASSERT (cpu =? self) "cpu != current_cpu" ;;
  e ← get_entry i;
  err ← kvm_remove_breakpoint_cpu cpu (addr (schedpoint e)) 1 GDB_BREAKPOINT_HW;
  ASSERT ((err =? 0) || (err =? - ENOENT))
    "failed to remove a breakpiont at a scheduling point" ;;
  upd_entry i (fun e => e <| breakpoint ::= set installed (fun _ => false) |>) ;;
  upd_window k (fun x => x <| w_activated ::= Z.pred |>).

Definition qcsched_window_deactivate_entry (cpu k i : Z) : M unit :=
  x ← get_window k;
  e ← get_entry i;
  ASSERT (w_cpu x =? e_cpu e) "window and entry have a different CPU index" ;;
  if negb (installed (breakpoint e)) then mret tt else
  ASSERT (negb (schedpoint_window_empty x)) "Schedpoint window is empty" ;;
  if negb (cpu =? e_cpu e)
  then qcsched_window_deactivate_entry_remote cpu k i
  else qcsched_window_deactivate_entry_local cpu k i.

Definition do_shrink_entry (cpu k i : Z) : M unit :=
  e ← get_entry i;
  (if installed (breakpoint e) then qcsched_window_deactivate_entry cpu k i else mret tt) ;;
  o ← entry_order i;
  x ← get_window k;
  if o <? w_from x then
    ASSERT (w_from x <=? w_until x) "!(window->from <= window->until)"
  else
    cpu0 ← qemu_get_cpu (w_cpu x);
    next ← lookup_entry_by_order cpu0 (w_from x + 1);
    from ← match next with
           | Some j => entry_order j
           | None => mret END_OF_SCHEDPOINT_WINDOW
           end;
    upd_window k (fun x => x <| w_from := from |>) ;;
    x ← get_window k;
    if w_until x <? w_from x
    then upd_window k (fun x => x <| w_until := w_from x |>)
    else mret tt.

Definition qcsched_window_shrink_before_entry (cpu k until : Z) : M unit :=
  x ← get_window k;
  for_loop (w_from x) (fun i => o ← entry_order until; mret (i <? o))
    (fun i =>
       e ← get_entry i;
       x ← get_window k;
       if negb (e_cpu e =? w_cpu x) then mret tt else do_shrink_entry cpu k i) ;;
  o ← entry_order until;
  x ← get_window k;
  ASSERT (o =? w_from x) "still entry is not the first activated entry of the window".

Definition qcsched_window_shrink_entry (cpu k i : Z) : M unit :=
  x ← get_window k;
  e ← get_entry i;
  ASSERT (w_cpu x =? e_cpu e) "window and entry have a different CPU index" ;;
  (if w_from x <? order (schedpoint e)
   then qcsched_window_shrink_before_entry cpu k i else mret tt) ;;
  do_shrink_entry cpu k i.

Definition qcsched_window_shrink_window_1 (cpu k : Z) : M unit :=
  x ← get_window k;
  entry ← lookup_entry_by_order (Some cpu) (w_from x);
  match entry with
  | None => mret tt
  | Some i => qcsched_window_shrink_entry cpu k i
  end.

Definition qcsched_window_shrink_window_n (cpu n : Z) : M unit :=
  for_loop 0 (fun i => x ← get_window cpu; mret ((i <? n) && negb (schedpoint_window_empty x)))
    (fun _ => qcsched_window_shrink_window_1 cpu cpu).

Definition qcsched_window_shrink_window (cpu : Z) : M unit :=
  qcsched_window_shrink_window_n cpu 1.

(** ** Closing a window *)

Definition close_entry (cpu order : Z) : M unit :=
  e ← get_entry order;
  if negb (e_cpu e =? cpu) then mret tt else
  if negb (bool_decide (footprint (schedpoint e) = footprint_preserved)) then mret tt else
  if installed (breakpoint e) then
    qcsched_window_leave_footprint_at cpu footprint_missed order ;;
    qcsched_window_deactivate_entry cpu cpu order
  else
    qcsched_window_leave_footprint_at cpu footprint_not_addressed order.

Definition qcsched_window_close_window (cpu : Z) : M unit :=
  for_loop 0 (fun order => n ← sched_ total; mret (order <? n)) (close_entry cpu) ;;
  upd_window cpu (fun x =>
    x <| w_from := END_OF_SCHEDPOINT_WINDOW |> <| w_until := END_OF_SCHEDPOINT_WINDOW |>
      <| w_left_behind := END_OF_SCHEDPOINT_WINDOW |> <| w_total := 0 |>) ;;
  x ← get_window cpu;
  ASSERT (w_activated x =? 0) "window still contains activated entries after closing".

Definition qcsched_window_window_closed (x : qcsched_schedpoint_window) : bool :=
  w_total x =? 0.

(** ** Missed and left-behind schedpoints *)

Definition prune_entry (cpu order : Z) : M unit :=
  e ← get_entry order;
  if entry_missed e then mret tt else
  window0 ← get_window (e_cpu e);
  if qcsched_window_window_closed window0 then mret tt else
  o ← entry_order order;
  qcsched_window_leave_footprint_at cpu footprint_missed o ;;
  qcsched_window_shrink_entry cpu (e_cpu e) order.

Definition qcsched_window_prune_missed_schedpoint (cpu : Z) : M unit :=
  rip ← RIP cpu;
  hit ← lookup_entry_by_address cpu rip;
  x ← get_window cpu;
  legit ← lookup_entry_by_order (Some cpu) (w_from x);
  match legit, hit with
  | Some legit, Some hit =>
      o ← entry_order hit;
      x ← get_window cpu;
      ASSERT (w_from x <=? o) "stale schedpoint" ;;
      if hit =? legit then mret tt else
      start ← entry_order legit;
      for_loop start (fun order => o ← entry_order hit; mret (order <? o)) (prune_entry cpu)
  | _, _ =>
      qcsched_window_close_window cpu ;;
      err ← kvm_update_guest_debug cpu 0;
      ASSERT (err =? 0) "kvm_update_guest_debug_debug"
  end.

(** One round of the clean-up loop; [inl]: the next order to look at. *)
Definition cleanup_step (cpu i : Z) : M (Z + unit) :=
  x ← get_window cpu;
  if negb (i <? w_from x) then mret (inr tt) else
  entry ← lookup_entry_by_order (Some cpu) i;
  match entry with
  | None => mret (inr tt)
  | Some j =>
      e ← get_entry j;
      (if installed (breakpoint e) then
         qcsched_window_leave_footprint_at cpu footprint_dropped i ;;
         qcsched_window_deactivate_entry cpu cpu j
       else mret tt) ;;
      o ← entry_order j;
      next ← lookup_entry_by_order (Some cpu) (o + 1);
      match next with
      | None => mret (inr tt)
      | Some n => o' ← entry_order n; mret (inl o')
      end
  end.

Definition qcsched_window_cleanup_left_schedpoint (cpu : Z) : M unit :=
  b ← qemu_mutex_iothread_locked;
  ASSERT b "iothread mutex is not locked" ;;
  x ← get_window cpu;
  loop (S (S (Z.to_nat MAX_SCHEDPOINTS))) (cleanup_step cpu) (w_left_behind x) ;;
  upd_window cpu (fun x => x <| w_left_behind := END_OF_SCHEDPOINT_WINDOW |>).

Definition qcsched_window_sync (cpu : Z) : M unit :=
  x ← get_window cpu;
  cur ← sched_ current;
  if cur <=? w_from x then mret tt else
  let left_behind := w_from x in
  entry ← lookup_entry_by_order (Some cpu) cur;
  from ← match entry with
         | None => mret END_OF_SCHEDPOINT_WINDOW
         | Some i => entry_order i
         end;
  upd_window cpu (fun x => x <| w_from := from |>) ;;
  upd_window cpu (fun x =>
    if w_until x <? w_from x then x <| w_until := w_from x |> else x) ;;
  upd_window cpu (fun x =>
    if left_behind <? w_left_behind x then x <| w_left_behind := left_behind |> else x).

Definition qcsched_window_hit_stale_schedpoint (cpu : Z) : M bool :=
  rip ← RIP cpu;
  hit ← lookup_entry_by_address cpu rip;
  match hit with
  | None => mret true
  | Some i => o ← entry_order i; x ← get_window cpu; mret (o <? w_from x)
  end.

(** ** Moving the focus *)

Definition forward_focus (cpu step : Z) : M unit :=
  cur ← sched_ current;
  let current' := cur + step in
  _ ← get_entry current';
  upd_sched (set current (fun _ => current')).

(** The first other CPU that is activated, in list order. *)
Fixpoint first_activated (cpu : Z) (l : list Z) : M (option Z) :=
  match l with
  | [] => mret None
  | c :: l' =>
      if negb (c =? cpu) then
        s ← get_cpu_state c;
        if bool_decide (s = qcsched_cpu_activated) then mret (Some c)
        else first_activated cpu l'
      else first_activated cpu l'
  end.

Definition get_next_cpu (cpu : Z) (entry : option Z) : M (option Z) :=
  match entry with
  | None => l ← gets cpu_list; first_activated cpu l
  | Some i => e ← get_entry i; qemu_get_cpu (e_cpu e)
  end.

Definition hand_over_baton_from (cpu order : Z) : M unit :=
  next_cpu ← get_next_cpu cpu None;
  next_order ← next_valid_order_of next_cpu order;
  cur ← sched_ current;
  forward_focus cpu (next_order - cur).

Definition qcsched_window_lock_contending (cpu : Z) : M bool :=
  cur ← sched_ current;
  entry ← lookup_entry_by_order None (cur + 1);
  act ← qcsched_check_cpu_state cpu qcsched_cpu_activated;
  if negb act then mret false else
  deact ← qcsched_check_cpu_state cpu qcsched_cpu_deactivated;
  if (deact : bool) then mret false else
  next_cpu ← get_next_cpu cpu entry;
  match next_cpu with
  | None => mret false
  | Some c => if c =? cpu then mret false else qcsched_vmi_lock_contending cpu c
  end.

Definition qcsched_window_consecutive_schedpoint (cpu current_order : Z) : M bool :=
  next_order ← next_valid_order_of None current_order;
  n ← sched_ total;
  if next_order =? n then mret true else
  entry ← lookup_entry_by_order None next_order;
  match entry with
  | None => mret true
  | Some i => e ← get_entry i; mret (e_cpu e =? cpu)
  end.
End Window.

(** Entry [i] of [w'] has the order, the CPU and the address it has in [w]. *)
Definition entry_shape (e : qcsched_entry) : Z * Z * Z :=
  (order (schedpoint e), e_cpu e, addr (schedpoint e)).
Definition same_shape `{P : Platform} (w w' : machine) : Prop :=
  total (sched w') = total (sched w) /\
  forall i, entry_shape <$> aget (entries (sched w')) i =
            entry_shape <$> aget (entries (sched w)) i.

(** ** Lookups *)
Section Lookups.
Context {P : Platform}.

Lemma lookup_entry_by_order_first c from (w : machine) :
  sched_ok (sched w) -> 0 <= from ->
  exists r, lookup_entry_by_order c from w = Ret r w /\
    first_from (sched w) from (fun _ e => entry_on_cpu c e && negb (entry_missed e)) r.
Proof.
  intros Hw Hf. unfold lookup_entry_by_order.
  destruct (Z.eqb_spec from END_OF_SCHEDPOINT_WINDOW) as [->|]; [|by apply find_entry_spec].
  exists None. split; [done|]. split; [|done]. simpl.
  pose proof (total_range _ Hw). intros j e Hj. clia.
Qed.

Lemma lookup_entry_by_address_first c inst x (w : machine) :
  sched_ok (sched w) -> aget (schedpoint_window (sched w)) c = Some x ->
  exists r, lookup_entry_by_address c inst w = Ret r w /\
    first_from (sched w) (w_from x)
      (fun _ e => entry_on_cpu (Some c) e && (addr (schedpoint e) =? inst)) r.
Proof.
  intros Hw Hx. unfold lookup_entry_by_address, mbind, prog_bind.
  rewrite (get_window_ret c x) by done. destruct (windows_ok _ Hw _ _ Hx) as (? & _).
  destruct (Z.eqb_spec (w_from x) END_OF_SCHEDPOINT_WINDOW) as [->|]; [|by apply find_entry_spec].
  exists None. split; [done|]. split; [|done]. simpl.
  pose proof (total_range _ Hw). intros j e Hj. clia.
Qed.

Lemma entry_order_ret i e (w : machine) :
  aget (entries (sched w)) i = Some e -> entry_order i w = Ret (order (schedpoint e)) w.
Proof. intros H. unfold entry_order, mbind, prog_bind. by rewrite (get_entry_ret i e). Qed.

Lemma same_shape_refl (w : machine) : same_shape w w.
Proof. by split. Qed.

Lemma same_shape_trans (w1 w2 w3 : machine) :
  same_shape w1 w2 -> same_shape w2 w3 -> same_shape w1 w3.
Proof. intros [H1 H2] [H3 H4]. split; [congruence|]. intros i. by rewrite H4, H2. Qed.

Lemma same_shape_sched (w w' : machine) : sched w' = sched w -> same_shape w w'.
Proof. intros H. split; by rewrite H. Qed.

Lemma same_shape_hw_only (w w' : machine) : hw_only w w' -> same_shape w w'.
Proof. intros (h & k & ->). by apply same_shape_sched. Qed.

Lemma same_shape_get (w w' : machine) i e :
  same_shape w w' -> aget (entries (sched w)) i = Some e ->
  exists e', aget (entries (sched w')) i = Some e' /\ entry_shape e' = entry_shape e.
Proof.
  intros [_ H] He. specialize (H i). rewrite He in H. simpl in H.
  apply fmap_Some in H as (e' & ? & ->). eauto.
Qed.

(** Updating an entry or a window keeps the shape. *)
Lemma same_shape_upd_entry (w : machine) i e e' :
  aget (entries (sched w)) i = Some e -> entry_shape e' = entry_shape e ->
  same_shape w (w <| sched ::= set entries (fun l => aset l i e') |>).
Proof.
  intros He Hs. split; [done|]. intros j. simpl. rewrite aget_aset. case_decide as Hd; [|done].
  destruct Hd as [<- _]. by rewrite He; simpl; rewrite Hs.
Qed.

Lemma same_shape_upd_window (w w' : machine) f :
  same_shape w w' -> same_shape w (w' <| sched ::= set schedpoint_window f |>).
Proof. done. Qed.
End Lookups.

(** ** Safety *)
Section WindowSafe.
Context {P : Platform} {I : Interference} (L : list Z) `{!Small L} `{!StableInterference L}.
Context (cpu : Z) (Hcpu : cpu ∈ L).

Lemma safe_lookup_entry_by_order c from :
  0 <= from ->
  safe L cpu (lookup_entry_by_order c from)
    (fun r => match r with Some i => 0 <= i < MAX_SCHEDPOINTS | None => True end).
Proof.
  intros. unfold lookup_entry_by_order. destruct (_ =? _); [by apply safe_ret|].
  eapply safe_mono; [by apply safe_find_entry|]. intros [i|]; [lia|done].
Qed.

Lemma safe_lookup_entry_by_address c inst :
  0 <= c < MAX_CPUS ->
  safe L cpu (lookup_entry_by_address c inst)
    (fun r => match r with Some i => 0 <= i < MAX_SCHEDPOINTS | None => True end).
Proof.
  intros Hc. eapply safe_bind; [by apply safe_get_window|]. intros x (? & ? & ?).
  destruct (_ =? _); [by apply safe_ret|].
  eapply safe_mono; [by apply safe_find_entry|]. intros [i|]; [lia|done].
Qed.

Lemma safe_entry_order i :
  0 <= i < MAX_SCHEDPOINTS ->
  safe L cpu (entry_order i) (fun o => 0 <= o < MAX_SCHEDPOINTS).
Proof.
  intros Hi. eapply safe_bind; [by apply safe_get_entry|]. intros e (? & ? & ?).
  apply safe_ret. lia.
Qed.

Hint Resolve safe_lookup_entry_by_order safe_lookup_entry_by_address safe_entry_order : safe.

Lemma safe_next_valid_order_of c o :
  0 <= o -> safe L cpu (next_valid_order_of c o) (fun o => 0 <= o < MAX_SCHEDPOINTS).
Proof. intros. unfold next_valid_order_of. safe_auto. Qed.

Lemma safe_activate_entry k i :
  0 <= k < MAX_CPUS -> 0 <= i < MAX_SCHEDPOINTS ->
  safe L cpu (qcsched_window_activate_entry cpu k i) (fun _ => True).
Proof. intros. unfold qcsched_window_activate_entry. safe_auto. Qed.

Hint Resolve safe_next_valid_order_of safe_activate_entry : safe.

Lemma safe_expand_window_1 k :
  0 <= k < MAX_CPUS -> safe L cpu (qcsched_window_expand_window_1 cpu k) (fun _ => True).
Proof. intros. unfold qcsched_window_expand_window_1. safe_auto. Qed.

Hint Resolve safe_expand_window_1 : safe.

Lemma safe_expand_window_n n :
  n <= MAX_SCHEDPOINTS -> safe L cpu (qcsched_window_expand_window_n cpu n) (fun _ => True).
Proof.
  intros. pose proof (small_range cpu Hcpu). apply safe_for_loop; [done| |].
  - intros. safe_auto.
  - intros. by apply safe_expand_window_1.
Qed.

Lemma safe_expand_window : safe L cpu (qcsched_window_expand_window cpu) (fun _ => True).
Proof. by apply safe_expand_window_n. Qed.

Lemma safe_leave_footprint_at f o :
  0 <= o -> safe L cpu (qcsched_window_leave_footprint_at cpu f o) (fun _ => True).
Proof. intros. unfold qcsched_window_leave_footprint_at. safe_auto. Qed.

Lemma safe_leave_footprint f : safe L cpu (qcsched_window_leave_footprint cpu f) (fun _ => True).
Proof.
  pose proof (small_range cpu Hcpu). eapply safe_bind; [by apply safe_get_window|].
  intros x (? & ? & ?). by apply safe_leave_footprint_at.
Qed.

Lemma safe_deactivate_entry k i :
  0 <= k < MAX_CPUS -> 0 <= i < MAX_SCHEDPOINTS ->
  safe L cpu (qcsched_window_deactivate_entry cpu k i) (fun _ => True).
Proof.
  intros. unfold qcsched_window_deactivate_entry, qcsched_window_deactivate_entry_remote,
    qcsched_window_deactivate_entry_local. safe_auto.
Qed.

Hint Resolve safe_leave_footprint_at safe_deactivate_entry : safe.

Lemma safe_do_shrink_entry k i :
  0 <= k < MAX_CPUS -> 0 <= i < MAX_SCHEDPOINTS ->
  safe L cpu (do_shrink_entry cpu k i) (fun _ => True).
Proof. intros. unfold do_shrink_entry. safe_auto. Qed.

Hint Resolve safe_do_shrink_entry : safe.

Lemma safe_shrink_before_entry k i :
  0 <= k < MAX_CPUS -> 0 <= i < MAX_SCHEDPOINTS ->
  safe L cpu (qcsched_window_shrink_before_entry cpu k i) (fun _ => True).
Proof.
  intros. unfold qcsched_window_shrink_before_entry.
  eapply safe_bind; [by apply safe_get_window|]. intros x (? & ? & ?).
  eapply safe_bind.
  - apply safe_for_loop; [done| |]; intros; safe_auto.
  - intros _ _. safe_auto.
Qed.

Hint Resolve safe_shrink_before_entry : safe.

Lemma safe_shrink_entry k i :
  0 <= k < MAX_CPUS -> 0 <= i < MAX_SCHEDPOINTS ->
  safe L cpu (qcsched_window_shrink_entry cpu k i) (fun _ => True).
Proof. intros. unfold qcsched_window_shrink_entry. safe_auto. Qed.

Hint Resolve safe_shrink_entry : safe.

Lemma safe_shrink_window : safe L cpu (qcsched_window_shrink_window cpu) (fun _ => True).
Proof.
  pose proof (small_range cpu Hcpu). apply safe_for_loop; [done| |]; intros.
  - safe_auto.
  - unfold qcsched_window_shrink_window_1. safe_auto.
Qed.

Lemma safe_close_entry o :
  0 <= o < MAX_SCHEDPOINTS -> safe L cpu (close_entry cpu o) (fun _ => True).
Proof. intros. pose proof (small_range cpu Hcpu). unfold close_entry. safe_auto. Qed.

Lemma safe_close_window : safe L cpu (qcsched_window_close_window cpu) (fun _ => True).
Proof.
  pose proof (small_range cpu Hcpu). eapply safe_bind.
  - apply safe_for_loop; [done| |by apply safe_close_entry]. intros. safe_auto.
  - intros _ _. safe_auto.
Qed.

Hint Resolve safe_close_window : safe.

Lemma safe_prune_entry o :
  0 <= o < MAX_SCHEDPOINTS -> safe L cpu (prune_entry cpu o) (fun _ => True).
Proof. intros. unfold prune_entry. safe_auto. Qed.

Hint Resolve safe_prune_entry : safe.

Lemma safe_prune_missed_schedpoint :
  safe L cpu (qcsched_window_prune_missed_schedpoint cpu) (fun _ => True).
Proof.
  pose proof (small_range cpu Hcpu). unfold qcsched_window_prune_missed_schedpoint.
  safe_auto. apply safe_for_loop; [clia| |]; intros; safe_auto.
Qed.

Lemma shape_leave_footprint_at f o (w : machine) :
  wlp (qcsched_window_leave_footprint_at cpu f o) (fun _ w' => same_shape w w') w.
Proof.
  unfold qcsched_window_leave_footprint_at. wlp_auto; try apply same_shape_refl;
    by eapply same_shape_upd_entry.
Qed.

Lemma shape_deactivate_entry k i w :
  inside L cpu w ->
  wlp (qcsched_window_deactivate_entry cpu k i) (fun _ w' => same_shape w w') w.
Proof.
  intros Hw. unfold qcsched_window_deactivate_entry, qcsched_window_deactivate_entry_remote,
    qcsched_window_deactivate_entry_local, entry_order.
  wlp_auto; try apply same_shape_refl; try by apply same_shape_sched.
  - by split.
  - eapply wlp_mono; [eapply wlp_wp, self_kvm_remove_breakpoint; done|].
    intros err w1 [_ Hsh%same_shape_hw_only]. wlp_auto.
    apply same_shape_upd_window. eapply same_shape_trans; [exact Hsh|].
    by eapply same_shape_upd_entry.
Qed.

(** A worker's entries sit at their orders. *)
Lemma lookup_worker from w :
  cpu <> 0 -> 0 <= from -> inside L cpu w ->
  exists r, lookup_entry_by_order (Some cpu) from w = Ret r w /\
    match r with
    | Some j => from <= j < MAX_SCHEDPOINTS /\ exists e,
        aget (entries (sched w)) j = Some e /\ e_cpu e = cpu /\ order (schedpoint e) = j
    | None => True
    end.
Proof.
  intros H0 Hf Hw. pose proof (wf_sched _ _ (in_wf _ _ _ Hw)) as Hs.
  destruct (lookup_entry_by_order_first (Some cpu) from w) as (r & Hr & _ & Hfirst); [done..|].
  exists r. split; [done|]. destruct r as [j|]; [|done].
  destruct Hfirst as (Hj & e & He & Hfe). pose proof (total_range _ Hs).
  split; [lia|]. exists e. simpl in Hfe. bool_to_prop.
  destruct (entries_ok _ Hs _ _ He) as (_ & _ & Ho). split; [done|]. split; [done|]. apply Ho. lia.
Qed.

(** So the clean-up loop moves strictly forward. *)
Lemma cleanup_step_forward i w :
  cpu <> 0 -> 0 <= i -> inside L cpu w ->
  wp disciplined (cleanup_step cpu i) (fun r w' => inside L cpu w' /\
    match r with inl o => i < o < MAX_SCHEDPOINTS | inr _ => True end) w.
Proof.
  intros H0 Hi Hw. pose proof (small_range cpu Hcpu).
  destruct (sched_ok_window (sched w) cpu) as (x & Hx & _); [apply Hw|done|].
  apply wp_bind. unfold wp at 1. rewrite (get_window_ret cpu x) by done.
  destruct (negb _); [by apply wp_ret|].
  destruct (lookup_worker i w) as (r & Hr & Hj); [done..|].
  apply wp_bind. unfold wp at 1. rewrite Hr. destruct r as [j|]; [|by apply wp_ret].
  destruct Hj as (Hj & e & He & Hc & Ho).
  apply wp_bind. unfold wp at 1. rewrite (get_entry_ret j e) by done.
  apply wp_bind.
  apply (wp_mono _ _ (fun _ w' => inside L cpu w' /\ same_shape w w')).
  { destruct (installed _); [|apply wp_ret; split; [done|apply same_shape_refl]].
    apply wp_bind. eapply wp_mono; [apply wp_wlp;
      [by apply safe_leave_footprint_at|apply shape_leave_footprint_at]|].
    intros [] w1 [[Hw1 _] Hs1]. eapply wp_mono; [apply wp_wlp;
      [apply safe_deactivate_entry; [done|lia|done]|by apply shape_deactivate_entry]|].
    intros [] w2 [[Hw2 _] Hs2]. split; [done|]. by eapply same_shape_trans. }
  intros [] w1 [Hw1 Hs1]. destruct (same_shape_get w w1 j e) as (e1 & He1 & Hsh); [done..|].
  injection Hsh as Ho1 Hc1 Ha1.
  apply wp_bind. unfold wp at 1. rewrite (entry_order_ret j e1), Ho1, Ho by done.
  destruct (lookup_worker (j + 1) w1) as (r & Hr1 & Hn); [done|lia|done|].
  apply wp_bind. unfold wp at 1. rewrite Hr1. destruct r as [n|]; [|by apply wp_ret].
  destruct Hn as (Hn & e2 & He2 & _ & Ho2).
  apply wp_bind. unfold wp at 1. rewrite (entry_order_ret n e2), Ho2 by done.
  apply wp_ret. split; [done|]. lia.
Qed.

Lemma safe_cleanup_left_schedpoint :
  cpu <> 0 -> safe L cpu (qcsched_window_cleanup_left_schedpoint cpu) (fun _ => True).
Proof.
  intros H0. pose proof (small_range cpu Hcpu).
  eapply safe_bind; [apply safe_qemu_mutex_iothread_locked|]. intros b ->.
  eapply safe_bind; [by apply safe_ASSERT_true|]. intros _ _.
  eapply safe_bind; [by apply safe_get_window|]. intros x (? & ? & ?).
  apply (safe_bind _ _ _ _ (fun _ => True)).
  - apply (safe_loop _ _ (fun i => 0 <= i) (fun i => Z.to_nat (MAX_SCHEDPOINTS + 1 - i)));
      [done|clia|].
    intros i Hi w Hw. eapply wp_mono; [by apply cleanup_step_forward|].
    intros [o|[]] w' [Hw' Ho]; [|done]. split; [done|]. lia.
  - intros [] _. safe_auto.
Qed.

Lemma safe_sync : safe L cpu (qcsched_window_sync cpu) (fun _ => True).
Proof. pose proof (small_range cpu Hcpu). unfold qcsched_window_sync. safe_auto. Qed.

Lemma safe_hit_stale_schedpoint :
  safe L cpu (qcsched_window_hit_stale_schedpoint cpu) (fun _ => True).
Proof.
  pose proof (small_range cpu Hcpu). unfold qcsched_window_hit_stale_schedpoint. safe_auto.
Qed.

Lemma hit_stale_schedpoint_lookup w :
  inside L cpu w ->
  exists b, qcsched_window_hit_stale_schedpoint cpu w = Ret b w /\
    (b = false -> exists r i, RIP cpu w = Ret r w /\
       lookup_entry_by_address cpu r w = Ret (Some i) w /\ 0 <= i < MAX_SCHEDPOINTS).
Proof.
  intros Hw. pose proof (small_range cpu Hcpu). pose proof (wf_sched _ _ (in_wf _ _ _ Hw)) as Hs.
  destruct (wf_cpus _ _ (in_wf _ _ _ Hw) cpu Hcpu) as [c Hc].
  assert (RIP cpu w = Ret (rip (regs c)) w) as Hr.
  { unfold RIP, get_cpu, mbind, prog_bind, gets, deref, id. simpl. by rewrite Hc. }
  destruct (sched_ok_window (sched w) cpu) as (x & Hx & ? & _); [done..|].
  destruct (lookup_entry_by_address_first cpu (rip (regs c)) x w) as (o & Ho & _ & Hfirst); [done..|].
  unfold qcsched_window_hit_stale_schedpoint, mbind at 1, prog_bind. rewrite Hr.
  unfold mbind at 1, prog_bind. rewrite Ho. destruct o as [i|]; [|by exists true].
  destruct Hfirst as (Hi & e & He & _). pose proof (total_range _ Hs).
  unfold mbind, prog_bind. rewrite (entry_order_ret i e), (get_window_ret cpu x) by done.
  eexists. split; [done|]. intros _. exists (rip (regs c)), i. split; [done|]. split; [done|]. lia.
Qed.

(** [forward_focus] to an order, whatever the focus is. *)
Lemma safe_forward_focus o :
  0 <= o < MAX_SCHEDPOINTS ->
  safe L cpu (cur ← sched_ current; forward_focus cpu (o - cur)) (fun _ => True).
Proof.
  intros Ho w Hw. apply wp_bind, wp_gets, wp_bind, wp_gets.
  replace (_ + _) with o by lia.
  eapply (safe_bind L cpu _ _ (fun _ => True)); [|intros _ _|done].
  - eapply safe_mono; [by apply safe_get_entry|done].
  - apply safe_upd_sched. intros s []; split; simpl; auto.
Qed.

Lemma safe_first_activated l :
  (forall c, c ∈ l -> c ∈ L) ->
  safe L cpu (first_activated cpu l)
    (fun r => match r with Some c => c ∈ L | None => True end).
Proof.
  induction l as [|c l IH]; intros Hl; [by apply safe_ret|]. cbn [first_activated].
  pose proof (small_range c (Hl c ltac:(set_solver))).
  assert (c ∈ L) by (apply Hl; set_solver).
  assert (forall c, c ∈ l -> c ∈ L) by (intros; apply Hl; set_solver).
  destruct (negb _); [|auto]. eapply safe_bind; [by apply safe_get_cpu_state|]. intros s _.
  destruct (bool_decide _); [by apply safe_ret|auto].
Qed.

Lemma safe_get_next_cpu entry :
  match entry with Some i => 0 <= i < MAX_SCHEDPOINTS | None => True end ->
  safe L cpu (get_next_cpu cpu entry)
    (fun r => match r with Some c => c ∈ L | None => True end).
Proof.
  destruct entry as [i|]; intros Hi.
  - eapply safe_bind; [by apply safe_get_entry|]. intros e _. apply safe_qemu_get_cpu.
  - eapply safe_bind; [apply safe_cpu_list|]. intros l ->. by apply safe_first_activated.
Qed.

Hint Resolve safe_get_next_cpu : safe.

Lemma safe_hand_over_baton_from o :
  0 <= o -> safe L cpu (hand_over_baton_from cpu o) (fun _ => True).
Proof.
  intros. eapply safe_bind; [by apply (safe_get_next_cpu None)|]. intros r _.
  eapply safe_bind; [by apply safe_next_valid_order_of|]. intros n Hn.
  by apply safe_forward_focus.
Qed.

Lemma safe_window_lock_contending :
  safe L cpu (qcsched_window_lock_contending cpu) (fun _ => True).
Proof.
  pose proof (small_range cpu Hcpu). eapply safe_bind; [apply safe_current|]. intros cur Hcur.
  eapply safe_bind; [apply safe_lookup_entry_by_order; cbv beta in Hcur; lia|]. intros e He.
  eapply safe_bind; [by apply safe_qcsched_check_cpu_state|]. intros act _.
  destruct (negb act); [by apply safe_ret|].
  eapply safe_bind; [by apply safe_qcsched_check_cpu_state|]. intros deact _.
  destruct deact; [by apply safe_ret|].
  eapply safe_bind; [by apply safe_get_next_cpu|]. intros [c|] Hc; [|by apply safe_ret].
  destruct (_ =? _); [by apply safe_ret|].
  apply safe_qcsched_vmi_lock_contending; [done|by apply small_range].
Qed.

Lemma safe_consecutive_schedpoint o :
  0 <= o -> safe L cpu (qcsched_window_consecutive_schedpoint cpu o) (fun _ => True).
Proof. intros. unfold qcsched_window_consecutive_schedpoint. safe_auto. Qed.
End WindowSafe.

#[export] Hint Resolve safe_lookup_entry_by_order safe_lookup_entry_by_address safe_entry_order
  safe_next_valid_order_of safe_expand_window safe_leave_footprint safe_shrink_window
  safe_close_window safe_prune_missed_schedpoint safe_cleanup_left_schedpoint safe_sync
  safe_hit_stale_schedpoint safe_hand_over_baton_from safe_window_lock_contending
  safe_consecutive_schedpoint : safe.
