(* ===== verification/ExecControl.v ===== *)
(** * Suspending and resuming a task

    [qcsched/exec_control.c] over the two implementations [blocker.c] (the
    default) and [trampoline.c]; the self-escape timer of [timer.c]; and the
    hooks around [KVM_RUN] of [qcsched.c]. *)

From stdpp Require Import base list gmap strings.
From Stdlib Require Import ZArith Lia.
From S2P Require Import Prelude Machine Invariant KvmDebug CpuState GuestMem Vmi Window.

Local Open Scope Z_scope.
Local Open Scope record_scope.

Section ExecControl.
Context {P : Platform} {I : Interference}.

(** ** blocker.c *)

Definition blocker_task_kidnapped (cpu : Z) : M bool :=
  i ← get_exec cpu; mret (blocked (blocker i)).

Definition blocker_kidnap_task (cpu : Z) : M unit :=
  upd_exec cpu (fun i => i <| blocker := mk_blocker true false |>).

Definition blocker_resume_task (cpu : Z) : M unit :=
  upd_exec cpu (fun i => i <| blocker := mk_blocker false false |>) ;;
  upd_cpu cpu (fun c => c <| qcsched_force_wakeup := false |>) ;;
  upd_exec cpu (fun i => i <| kicked := false |>).

Definition blocker_wake_cpu_up (cpu wakeup : Z) : M unit :=
  upd_exec wakeup (fun i => i <| blocker ::= set waking_up (fun _ => true) |>).

Definition blocker_want_to_wake_up (cpu : Z) : M bool :=
  i ← get_exec cpu; mret (waking_up (blocker i)).

Definition blocker_reset (cpu : Z) : M unit :=
  upd_exec cpu (fun i => i <| blocker := mk_blocker false false |>).

(** ** trampoline.c *)

Definition trampoline_entry_addr : M Z :=
  v ← vmi_ trampoline_addr; deref "vmi_info.trampoline_addr" (aget v 0).

Definition trampoline_exit_addr : M Z :=
  v ← vmi_ trampoline_addr; deref "vmi_info.trampoline_addr" (aget v 1).

Definition jump_into_trampoline (cpu : Z) : M unit :=
  a ← trampoline_entry_addr;
  upd_cpu cpu (fun c => c <| regs ::= set rip (fun _ => a) |> <| qcsched_dirty := true |>).

Definition trampoline_kidnap_task (cpu : Z) : M unit :=
  c ← get_cpu cpu;
  upd_exec cpu (fun i => i <| trampoline ::= set orig_regs (fun _ => regs c) |>) ;;
  jump_into_trampoline cpu ;;
  upd_exec cpu (fun i => i <| trampoline ::= set trampoled (fun _ => true) |>).

Definition trampoline_resume_task (cpu : Z) : M unit :=
  i ← get_exec cpu;
  upd_cpu cpu (fun c => c <| regs := orig_regs (trampoline i) |> <| qcsched_dirty := true |>
                          <| qcsched_force_wakeup := false |>) ;;
  upd_exec cpu (fun i => i <| trampoline := zero_trampoline |>) ;;
  upd_exec cpu (fun i => i <| kicked := false |>).

Definition trampoline_task_kidnapped (cpu : Z) : M bool :=
  i ← get_exec cpu; mret (trampoled (trampoline i)).

Definition trampoline_wake_cpu_up (cpu wakeup : Z) : M unit :=
  a ← trampoline_exit_addr;
  r ← kvm_insert_breakpoint_cpu wakeup a 1 GDB_BREAKPOINT_HW;
  ASSERT ((r =? 0) || (r =? - EEXIST)) "failing to wake cpu up".

(** ** timer.c: arming *)

(** [timer_settime] with [it_value = { .tv_sec = 1 }] and no interval. *)
Definition qcsched_arm_selfescape_timer (cpu : Z) : M unit :=
  i ← get_exec cpu;
  ASSERT (match timerid i with timer_none => false | _ => true end) "timer_settime" ;;
  upd_exec cpu (fun i => i <| timerid := timer_armed 1 |>).

(** ** exec_control.c *)

Definition task_kidnapped (cpu : Z) : M bool :=
  if config_trampoline then trampoline_task_kidnapped cpu else blocker_task_kidnapped cpu.

Definition kidnap_task (cpu : Z) : M unit :=
  kidnapped ← task_kidnapped cpu;
  ok ← qcsched_vmi_running_context_being_scheduled cpu true;
  ASSERT ok "kidnapping a wrong context" ;;
  s ← sched_ id;
  if (current s =? total s) || negb (activated s) then mret tt else
  ASSERT (negb kidnapped) "kidnapping more than one thread" ;;
  (if config_trampoline then trampoline_kidnap_task cpu else blocker_kidnap_task cpu) ;;
  qcsched_arm_selfescape_timer cpu.

Definition resume_task (cpu : Z) : M unit :=
  kidnapped ← task_kidnapped cpu;
  ASSERT kidnapped "nothing has been kidnapped" ;;
  b ← qemu_mutex_iothread_locked;
  ASSERT b "iothread mutex is not locked" ;;
  self ← gets current_cpu;
  ASSERT (cpu =? self) "something wrong: cpu != current_cpu" ;;
  (if config_trampoline then trampoline_resume_task cpu else blocker_resume_task cpu) ;;
  qcsched_window_expand_window cpu.

(** The trampoline configuration calls [trampolione_wake_cpu_up], a name no
    file defines; [trampoline_wake_cpu_up] is the function trampoline.c has. *)
Definition wake_cpu_up (cpu wakeup : Z) : M unit :=
  if config_trampoline then trampoline_wake_cpu_up cpu wakeup
  else blocker_wake_cpu_up cpu wakeup.

Definition wake_others_up (cpu0 : Z) : M unit :=
  CPU_FOREACH (fun cpu =>
    kidnapped ← task_kidnapped cpu;
    if negb kidnapped || (cpu =? cpu0) then mret tt else wake_cpu_up cpu0 cpu).

Definition want_to_wake_up (cpu : Z) : M bool :=
  if config_trampoline then mret false else blocker_want_to_wake_up cpu.

Definition reset_exec_control (cpu : Z) : M unit :=
  if config_trampoline then mret tt else blocker_reset cpu.

(** ** timer.c: the timer expired *)

Definition qcsched_handle_kick_locked (cpu : Z) : M unit :=
  self ← gets current_cpu;
  ASSERT (cpu =? self) "something wrong: cpu != current_cpu" ;;
  exec ← get_exec cpu;
  if negb (kicked exec) then mret tt else
  upd_exec cpu (fun i => i <| kicked := false |>) ;;
  k ← task_kidnapped cpu;
  if negb k then mret tt else
  upd_cpu cpu (fun c => c <| qcsched_force_wakeup := true |>) ;;
  wake_cpu_up cpu cpu.

Definition qcsched_handle_kick (cpu : Z) : M unit :=
  qemu_mutex_lock_iothread ;;
  qcsched_eat_cookie cpu cookie_timer ;;
  qcsched_handle_kick_locked cpu ;;
  qemu_mutex_unlock_iothread.

(** ** qcsched.c *)

Definition kvm_write_registers (cpu : Z) : M Z :=
  c ← get_cpu cpu;
  w ← gets id;
  let '(r, k) := ioctl_set_regs (kvm w) cpu (regs c) in
  modify (fun w => w <| kvm := k |>) ;; mret r.

(** On failure the ioctl leaves [cpu->regs] as it was. *)
Definition kvm_read_registers (cpu : Z) : M Z :=
  w ← gets id;
  let '((r, g), k) := ioctl_get_regs (kvm w) cpu in
  modify (fun w => w <| kvm := k |>) ;;
  (if r =? 0 then upd_cpu cpu (fun c => c <| regs := g |>) else mret tt) ;;
  mret r.

Definition qcsched_pre_run (cpu : Z) : M bool :=
  b ← qemu_mutex_iothread_locked;
  ASSERT (negb b) "assertion failed: (!qemu_mutex_iothread_locked())" ;;
  c ← get_cpu cpu;
  (if qcsched_dirty c then
     r ← kvm_write_registers cpu;
     ASSERT (r =? 0) "failed to write registers" ;;
     upd_cpu cpu (fun c => c <| qcsched_dirty := false |>)
   else mret tt) ;;
  if config_trampoline then mret true else
  k ← task_kidnapped cpu; mret (negb k).

Definition qcsched_post_run (cpu : Z) : M unit :=
  r ← kvm_read_registers cpu;
  ASSERT (r =? 0) "failed to read registers" ;;
  if config_trampoline then mret tt else
  qemu_mutex_lock_iothread ;;
  b ← want_to_wake_up cpu;
  (if (b : bool) then resume_task cpu else mret tt) ;;
  qemu_mutex_unlock_iothread.

(** [timer_create(CLOCK_MONOTONIC, ...)] for a SIG_IPI that carries
    [TRAMPOLINE_ESCAPE_MAGIC] to this thread. *)
Definition qcsched_init_vcpu (cpu : Z) : M unit :=
  _ ← get_exec cpu;
  w ← gets id;
  let '(ok, k) := sys_timer_create (kvm w) in
  modify (fun w => w <| kvm := k |>) ;;
  ASSERT ok "timer_create" ;;
  upd_exec cpu (fun i => i <| timerid := timer_disarmed |>).
End ExecControl.

(** ** Safety *)
Section ExecControlSafe.
Context {P : Platform} {I : Interference} (L : list Z) `{!Small L} `{!StableInterference L}.
Context `{!MemLaws} (cpu : Z) (Hcpu : cpu ∈ L).

Lemma safe_trampoline_entry_addr : safe L cpu trampoline_entry_addr (fun _ => True).
Proof. unfold trampoline_entry_addr. safe_auto. Qed.

Lemma safe_trampoline_exit_addr : safe L cpu trampoline_exit_addr (fun _ => True).
Proof. unfold trampoline_exit_addr. safe_auto. Qed.

Hint Resolve safe_trampoline_entry_addr safe_trampoline_exit_addr : safe.

Lemma safe_task_kidnapped c : c ∈ L -> safe L cpu (task_kidnapped c) (fun _ => True).
Proof.
  intros. pose proof (small_range c ltac:(done)).
  unfold task_kidnapped, trampoline_task_kidnapped, blocker_task_kidnapped. safe_auto.
Qed.

Hint Resolve safe_task_kidnapped : safe.

Lemma safe_kidnap_task : safe L cpu (kidnap_task cpu) (fun _ => True).
Proof.
  pose proof (small_range cpu Hcpu).
  unfold kidnap_task, trampoline_kidnap_task, blocker_kidnap_task,
    qcsched_arm_selfescape_timer, jump_into_trampoline. safe_auto.
Qed.

Lemma safe_resume_task : safe L cpu (resume_task cpu) (fun _ => True).
Proof.
  pose proof (small_range cpu Hcpu).
  unfold resume_task, trampoline_resume_task, blocker_resume_task. safe_auto.
Qed.

Lemma safe_wake_cpu_up c c' : c' ∈ L -> safe L cpu (wake_cpu_up c c') (fun _ => True).
Proof.
  intros. pose proof (small_range c' ltac:(done)).
  unfold wake_cpu_up, trampoline_wake_cpu_up, blocker_wake_cpu_up. safe_auto.
Qed.

Hint Resolve safe_wake_cpu_up : safe.

Lemma safe_wake_others_up : safe L cpu (wake_others_up cpu) (fun _ => True).
Proof. apply safe_CPU_FOREACH. intros c Hc. safe_auto. Qed.

Lemma safe_want_to_wake_up : safe L cpu (want_to_wake_up cpu) (fun _ => True).
Proof.
  pose proof (small_range cpu Hcpu). unfold want_to_wake_up, blocker_want_to_wake_up. safe_auto.
Qed.

Lemma safe_reset_exec_control c : c ∈ L -> safe L cpu (reset_exec_control c) (fun _ => True).
Proof.
  intros. pose proof (small_range c ltac:(done)).
  unfold reset_exec_control, blocker_reset. safe_auto.
Qed.

Lemma safe_handle_kick_locked : safe L cpu (qcsched_handle_kick_locked cpu) (fun _ => True).
Proof. pose proof (small_range cpu Hcpu). unfold qcsched_handle_kick_locked. safe_auto. Qed.
End ExecControlSafe.

#[export] Hint Resolve safe_trampoline_entry_addr safe_trampoline_exit_addr safe_task_kidnapped
  safe_kidnap_task safe_resume_task safe_wake_cpu_up safe_wake_others_up safe_want_to_wake_up
  safe_reset_exec_control safe_handle_kick_locked : safe.
