(* ===== verification/Breakpoint.v ===== *)
(** * The breakpoint handler

    [qcsched/breakpoint.c]: what a vCPU does when it stops at a breakpoint on
    the hook, on the trampoline, or on a scheduling point. *)

From stdpp Require Import base list gmap strings.
From Stdlib Require Import ZArith Lia.
From S2P Require Import Prelude Machine Invariant KvmDebug CpuState GuestMem Vmi Window ExecControl.

Local Open Scope Z_scope.
Local Open Scope record_scope.

Section Breakpoint.
Context {P : Platform} {I : Interference}.

(** ** Which breakpoint is it? *)

Definition breakpoint_on_hook (cpu : Z) : M bool :=
  r ← RIP cpu; h ← vmi_ hook_addr; mret (r =? h).

Definition breakpoint_on_trampoline (cpu : Z) : M bool :=
  r ← RIP cpu;
  a ← trampoline_entry_addr;
  if r =? a then mret true else
  b ← trampoline_exit_addr; mret (r =? b).

Definition breakpoint_on_schedpoint (cpu : Z) : M bool :=
  running ← vmi_task cpu;
  r ← RIP cpu;
  f ← find_entry 0 (fun _ e => (addr (schedpoint e) =? r) && installed (breakpoint e) &&
                               vmi_same_task running (t e));
  mret (match f with Some _ => true | None => false end).

(** ** The handlers *)

Definition handle_breakpoint_hook (cpu : Z) : M unit :=
  sched_ctx ← qcsched_vmi_running_context_being_scheduled cpu false;
  if negb sched_ctx then
    h ← vmi_ hook_addr;
    err ← kvm_insert_breakpoint_cpu cpu h 1 GDB_BREAKPOINT_HW;
    ASSERT (err =? 0) "failed to insert a breakpoint at the hook"
  else
    p ← qcsched_vmi_can_progress cpu;
    if negb p then kidnap_task cpu else qcsched_window_expand_window cpu.

Definition handle_breakpoint_trampoline (cpu : Z) : M unit :=
  p ← qcsched_vmi_can_progress cpu;
  if (p : bool) then resume_task cpu else mret tt.

Definition qcsched_yield_turn_from (cpu current_order : Z) : M unit :=
  hand_over_baton_from cpu current_order ;;
  kidnap_task cpu ;;
  wake_others_up cpu.

Definition qcsched_keep_this_cpu_going (cpu : Z) : M unit :=
  x ← get_window cpu;
  this_cpu_next ← lookup_entry_by_order (Some cpu) (w_from x);
  step ← match this_cpu_next with
         | None => s ← sched_ id; mret (total s - current s)
         | Some i => o ← entry_order i; cur ← sched_ current; mret (o - cur)
         end;
  forward_focus cpu step.

Definition handle_breakpoint_schedpoint (cpu : Z) : M unit :=
  k ← task_kidnapped cpu;
  if (k : bool) then mret tt else
  stale ← qcsched_window_hit_stale_schedpoint cpu;
  if (stale : bool) then qcsched_window_expand_window cpu else
  r ← RIP cpu;
  current_entry ← lookup_entry_by_address cpu r;
  current_entry ← deref "current_entry" current_entry;
  current_order ← entry_order current_entry;
  qcsched_window_prune_missed_schedpoint cpu ;;
  qcsched_window_leave_footprint cpu footprint_hit ;;
  qcsched_window_shrink_window cpu ;;
  contending ← qcsched_window_lock_contending cpu;
  keep ← (if (contending : bool) then mret true
          else qcsched_window_consecutive_schedpoint cpu current_order);
  if (keep : bool) then
    qcsched_window_expand_window cpu ;;
    qcsched_keep_this_cpu_going cpu
  else qcsched_yield_turn_from cpu current_order.

(** ** The watchdog *)

Definition watchdog_breakpoint_check_count (cpu k : Z) : M bool :=
  record ← get_record k;
  r ← RIP cpu;
  if negb (rec_RIP record =? r) then mret false else
  set_record k (record <| rec_count ::= Z.succ |>) ;;
  record ← get_record k;
  ASSERT (rec_count record <? WATCHDOG_BREAKPOINT_COUNT_KILL_QEMU)
    "watchdog failed: killing QEMU" ;;
  hook ← breakpoint_on_hook cpu;
  let count_max := if (hook : bool) then WATCHDOG_BREAKPOINT_COUNT_MAX * 5
                   else WATCHDOG_BREAKPOINT_COUNT_MAX in
  if count_max <=? rec_count record then
    qcsched_window_close_window cpu ;;
    err ← kvm_update_guest_debug cpu 0;
    ASSERT (err =? 0) "kvm_update_guest_debug_debug" ;;
    mret true
  else mret false.

Definition watchdog_breakpoint_reset (cpu k : Z) : M unit :=
  r ← RIP cpu; set_record k (mk_bp_record r 0).

Definition watchdog_breakpoint (cpu : Z) : M bool :=
  record ← get_record cpu;
  r ← RIP cpu;
  if negb (rec_RIP record =? r)
  then watchdog_breakpoint_reset cpu cpu ;; mret false
  else watchdog_breakpoint_check_count cpu cpu.

(** ** The entry point *)

Definition qcsched_handle_breakpoint_iolocked (cpu : Z) : M Z :=
  r ← RIP cpu;
  err ← kvm_remove_breakpoint_cpu cpu r 1 GDB_BREAKPOINT_HW;
  act ← sched_ activated;
  if negb (err =? 0) && negb ((err =? - ENOENT) && negb act) then
    qcsched_window_close_window cpu ;;
    err ← kvm_update_guest_debug cpu 0;
    ASSERT (err =? 0) "kvm_update_guest_debug_debug" ;;
    mret 0
  else
  in_task ← qcsched_vmi_in_task cpu;
  if negb in_task then mret 0 else
  _ ← watchdog_breakpoint cpu;
  watchdog_failed ← watchdog_breakpoint cpu;
  qcsched_window_sync cpu ;;
  qcsched_window_cleanup_left_schedpoint cpu ;;
  if (watchdog_failed : bool) then mret 0 else
  hook ← breakpoint_on_hook cpu;
  if (hook : bool) then handle_breakpoint_hook cpu ;; mret 0 else
  tramp ← (if config_trampoline then breakpoint_on_trampoline cpu else mret false);
  if (tramp : bool) then handle_breakpoint_trampoline cpu ;; mret 0 else
  sp ← breakpoint_on_schedpoint cpu;
  (if (sp : bool) then handle_breakpoint_schedpoint cpu else mret tt) ;; mret 0.

Definition qcsched_handle_breakpoint (cpu : Z) : M Z :=
  qemu_mutex_lock_iothread ;;
  qcsched_eat_cookie cpu cookie_breakpoint ;;
  ret ← qcsched_handle_breakpoint_iolocked cpu;
  qemu_mutex_unlock_iothread ;;
  mret ret.
End Breakpoint.

(** ** Safety *)
Section BreakpointSafe.
Context {P : Platform} {I : Interference} (L : list Z) `{!Small L} `{!StableInterference L}.
Context `{!MemLaws} (cpu : Z) (Hcpu : cpu ∈ L).

Lemma safe_breakpoint_on_hook : safe L cpu (breakpoint_on_hook cpu) (fun _ => True).
Proof. unfold breakpoint_on_hook. safe_auto. Qed.

Lemma safe_breakpoint_on_trampoline : safe L cpu (breakpoint_on_trampoline cpu) (fun _ => True).
Proof. unfold breakpoint_on_trampoline. safe_auto. Qed.

Lemma safe_breakpoint_on_schedpoint : safe L cpu (breakpoint_on_schedpoint cpu) (fun _ => True).
Proof. pose proof (small_range cpu Hcpu). unfold breakpoint_on_schedpoint. safe_auto. Qed.

Hint Resolve safe_breakpoint_on_hook safe_breakpoint_on_trampoline
  safe_breakpoint_on_schedpoint : safe.

Lemma safe_handle_breakpoint_hook : safe L cpu (handle_breakpoint_hook cpu) (fun _ => True).
Proof. pose proof (small_range cpu Hcpu). unfold handle_breakpoint_hook. safe_auto. Qed.

Lemma safe_handle_breakpoint_trampoline :
  safe L cpu (handle_breakpoint_trampoline cpu) (fun _ => True).
Proof. unfold handle_breakpoint_trampoline. safe_auto. Qed.

Lemma safe_yield_turn_from o :
  0 <= o -> safe L cpu (qcsched_yield_turn_from cpu o) (fun _ => True).
Proof. intros. unfold qcsched_yield_turn_from. safe_auto. Qed.

Lemma safe_keep_this_cpu_going : safe L cpu (qcsched_keep_this_cpu_going cpu) (fun _ => True).
Proof.
  pose proof (small_range cpu Hcpu). eapply safe_bind; [by apply safe_get_window|].
  intros x (? & ? & ?). eapply safe_bind; [by apply safe_lookup_entry_by_order|].
  intros [i|] Hi; intros w Hw; apply wp_bind.
  - apply wp_bind. eapply wp_mono; [by apply safe_entry_order|]. intros o w' [Hw' Ho].
    by apply (safe_forward_focus L cpu o Ho w').
  - apply (safe_forward_focus L cpu (total (sched w))); [|done].
    apply (total_range _ (wf_sched _ _ (in_wf _ _ _ Hw))).
Qed.

Hint Resolve safe_handle_breakpoint_hook safe_handle_breakpoint_trampoline
  safe_yield_turn_from safe_keep_this_cpu_going : safe.

Lemma safe_handle_breakpoint_schedpoint :
  safe L cpu (handle_breakpoint_schedpoint cpu) (fun _ => True).
Proof.
  pose proof (small_range cpu Hcpu). eapply safe_bind; [by apply safe_task_kidnapped|].
  intros [] _; [by apply safe_ret|]. intros w Hw. apply wp_bind.
  destruct (hit_stale_schedpoint_lookup L cpu Hcpu w Hw) as (b & Hb & Hi).
  unfold wp at 1. rewrite Hb. destruct b; [by apply safe_expand_window|].
  destruct (Hi eq_refl) as (r & i & Hr & Hl & Hrange).
  apply wp_bind. unfold wp at 1. rewrite Hr. apply wp_bind. unfold wp at 1. rewrite Hl.
  apply wp_bind, wp_ret. clear Hb Hi Hr Hl. revert w Hw.
  match goal with |- forall w, _ -> wp _ ?m _ w => change (safe L cpu m (fun _ => True)) end.
  safe_auto.
Qed.

Hint Resolve safe_handle_breakpoint_schedpoint : safe.

Lemma safe_watchdog_breakpoint : safe L cpu (watchdog_breakpoint cpu) (fun _ => True).
Proof.
  pose proof (small_range cpu Hcpu).
  unfold watchdog_breakpoint, watchdog_breakpoint_reset, watchdog_breakpoint_check_count.
  safe_auto.
Qed.

Hint Resolve safe_watchdog_breakpoint : safe.

Lemma safe_handle_breakpoint_iolocked :
  cpu <> 0 -> safe L cpu (qcsched_handle_breakpoint_iolocked cpu) (fun r => r = 0).
Proof.
  intros. pose proof (small_range cpu Hcpu). unfold qcsched_handle_breakpoint_iolocked. safe_auto.
Qed.

Lemma osafe_handle_breakpoint :
  cpu <> 0 -> osafe L cpu (qcsched_handle_breakpoint cpu) (fun r => r = 0).
Proof.
  intros H0 w Hw. apply wp_bind. eapply wp_lock_iothread; [done|]. intros w1 Hw1.
  apply wp_bind. eapply wp_mono; [by apply safe_qcsched_eat_cookie|]. intros [] w2 [Hw2 _].
  apply wp_bind. eapply wp_mono; [by apply safe_handle_breakpoint_iolocked|].
  intros r w3 [Hw3 ->]. apply wp_bind. eapply wp_unlock_iothread; [done|]. intros w4 Hw4.
  by apply wp_ret.
Qed.
End BreakpointSafe.
