(* ===== verification/RunState.v ===== *)
(** * Run state of the VM and of its vCPUs

    [softmmu/runstate.c] and the parts of [softmmu/cpus.c] that stop, resume
    and kick vCPU threads. *)

From stdpp Require Import base list gmap strings.
From Stdlib Require Import ZArith Lia.
From S2P Require Import Prelude Machine Invariant KvmDebug CpuState.

Local Open Scope Z_scope.
Local Open Scope record_scope.

(** ** softmmu/runstate.c *)

Definition runstate_transitions_def : list (RunState * RunState) := [
  (RUN_STATE_PRELAUNCH, RUN_STATE_INMIGRATE);

  (RUN_STATE_DEBUG, RUN_STATE_RUNNING);
  (RUN_STATE_DEBUG, RUN_STATE_FINISH_MIGRATE);
  (RUN_STATE_DEBUG, RUN_STATE_PRELAUNCH);

  (RUN_STATE_INMIGRATE, RUN_STATE_INTERNAL_ERROR);
  (RUN_STATE_INMIGRATE, RUN_STATE_IO_ERROR);
  (RUN_STATE_INMIGRATE, RUN_STATE_PAUSED);
  (RUN_STATE_INMIGRATE, RUN_STATE_RUNNING);
  (RUN_STATE_INMIGRATE, RUN_STATE_SHUTDOWN);
  (RUN_STATE_INMIGRATE, RUN_STATE_SUSPENDED);
  (RUN_STATE_INMIGRATE, RUN_STATE_WATCHDOG);
  (RUN_STATE_INMIGRATE, RUN_STATE_GUEST_PANICKED);
  (RUN_STATE_INMIGRATE, RUN_STATE_FINISH_MIGRATE);
  (RUN_STATE_INMIGRATE, RUN_STATE_PRELAUNCH);
  (RUN_STATE_INMIGRATE, RUN_STATE_POSTMIGRATE);
  (RUN_STATE_INMIGRATE, RUN_STATE_COLO);

  (RUN_STATE_INTERNAL_ERROR, RUN_STATE_PAUSED);
  (RUN_STATE_INTERNAL_ERROR, RUN_STATE_FINISH_MIGRATE);
  (RUN_STATE_INTERNAL_ERROR, RUN_STATE_PRELAUNCH);

  (RUN_STATE_IO_ERROR, RUN_STATE_RUNNING);
  (RUN_STATE_IO_ERROR, RUN_STATE_FINISH_MIGRATE);
  (RUN_STATE_IO_ERROR, RUN_STATE_PRELAUNCH);

  (RUN_STATE_PAUSED, RUN_STATE_RUNNING);
  (RUN_STATE_PAUSED, RUN_STATE_FINISH_MIGRATE);
  (RUN_STATE_PAUSED, RUN_STATE_POSTMIGRATE);
  (RUN_STATE_PAUSED, RUN_STATE_PRELAUNCH);
  (RUN_STATE_PAUSED, RUN_STATE_COLO);

  (RUN_STATE_POSTMIGRATE, RUN_STATE_RUNNING);
  (RUN_STATE_POSTMIGRATE, RUN_STATE_FINISH_MIGRATE);
  (RUN_STATE_POSTMIGRATE, RUN_STATE_PRELAUNCH);

  (RUN_STATE_PRELAUNCH, RUN_STATE_RUNNING);
  (RUN_STATE_PRELAUNCH, RUN_STATE_FINISH_MIGRATE);
  (RUN_STATE_PRELAUNCH, RUN_STATE_INMIGRATE);

  (RUN_STATE_FINISH_MIGRATE, RUN_STATE_RUNNING);
  (RUN_STATE_FINISH_MIGRATE, RUN_STATE_PAUSED);
  (RUN_STATE_FINISH_MIGRATE, RUN_STATE_POSTMIGRATE);
  (RUN_STATE_FINISH_MIGRATE, RUN_STATE_PRELAUNCH);
  (RUN_STATE_FINISH_MIGRATE, RUN_STATE_COLO);

  (RUN_STATE_RESTORE_VM, RUN_STATE_RUNNING);
  (RUN_STATE_RESTORE_VM, RUN_STATE_PRELAUNCH);

  (RUN_STATE_COLO, RUN_STATE_RUNNING);

  (RUN_STATE_RUNNING, RUN_STATE_DEBUG);
  (RUN_STATE_RUNNING, RUN_STATE_INTERNAL_ERROR);
  (RUN_STATE_RUNNING, RUN_STATE_IO_ERROR);
  (RUN_STATE_RUNNING, RUN_STATE_PAUSED);
  (RUN_STATE_RUNNING, RUN_STATE_FINISH_MIGRATE);
  (RUN_STATE_RUNNING, RUN_STATE_RESTORE_VM);
  (RUN_STATE_RUNNING, RUN_STATE_SAVE_VM);
  (RUN_STATE_RUNNING, RUN_STATE_SHUTDOWN);
  (RUN_STATE_RUNNING, RUN_STATE_WATCHDOG);
  (RUN_STATE_RUNNING, RUN_STATE_GUEST_PANICKED);
  (RUN_STATE_RUNNING, RUN_STATE_COLO);

  (RUN_STATE_SAVE_VM, RUN_STATE_RUNNING);

  (RUN_STATE_SHUTDOWN, RUN_STATE_PAUSED);
  (RUN_STATE_SHUTDOWN, RUN_STATE_FINISH_MIGRATE);
  (RUN_STATE_SHUTDOWN, RUN_STATE_PRELAUNCH);
  (RUN_STATE_SHUTDOWN, RUN_STATE_COLO);

  (RUN_STATE_DEBUG, RUN_STATE_SUSPENDED);
  (RUN_STATE_RUNNING, RUN_STATE_SUSPENDED);
  (RUN_STATE_SUSPENDED, RUN_STATE_RUNNING);
  (RUN_STATE_SUSPENDED, RUN_STATE_FINISH_MIGRATE);
  (RUN_STATE_SUSPENDED, RUN_STATE_PRELAUNCH);
  (RUN_STATE_SUSPENDED, RUN_STATE_COLO);

  (RUN_STATE_WATCHDOG, RUN_STATE_RUNNING);
  (RUN_STATE_WATCHDOG, RUN_STATE_FINISH_MIGRATE);
  (RUN_STATE_WATCHDOG, RUN_STATE_PRELAUNCH);
  (RUN_STATE_WATCHDOG, RUN_STATE_COLO);

  (RUN_STATE_GUEST_PANICKED, RUN_STATE_RUNNING);
  (RUN_STATE_GUEST_PANICKED, RUN_STATE_FINISH_MIGRATE);
  (RUN_STATE_GUEST_PANICKED, RUN_STATE_PRELAUNCH);

  (RUN_STATE__MAX, RUN_STATE__MAX)
].

(** [runstate_init]: the table up to the sentinel. *)
Fixpoint runstate_init (l : list (RunState * RunState)) (from to : RunState) : bool :=
  match l with
  | [] => false
  | (f, g) :: l' =>
      if decide (f = RUN_STATE__MAX) then false
      else bool_decide (f = from /\ g = to) || runstate_init l' from to
  end.

Definition runstate_valid_transitions : RunState -> RunState -> bool :=
  runstate_init runstate_transitions_def.

Section RunState.
Context {P : Platform} {I : Interference}.

Definition runstate_check (s : RunState) : M bool :=
  gets (fun w => bool_decide (current_run_state w = s)).

Definition runstate_is_running : M bool := runstate_check RUN_STATE_RUNNING.

Definition runstate_needs_reset : M bool :=
  a ← runstate_check RUN_STATE_INTERNAL_ERROR;
  if (a : bool) then mret true else runstate_check RUN_STATE_SHUTDOWN.

Definition runstate_set (new_state : RunState) : M unit :=
  ASSERT (negb (bool_decide (new_state = RUN_STATE__MAX))) "new_state < RUN_STATE__MAX" ;;
  cur ← gets current_run_state;
  if decide (cur = new_state) then mret tt else
  if negb (runstate_valid_transitions cur new_state)
  then exit_ "invalid runstate transition"
  else modify (fun w => w <| current_run_state := new_state |>).

(** [*r] and whether a stop was requested. *)
Definition qemu_vmstop_requested : M (bool * RunState) :=
  r ← gets vmstop_requested;
  modify (fun w => w <| vmstop_requested := RUN_STATE__MAX |>) ;;
  mret (negb (bool_decide (r = RUN_STATE__MAX)), r).

Definition qemu_system_vmstop_request (s : RunState) : M unit :=
  modify (fun w => w <| vmstop_requested := s |>).

(** ** Kicking a vCPU thread *)

(** accel/kvm/kvm-all.c *)
Definition kvm_cpu_kick (cpu : Z) : M unit :=
  upd_cpu cpu (fun c => c <| immediate_exit := true |>).

(** The SIG_IPI handler, on the thread of [cpu]; [value] is the payload of
    the signal. *)
Definition kvm_ipi_signal (cpu value : Z) : M unit :=
  (if value =? TRAMPOLINE_ESCAPE_MAGIC
   then upd_exec cpu (fun i => i <| kicked := true |>) else mret tt) ;;
  kvm_cpu_kick cpu.

(** [pthread_kill(SIG_IPI)], whose signal carries no payload. *)
Definition cpus_kick_thread (cpu : Z) : M unit :=
  c ← get_cpu cpu;
  if thread_kicked c then mret tt else
  upd_cpu cpu (fun c => c <| thread_kicked := true |>) ;;
  kvm_ipi_signal cpu 0.

Definition qemu_cpu_kick (cpu : Z) : M unit := cpus_kick_thread cpu.

(** [kvm_cpu_kick_self] with [kvm_immediate_exit] *)
Definition kvm_cpu_kick_self : M unit := cpu ← gets current_cpu; kvm_cpu_kick cpu.

(** [kvm_eat_signals] with [kvm_immediate_exit] *)
Definition kvm_eat_signals (cpu : Z) : M unit :=
  upd_cpu cpu (fun c => c <| immediate_exit := false |>).

(** ** softmmu/cpus.c: stopping and resuming *)

Definition cpu_is_stopped (cpu : Z) : M bool :=
  c ← get_cpu cpu;
  if stopped c then mret true else r ← runstate_is_running; mret (negb r).

Definition cpu_can_run (cpu : Z) : M bool :=
  c ← get_cpu cpu;
  if stop c then mret false else
  s ← cpu_is_stopped cpu; mret (negb s).

(** hw/core/cpu.c *)
Definition cpu_exit (cpu : Z) : M unit :=
  upd_cpu cpu (fun c => c <| exit_request := true |>).

Definition qemu_cpu_stop (cpu : Z) (exit : bool) : M unit :=
  self ← qemu_cpu_is_self cpu;
  ASSERT self "assertion failed: (qemu_cpu_is_self(cpu))" ;;
  upd_cpu cpu (fun c => c <| stop := false |> <| stopped := true |>) ;;
  if exit then cpu_exit cpu else mret tt.

Fixpoint all_stopped (l : list Z) : M bool :=
  match l with
  | [] => mret true
  | cpu :: l' =>
      c ← get_cpu cpu;
      if negb (stopped c) then mret false else all_stopped l'
  end.

Definition all_vcpus_paused : M bool := l ← gets cpu_list; all_stopped l.

(** The wait of [pause_all_vcpus] lasts until the other threads have stopped
    their CPUs: [fuel] wake-ups of the condition variable. *)
Definition pause_all_vcpus (fuel : nat) : M unit :=
  CPU_FOREACH (fun cpu =>
    self ← qemu_cpu_is_self cpu;
    if (self : bool) then qemu_cpu_stop cpu true
    else upd_cpu cpu (fun c => c <| stop := true |>) ;; qemu_cpu_kick cpu) ;;
  loop fuel (fun _ : unit =>
    p ← all_vcpus_paused;
    if (p : bool) then mret (inr tt) else
    self ← gets current_cpu;
    modify (fun w => (other_threads self w) <| current_cpu := self |> <| iothread_locked := true |>) ;;
    CPU_FOREACH qemu_cpu_kick ;;
    mret (inl tt)) tt ;;
  qemu_mutex_unlock_iothread ;;
  qemu_mutex_lock_iothread.

Definition cpu_resume (cpu : Z) : M unit :=
  upd_cpu cpu (fun c => c <| stop := false |> <| stopped := false |>) ;;
  qemu_cpu_kick cpu.

Definition resume_all_vcpus : M unit :=
  r ← runstate_is_running;
  if negb r then mret tt else CPU_FOREACH cpu_resume.

Definition cpu_stop_current : M unit :=
  cpu ← gets current_cpu;
  upd_cpu cpu (fun c => c <| stop := true |>) ;;
  cpu_exit cpu.

(** [vm_stop] on a vCPU thread: it asks the main loop to stop the VM and
    returns. *)
Definition vm_stop (s : RunState) : M Z :=
  qemu_system_vmstop_request s ;;
  cpu_stop_current ;;
  mret 0.

(** [do_vm_stop], what the main loop does; ticks, state-change notifiers and
    QMP events are left out. *)
Definition do_vm_stop (fuel : nat) (s : RunState) : M Z :=
  r ← runstate_is_running;
  (if (r : bool) then runstate_set s ;; pause_all_vcpus fuel else mret tt) ;;
  w ← gets id;
  let '(ret, k) := bdrv_flush_all (kvm w) in
  modify (fun w => w <| kvm := k |>) ;; mret ret.

Definition vm_prepare_start : M Z :=
  rq ← qemu_vmstop_requested;
  r ← runstate_is_running;
  if (r : bool) && bool_decide (rq.2 = RUN_STATE__MAX) then mret (-1) else
  if (r : bool) then mret (-1) else
  runstate_set RUN_STATE_RUNNING ;; mret 0.

Definition vm_start : M unit :=
  r ← vm_prepare_start;
  if r =? 0 then resume_all_vcpus else mret tt.
End RunState.

(** ** Safety *)
Section RunStateSafe.
Context {P : Platform} {I : Interference} (L : list Z) `{!Small L} (cpu : Z) (Hcpu : cpu ∈ L).

Lemma safe_runstate_check s : safe L cpu (runstate_check s) (fun _ => True).
Proof. apply safe_gets_any. Qed.

Lemma safe_runstate_set s : safe L cpu (runstate_set s) (fun _ => True).
Proof.
  unfold runstate_set. safe_auto. apply safe_modify. inside_trivial.
Qed.

Lemma safe_qemu_vmstop_requested : safe L cpu qemu_vmstop_requested (fun _ => True).
Proof.
  eapply safe_bind; [apply safe_gets_any|]. intros r _.
  eapply safe_bind; [apply safe_modify; inside_trivial|]. intros. by apply safe_ret.
Qed.

Lemma safe_kvm_ipi_signal c v : c ∈ L -> safe L cpu (kvm_ipi_signal c v) (fun _ => True).
Proof.
  intros. pose proof (small_range c ltac:(done)). unfold kvm_ipi_signal, kvm_cpu_kick. safe_auto.
Qed.

Hint Resolve safe_runstate_check safe_runstate_set safe_qemu_vmstop_requested
  safe_kvm_ipi_signal : safe.

Lemma safe_qemu_cpu_kick c : c ∈ L -> safe L cpu (qemu_cpu_kick c) (fun _ => True).
Proof. intros. unfold qemu_cpu_kick, cpus_kick_thread. safe_auto. Qed.

Hint Resolve safe_qemu_cpu_kick : safe.

Lemma safe_resume_all_vcpus : safe L cpu resume_all_vcpus (fun _ => True).
Proof.
  eapply safe_bind; [apply safe_runstate_check|]. intros r _.
  destruct (negb r); [by apply safe_ret|]. apply safe_CPU_FOREACH. intros c Hc.
  unfold cpu_resume. safe_auto.
Qed.

Lemma safe_cpu_stop_current : safe L cpu cpu_stop_current (fun _ => True).
Proof.
  unfold cpu_stop_current, cpu_exit. eapply safe_bind; [apply safe_current_cpu|]. intros c ->.
  safe_auto.
Qed.

Hint Resolve safe_cpu_stop_current : safe.

Lemma safe_vm_stop s : safe L cpu (vm_stop s) (fun _ => True).
Proof.
  eapply safe_bind; [apply safe_modify; inside_trivial|]. intros _ _. safe_auto.
Qed.

Lemma safe_vm_prepare_start : safe L cpu vm_prepare_start (fun _ => True).
Proof. unfold vm_prepare_start, runstate_is_running. safe_auto. Qed.
End RunStateSafe.

#[export] Hint Resolve safe_runstate_check safe_qemu_cpu_kick safe_resume_all_vcpus
  safe_cpu_stop_current safe_vm_stop safe_vm_prepare_start : safe.
