(* ===== verification/VmiHint.v ===== *)
(** * Hints from the guest

    The hypercall side of [qcsched/vmi.c]: addresses of kernel symbols, and
    the locks each vCPU holds or waits for. *)

From stdpp Require Import base list gmap strings.
From Stdlib Require Import ZArith Lia.
From S2P Require Import Prelude Machine Invariant KvmDebug CpuState GuestMem Vmi Window ExecControl Breakpoint.

Local Open Scope Z_scope.
Local Open Scope record_scope.

(** A negative errno as the [target_ulong] the handlers return. *)
Definition neg_errno (e : Z) : Z := u64 (- e).

Section VmiHint.
Context {P : Platform} {I : Interference}.

(** ** Symbols *)

Definition qcsched_vmi_hint_trampoline (cpu a index : Z) : M unit :=
  v ← vmi_ trampoline_addr;
  _ ← deref "vmi_info.trampoline_addr" (aget v index);
  upd_vmi (set trampoline_addr (fun l => aset l index a)).

Definition qcsched_vmi_hint_hook (cpu a : Z) : M unit :=
  upd_vmi (set hook_addr (fun _ => a)).

Definition qcsched_vmi_hint__per_cpu_offset (cpu index a : Z) : M unit :=
  v ← vmi_ per_cpu_offset;
  _ ← deref "vmi_info.__per_cpu_offset" (aget v index);
  upd_vmi (set per_cpu_offset (fun l => aset l index a)).

Definition qcsched_vmi_hint_current_task (cpu a : Z) : M unit :=
  upd_vmi (set vmi_current_task (fun _ => a)).

Definition qcsched_vmi_hint__ssb_do_emulate (cpu a : Z) : M unit :=
  upd_vmi (set ssb_do_emulate (fun _ => a)).

Definition qcsched_vmi_hint__preempt_count (cpu a : Z) : M unit :=
  upd_vmi (set preempt_count (fun _ => a)).

(** ** Locks *)

Definition qcsched_vmi_lock_info_duplicated (li : qcsched_vmi_lock_info)
    (l : qcsched_vmi_lock) : bool :=
  bool_decide (l ∈ take (Z.to_nat (li_count li)) (acquired li)).

Definition qcsched_vmi_lockdep_whitelisted (lockdep_addr : Z) : M bool :=
  wl ← vmi_ lockdep_whitelist;
  mret (bool_decide (lockdep_addr ∈ take (Z.to_nat (wl_count wl)) (whitelist wl))).

(** Both lock hooks act only for a scheduled task of an activated CPU. *)
Definition lock_hook_enabled (cpu : Z) : M bool :=
  b ← qcsched_vmi_running_context_being_scheduled cpu true;
  if negb b then mret false else
  act ← qcsched_check_cpu_state cpu qcsched_cpu_activated;
  if negb act then mret false else
  deact ← qcsched_check_cpu_state cpu qcsched_cpu_deactivated;
  mret (negb deact).

Definition qcsched_vmi_lock_acquire (cpu lockdep_addr trylock read ip : Z) : M unit :=
  if negb config_trampoline then mret tt else
  li ← get_lock_info cpu;
  let cnt := li_count li in
  wl ← qcsched_vmi_lockdep_whitelisted lockdep_addr;
  if (wl : bool) then mret tt else
  en ← lock_hook_enabled cpu;
  if negb en then mret tt else
  if MAX_LOCKS <=? cnt then mret tt else
  let vmi_lock := mk_lock lockdep_addr ip trylock read in
  if qcsched_vmi_lock_info_duplicated li vmi_lock then mret tt else
  _ ← deref "lock_info->acquired" (aget (acquired li) cnt);
  set_lock_info cpu (mk_lock_info (cnt + 1) (aset (acquired li) cnt vmi_lock)) ;;
  c ← qcsched_window_lock_contending cpu;
  if negb c then mret tt else
  k ← task_kidnapped cpu;
  if negb k then
    x ← get_window cpu;
    qcsched_yield_turn_from cpu (w_from x)
  else modify (fun w => w <| warn_once_kidnapped := true |>).

(** The first lock at [lockdep_addr] is overwritten by the last one. *)
Definition release_lock (li : qcsched_vmi_lock_info) (lockdep_addr : Z) : M qcsched_vmi_lock_info :=
  let cnt := li_count li in
  match list_find (fun l => Machine.lockdep_addr l = lockdep_addr)
          (take (Z.to_nat cnt) (acquired li)) with
  | None => mret li
  | Some (i, _) =>
      last ← deref "lock_info->acquired" (aget (acquired li) (cnt - 1));
      mret (mk_lock_info (cnt - 1) (aset (acquired li) (Z.of_nat i) last))
  end.

Definition qcsched_vmi_lock_release (cpu lockdep_addr : Z) : M unit :=
  if negb config_trampoline then mret tt else
  li ← get_lock_info cpu;
  en ← lock_hook_enabled cpu;
  if negb en then mret tt else
  li' ← release_lock li lockdep_addr;
  set_lock_info cpu li'.

Definition qcsched_vmi_lockdep_whitelist (cpu a : Z) : M unit :=
  wl ← vmi_ lockdep_whitelist;
  if MAX_WHITELIST_ITEM <=? wl_count wl then mret tt else
  let idx := wl_count wl in
  _ ← deref "lockdep_whitelist.whitelist" (aget (whitelist wl) idx);
  upd_vmi (set lockdep_whitelist (fun _ => mk_whitelist (idx + 1) (aset (whitelist wl) idx a))).

(** ** The hypercall *)

Definition qcsched_vmi_hint (cpu type a ip : Z) : M Z :=
  if (VMI_TRAMPOLINE <=? type) && (type <=? VMI_TRAMPOLINE + 1) then
    qcsched_vmi_hint_trampoline cpu a (type - VMI_TRAMPOLINE) ;; mret 0
  else if type =? VMI_HOOK then qcsched_vmi_hint_hook cpu a ;; mret 0
  else if (VMI__PER_CPU_OFFSET0 <=? type) && (type <=? VMI__PER_CPU_OFFSET0 + 63) then
    qcsched_vmi_hint__per_cpu_offset cpu (type - VMI__PER_CPU_OFFSET0) a ;; mret 0
  else if type =? VMI_CURRENT_TASK then qcsched_vmi_hint_current_task cpu a ;; mret 0
  else if type =? VMI__SSB_DO_EMULATE then qcsched_vmi_hint__ssb_do_emulate cpu a ;; mret 0
  else if type =? VMI__PREEMPT_COUNT then qcsched_vmi_hint__preempt_count cpu a ;; mret 0
  else if type =? VMI_LOCK_ACQUIRE then
    let trylock := Z.land (Z.shiftr a 2) 1 in
    let read := Z.land a 3 in
    let a := a - Z.land a 7 in
    qcsched_vmi_lock_acquire cpu a trylock read ip ;; mret 0
  else if type =? VMI_LOCK_RELEASE then qcsched_vmi_lock_release cpu a ;; mret 0
  else if type =? VMI_LOCKDEP_WHITELIST then qcsched_vmi_lockdep_whitelist cpu a ;; mret 0
  else mret (neg_errno EINVAL).
End VmiHint.

(** ** Safety *)
Section VmiHintSafe.
Context {P : Platform} {I : Interference} (L : list Z) `{!Small L} `{!StableInterference L}.
Context `{!MemLaws} (cpu : Z) (Hcpu : cpu ∈ L).

Lemma safe_lock_hook_enabled : safe L cpu (lock_hook_enabled cpu) (fun _ => True).
Proof. pose proof (small_range cpu Hcpu). unfold lock_hook_enabled. safe_auto. Qed.

Lemma safe_lockdep_whitelisted a : safe L cpu (qcsched_vmi_lockdep_whitelisted a) (fun _ => True).
Proof. unfold qcsched_vmi_lockdep_whitelisted. safe_auto. Qed.

Hint Resolve safe_lock_hook_enabled safe_lockdep_whitelisted : safe.

Lemma safe_release_lock li a :
  lock_info_ok li -> safe L cpu (release_lock li a) lock_info_ok.
Proof.
  intros [Hl Hc]. unfold release_lock. cbv zeta. destruct (list_find _ _) as [[i x]|] eqn:Hf;
    [|by apply safe_ret].
  apply list_find_Some in Hf as (Hi & _). apply lookup_take_Some in Hi as [_ Hi].
  eapply safe_bind; [apply safe_deref_aget; lia|]. intros last _.
  apply safe_ret. split; [simpl; by rewrite alen_aset|simpl; lia].
Qed.

Lemma safe_lock_acquire a t r i :
  safe L cpu (qcsched_vmi_lock_acquire cpu a t r i) (fun _ => True).
Proof.
  pose proof (small_range cpu Hcpu). unfold qcsched_vmi_lock_acquire.
  destruct (negb _); [by apply safe_ret|].
  eapply safe_bind; [by apply safe_get_lock_info|]. intros li [Hl Hc]. cbv zeta.
  do 2 (safe_step; try done). safe_step. safe_step; [done|]. safe_step; [done|].
  safe_step; [done|]. eapply safe_bind; [apply safe_deref_aget; lia|]. intros _ _.
  eapply safe_bind; [apply safe_set_lock_info; [done|]|intros _ _].
  { split; [simpl; by rewrite alen_aset|simpl; lia]. }
  safe_step. safe_step; [done|]. safe_step. safe_step.
  - eapply safe_bind; [by apply safe_get_window|]. intros x (? & ? & ?).
    by apply safe_yield_turn_from.
  - apply safe_modify. inside_trivial.
Qed.

Lemma safe_lock_release a : safe L cpu (qcsched_vmi_lock_release cpu a) (fun _ => True).
Proof.
  pose proof (small_range cpu Hcpu). unfold qcsched_vmi_lock_release.
  destruct (negb _); [by apply safe_ret|].
  eapply safe_bind; [by apply safe_get_lock_info|]. intros li Hli.
  safe_step. safe_step; [done|]. eapply safe_bind; [by apply safe_release_lock|].
  intros li' Hli'. by apply safe_set_lock_info.
Qed.

Lemma safe_lockdep_whitelist a : safe L cpu (qcsched_vmi_lockdep_whitelist cpu a) (fun _ => True).
Proof.
  eapply safe_bind; [apply safe_vmi_whitelist|]. intros wl [Hl Hc]. cbv zeta.
  destruct (Z.leb_spec MAX_WHITELIST_ITEM (wl_count wl)); [by apply safe_ret|].
  eapply safe_bind; [apply safe_deref_aget; lia|]. intros _ _.
  apply safe_upd_vmi. intros v []; split; simpl; auto; [by rewrite alen_aset|lia].
Qed.

Hint Resolve safe_lock_acquire safe_lock_release safe_lockdep_whitelist : safe.

Lemma safe_vmi_hint type a i : safe L cpu (qcsched_vmi_hint cpu type a i) (fun _ => True).
Proof.
  unfold qcsched_vmi_hint, qcsched_vmi_hint_trampoline, qcsched_vmi_hint_hook,
    qcsched_vmi_hint__per_cpu_offset, qcsched_vmi_hint_current_task,
    qcsched_vmi_hint__ssb_do_emulate, qcsched_vmi_hint__preempt_count.
  cbv zeta. safe_auto; apply safe_upd_vmi; intros v []; split; simpl; rewrite ?alen_aset; auto.
Qed.
End VmiHintSafe.

#[export] Hint Resolve safe_vmi_hint : safe.
