(* ===== verification/Kssb.v ===== *)
(** * Switching the kernel's store-buffer emulation

    [qcsched/kssb.c]: the hypervisor turns OEMU's emulation on and off by
    writing the guest variable [__ssb_do_emulate]. *)

From stdpp Require Import base list gmap strings.
From Stdlib Require Import ZArith Lia.
From S2P Require Import Prelude Machine Invariant KvmDebug CpuState GuestMem RunState VmiHint.

Local Open Scope Z_scope.
Local Open Scope record_scope.

Section Kssb.
Context {P : Platform} {I : Interference}.

Definition qcsched_rw__ssb_do_emulate (cpu enable : Z) : M bool :=
  a ← vmi_ ssb_do_emulate;
  if a =? 0 then mret false else
  r ← write_guest cpu a 1 enable;
  ASSERT (r =? 0) "Can't read __ssb_do_emulate" ;;
  mret true.

Definition is_vcpu_deactivated (cpu : Z) : M bool :=
  ready ← qcsched_check_cpu_state cpu qcsched_cpu_ready;
  if negb ready then mret true else qcsched_check_cpu_state cpu qcsched_cpu_deactivated.

Fixpoint all_deactivated (l : list Z) : M bool :=
  match l with
  | [] => mret true
  | cpu0 :: l' =>
      d ← is_vcpu_deactivated cpu0;
      if negb d then mret false else all_deactivated l'
  end.

Definition is_all_vcpus_deactivated (cpu : Z) : M bool :=
  l ← gets cpu_list; all_deactivated l.

Definition qcsched_enable_kssb (cpu : Z) : M Z :=
  en ← sched_ kssb_enabled;
  ok ← (if negb en then
          ok ← qcsched_rw__ssb_do_emulate cpu 1;
          upd_sched (set kssb_enabled (fun _ => ok)) ;; mret ok
        else mret true);
  mret (if (ok : bool) then 0 else neg_errno EINVAL).

Definition qcsched_disable_kssb (cpu : Z) : M Z :=
  en ← sched_ kssb_enabled;
  if negb en then mret 0 else
  d ← is_all_vcpus_deactivated cpu;
  if negb d then mret (neg_errno EAGAIN) else
  _ ← vm_stop RUN_STATE_PAUSED;
  ok ← qcsched_rw__ssb_do_emulate cpu 0;
  _ ← vm_prepare_start;
  resume_all_vcpus ;;
  upd_sched (set kssb_enabled (fun _ => negb ok)) ;;
  mret (if (ok : bool) then 0 else neg_errno EINVAL).
End Kssb.

(** ** Safety *)
Section KssbSafe.
Context {P : Platform} {I : Interference} (L : list Z) `{!Small L} `{!MemLaws}.
Context (cpu : Z) (Hcpu : cpu ∈ L).

Lemma safe_rw__ssb_do_emulate b : safe L cpu (qcsched_rw__ssb_do_emulate cpu b) (fun _ => True).
Proof. unfold qcsched_rw__ssb_do_emulate. safe_auto. Qed.

Lemma safe_is_all_vcpus_deactivated : safe L cpu (is_all_vcpus_deactivated cpu) (fun _ => True).
Proof.
  eapply safe_bind; [apply safe_cpu_list|]. intros l ->.
  assert (forall c, c ∈ L -> 0 <= c < MAX_CPUS) as Hs by apply small_range.
  revert Hs. generalize L at 1 3 as l. induction l as [|c l IH]; intros Hs; [by apply safe_ret|].
  pose proof (Hs c ltac:(set_solver)). cbn [all_deactivated]. unfold is_vcpu_deactivated.
  assert (safe L cpu (all_deactivated l) (fun _ => True)) by (apply IH; set_solver).
  safe_auto.
Qed.

Hint Resolve safe_rw__ssb_do_emulate safe_is_all_vcpus_deactivated : safe.

Lemma upd_kssb_ok b s : sched_ok s -> sched_ok (s <| kssb_enabled := b |>).
Proof. intros []; split; auto. Qed.

Hint Resolve upd_kssb_ok : safe.

Lemma safe_enable_kssb : safe L cpu (qcsched_enable_kssb cpu) (fun _ => True).
Proof. unfold qcsched_enable_kssb. safe_auto. Qed.

Lemma safe_disable_kssb : safe L cpu (qcsched_disable_kssb cpu) (fun _ => True).
Proof. unfold qcsched_disable_kssb. safe_auto. Qed.
End KssbSafe.

#[export] Hint Resolve safe_enable_kssb safe_disable_kssb : safe.
