(* ===== verification/Hcall.v ===== *)
(** * Hypercalls

    [qcsched/hcall.c]: the commands with which the fuzzer's executor, inside
    the guest, sets up, runs and collects a schedule. *)

From stdpp Require Import base list gmap strings.
From Stdlib Require Import ZArith Lia.
From S2P Require Import Prelude Machine Invariant KvmDebug CpuState GuestMem Vmi Window ExecControl Breakpoint RunState VmiHint Kssb.

Local Open Scope Z_scope.
Local Open Scope record_scope.

Definition qcsched_entry_used (e : qcsched_entry) : bool := negb (addr (schedpoint e) =? 0).

Section Hcall.
Context {P : Platform} {I : Interference}.

Definition sanitize_breakpoint : M bool :=
  n ← sched_ total;
  if n =? 0 then mret false else
  r ← find_entry 0 (fun _ e => negb (qcsched_entry_used e));
  mret (match r with Some _ => false | None => true end).

(** ** Removing breakpoints of another CPU *)

Definition escape_if_kidnapped (cpu wakeup : Z) : M unit :=
  kidnapped ← task_kidnapped wakeup;
  (if (kidnapped : bool) then wake_cpu_up cpu wakeup else mret tt) ;;
  reset_exec_control wakeup.

Definition remove_breakpoints_and_escape_cpu (this remote : Z) : M unit :=
  act ← sched_ activated;
  ASSERT (negb act) "trying to remove breakpoints while the schedule is activated" ;;
  for_loop 0 (fun i => n ← sched_ total; mret (i <? n))
    (fun i =>
       e ← get_entry i;
       if e_cpu e =? remote then
         _ ← kvm_remove_breakpoint_cpu remote (addr (schedpoint e)) 1 GDB_BREAKPOINT_HW;
         mret tt
       else mret tt) ;;
  escape_if_kidnapped this remote.

(** ** HCALL_RESET *)

Definition qcsched_reset_window (cpu : Z) : M unit :=
  upd_window cpu (fun _ =>
    mk_window 0 0 END_OF_SCHEDPOINT_WINDOW END_OF_SCHEDPOINT_WINDOW cpu END_OF_SCHEDPOINT_WINDOW).

Definition qcsched_reset_cookie (cpu : Z) : M unit :=
  upd_cpu cpu (fun c =>
    c <| breakpoint_cookie := 0 |> <| hcall_cookie := 0 |> <| timer_cookie := 0 |>).

Definition qcsched_reset_cpu (cpu cpu0 : Z) : M unit :=
  if cpu0 =? 0 then mret tt else
  d ← qcsched_check_cpu_state cpu0 qcsched_cpu_deactivated;
  (if negb d then remove_breakpoints_and_escape_cpu cpu cpu0 else mret tt) ;;
  set_record cpu0 zero_record ;;
  qcsched_set_cpu_state cpu0 qcsched_cpu_idle ;;
  qcsched_reset_window cpu0 ;;
  qcsched_reset_cookie cpu0 ;;
  qcsched_vmi_lock_info_reset cpu0.

Definition qcsched_reset (cpu : Z) : M unit :=
  upd_sched (set used (fun _ => true)) ;;
  upd_sched (set activated (fun _ => false)) ;;
  CPU_FOREACH (qcsched_reset_cpu cpu) ;;
  upd_sched (fun s =>
    s <| total := 0 |> <| current := 0 |> <| nr_cpus := 0 |>
      <| entries := replicate (Z.to_nat MAX_SCHEDPOINTS) zero_entry |>) ;;
  modify (fun w => w <| warn_once_kidnapped := false |>) ;;
  _ ← qcsched_disable_kssb cpu; mret tt.

(** ** HCALL_PREPARE *)

Definition qcsched_prepare (cpu nr_bps nr_cpus_ : Z) : M Z :=
  let orig := nr_bps in
  n ← sched_ total;
  if negb (n =? 0) then mret (neg_errno EBUSY) else
  h ← vmi_ hook_addr;
  if h =? 0 then mret (neg_errno EINVAL) else
  if MAX_CPUS <=? nr_cpus_ then mret (neg_errno EINVAL) else
  let nr_bps := if MAX_SCHEDPOINTS <? nr_bps then MAX_SCHEDPOINTS else nr_bps in
  upd_sched (fun s =>
    s <| total := nr_bps |> <| orig_nr_bps := i32 orig |> <| nr_cpus := nr_cpus_ |>
      <| used := false |>) ;;
  mret 0.

(** ** HCALL_INSTALL_BP *)

Definition qcsched_install_breakpoint (cpu a order_ footprint_ : Z) : M Z :=
  s ← sched_ id;
  ASSERT (total s <=? orig_nr_bps s) "sched.total > sched.orig_nr_bps" ;;
  if total s =? 0 then mret (neg_errno EINVAL) else
  if orig_nr_bps s <=? order_ then mret (neg_errno EINVAL) else
  ready ← qcsched_check_cpu_state cpu qcsched_cpu_ready;
  if (ready : bool) then mret (neg_errno EINVAL) else
  if total s <=? order_ then mret 0 else
  e ← get_entry order_;
  if qcsched_entry_used e then mret (neg_errno EBUSY) else
  let f := if footprint_ =? 1 then footprint_missed else footprint_preserved in
  upd_entry order_ (fun e => e <| schedpoint := mk_schedpoint a order_ f |> <| e_cpu := cpu |>) ;;
  task ← vmi_task cpu;
  upd_entry order_ (fun e => e <| t := task |>) ;;
  x ← get_window cpu;
  (if ((w_from x =? END_OF_SCHEDPOINT_WINDOW) || (order_ <? w_from x)) &&
      bool_decide (f = footprint_preserved)
   then upd_window cpu (fun x => x <| w_from := order_ |> <| w_until := order_ |>)
   else mret tt) ;;
  mret 0.

(** ** HCALL_ACTIVATE_BP *)

Definition sched_init_once (cpu : Z) : M unit :=
  act ← sched_ activated;
  if (act : bool) then mret tt else
  upd_sched (set activated (fun _ => true)) ;;
  r ← find_entry 0 (fun _ e => bool_decide (footprint (schedpoint e) = footprint_preserved));
  match r with
  | Some i => upd_sched (set current (fun _ => i))
  | None => upd_sched (fun s => s <| current := total s |>)
  end.

Definition do_activate_breakpoint (cpu : Z) : M unit :=
  if cpu =? 0 then mret tt else
  sched_init_once cpu ;;
  for_loop 0 (fun i => n ← sched_ total; mret (i <? n))
    (fun i =>
       e ← get_entry i;
       if negb (e_cpu e =? cpu) then mret tt
       else upd_window cpu (fun x => x <| w_total ::= Z.succ |>)) ;;
  need_hook ← find_entry 0 (fun _ e => e_cpu e =? cpu);
  match need_hook with
  | None => mret tt
  | Some _ =>
      h ← vmi_ hook_addr;
      err ← kvm_insert_breakpoint_cpu cpu h 1 GDB_BREAKPOINT_HW;
      ASSERT (err =? 0) "failed to insert a breakpoint at the hook"
  end.

Definition qcsched_activate_breakpoint (cpu : Z) : M Z :=
  u ← sched_ used;
  if (u : bool) then mret (neg_errno EINVAL) else
  act ← qcsched_check_cpu_state cpu qcsched_cpu_activated;
  if (act : bool) then mret (neg_errno EINVAL) else
  qcsched_set_cpu_state cpu qcsched_cpu_ready ;;
  all ← qcsched_check_all_cpu_state qcsched_cpu_ready;
  if negb all then mret (neg_errno EAGAIN) else
  sane ← sanitize_breakpoint;
  if negb sane then mret (neg_errno EINVAL) else
  ok ← qcsched_cpu_transition cpu qcsched_cpu_ready qcsched_cpu_activated;
  if negb ok then mret (neg_errno EINVAL) else
  do_activate_breakpoint cpu ;;
  mret 0.

(** ** HCALL_DEACTIVATE_BP *)

Definition qcsched_deactivate_breakpoint (cpu : Z) : M Z :=
  ready ← qcsched_check_cpu_state cpu qcsched_cpu_ready;
  if negb ready then mret (neg_errno EINVAL) else
  qcsched_set_cpu_state cpu qcsched_cpu_deactivated ;;
  qcsched_window_close_window cpu ;;
  act ← sched_ activated;
  (if (act : bool) then
     upd_sched (set activated (fun _ => false)) ;;
     upd_sched (set used (fun _ => true)) ;;
     CPU_FOREACH (fun cpu0 =>
       if cpu0 =? 0 then mret tt else remove_breakpoints_and_escape_cpu cpu cpu0)
   else mret tt) ;;
  mret 0.

(** ** HCALL_FOOTPRINT_BP *)

(** The loop: [(i, idx, cntul, retryul)]; [None] on a failed write. *)
Definition footprint_loop (cpu data_uptr : Z) : M (option (Z * Z)) :=
  loop (S (Z.to_nat MAX_SCHEDPOINTS)) (fun '(i, idx, cntul, retryul) =>
    n ← sched_ total;
    if negb (i <? n) then mret (inr (Some (cntul, retryul))) else
    e ← get_entry i;
    if negb (e_cpu e =? cpu) then mret (inl (i + 1, idx, cntul, retryul)) else
    let f := footprint (schedpoint e) in
    let retryul := if bool_decide (f = footprint_not_addressed) ||
                      bool_decide (f = footprint_dropped) then 1 else retryul in
    err ← write_guest cpu (u64 (data_uptr + idx)) 8 (footprint_code f);
    if negb (err =? 0) then mret (inr None) else
    mret (inl (i + 1, idx + 8, cntul + 1, retryul))) (0, 0, 0, 0).

Definition qcsched_footprint_breakpoint (cpu cnt_uptr data_uptr retry_uptr : Z) : M Z :=
  d ← qcsched_check_cpu_state cpu qcsched_cpu_deactivated;
  if negb d then mret (neg_errno EINVAL) else
  r ← footprint_loop cpu data_uptr;
  match r with
  | None => mret (neg_errno EFAULT)
  | Some (cntul, retryul) =>
      err ← write_guest cpu cnt_uptr 8 cntul;
      if negb (err =? 0) then mret (neg_errno EFAULT) else
      err ← write_guest cpu retry_uptr 8 retryul;
      if negb (err =? 0) then mret (neg_errno EFAULT) else
      mret 0
  end.

(** ** HCALL_CLEAR_BP *)

Definition qcsched_clear_breakpoint (cpu : Z) : M Z :=
  act ← sched_ activated;
  if (act : bool) then mret (neg_errno EBUSY) else
  ok ← qcsched_cpu_transition cpu qcsched_cpu_deactivated qcsched_cpu_idle;
  if negb ok then mret (neg_errno EINVAL) else
  for_loop 0 (fun i => n ← sched_ total; mret (i <? n))
    (fun i =>
       e ← get_entry i;
       if negb (e_cpu e =? cpu) then mret tt else upd_entry i (fun _ => zero_entry)) ;;
  kvm_remove_all_breakpoints_cpu cpu ;;
  mret 0.

(** ** Dispatch *)

Definition VMCALL_INSN_LEN : Z := 3.

Definition qcsched_jumped_into_trampoline (cpu : Z) : M bool :=
  if config_trampoline then
    r ← RIP cpu; a ← trampoline_entry_addr; mret (r =? a)
  else mret false.

Definition skip_executed_vmcall (cpu : Z) : M unit :=
  upd_cpu cpu (fun c => c <| regs ::= set rip (fun r => u64 (r + VMCALL_INSN_LEN)) |>).

Definition commit_state (cpu hcall_ret : Z) : M unit :=
  skip_executed_vmcall cpu ;;
  upd_cpu cpu (fun c => c <| regs ::= set rax (fun _ => hcall_ret) |> <| qcsched_dirty := true |>).

(** The command switch; [args] are the 64-bit arguments of the hypercall. *)
Definition hcall_dispatch (cpu : Z) (cmd a1 a2 a3 : Z) : M Z :=
  if cmd =? HCALL_RESET then qcsched_reset cpu ;; mret 0
  else if cmd =? HCALL_PREPARE then qcsched_prepare cpu (u32 a1) (u32 a2)
  else if cmd =? HCALL_INSTALL_BP then qcsched_install_breakpoint cpu a1 (i32 a2) (u32 a3)
  else if cmd =? HCALL_ACTIVATE_BP then qcsched_activate_breakpoint cpu
  else if cmd =? HCALL_DEACTIVATE_BP then qcsched_deactivate_breakpoint cpu
  else if cmd =? HCALL_FOOTPRINT_BP then qcsched_footprint_breakpoint cpu a1 a2 a3
  else if cmd =? HCALL_CLEAR_BP then qcsched_clear_breakpoint cpu
  else if cmd =? HCALL_VMI_HINT then qcsched_vmi_hint cpu a1 a2 a3
  else if cmd =? HCALL_ENABLE_KSSB then qcsched_enable_kssb cpu
  else if cmd =? HCALL_DISABLE_KSSB then qcsched_disable_kssb cpu
  else mret (neg_errno EINVAL).

Definition qcsched_handle_hcall (cpu : Z) (args : list Z) : M unit :=
  cmd ← deref "run->hypercall.args" (aget args 0);
  a1 ← deref "run->hypercall.args" (aget args 1);
  a2 ← deref "run->hypercall.args" (aget args 2);
  a3 ← deref "run->hypercall.args" (aget args 3);
  qemu_mutex_lock_iothread ;;
  qcsched_eat_cookie cpu cookie_hcall ;;
  ret ← hcall_dispatch cpu cmd a1 a2 a3;
  qemu_mutex_unlock_iothread ;;
  j ← qcsched_jumped_into_trampoline cpu;
  if (j : bool) then mret tt else commit_state cpu ret.
End Hcall.

(** What the executor respects: at most 255 scheduling points, and orders that
    are not negative.  The kernel passes on any arguments. *)
Definition hcall_args_ok (args : list Z) : Prop :=
  exists cmd a1 a2 a3 rest, args = cmd :: a1 :: a2 :: a3 :: rest /\
    (cmd = HCALL_PREPARE -> u32 a1 < MAX_SCHEDPOINTS) /\
    (cmd = HCALL_INSTALL_BP -> 0 <= i32 a2).

(** ** Safety *)
Section HcallSafe.
Context {P : Platform} {I : Interference} (L : list Z) `{!Small L} `{!StableInterference L}.
Context `{!MemLaws} (cpu : Z) (Hcpu : cpu ∈ L).

Lemma safe_sanitize_breakpoint : safe L cpu sanitize_breakpoint (fun _ => True).
Proof. unfold sanitize_breakpoint. safe_auto. Qed.

Lemma safe_escape_if_kidnapped c c' :
  c' ∈ L -> safe L cpu (escape_if_kidnapped c c') (fun _ => True).
Proof. intros. unfold escape_if_kidnapped. safe_auto. Qed.

Lemma safe_remove_breakpoints_and_escape_cpu c :
  c ∈ L -> safe L cpu (remove_breakpoints_and_escape_cpu cpu c) (fun _ => True).
Proof.
  intros Hc. unfold remove_breakpoints_and_escape_cpu. safe_step. safe_step.
  eapply safe_bind; [|intros _ _; by apply safe_escape_if_kidnapped].
  apply safe_for_loop; [done| |]; intros; safe_auto.
Qed.

Hint Resolve safe_sanitize_breakpoint safe_remove_breakpoints_and_escape_cpu : safe.

Lemma safe_reset_cpu c : c ∈ L -> safe L cpu (qcsched_reset_cpu cpu c) (fun _ => True).
Proof.
  intros Hc. pose proof (small_range c Hc).
  unfold qcsched_reset_cpu, qcsched_set_cpu_state, qcsched_reset_window, qcsched_reset_cookie.
  safe_auto.
Qed.

Lemma zero_entries_ok n : aforall entry_ok (replicate n zero_entry).
Proof. intros i e [-> ?]%aget_replicate. repeat split; simpl; clia. Qed.

Lemma safe_reset : safe L cpu (qcsched_reset cpu) (fun _ => True).
Proof.
  unfold qcsched_reset.
  eapply safe_bind; [apply safe_upd_sched; intros s []; by split|]. intros _ _.
  eapply safe_bind; [apply safe_upd_sched; intros s []; by split|]. intros _ _.
  eapply safe_bind; [apply safe_CPU_FOREACH; apply safe_reset_cpu|]. intros _ _.
  eapply safe_bind; [apply safe_upd_sched|intros _ _].
  { intros s []; split; first [apply zero_entries_ok | apply (alen_replicate 256) | assumption | done]. }
  eapply safe_bind; [apply safe_modify; inside_trivial|]. intros _ _. safe_auto.
Qed.

Lemma safe_prepare n c :
  0 <= n < MAX_SCHEDPOINTS -> safe L cpu (qcsched_prepare cpu n c) (fun _ => True).
Proof.
  intros Hn. unfold qcsched_prepare. cbv zeta. safe_step. safe_step; [by apply safe_ret|].
  safe_step. safe_step; [by apply safe_ret|]. safe_step; [by apply safe_ret|].
  eapply safe_bind; [apply safe_upd_sched|intros _ _; by apply safe_ret].
  intros s []; split; simpl; auto. by case_match; bool_to_prop; [lia|].
Qed.

Lemma safe_install_breakpoint a o f :
  0 <= o -> safe L cpu (qcsched_install_breakpoint cpu a o f) (fun _ => True).
Proof.
  intros Ho. pose proof (small_range cpu Hcpu). unfold qcsched_install_breakpoint.
  eapply safe_bind; [apply safe_sched_id|]. intros s Hs. pose proof (total_range _ Hs).
  safe_step. safe_step; [by apply safe_ret|]. safe_step; [by apply safe_ret|]. safe_step.
  safe_step; [by apply safe_ret|]. safe_step; [by apply safe_ret|]. cbv zeta. safe_step.
  safe_step; [by apply safe_ret|].
  eapply safe_bind; [apply safe_upd_entry; [lia|]|intros _ _].
  { intros e (? & ? & ?). repeat split; simpl; lia. }
  safe_auto.
Qed.

Lemma safe_sched_init_once : safe L cpu (sched_init_once cpu) (fun _ => True).
Proof.
  unfold sched_init_once. safe_step. safe_step; [by apply safe_ret|].
  eapply safe_bind; [apply safe_upd_sched; intros s []; by split|]. intros _ _.
  eapply safe_bind; [by apply safe_find_entry|]. intros [i|] Hi; apply safe_upd_sched;
    intros s []; split; simpl; auto; lia.
Qed.

Lemma safe_do_activate_breakpoint : safe L cpu (do_activate_breakpoint cpu) (fun _ => True).
Proof.
  pose proof (small_range cpu Hcpu). unfold do_activate_breakpoint.
  destruct (_ =? _); [by apply safe_ret|].
  eapply safe_bind; [apply safe_sched_init_once|]. intros _ _.
  eapply safe_bind; [apply safe_for_loop; [done| |]; intros; safe_auto|]. intros _ _. safe_auto.
Qed.

Hint Resolve safe_do_activate_breakpoint : safe.

Lemma safe_activate_breakpoint : safe L cpu (qcsched_activate_breakpoint cpu) (fun _ => True).
Proof.
  pose proof (small_range cpu Hcpu).
  unfold qcsched_activate_breakpoint, qcsched_set_cpu_state. safe_auto.
Qed.

Lemma safe_deactivate_breakpoint :
  safe L cpu (qcsched_deactivate_breakpoint cpu) (fun _ => True).
Proof.
  pose proof (small_range cpu Hcpu). unfold qcsched_deactivate_breakpoint, qcsched_set_cpu_state.
  safe_step. safe_step; [by apply safe_ret|]. safe_step. safe_step. safe_step.
  apply (safe_bind _ _ _ _ (fun _ => True)); [|intros; by apply safe_ret].
  safe_step; [|by apply safe_ret].
  eapply safe_bind; [apply safe_upd_sched; intros s []; by split|]. intros _ _.
  eapply safe_bind; [apply safe_upd_sched; intros s []; by split|]. intros _ _.
  apply safe_CPU_FOREACH. intros c Hc. safe_auto.
Qed.

Lemma safe_footprint_loop p : safe L cpu (footprint_loop cpu p) (fun _ => True).
Proof.
  apply (safe_loop _ _ (fun s => 0 <= s.1.1.1)
           (fun s => Z.to_nat (MAX_SCHEDPOINTS - s.1.1.1))); [done|simpl; clia|].
  intros [[[i idx] cnt] retry] Hi. simpl in Hi.
  eapply safe_bind; [apply safe_total|]. intros n Hn. cbv beta in Hn.
  destruct (Z.ltb_spec i n); simpl; [|by apply safe_ret].
  eapply safe_bind; [apply safe_get_entry; lia|]. intros e _.
  destruct (negb _); [apply safe_ret; simpl; lia|]. cbv zeta.
  eapply safe_bind; [by eauto with safe|]. intros err _.
  destruct (negb _); apply safe_ret; simpl; [done|lia].
Qed.

Hint Resolve safe_footprint_loop : safe.

Lemma safe_footprint_breakpoint c d r :
  safe L cpu (qcsched_footprint_breakpoint cpu c d r) (fun _ => True).
Proof. pose proof (small_range cpu Hcpu). unfold qcsched_footprint_breakpoint. safe_auto. Qed.

Lemma safe_clear_breakpoint : safe L cpu (qcsched_clear_breakpoint cpu) (fun _ => True).
Proof.
  pose proof (small_range cpu Hcpu). unfold qcsched_clear_breakpoint.
  safe_step. safe_step; [by apply safe_ret|]. safe_step. safe_step; [by apply safe_ret|].
  eapply safe_bind; [apply safe_for_loop; [done| |]; intros; safe_auto|intros _ _; safe_auto].
Qed.

Hint Resolve safe_reset safe_prepare safe_install_breakpoint safe_activate_breakpoint
  safe_deactivate_breakpoint safe_footprint_breakpoint safe_clear_breakpoint : safe.

Lemma safe_hcall_dispatch cmd a1 a2 a3 :
  (cmd = HCALL_PREPARE -> u32 a1 < MAX_SCHEDPOINTS) ->
  (cmd = HCALL_INSTALL_BP -> 0 <= i32 a2) ->
  safe L cpu (hcall_dispatch cpu cmd a1 a2 a3) (fun _ => True).
Proof.
  intros Hp Hi. unfold hcall_dispatch.
  pose proof (wrapu_range 32 a1 ltac:(lia)).
  repeat (safe_step; [solve [safe_auto]|]); safe_auto.
Qed.

Lemma osafe_commit_state r : osafe L cpu (commit_state cpu r) (fun _ => True).
Proof.
  eapply osafe_bind; [by apply osafe_upd_cpu|]. intros _ _. by apply osafe_upd_cpu.
Qed.

Lemma osafe_jumped_into_trampoline :
  osafe L cpu (qcsched_jumped_into_trampoline cpu) (fun _ => True).
Proof.
  unfold qcsched_jumped_into_trampoline. destruct config_trampoline; [|by apply osafe_ret].
  apply (osafe_bind _ _ _ _ (fun _ => True)).
  { eapply osafe_bind; [by apply osafe_get_cpu|]. intros. by apply osafe_ret. }
  intros r _ w Hw. apply wp_bind, wp_bind, wp_gets, wp_deref.
  destruct (proj2 (aget_is_Some (trampoline_addr (vmi_info w)) 0)) as [x Hx].
  { rewrite (len_trampoline_addr _ (wf_vmi _ _ (out_wf _ _ _ Hw))). lia. }
  exists x. split; [done|]. by apply wp_ret.
Qed.

Lemma osafe_handle_hcall args :
  hcall_args_ok args -> osafe L cpu (qcsched_handle_hcall cpu args) (fun _ => True).
Proof.
  intros (cmd & a1 & a2 & a3 & rest & -> & Hp & Hi) w Hw.
  do 4 (apply wp_bind, wp_ret). apply wp_bind. eapply wp_lock_iothread; [done|]. intros w1 Hw1.
  apply wp_bind. eapply wp_mono; [by apply safe_qcsched_eat_cookie|]. intros [] w2 [Hw2 _].
  apply wp_bind. eapply wp_mono; [by apply safe_hcall_dispatch|]. intros r w3 [Hw3 _].
  apply wp_bind. eapply wp_unlock_iothread; [done|]. intros w4 Hw4.
  apply wp_bind. eapply wp_mono; [by apply osafe_jumped_into_trampoline|].
  intros [] w5 [Hw5 _]; [by apply wp_ret|]. by apply osafe_commit_state.
Qed.
End HcallSafe.
