(* ===== verification/VcpuLoop.v ===== *)
(** * The vCPU loop

    [kvm_cpu_exec] of [accel/kvm/kvm-all.c], the debug exit of
    [target/i386/kvm/kvm.c] and the body of [kvm_vcpu_thread_fn]: where the
    scheduler's hooks are called from.  [cpu_exec_start] and [cpu_exec_end]
    are the subject of [Exclusive]; the transfer of the remaining registers
    and the interrupt injection around [KVM_RUN] belong to the platform's
    [ioctl_run]. *)

From stdpp Require Import base list gmap strings.
From Stdlib Require Import ZArith Lia.
From S2P Require Import Prelude Machine Invariant Flat KvmDebug CpuState GuestMem Vmi Window ExecControl Breakpoint RunState VmiHint Kssb Hcall.

Local Open Scope Z_scope.
Local Open Scope record_scope.

Definition EXCP_INTERRUPT : Z := 0x10000.
Definition EXCP_HLT : Z := 0x10001.
Definition EXCP_DEBUG : Z := 0x10002.

Definition EXCP01_DB : Z := 1.
Definition DR6_BS : Z := Z.shiftl 1 14.

Definition KVM_SYSTEM_EVENT_SHUTDOWN : Z := 1.
Definition KVM_SYSTEM_EVENT_RESET : Z := 2.
Definition KVM_SYSTEM_EVENT_CRASH : Z := 3.

Definition SHUTDOWN_CAUSE_GUEST_SHUTDOWN : Z := 6.
Definition SHUTDOWN_CAUSE_GUEST_RESET : Z := 7.
Definition SHUTDOWN_CAUSE_SUBSYSTEM_RESET : Z := 9.

(** Does debug register [n], reported in DR6, stop the guest?  The type field
    of DR7 is 0 (execute), 1 (write) or 3 (access); 2 is I/O. *)
Definition dr_stops (dr6 dr7 n : Z) : bool :=
  Z.testbit dr6 n && negb (Z.land (Z.shiftr dr7 (16 + n * 4)) 3 =? 2).

Section VcpuLoop.
Context {P : Platform} {I : Interference}.

(** ** Requests to the main loop (softmmu/runstate.c) *)

Definition qemu_system_reset_request (reason : Z) : M unit :=
  w ← gets id;
  (if (reboot_action_shutdown && negb (reason =? SHUTDOWN_CAUSE_SUBSYSTEM_RESET)) ||
      negb (cpus_are_resettable (kvm w))
   then modify (fun w => w <| shutdown_requested := reason |>)
   else modify (fun w => w <| reset_requested := reason |>)) ;;
  cpu_stop_current.

Definition qemu_system_shutdown_request (reason : Z) : M unit :=
  modify (fun w => w <| shutdown_requested := reason |>).

(** ** Debug exits *)

Definition kvm_find_sw_breakpoint (pc : Z) : M bool :=
  gets (fun w => bool_decide (pc ∈ kvm_sw_breakpoints w)).

(** [hw_watchpoint], which only the gdb stub reads, is left out. *)
Definition kvm_handle_debug (cpu exception dr6 dr7 pc : Z) : M Z :=
  c ← get_cpu cpu;
  sw ← kvm_find_sw_breakpoint pc;
  let ret :=
    if exception =? EXCP01_DB then
      if negb (Z.land dr6 DR6_BS =? 0) then
        if singlestep_enabled c then EXCP_DEBUG else 0
      else if existsb (dr_stops dr6 dr7) [0; 1; 2; 3] then EXCP_DEBUG else 0
    else if (sw : bool) then EXCP_DEBUG else 0 in
  (if ret =? 0
   then modify (fun w => w <| kvm ::= fun k => queue_exception k cpu exception |>)
   else mret tt) ;;
  mret ret.

(** What another part of QEMU does with an exit. *)
Definition device (cpu : Z) (e : kvm_exit) : M Z :=
  w ← gets id;
  let '((r, k), m) := device_exit (kvm w) (mem w) cpu e in
  modify (fun w => w <| kvm := k |> <| mem := m |>) ;; mret r.

(** [kvm_arch_handle_exit] *)
Definition kvm_arch_handle_exit (cpu : Z) (e : kvm_exit) : M Z :=
  match e with
  | KVM_EXIT_HLT | KVM_EXIT_TPR_ACCESS =>
      qemu_mutex_lock_iothread ;;
      ret ← device cpu e;
      qemu_mutex_unlock_iothread ;;
      mret ret
  | KVM_EXIT_SET_TPR => mret 0
  | KVM_EXIT_FAIL_ENTRY | KVM_EXIT_EXCEPTION => mret (-1)
  | KVM_EXIT_DEBUG exception dr6 dr7 pc =>
      qemu_mutex_lock_iothread ;;
      ret ← kvm_handle_debug cpu exception dr6 dr7 pc;
      qemu_mutex_unlock_iothread ;;
      mret ret
  | KVM_EXIT_HYPERV => device cpu e
  | KVM_EXIT_IOAPIC_EOI => _ ← device cpu e; mret 0
  | _ => mret (-1)
  end.

(** The switch on the exit reason of [kvm_cpu_exec] *)
Definition handle_exit (cpu : Z) (e : kvm_exit) : M Z :=
  match e with
  | KVM_EXIT_HCALL args => qcsched_handle_hcall cpu args ;; mret 0
  | KVM_EXIT_IO | KVM_EXIT_MMIO => _ ← device cpu e; mret 0
  | KVM_EXIT_IRQ_WINDOW_OPEN => mret EXCP_INTERRUPT
  | KVM_EXIT_SHUTDOWN =>
      qemu_system_reset_request SHUTDOWN_CAUSE_GUEST_RESET ;; mret EXCP_INTERRUPT
  | KVM_EXIT_UNKNOWN => mret (-1)
  | KVM_EXIT_INTERNAL_ERROR => device cpu e
  | KVM_EXIT_SYSTEM_EVENT type =>
      if type =? KVM_SYSTEM_EVENT_SHUTDOWN then
        qemu_system_shutdown_request SHUTDOWN_CAUSE_GUEST_SHUTDOWN ;; mret EXCP_INTERRUPT
      else if type =? KVM_SYSTEM_EVENT_RESET then
        qemu_system_reset_request SHUTDOWN_CAUSE_GUEST_RESET ;; mret EXCP_INTERRUPT
      else if type =? KVM_SYSTEM_EVENT_CRASH then
        qemu_mutex_lock_iothread ;;
        _ ← device cpu e;
        qemu_mutex_unlock_iothread ;;
        mret 0
      else kvm_arch_handle_exit cpu e
  | _ => kvm_arch_handle_exit cpu e
  end.

(** ** kvm_cpu_exec *)

(** [KVM_RUN] with [run->immediate_exit] as it stands.  [ioctl_run] also stands
    for what QEMU does with the interrupt controller and with the machine-check
    state around the ioctl ([kvm_arch_put_registers] of a dirty vCPU,
    [kvm_arch_pre_run], [kvm_arch_post_run], a pending SIGBUS): none of it
    touches the scheduler's state. *)
Definition kvm_run (cpu : Z) : M run_result :=
  c ← get_cpu cpu;
  w ← gets id;
  let '((r, k), m) := ioctl_run (kvm w) (mem w) cpu (immediate_exit c) in
  modify (fun w => w <| kvm := k |> <| mem := m |>) ;; mret r.

(** One round of the loop: [inl] to go round again, [inr ret] to leave. *)
Definition kvm_cpu_exec_round (cpu : Z) : M (unit + Z) :=
  c ← get_cpu cpu;
  (if exit_request c then kvm_cpu_kick_self else mret tt) ;;
  go ← qcsched_pre_run cpu;
  (if (go : bool) then mret tt else kvm_cpu_kick_self) ;;
  run_ret ← kvm_run cpu;
  qcsched_post_run cpu ;;
  match run_ret with
  | run_error err =>
      if (err =? - EINTR) || (err =? - EAGAIN) then
        kvm_eat_signals cpu ;;
        qcsched_handle_kick cpu ;;
        mret (inr EXCP_INTERRUPT)
      else mret (inr (-1))
  | run_exit e =>
      ret ← handle_exit cpu e;
      ret ← (if ret =? EXCP_DEBUG then qcsched_handle_breakpoint cpu else mret ret);
      if ret =? 0 then mret (inl tt) else mret (inr ret)
  end.

(** The loop ends when the guest makes it end; [fuel] bounds the rounds. *)
Definition kvm_cpu_exec (fuel : nat) (cpu : Z) : M Z :=
  w ← gets id;
  let '(ev, k) := arch_process_async_events (kvm w) cpu in
  modify (fun w => w <| kvm := k |>) ;;
  if (ev : bool) then
    upd_cpu cpu (fun c => c <| exit_request := false |>) ;; mret EXCP_HLT
  else
  qemu_mutex_unlock_iothread ;;
  ret ← loop fuel (fun _ => kvm_cpu_exec_round cpu) tt;
  qemu_mutex_lock_iothread ;;
  (if ret <? 0 then _ ← vm_stop RUN_STATE_INTERNAL_ERROR; mret tt else mret tt) ;;
  upd_cpu cpu (fun c => c <| exit_request := false |>) ;;
  mret ret.
End VcpuLoop.

(** What the guest and the devices do: hypercalls carry arguments the
    scheduler can take, and CPU 0, which has no scheduling points, does not
    stop for the debugger. *)
Definition exit_ok (cpu : Z) (e : kvm_exit) : Prop :=
  match e with
  | KVM_EXIT_HCALL args => hcall_args_ok args
  | KVM_EXIT_DEBUG _ _ _ _ => cpu <> 0
  | _ => True
  end.

Class GuestLaws `{P : Platform} := {
  run_exit_ok : forall k m cpu ie e k' m',
    ioctl_run k m cpu ie = ((run_exit e, k'), m') -> exit_ok cpu e;
  device_exit_ok : forall k m cpu e r k' m',
    device_exit k m cpu e = ((r, k'), m') -> r = EXCP_DEBUG -> cpu <> 0;
}.

(** ** Safety *)
Section VcpuLoopSafe.
Context {P : Platform} {I : Interference} (L : list Z) `{!Small L} `{!StableInterference L}.
Context `{!MemLaws} `{!GuestLaws} (cpu : Z) (Hcpu : cpu ∈ L).

Lemma outside_kvm_mem k m w :
  outside L cpu w -> outside L cpu (w <| kvm := k |> <| mem := m |>).
Proof. intros [[] ? ?]; split; [split|..]; simpl; auto. Qed.

Lemma outside_kvm k w : outside L cpu w -> outside L cpu (w <| kvm := k |>).
Proof. intros [[] ? ?]; split; [split|..]; simpl; auto. Qed.

Lemma osafe_kick_self : osafe L cpu kvm_cpu_kick_self (fun _ => True).
Proof.
  eapply osafe_bind; [apply osafe_current_cpu|]. intros c ->. by apply osafe_upd_cpu.
Qed.

Lemma osafe_pre_run : osafe L cpu (qcsched_pre_run cpu) (fun _ => True).
Proof.
  pose proof (small_range cpu Hcpu). intros w Hw. apply wp_bind, wp_gets.
  rewrite (out_unlocked _ _ _ Hw). apply wp_bind, wp_ret. revert w Hw.
  match goal with |- forall w, _ -> wp _ ?m _ w => change (osafe L cpu m (fun _ => True)) end.
  eapply osafe_bind; [by apply osafe_get_cpu|]. intros c _.
  apply (osafe_bind _ _ _ _ (fun _ => True)).
  - destruct (qcsched_dirty c); [|by apply osafe_ret].
    apply (osafe_bind _ _ _ _ (fun _ => True)).
    + eapply osafe_bind; [by apply osafe_get_cpu|]. intros c' _.
      eapply osafe_bind; [apply osafe_gets|]. intros w _. destruct (ioctl_set_regs _ _ _) as [r k].
      eapply osafe_bind; [apply osafe_modify; intros; by apply outside_kvm|].
      intros. by apply osafe_ret.
    + intros r _. eapply osafe_bind; [apply osafe_ASSERT; by apply (bool_decide_unpack _)|].
      intros _ _. by apply osafe_upd_cpu.
  - intros _ _. destruct config_trampoline eqn:Ht; [by apply osafe_ret|].
    unfold task_kidnapped, blocker_task_kidnapped. rewrite Ht.
    apply (osafe_bind _ _ _ _ (fun _ => True)); [|intros; by apply osafe_ret].
    eapply osafe_bind; [by apply osafe_get_exec|]. intros. by apply osafe_ret.
Qed.

Lemma osafe_post_run : osafe L cpu (qcsched_post_run cpu) (fun _ => True).
Proof.
  apply (osafe_bind _ _ _ _ (fun _ => True)).
  - eapply osafe_bind; [apply osafe_gets|]. intros w _.
    destruct (ioctl_get_regs _ _) as [[r g] k].
    eapply osafe_bind; [apply osafe_modify; intros; by apply outside_kvm|]. intros _ _.
    apply (osafe_bind _ _ _ _ (fun _ => True)); [|intros; by apply osafe_ret].
    destruct (_ =? _); [by apply osafe_upd_cpu|by apply osafe_ret].
  - intros r _. eapply osafe_bind; [apply osafe_ASSERT; by apply (bool_decide_unpack _)|].
    intros _ _. destruct config_trampoline; [by apply osafe_ret|].
    intros w Hw. apply wp_bind. eapply wp_lock_iothread; [done|]. intros w1 Hw1.
    apply wp_bind. eapply wp_mono; [by apply safe_want_to_wake_up|]. intros b w2 [Hw2 _].
    apply wp_bind. apply (wp_mono _ _ (fun _ w => inside L cpu w)).
    + destruct b; [|by apply wp_ret]. eapply wp_mono; [by apply safe_resume_task|]. naive_solver.
    + intros [] w3 Hw3. eapply wp_unlock_iothread; [done|]. done.
Qed.

Lemma osafe_kvm_run :
  osafe L cpu (kvm_run cpu) (fun r =>
    match r with run_exit e => exit_ok cpu e | run_error _ => True end).
Proof.
  eapply osafe_bind; [by apply osafe_get_cpu|]. intros c _.
  eapply osafe_bind; [apply osafe_gets|]. intros w _.
  destruct (ioctl_run _ _ _ _) as [[r k] m] eqn:Hr.
  eapply osafe_bind; [apply osafe_modify; intros; by apply outside_kvm_mem|].
  intros _ _. apply osafe_ret. destruct r; [done|]. by eapply run_exit_ok.
Qed.

Lemma osafe_handle_kick : osafe L cpu (qcsched_handle_kick cpu) (fun _ => True).
Proof.
  intros w Hw. apply wp_bind. eapply wp_lock_iothread; [done|]. intros w1 Hw1.
  apply wp_bind. eapply wp_mono; [by apply safe_qcsched_eat_cookie|]. intros [] w2 [Hw2 _].
  apply wp_bind. eapply wp_mono; [by apply safe_handle_kick_locked|]. intros [] w3 [Hw3 _].
  eapply wp_unlock_iothread; [done|]. done.
Qed.

Lemma osafe_device e :
  osafe L cpu (device cpu e) (fun r => r = EXCP_DEBUG -> cpu <> 0).
Proof.
  eapply osafe_bind; [apply osafe_gets|]. intros w _.
  destruct (device_exit _ _ _ _) as [[r k] m] eqn:Hr.
  eapply osafe_bind; [apply osafe_modify; intros; by apply outside_kvm_mem|].
  intros _ _. apply osafe_ret. by eapply device_exit_ok.
Qed.

Lemma osafe_reset_request r : osafe L cpu (qemu_system_reset_request r) (fun _ => True).
Proof.
  eapply osafe_bind; [apply osafe_gets|]. intros w _.
  apply (osafe_bind _ _ _ _ (fun _ => True)).
  - destruct (_ || _); apply osafe_modify; intros ? [[] ? ?]; (split; [split|..]; done).
  - intros _ _. eapply osafe_bind; [apply osafe_current_cpu|]. intros c ->.
    eapply osafe_bind; [by apply osafe_upd_cpu|]. intros _ _. by apply osafe_upd_cpu.
Qed.

Lemma safe_kvm_handle_debug e d6 d7 pc :
  safe L cpu (kvm_handle_debug cpu e d6 d7 pc) (fun _ => True).
Proof.
  unfold kvm_handle_debug, kvm_find_sw_breakpoint. safe_step. safe_step. cbv zeta. safe_auto.
  apply safe_modify. intros. by apply inside_kvm.
Qed.

Lemma safe_device e : safe L cpu (device cpu e) (fun r => r = EXCP_DEBUG -> cpu <> 0).
Proof.
  eapply safe_bind; [apply safe_gets_any|]. intros w _.
  destruct (device_exit _ _ _ _) as [[r k] m] eqn:Hr.
  eapply safe_bind; [apply safe_modify; intros ? [[] ? ?]; split; [split|..]; simpl; auto|].
  intros _ _. apply safe_ret. by eapply device_exit_ok.
Qed.

Lemma osafe_arch_handle_exit e :
  exit_ok cpu e ->
  osafe L cpu (kvm_arch_handle_exit cpu e) (fun r => r = EXCP_DEBUG -> cpu <> 0).
Proof.
  destruct e; simpl; intros He; try by apply osafe_ret.
  - apply (osafe_section _ _ _ _ (fun _ => True)); [apply safe_kvm_handle_debug|].
    intros r _. by apply osafe_ret.
  - eapply osafe_section; [apply safe_device|]. intros r Hr. by apply osafe_ret.
  - eapply osafe_section; [apply safe_device|]. intros r Hr. by apply osafe_ret.
  - apply osafe_device.
  - eapply osafe_bind; [apply osafe_device|]. intros _ _. by apply osafe_ret.
Qed.

Lemma osafe_handle_exit e :
  exit_ok cpu e -> osafe L cpu (handle_exit cpu e) (fun r => r = EXCP_DEBUG -> cpu <> 0).
Proof.
  intros He. destruct e; try by apply (osafe_arch_handle_exit _ He).
  all: simpl; try by apply osafe_ret.
  - eapply osafe_bind; [by apply osafe_handle_hcall|]. intros _ _. by apply osafe_ret.
  - eapply osafe_bind; [apply osafe_device|]. intros _ _. by apply osafe_ret.
  - eapply osafe_bind; [apply osafe_device|]. intros _ _. by apply osafe_ret.
  - eapply osafe_bind; [apply osafe_reset_request|]. intros _ _. by apply osafe_ret.
  - destruct (_ =? _).
    { eapply osafe_bind; [|intros _ _; by apply osafe_ret].
      apply osafe_modify. intros ? [[] ? ?]; split; [split|..]; done. }
    destruct (_ =? _).
    { eapply osafe_bind; [apply osafe_reset_request|]. intros _ _. by apply osafe_ret. }
    destruct (_ =? _); [|by apply osafe_ret].
    eapply osafe_section; [apply safe_device|]. intros r _. by apply osafe_ret.
  - apply osafe_device.
Qed.

Lemma osafe_round : osafe L cpu (kvm_cpu_exec_round cpu) (fun _ => True).
Proof.
  eapply osafe_bind; [by apply osafe_get_cpu|]. intros c _.
  apply (osafe_bind _ _ _ _ (fun _ => True)).
  { destruct (exit_request c); [apply osafe_kick_self|by apply osafe_ret]. }
  intros _ _. eapply osafe_bind; [apply osafe_pre_run|]. intros go _.
  apply (osafe_bind _ _ _ _ (fun _ => True)).
  { destruct go; [by apply osafe_ret|apply osafe_kick_self]. }
  intros _ _. eapply osafe_bind; [apply osafe_kvm_run|]. intros r Hr.
  eapply osafe_bind; [apply osafe_post_run|]. intros _ _.
  destruct r as [err|e].
  - destruct (_ || _); [|by apply osafe_ret].
    eapply osafe_bind; [by apply osafe_upd_cpu|]. intros _ _.
    eapply osafe_bind; [apply osafe_handle_kick|]. intros _ _. by apply osafe_ret.
  - eapply osafe_bind; [by apply osafe_handle_exit|]. intros ret Hret.
    apply (osafe_bind _ _ _ _ (fun _ => True)).
    + destruct (Z.eqb_spec ret EXCP_DEBUG); [|by apply osafe_ret].
      intros w Hw. eapply wp_mono; [apply osafe_handle_breakpoint; by auto|]. naive_solver.
    + intros ret' _. destruct (_ =? _); by apply osafe_ret.
Qed.
End VcpuLoopSafe.

#[export] Instance flat_guest_laws : @GuestLaws flat_platform.
Proof.
  split.
  - intros k m cpu ie e k' m'. simpl. unfold flat_run. destruct ie; [done|].
    destruct (script k) as [|e0 s]; [by intros [= <- _ _]|].
    destruct (flat_exit_ok cpu e0) eqn:He; [|by intros [= <- _ _]].
    intros [= <- _ _]. destruct e0 as [args| | | | | | | | | | | | | | | |]; simpl in *; try done.
    + destruct args as [|cmd [|a1 [|a2 [|a3 rest]]]]; try done.
      exists cmd, a1, a2, a3, rest. split; [done|]. bool_to_prop.
      repeat match goal with H : _ || _ = true |- _ => apply orb_prop in H as [H|H] end;
        bool_to_prop; by split.
    + by bool_to_prop.
  - intros k m cpu e r k' m'. simpl. by intros [= <- _ _].
Qed.
