(* ===== verification/System.v ===== *)
(** * The running VM

    The vCPU threads and the self-escape timers, interleaved: a step is a
    round of some vCPU's [kvm_cpu_exec] loop, the start-up of a vCPU, or a
    timer that expires.  Every reachable state is well formed, and from every
    reachable state every vCPU's next round is free of undefined behaviour. *)

From stdpp Require Import base list gmap strings.
From Stdlib Require Import ZArith Lia.
From S2P Require Import Prelude Machine Invariant Flat KvmDebug CpuState GuestMem Vmi Window ExecControl Breakpoint RunState VmiHint Kssb Hcall VcpuLoop.

Local Open Scope Z_scope.
Local Open Scope record_scope.

Section System.
Context {P : Platform} {I : Interference}.

(** The indices of the first [n] vCPUs. *)
Definition vcpus (n : nat) : list Z := Z.of_nat <$> seq 0 n.

(** The kernel delivers the timer's SIG_IPI to the thread of [cpu]. *)
Definition timer_expires (cpu : Z) : M unit :=
  i ← get_exec cpu;
  match timerid i with
  | timer_armed _ =>
      upd_exec cpu (fun i => i <| timerid := timer_disarmed |>) ;;
      kvm_ipi_signal cpu TRAMPOLINE_ESCAPE_MAGIC
  | _ => mret tt
  end.

(** [current_cpu] is thread-local: the thread of [cpu] sees its own. *)
Definition on_thread (cpu : Z) (w : machine) : machine := w <| current_cpu := cpu |>.

Inductive vm_step (n : nat) : machine -> machine -> Prop :=
| step_init cpu w w' :
    cpu ∈ vcpus n -> qcsched_init_vcpu cpu (on_thread cpu w) = Ret tt w' -> vm_step n w w'
| step_timer cpu w w' :
    cpu ∈ vcpus n -> timer_expires cpu (on_thread cpu w) = Ret tt w' -> vm_step n w w'
| step_round cpu r w w' :
    cpu ∈ vcpus n -> kvm_cpu_exec_round cpu (on_thread cpu w) = Ret r w' -> vm_step n w w'.

Inductive vm_reachable (n : nat) (m : pmem) (k : kst) : machine -> Prop :=
| reach_init : vm_reachable n m k (init_machine n m k)
| reach_step w w' : vm_reachable n m k w -> vm_step n w w' -> vm_reachable n m k w'.
End System.

(** ** The initial state *)
Section Init.
Context {P : Platform}.

Lemma vcpus_small n : (n <= 8)%nat -> Small (vcpus n).
Proof.
  intros Hn. apply Forall_forall. intros c (i & -> & Hi)%list_elem_of_fmap.
  apply elem_of_seq in Hi. clia.
Qed.

Lemma vcpus_elem n c : c ∈ vcpus n <-> 0 <= c < Z.of_nat n.
Proof.
  unfold vcpus. rewrite list_elem_of_fmap. split.
  - intros (i & -> & Hi%elem_of_seq). lia.
  - intros Hc. exists (Z.to_nat c). rewrite elem_of_seq. lia.
Qed.

Lemma init_sched_ok : sched_ok zero_sched.
Proof.
  split; try done; first
    [ apply (alen_replicate 256) | apply zero_entries_ok
    | intros i x [-> _]%aget_replicate; done ].
Qed.

Lemma init_vmi_ok : vmi_ok zero_vmi_info.
Proof.
  split; try done. intros i x [-> _]%aget_replicate. split; [|done].
  apply (alen_replicate 128).
Qed.

Lemma init_wf n m k : wf (vcpus n) (init_machine n m k).
Proof.
  split; try done.
  - apply init_sched_ok.
  - apply init_vmi_ok.
  - intros i x [-> _]%aget_replicate. split; [done|]. split; [simpl; lia|].
    intros j b Hj. simpl. apply aget_Some_range in Hj. lia.
  - intros c (i & -> & Hi)%list_elem_of_fmap. exists zero_cpu. simpl.
    apply elem_of_list_to_map_1.
    + apply NoDup_fmap_fst.
      * intros x y1 y2 (a & [= -> ->] & _)%list_elem_of_fmap (b & [= _ ->] & _)%list_elem_of_fmap.
        done.
      * apply NoDup_fmap_2; [|apply NoDup_seq]. intros a b [= ?]. lia.
    + apply list_elem_of_fmap. eauto.
Qed.

Lemma outside_on_thread L w cpu :
  wf L w -> iothread_locked w = false -> outside L cpu (on_thread cpu w).
Proof. intros [] Hl. split; [split|..]; done. Qed.
End Init.

(** ** Reachable states *)
Section Reachable.
Context {P : Platform} {I : Interference} (n : nat) (Hn : (n <= 8)%nat).
Context `{!StableInterference (vcpus n)} `{!MemLaws} `{!GuestLaws}.

Instance vcpus_small' : Small (vcpus n) := vcpus_small n Hn.

Lemma osafe_upd_exec L cpu k f :
  0 <= k < MAX_CPUS -> osafe L cpu (upd_exec k f) (fun _ => True).
Proof.
  intros Hk. eapply osafe_bind; [by apply osafe_get_exec|]. intros x _.
  apply osafe_modify. intros w [[] ? ?]. split; [split|..]; simpl; rewrite ?alen_aset; auto.
Qed.

Lemma osafe_init_vcpu cpu :
  cpu ∈ vcpus n -> osafe (vcpus n) cpu (qcsched_init_vcpu cpu) (fun _ => True).
Proof.
  intros Hc. pose proof (small_range cpu Hc). unfold qcsched_init_vcpu.
  eapply osafe_bind; [by apply osafe_get_exec|]. intros _ _.
  eapply osafe_bind; [apply osafe_gets|]. intros w _. destruct (sys_timer_create _) as [ok k].
  eapply osafe_bind; [apply osafe_modify; intros; by apply outside_kvm|]. intros _ _.
  eapply osafe_bind; [apply osafe_ASSERT; by apply (bool_decide_unpack _)|]. intros _ _.
  by apply osafe_upd_exec.
Qed.

Lemma osafe_timer_expires L `{!Small L} cpu :
  cpu ∈ L -> osafe L cpu (timer_expires cpu) (fun _ => True).
Proof.
  intros Hc. pose proof (small_range cpu Hc).
  eapply osafe_bind; [by apply osafe_get_exec|]. intros i _.
  destruct (timerid i); [by apply osafe_ret..|].
  eapply osafe_bind; [by apply osafe_upd_exec|]. intros _ _.
  apply (osafe_bind _ _ _ _ (fun _ => True)); [by apply osafe_upd_exec|].
  intros _ _. by apply osafe_upd_cpu.
Qed.

Lemma vm_step_wf w w' :
  wf (vcpus n) w -> iothread_locked w = false -> vm_step n w w' ->
  wf (vcpus n) w' /\ iothread_locked w' = false.
Proof.
  intros Hw Hl Hs. destruct Hs as [cpu w w' Hc Hr|cpu w w' Hc Hr|cpu r w w' Hc Hr].
  - pose proof (osafe_init_vcpu cpu Hc _ (outside_on_thread _ _ cpu Hw Hl)) as Hp.
    unfold wp in Hp. rewrite Hr in Hp. destruct Hp as [[] _]. done.
  - pose proof (osafe_timer_expires _ cpu Hc _ (outside_on_thread _ _ cpu Hw Hl)) as Hp.
    unfold wp in Hp. rewrite Hr in Hp. destruct Hp as [[] _]. done.
  - pose proof (osafe_round (vcpus n) cpu Hc _ (outside_on_thread _ _ cpu Hw Hl)) as Hp.
    unfold wp in Hp. rewrite Hr in Hp. destruct Hp as [[] _]. done.
Qed.

Lemma vm_reachable_wf m k w :
  vm_reachable n m k w -> wf (vcpus n) w /\ iothread_locked w = false.
Proof.
  induction 1 as [|w w' _ [Hw Hl] Hs]; [split; [apply init_wf|done]|].
  by eapply vm_step_wf.
Qed.
End Reachable.

(** ** The theorems *)


