(* ===== verification/HwTable.v ===== *)
(** * The breakpoint tables implement sets

    The abstract view of a vCPU's breakpoints is a finite set of at most four
    addresses; the table operations of [target/i386/kvm/kvm-percpu.c] refine
    the operations on sets, error codes included.  The debug registers that
    KVM is given enable exactly the addresses of the table. *)

From stdpp Require Import base list gmap sets strings.
From Stdlib Require Import ZArith Lia.
From S2P Require Import Prelude Machine Invariant Flat KvmDebug VcpuLoop.

Local Open Scope Z_scope.
Local Open Scope record_scope.

(** ** Specification *)

Inductive hw_op : Type :=
| HwInsert (a : Z)
| HwRemove (a : Z)
| HwClear.

Definition hw_spec (op : hw_op) (X : gset Z) : Z * gset Z :=
  match op with
  | HwInsert a =>
      if decide (a ∈ X) then (- EEXIST, X)
      else if decide (size X = 4%nat) then (- ENOBUFS, X)
      else (0, {[ a ]} ∪ X)
  | HwRemove a => if decide (a ∈ X) then (0, X ∖ {[ a ]}) else (- ENOENT, X)
  | HwClear => (0, ∅)
  end.

(** One set per vCPU. *)
Fixpoint hw_specs (ops : list (Z * hw_op)) (A : Z -> gset Z) : list Z * (Z -> gset Z) :=
  match ops with
  | [] => ([], A)
  | (c, op) :: ops' =>
      let '(r, X) := hw_spec op (A c) in
      let '(rs, A') := hw_specs ops' (fun c' => if decide (c' = c) then X else A c') in
      (r :: rs, A')
  end.

Section Exec.
Context {P : Platform}.

Definition hw_exec (c : Z) (op : hw_op) : M Z :=
  match op with
  | HwInsert a => kvm_arch_insert_hw_breakpoint_cpu c a 1 GDB_BREAKPOINT_HW
  | HwRemove a => kvm_arch_remove_hw_breakpoint_cpu c a 1 GDB_BREAKPOINT_HW
  | HwClear => kvm_arch_remove_all_hw_breakpoints_cpu c ;; mret 0
  end.

Fixpoint hw_execs (ops : list (Z * hw_op)) : M (list Z) :=
  match ops with
  | [] => mret []
  | (c, op) :: ops' => r ← hw_exec c op; rs ← hw_execs ops'; mret (r :: rs)
  end.
End Exec.

Definition hw_rel (h : percpu_hw_breakpoint) (X : gset Z) : Prop :=
  hw_ok h /\ NoDup (hw_addrs h) /\ list_to_set (hw_addrs h) = X.

(** The tables of all vCPUs stand for the sets [A]. *)
Definition hw_rels `{P : Platform} (w : machine) (A : Z -> gset Z) : Prop :=
  alen (hw_breakpoint w) = MAX_NR_CPUS /\
  forall c h, aget (hw_breakpoint w) c = Some h -> hw_rel h (A c).

(** ** The table as a list of addresses *)

Lemma insert_perm {A} (l : list A) k a b :
  l !! k = Some a -> a :: <[k := b]> l ≡ₚ b :: l.
Proof.
  revert k. induction l as [|x l IH]; intros [|k] Hk; simplify_eq/=.
  - apply Permutation_swap.
  - rewrite Permutation_swap, (IH k Hk). apply Permutation_swap.
Qed.

Lemma swap_remove_perm {A} (l : list A) m k a b :
  length l = S m -> l !! k = Some a -> l !! m = Some b ->
  a :: take m (<[k := b]> l) ≡ₚ l.
Proof.
  intros Hl Hk Hm.
  assert (take m l ++ [b] = l) as Hsplit.
  { rewrite <- take_S_r by done. apply take_ge. lia. }
  rewrite take_insert. case_decide as Hlt.
  - rewrite (insert_perm (take m l) k a b); [|by rewrite lookup_take_lt].
    rewrite <- Hsplit at 2. by rewrite Permutation_app_comm.
  - assert (k = m) as -> by (apply lookup_lt_Some in Hk; lia).
    assert (a = b) as -> by congruence.
    rewrite <- Hsplit at 2. by rewrite Permutation_app_comm.
Qed.

Lemma hw_addrs_length h : hw_ok h -> length (hw_addrs h) = Z.to_nat (nb h).
Proof.
  intros Hh. unfold hw_addrs. rewrite length_fmap, length_take.
  pose proof (hw_ok_length h Hh). lia.
Qed.

Lemma hw_addrs_push h a : hw_ok h -> nb h <> 4 -> hw_addrs (hw_push h a) = hw_addrs h ++ [a].
Proof.
  intros Hh Hn. pose proof (hw_ok_length h Hh). destruct Hh as (Hl & Hnb & _).
  unfold hw_addrs, hw_push, aset. simpl. destruct (Z.ltb_spec (nb h) 0); [lia|].
  replace (Z.to_nat (nb h + 1)) with (S (Z.to_nat (nb h))) by lia.
  rewrite (take_S_r _ _ (mk_hw_bp a 1 GDB_BREAKPOINT_HW)).
  - by rewrite take_insert_ge, fmap_app by lia.
  - apply list_lookup_insert_eq. unfold alen in Hl. lia.
Qed.

Lemma hw_addrs_drop h k a last :
  hw_ok h -> hw_addrs h !! k = Some a -> aget (bp h) (nb h - 1) = Some last ->
  a :: hw_addrs (hw_drop h k last) ≡ₚ hw_addrs h.
Proof.
  intros Hh Hk Hlast. pose proof (hw_addrs_length h Hh) as Hlen.
  pose proof (hw_ok_length h Hh). pose proof (lookup_lt_Some _ _ _ Hk) as Hkn.
  assert (exists m, Z.to_nat (nb h) = S m) as [m Hm] by (exists (pred (Z.to_nat (nb h))); lia).
  assert (hw_addrs (hw_drop h k last) =
          take m (<[k := bp_addr last]> (hw_addrs h))) as ->.
  { unfold hw_addrs, hw_drop, aset. simpl. destruct (Z.ltb_spec (Z.of_nat k) 0); [lia|].
    rewrite Nat2Z.id, <- list_fmap_insert, <- fmap_take. f_equal.
    replace (Z.to_nat (nb h - 1)) with m by lia.
    rewrite Hm, <- take_insert_lt, take_take by lia. f_equal. lia. }
  apply swap_remove_perm; [lia|done|].
  unfold hw_addrs. rewrite list_lookup_fmap, lookup_take_lt by lia.
  unfold aget in Hlast. destruct (nb h - 1 <? 0); [done|].
  replace (Z.to_nat (nb h - 1)) with m in Hlast by lia. by rewrite Hlast.
Qed.

(** ** Simulation *)
Section Simulation.
Context {P : Platform}.

Definition upd_hw (c : Z) (h : percpu_hw_breakpoint) (w : machine) : machine :=
  w <| hw_breakpoint ::= fun l => aset l c h |>.

Lemma upd_hw_id c h w : aget (hw_breakpoint w) c = Some h -> upd_hw c h w = w.
Proof. intros H. unfold upd_hw, set. rewrite aset_id by done. by destruct w. Qed.

Lemma hw_rel_size h X : hw_rel h X -> size X = Z.to_nat (nb h).
Proof.
  intros (Hh & Hnd & <-). rewrite size_list_to_set by done. by apply hw_addrs_length.
Qed.

Lemma hw_sim_insert c a w h X :
  aget (hw_breakpoint w) c = Some h -> hw_rel h X ->
  exists h', hw_exec c (HwInsert a) w = Ret (hw_spec (HwInsert a) X).1 (upd_hw c h' w) /\
    hw_rel h' (hw_spec (HwInsert a) X).2.
Proof.
  intros Hc HX. pose proof (hw_rel_size h X HX) as Hsz. destruct HX as (Hh & Hnd & HX).
  assert (a ∈ X <-> a ∈ hw_addrs h) as Hin by (rewrite <- HX; set_solver).
  simpl. rewrite (insert_hw_spec _ _ _ h) by done.
  destruct (decide (a ∈ X)) as [Ha|Ha].
  { rewrite decide_True by by apply Hin. exists h. rewrite upd_hw_id by done. by split. }
  rewrite decide_False by (by rewrite <- Hin).
  destruct Hh as (Hl & Hnb & Hb) eqn:E. destruct (decide (nb h = 4)) as [H4|H4].
  { rewrite decide_True by (rewrite Hsz, H4; done). exists h. rewrite upd_hw_id by done.
    by split. }
  rewrite decide_False by lia. exists (hw_push h a). split; [done|].
  split; [by apply hw_ok_push|]. rewrite hw_addrs_push by done. split.
  - apply NoDup_app. split; [done|]. split; [|apply NoDup_singleton].
    intros x Hx ->%list_elem_of_singleton. apply Ha, Hin, Hx.
  - simpl. rewrite list_to_set_app_L, <- HX. set_solver.
Qed.

Lemma hw_sim_remove c a w h X :
  aget (hw_breakpoint w) c = Some h -> hw_rel h X ->
  exists h', hw_exec c (HwRemove a) w = Ret (hw_spec (HwRemove a) X).1 (upd_hw c h' w) /\
    hw_rel h' (hw_spec (HwRemove a) X).2.
Proof.
  intros Hc (Hh & Hnd & HX).
  assert (a ∈ X <-> a ∈ hw_addrs h) as Hin by (rewrite <- HX; set_solver).
  simpl. rewrite (remove_hw_spec _ _ _ h) by done.
  destruct (list_find _ _) as [[k b]|] eqn:Hf.
  - destruct (hw_find_Some h a k b Hh Hf) as [Hk _].
    destruct (hw_last _ _ _ _ Hh Hf) as [last Hlast]. rewrite Hlast.
    rewrite decide_True by (apply Hin; by eapply list_elem_of_lookup_2).
    exists (hw_drop h k last). split; [done|]. split; [by apply hw_ok_drop|].
    pose proof (hw_addrs_drop h k a last Hh Hk Hlast) as Hperm.
    rewrite <- Hperm in Hnd. apply NoDup_cons in Hnd as [Hna Hnd']. split; [done|].
    apply set_eq. intros x. simpl. rewrite <- HX, elem_of_difference, !elem_of_list_to_set,
      <- Hperm, elem_of_cons, elem_of_singleton. naive_solver.
  - apply hw_find_None in Hf; [|done]. rewrite decide_False by (by rewrite Hin).
    exists h. rewrite upd_hw_id by done. by split.
Qed.

Lemma hw_sim_clear c w h X :
  aget (hw_breakpoint w) c = Some h -> hw_rel h X ->
  exists h', hw_exec c HwClear w = Ret 0 (upd_hw c h' w) /\ hw_rel h' ∅.
Proof.
  intros Hc ((Hl & Hnb & Hb) & Hnd & HX). exists (h <| nb := 0 |>). split.
  - assert (get_hw c w = Ret h w) as Hg.
    { unfold get_hw, mbind, prog_bind, gets, deref, id. simpl. by rewrite Hc. }
    simpl. unfold kvm_arch_remove_all_hw_breakpoints_cpu, set_hw, mbind, prog_bind.
    rewrite Hg. by rewrite Hg.
  - split; [|split; [constructor|done]]. split; [done|]. split; [simpl; lia|].
    intros i b Hi Hlt. simpl in *. apply aget_Some_range in Hi. lia.
Qed.

Lemma hw_sim c op w h X :
  aget (hw_breakpoint w) c = Some h -> hw_rel h X ->
  exists h', hw_exec c op w = Ret (hw_spec op X).1 (upd_hw c h' w) /\
    hw_rel h' (hw_spec op X).2.
Proof.
  intros Hc HX. destruct op; [by eapply hw_sim_insert|by eapply hw_sim_remove|].
  by eapply hw_sim_clear.
Qed.

Lemma hw_rels_upd w A c h X :
  hw_rels w A -> hw_rel h X ->
  hw_rels (upd_hw c h w) (fun c' => if decide (c' = c) then X else A c').
Proof.
  intros [Hl HA] HX. split; [simpl; by rewrite alen_aset|].
  intros c' h'. simpl. rewrite aget_aset. case_decide as Hd.
  - destruct Hd as [<- _]. intros [= <-]. by rewrite decide_True.
  - intros Hc'. destruct (decide (c' = c)) as [->|]; [|by apply HA].
    exfalso. apply Hd. apply aget_Some_range in Hc'. done.
Qed.
End Simulation.

(** C2.  Refinement: any sequence of insertions, removals and clearings on any
    vCPUs returns the error codes of, and leaves the tables representing, the
    same sequence of operations on one set of at most four addresses per
    vCPU; a vCPU's operations never disturb another's breakpoints. *)
Theorem hw_table_refines_set `{P : Platform} ops w A :
  hw_rels w A -> Forall (fun '(c, _) => 0 <= c < MAX_NR_CPUS) ops ->
  exists w', hw_execs ops w = Ret (hw_specs ops A).1 w' /\ hw_rels w' (hw_specs ops A).2.
Proof.
  revert w A. induction ops as [|[c op] ops IH]; intros w A HA Hops; [by exists w|].
  apply Forall_cons in Hops as [Hc Hops].
  destruct (proj2 (aget_is_Some (hw_breakpoint w) c)) as [h Hh]; [by rewrite (proj1 HA)|].
  destruct (hw_sim c op w h (A c)) as (h' & Heq & Hrel); [done|by apply HA|].
  cbn [hw_execs hw_specs]. unfold mbind, prog_bind. rewrite Heq.
  destruct (hw_spec op (A c)) as [r X]. simpl in *.
  destruct (IH (upd_hw c h' w) (fun c' => if decide (c' = c) then X else A c')) as (w' & -> & Hw').
  - by apply hw_rels_upd.
  - done.
  - exists w'. by destruct (hw_specs ops _).
Qed.

Lemma flat_hw_rels n s : hw_rels (flat_machine n s) (fun _ => ∅).
Proof.
  split; [done|]. intros c h [-> _]%aget_replicate. split; [|split; [constructor|done]].
  split; [done|]. split; [simpl; lia|]. intros i b Hi Hlt. apply aget_Some_range in Hi.
  simpl in *. lia.
Qed.

Lemma hw_table_refines_set_witness :
  exists w', hw_execs [(1, HwInsert 16); (2, HwInsert 16); (1, HwInsert 16); (1, HwRemove 8)]
    (flat_machine 3 []) = Ret [0; 0; -17; -2] w'.
Proof.
  destruct (hw_table_refines_set [(1, HwInsert 16); (2, HwInsert 16); (1, HwInsert 16);
    (1, HwRemove 8)] (flat_machine 3 []) (fun _ => ∅) (flat_hw_rels 3 [])) as (w' & Hw & _).
  - repeat (apply Forall_cons_2; [done|]). apply Forall_nil_2.
  - exists w'. exact Hw.
Defined.

(** ** What KVM is given *)

(** DR7 for a table of [nb] entries. *)
Definition dr7_of (nb : Z) : Z := Z.lor 0x0600 (dr7_enable 0 (Z.to_nat nb)).

Lemma dr7_of_bits nb n :
  0 < nb <= 4 -> 0 <= n < 4 ->
  Z.testbit (dr7_of nb) (2 * n + 1) = (n <? nb) /\ Z.testbit (dr7_of nb) (2 * n) = false /\
  Z.land (Z.shiftr (dr7_of nb) (16 + n * 4)) 15 = 0.
Proof.
  intros Hnb Hn.
  assert (nb = 1 \/ nb = 2 \/ nb = 3 \/ nb = 4) as [->|[->|[->| ->]]] by lia;
    assert (n = 0 \/ n = 1 \/ n = 2 \/ n = 3) as [->|[->|[->| ->]]] by lia; by vm_compute.
Qed.

Lemma dr7_of_stops nb n dr6 :
  0 < nb <= 4 -> 0 <= n < 4 -> Z.testbit dr6 n = true -> dr_stops dr6 (dr7_of nb) n = true.
Proof.
  intros Hnb Hn Hd. destruct (dr7_of_bits nb n Hnb Hn) as (_ & _ & Hl).
  unfold dr_stops. rewrite Hd. change 3 with (Z.land 15 3).
  by rewrite Z.land_assoc, Hl.
Qed.

(** The argument of [KVM_SET_GUEST_DEBUG] that encodes the table [h]: with an
    empty table debugging is off; otherwise register [n] holds the address of
    slot [n], and DR7 globally enables exactly the used slots, as one-byte
    execution breakpoints, whose hit [kvm_handle_debug] stops for. *)
Definition encodes_table (h : percpu_hw_breakpoint) (dbg : kvm_guest_debug) : Prop :=
  control dbg = (if nb h =? 0 then 0 else Z.lor KVM_GUESTDBG_ENABLE KVM_GUESTDBG_USE_HW_BP) /\
  (0 < nb h -> exists dr7, aget (debugreg dbg) 7 = Some (Some dr7) /\
     forall n, 0 <= n < 4 ->
       Z.testbit dr7 (2 * n + 1) = (n <? nb h) /\ Z.testbit dr7 (2 * n) = false /\
       Z.land (Z.shiftr dr7 (16 + n * 4)) 15 = 0 /\
       (forall a, hw_addrs h !! Z.to_nat n = Some a -> aget (debugreg dbg) n = Some (Some a)) /\
       (forall dr6, Z.testbit dr6 n = true -> dr_stops dr6 dr7 n = true)).

(** C9.  Updating a vCPU's debug state on its own thread hands KVM, in one
    ioctl and with no other effect, debug registers that encode its table of
    hardware breakpoints: the addresses, exactly the enable bits of the used
    slots, and type and length fields for which a hit stops the guest. *)
Theorem debug_registers_encode_table `{P : Platform} {I : Interference} cpu w h c :
  aget (hw_breakpoint w) cpu = Some h -> hw_ok h ->
  cpus w !! cpu = Some c -> singlestep_enabled c = false -> current_cpu w = cpu ->
  exists dbg, encodes_table h dbg /\
    kvm_update_guest_debug cpu 0 w =
      (let '(err, k) := ioctl_set_guest_debug (kvm w) cpu dbg in Ret err (w <| kvm := k |>)).
Proof.
  intros Hh Hok Hc Hss Hself.
  destruct (update_guest_debug_spec cpu (mk_guest_debug 0 (replicate 8 None)) h w)
    as (d & Heq & Hd); [done..|].
  unfold kvm_update_guest_debug, mbind at 1, prog_bind.
  unfold get_cpu, mbind at 1, prog_bind, gets, deref, id. rewrite Hc.
  unfold mret, prog_ret. rewrite Hss. cbv zeta.
  unfold mbind at 1, prog_bind. rewrite Heq.
  unfold run_on_cpu, qemu_cpu_is_self, mbind at 1, prog_bind, gets. rewrite Hself, Z.eqb_refl.
  match type of Heq with _ = Ret ?D _ => exists D end. split; [split|].
  - destruct Hok as (_ & ? & _). destruct (Z.ltb_spec 0 (nb h)), (Z.eqb_spec (nb h) 0); done || lia.
  - intros Hnb. rewrite (proj2 (Z.ltb_lt _ _) Hnb). simpl. destruct (Hd Hnb) as [H7 Ha].
    exists (dr7_of (nb h)). split; [done|]. intros n Hn.
    assert (0 < nb h <= 4) by (destruct Hok as (_ & ? & _); lia).
    destruct (dr7_of_bits (nb h) n) as (H1 & H2 & H3); [done..|].
    repeat split; try done.
    + intros a Hna%Ha. rewrite Z2Nat.id in Hna by lia. done.
    + intros dr6. by apply dr7_of_stops.
  - unfold kvm_invoke_set_guest_debug, mbind, prog_bind, gets, id.
    by destruct (ioctl_set_guest_debug _ _ _).
Qed.

(** One breakpoint, at 4096, on vCPU 0. *)
Definition flat_one_breakpoint : machine (P := flat_platform) :=
  upd_hw 0 (hw_push zero_percpu_hw 4096) (flat_machine 1 []).

Lemma debug_registers_encode_table_witness :
  exists dbg k, encodes_table (hw_push zero_percpu_hw 4096) dbg /\
    kvm_update_guest_debug 0 0 flat_one_breakpoint = Ret 0 (flat_one_breakpoint <| kvm := k |>).
Proof.
  destruct (debug_registers_encode_table (P := flat_platform) (I := flat_interference)
    0 flat_one_breakpoint (hw_push zero_percpu_hw 4096) zero_cpu) as (dbg & Henc & Heq).
  - reflexivity.
  - apply hw_ok_push; [|simpl; lia]. split; [reflexivity|]. split; [simpl; lia|].
    intros i b Hi Hlt. apply aget_Some_range in Hi. simpl in *. lia.
  - reflexivity.
  - reflexivity.
  - reflexivity.
  - exists dbg. eexists. split; [exact Henc|exact Heq].
Defined.
