(* ===== verification/Reads.v ===== *)
(** * Functions that only read

    [reads m]: if [m] returns, the machine is as it was.  The lookups, the
    introspection of the guest and the state checks are of this kind. *)

From stdpp Require Import base list gmap strings.
From Stdlib Require Import ZArith Lia.
From S2P Require Import Prelude Machine Invariant KvmDebug CpuState GuestMem Vmi Window ExecControl Breakpoint.

Local Open Scope Z_scope.
Local Open Scope record_scope.

Section reads.
Context {P : Platform}.

Definition reads {A} (m : M A) : Prop := forall w, wlp m (fun _ w' => w' = w) w.

Lemma reads_ret {A} (a : A) : reads (mret a).
Proof. intros w. by apply wlp_ret. Qed.

Lemma reads_bind {A B} (m : M A) (f : A -> M B) :
  reads m -> (forall a, reads (f a)) -> reads (m ≫= f).
Proof.
  intros Hm Hf w. apply wlp_bind. eapply wlp_mono; [apply Hm|]. intros a ? ->. apply Hf.
Qed.

Lemma reads_gets {A} (f : machine -> A) : reads (gets f).
Proof. intros w. by apply wlp_gets. Qed.

Lemma reads_deref {A} what (o : option A) : reads (deref what o).
Proof. intros w. by apply wlp_deref. Qed.

Lemma reads_ASSERT b msg : reads (ASSERT b msg).
Proof. intros w. by apply wlp_ASSERT. Qed.

Lemma reads_loop {S R} fuel (step : S -> M (S + R)) s :
  (forall s, reads (step s)) -> reads (loop fuel step s).
Proof.
  intros Hs w. apply (wlp_loop (fun _ w' => w' = w)); [done|]. intros s' ? ->.
  eapply wlp_mono; [apply Hs|]. by intros [] ? ->.
Qed.

(** Use a function that only reads in front of any program. *)
Lemma wlp_reads {A} (m : M A) (Q : A -> machine -> Prop) w :
  reads m -> (forall a, Q a w) -> wlp m Q w.
Proof. intros Hm HQ. eapply wlp_mono; [apply Hm|]. by intros a ? ->. Qed.
End reads.

Create HintDb reads.
#[export] Hint Resolve reads_ret reads_gets reads_deref reads_ASSERT : reads.

Ltac reads_step :=
  match goal with
  | |- reads (mbind _ _) => apply reads_bind; [|intros ?]
  | |- reads (loop _ _ _) => apply reads_loop; intros ?
  | |- reads (let x := _ in _) => cbv zeta
  | |- reads (if ?b then _ else _) => destruct b
  | |- reads (match ?o with _ => _ end) => destruct o
  | |- reads _ => solve [eauto with reads]
  end.
Ltac reads_auto := repeat reads_step.

Section readers.
Context {P : Platform}.

Lemma reads_sched_ {A} (f : qcsched -> A) : reads (sched_ f).
Proof. apply reads_gets. Qed.
Lemma reads_vmi_ {A} (f : qcsched_vmi_info -> A) : reads (vmi_ f).
Proof. apply reads_gets. Qed.
Lemma reads_get_entry i : reads (get_entry i).
Proof. unfold get_entry. reads_auto. Qed.
Lemma reads_get_window k : reads (get_window k).
Proof. unfold get_window. reads_auto. Qed.
Lemma reads_get_cpu_state k : reads (get_cpu_state k).
Proof. unfold get_cpu_state. reads_auto. Qed.
Lemma reads_get_record k : reads (get_record k).
Proof. unfold get_record. reads_auto. Qed.
Lemma reads_get_exec k : reads (get_exec k).
Proof. unfold get_exec. reads_auto. Qed.
Lemma reads_get_hw k : reads (get_hw k).
Proof. unfold get_hw. reads_auto. Qed.
Lemma reads_get_lock_info k : reads (get_lock_info k).
Proof. unfold get_lock_info. reads_auto. Qed.
Lemma reads_get_cpu c : reads (get_cpu c).
Proof. unfold get_cpu. reads_auto. Qed.
Hint Resolve reads_sched_ reads_vmi_ reads_get_entry reads_get_window reads_get_cpu_state
  reads_get_record reads_get_exec reads_get_hw reads_get_lock_info reads_get_cpu : reads.
Lemma reads_RIP c : reads (RIP c).
Proof. unfold RIP. reads_auto. Qed.
Lemma reads_find_entry start found : reads (find_entry start found).
Proof. unfold find_entry. reads_auto. Qed.
Hint Resolve reads_RIP reads_find_entry : reads.

(** CpuState *)
Lemma reads_qemu_mutex_iothread_locked : reads qemu_mutex_iothread_locked.
Proof. apply reads_gets. Qed.
Lemma reads_qemu_get_cpu i : reads (qemu_get_cpu i).
Proof. unfold qemu_get_cpu. reads_auto. Qed.
Lemma reads_cpu_is_used c : reads (cpu_is_used c).
Proof. unfold cpu_is_used. reads_auto. Qed.
Lemma reads_qcsched_check_cpu_state c s : reads (qcsched_check_cpu_state c s).
Proof. unfold qcsched_check_cpu_state. reads_auto. Qed.
Hint Resolve reads_qemu_mutex_iothread_locked reads_qemu_get_cpu reads_cpu_is_used
  reads_qcsched_check_cpu_state : reads.
Lemma reads_check_cpus l s : reads (check_cpus l s).
Proof. induction l; simpl; reads_auto. Qed.
Hint Resolve reads_check_cpus : reads.
Lemma reads_qcsched_check_all_cpu_state s : reads (qcsched_check_all_cpu_state s).
Proof. unfold qcsched_check_all_cpu_state. reads_auto. Qed.

(** Guest memory *)
Lemma reads_rw_chunk c a buf : reads (rw_chunk c a buf false).
Proof. unfold rw_chunk. reads_auto. Qed.
Hint Resolve reads_rw_chunk : reads.
Lemma reads_cpu_memory_rw_debug c a buf : reads (cpu_memory_rw_debug c a buf false).
Proof. unfold cpu_memory_rw_debug. reads_auto. Qed.
Hint Resolve reads_cpu_memory_rw_debug : reads.
Lemma reads_read_guest c a n : reads (read_guest c a n).
Proof. unfold read_guest. reads_auto. Qed.
Hint Resolve reads_read_guest : reads.

(** Vmi *)
Lemma reads_current_task c : reads (current_task c).
Proof. unfold current_task. reads_auto. Qed.
Hint Resolve reads_current_task : reads.
Lemma reads_vmi_task c : reads (vmi_task c).
Proof. unfold vmi_task. reads_auto. Qed.
Lemma reads_vmi_scheduling_subject t0 : reads (vmi_scheduling_subject t0).
Proof. unfold vmi_scheduling_subject. reads_auto. Qed.
Lemma reads_vmi__preempt_count c : reads (vmi__preempt_count c).
Proof. unfold vmi__preempt_count. reads_auto. Qed.
Hint Resolve reads_vmi_task reads_vmi_scheduling_subject reads_vmi__preempt_count : reads.
Lemma reads_qcsched_vmi_in_task c : reads (qcsched_vmi_in_task c).
Proof. unfold qcsched_vmi_in_task. reads_auto. Qed.
Hint Resolve reads_qcsched_vmi_in_task : reads.
Lemma reads_running_context c b : reads (qcsched_vmi_running_context_being_scheduled c b).
Proof. unfold qcsched_vmi_running_context_being_scheduled. reads_auto. Qed.
Lemma reads_qcsched_vmi_can_progress c : reads (qcsched_vmi_can_progress c).
Proof. unfold qcsched_vmi_can_progress. reads_auto. Qed.
Lemma reads_qcsched_vmi_lock_contending c0 c1 : reads (qcsched_vmi_lock_contending c0 c1).
Proof. unfold qcsched_vmi_lock_contending. reads_auto. Qed.
Hint Resolve reads_running_context reads_qcsched_vmi_can_progress
  reads_qcsched_vmi_lock_contending : reads.

(** Window *)
Lemma reads_lookup_entry_by_order c from : reads (lookup_entry_by_order c from).
Proof. unfold lookup_entry_by_order. reads_auto. Qed.
Lemma reads_lookup_entry_by_address c inst : reads (lookup_entry_by_address c inst).
Proof. unfold lookup_entry_by_address. reads_auto. Qed.
Lemma reads_entry_order i : reads (entry_order i).
Proof. unfold entry_order. reads_auto. Qed.
Hint Resolve reads_lookup_entry_by_order reads_lookup_entry_by_address reads_entry_order : reads.
Lemma reads_next_valid_order_of c o : reads (next_valid_order_of c o).
Proof. unfold next_valid_order_of. reads_auto. Qed.
Hint Resolve reads_next_valid_order_of : reads.
Lemma reads_hit_stale_schedpoint c : reads (qcsched_window_hit_stale_schedpoint c).
Proof. unfold qcsched_window_hit_stale_schedpoint. reads_auto. Qed.
Lemma reads_first_activated c l : reads (first_activated c l).
Proof. induction l; simpl; reads_auto. Qed.
Hint Resolve reads_first_activated : reads.
Lemma reads_get_next_cpu c entry : reads (get_next_cpu c entry).
Proof. unfold get_next_cpu. reads_auto. Qed.
Hint Resolve reads_get_next_cpu : reads.
Lemma reads_window_lock_contending c : reads (qcsched_window_lock_contending c).
Proof. unfold qcsched_window_lock_contending. reads_auto. Qed.
Lemma reads_consecutive_schedpoint c o : reads (qcsched_window_consecutive_schedpoint c o).
Proof. unfold qcsched_window_consecutive_schedpoint. reads_auto. Qed.

(** ExecControl, Breakpoint *)
Lemma reads_trampoline_entry_addr : reads trampoline_entry_addr.
Proof. unfold trampoline_entry_addr. reads_auto. Qed.
Lemma reads_trampoline_exit_addr : reads trampoline_exit_addr.
Proof. unfold trampoline_exit_addr. reads_auto. Qed.
Lemma reads_task_kidnapped c : reads (task_kidnapped c).
Proof. unfold task_kidnapped, trampoline_task_kidnapped, blocker_task_kidnapped. reads_auto. Qed.
Lemma reads_want_to_wake_up c : reads (want_to_wake_up c).
Proof. unfold want_to_wake_up, blocker_want_to_wake_up. reads_auto. Qed.
Hint Resolve reads_trampoline_entry_addr reads_trampoline_exit_addr : reads.
Lemma reads_breakpoint_on_hook c : reads (breakpoint_on_hook c).
Proof. unfold breakpoint_on_hook. reads_auto. Qed.
Lemma reads_breakpoint_on_trampoline c : reads (breakpoint_on_trampoline c).
Proof. unfold breakpoint_on_trampoline. reads_auto. Qed.
Lemma reads_breakpoint_on_schedpoint c : reads (breakpoint_on_schedpoint c).
Proof. unfold breakpoint_on_schedpoint. reads_auto. Qed.
End readers.

(** ** Breakpoints of the CPU's own thread

    There is no window for other threads: only the table and KVM change. *)
Section SelfBreakpoints.
Context {P : Platform} {I : Interference} (cpu : Z).

Hint Resolve reads_get_hw : reads.

Lemma reads_find_hw l n i a len type : reads (find_hw l n i a len type).
Proof.
  revert n i. induction l as [|b l IH]; intros [|n] i; simpl; try apply reads_ret.
  - intros w. done.
  - destruct (_ && _); [apply reads_ret|apply IH].
Qed.

Lemma reads_debugreg_fill l cnt n d : reads (debugreg_fill l cnt n d).
Proof.
  revert cnt n d. induction l as [|b l IH]; intros [|cnt] n d; simpl; try apply reads_ret.
  - intros w. done.
  - apply reads_bind; [|auto]. unfold debugreg_step. reads_auto.
Qed.

Lemma reads_arch_update_guest_debug c dbg : reads (kvm_arch_update_guest_debug_cpu c dbg).
Proof.
  unfold kvm_arch_update_guest_debug_cpu. reads_step; [reads_auto|]. reads_step; [|reads_auto].
  apply reads_bind; [apply reads_debugreg_fill|]. intros. apply reads_ret.
Qed.

Lemma wlp_update_guest_debug_self rt w :
  current_cpu w = cpu ->
  wlp (kvm_update_guest_debug cpu rt) (fun _ w' => exists k, w' = w <| kvm := k |>) w.
Proof.
  intros Hs. apply wlp_bind, wlp_reads; [apply reads_get_cpu|]. intros c.
  apply wlp_bind, wlp_reads; [apply reads_arch_update_guest_debug|]. intros dbg.
  apply wlp_bind, wlp_gets. rewrite Hs, Z.eqb_refl.
  apply wlp_bind, wlp_gets. destruct (ioctl_set_guest_debug _ _ _).
  apply wlp_bind, wlp_modify, wlp_ret. eauto.
Qed.

Lemma reads_find_hw_breakpoint_cpu c a len type : reads (find_hw_breakpoint_cpu c a len type).
Proof. apply reads_bind; [apply reads_get_hw|]. intros. apply reads_find_hw. Qed.

Lemma wlp_set_hw c h (Q : unit -> machine -> Prop) w :
  Q tt (w <| hw_breakpoint ::= fun l => aset l c h |>) -> wlp (set_hw c h) Q w.
Proof. intros HQ. apply wlp_bind, wlp_reads; [apply reads_get_hw|]. intros _. by apply wlp_modify. Qed.

Lemma hw_only_upd c h (w : machine) : hw_only w (w <| hw_breakpoint ::= fun l => aset l c h |>).
Proof. exists (aset (hw_breakpoint w) c h), (kvm w). by destruct w. Qed.

Lemma wlp_update_after (m : M Z) w :
  current_cpu w = cpu -> wlp m (fun _ w' => hw_only w w') w ->
  wlp (err ← m; if negb (err =? 0) then mret err else kvm_update_guest_debug cpu 0)
    (fun _ w' => hw_only w w') w.
Proof.
  intros Hs Hm. apply wlp_bind. eapply wlp_mono; [exact Hm|]. intros err w1 H1.
  destruct (negb _); [by apply wlp_ret|].
  assert (current_cpu w1 = cpu) by (by destruct H1 as (? & ? & ->)).
  eapply wlp_mono; [by apply wlp_update_guest_debug_self|]. intros _ w2 [k ->].
  eapply hw_only_trans; [exact H1|]. exists (hw_breakpoint w1), k. by destruct w1.
Qed.

Lemma wlp_kvm_remove_hw_only a len w :
  current_cpu w = cpu ->
  wlp (kvm_remove_breakpoint_cpu cpu a len GDB_BREAKPOINT_HW) (fun _ w' => hw_only w w') w.
Proof.
  intros Hs. apply wlp_update_after; [done|]. simpl. unfold kvm_arch_remove_hw_breakpoint_cpu.
  apply wlp_bind, wlp_reads; [apply reads_find_hw_breakpoint_cpu|]. intros n.
  destruct (_ <? _); [apply wlp_ret, hw_only_refl|].
  apply wlp_bind, wlp_reads; [apply reads_get_hw|]. intros h.
  apply wlp_bind, wlp_deref. intros last _. apply wlp_bind, wlp_set_hw, wlp_ret, hw_only_upd.
Qed.

Lemma wlp_kvm_insert_hw_only a len w :
  current_cpu w = cpu ->
  wlp (kvm_insert_breakpoint_cpu cpu a len GDB_BREAKPOINT_HW) (fun _ w' => hw_only w w') w.
Proof.
  intros Hs. apply wlp_update_after; [done|]. simpl. unfold kvm_arch_insert_hw_breakpoint_cpu.
  simpl. apply wlp_bind, wlp_reads; [apply reads_find_hw_breakpoint_cpu|]. intros n.
  destruct (_ <=? _); [apply wlp_ret, hw_only_refl|].
  apply wlp_bind, wlp_reads; [apply reads_get_hw|]. intros h.
  destruct (_ =? _); [apply wlp_ret, hw_only_refl|].
  apply wlp_bind, wlp_deref. intros _ _. apply wlp_bind, wlp_set_hw, wlp_ret, hw_only_upd.
Qed.
End SelfBreakpoints.

#[export] Hint Resolve reads_sched_ reads_vmi_ reads_get_entry reads_get_window
  reads_get_cpu_state reads_get_record reads_get_exec reads_get_hw reads_get_lock_info
  reads_get_cpu reads_RIP reads_find_entry reads_qemu_mutex_iothread_locked reads_qemu_get_cpu
  reads_cpu_is_used reads_qcsched_check_cpu_state reads_qcsched_check_all_cpu_state
  reads_read_guest reads_vmi_task reads_vmi_scheduling_subject reads_qcsched_vmi_in_task
  reads_running_context reads_qcsched_vmi_can_progress reads_qcsched_vmi_lock_contending
  reads_lookup_entry_by_order reads_lookup_entry_by_address reads_entry_order
  reads_next_valid_order_of reads_hit_stale_schedpoint reads_get_next_cpu
  reads_window_lock_contending reads_consecutive_schedpoint reads_trampoline_entry_addr
  reads_trampoline_exit_addr reads_task_kidnapped reads_want_to_wake_up
  reads_breakpoint_on_hook reads_breakpoint_on_trampoline reads_breakpoint_on_schedpoint : reads.
