(* ===== verification/Frames.v ===== *)
(** * What the window operations leave alone

    [sched_only w w']: [w'] differs from [w] at most in the schedule, in the
    breakpoint tables and in KVM.  On the CPU's own thread the window
    operations change nothing else. *)

From stdpp Require Import base list gmap strings.
From Stdlib Require Import ZArith Lia.
From S2P Require Import Prelude Machine Invariant KvmDebug CpuState GuestMem Vmi Window ExecControl Breakpoint Reads.

Local Open Scope Z_scope.
Local Open Scope record_scope.

Section Frames.
Context {P : Platform} {I : Interference} (cpu : Z).

Definition sched_only (w w' : machine) : Prop :=
  exists s hw k, w' = w <| sched := s |> <| hw_breakpoint := hw |> <| kvm := k |>.

Definition sonly {A} (m : M A) : Prop :=
  forall w, current_cpu w = cpu -> wlp m (fun _ w' => sched_only w w') w.

Lemma sched_only_refl w : sched_only w w.
Proof. exists (sched w), (hw_breakpoint w), (kvm w). by destruct w. Qed.

Lemma sched_only_trans w1 w2 w3 : sched_only w1 w2 -> sched_only w2 w3 -> sched_only w1 w3.
Proof. intros (s & h & k & ->) (s' & h' & k' & ->). by exists s', h', k'. Qed.

Lemma sched_only_self w w' : sched_only w w' -> current_cpu w' = current_cpu w.
Proof. by intros (s & h & k & ->). Qed.

Lemma sonly_reads {A} (m : M A) : reads m -> sonly m.
Proof. intros Hm w Hs. apply wlp_reads; [done|]. intros. apply sched_only_refl. Qed.

Lemma sonly_bind {A B} (m : M A) (f : A -> M B) :
  sonly m -> (forall a, sonly (f a)) -> sonly (m ≫= f).
Proof.
  intros Hm Hf w Hs. apply wlp_bind. eapply wlp_mono; [by apply Hm|]. intros a w1 H1.
  eapply wlp_mono; [apply Hf; by rewrite (sched_only_self w w1)|].
  intros b w2 H2. exact (sched_only_trans w w1 w2 H1 H2).
Qed.

Lemma sonly_loop {S R} fuel (step : S -> M (S + R)) s :
  (forall s, sonly (step s)) -> sonly (loop fuel step s).
Proof.
  intros Hst. revert s. induction fuel as [|n IH]; intros s; [by intros w Hs|].
  cbn [loop]. apply sonly_bind; [done|]. intros [s'|x]; [apply IH|apply sonly_reads, reads_ret].
Qed.

Lemma sonly_for_loop start cond body :
  (forall i, sonly (cond i)) -> (forall i, sonly (body i)) -> sonly (for_loop start cond body).
Proof.
  intros Hc Hb. apply sonly_loop. intros i. apply sonly_bind; [done|]. intros [].
  - apply sonly_bind; [done|]. intros []. apply sonly_reads, reads_ret.
  - apply sonly_reads, reads_ret.
Qed.

Lemma sched_only_sched f w : sched_only w (w <| sched ::= f |>).
Proof. exists (f (sched w)), (hw_breakpoint w), (kvm w). by destruct w. Qed.

Lemma sonly_upd_window k f : sonly (upd_window k f).
Proof. intros w Hs. apply wlp_upd_window. intros. apply sched_only_sched. Qed.

Lemma sonly_upd_entry i f : sonly (upd_entry i f).
Proof. intros w Hs. apply wlp_upd_entry. intros. apply sched_only_sched. Qed.

Lemma sonly_upd_sched f : sonly (upd_sched f).
Proof. intros w Hs. apply wlp_upd_sched, sched_only_sched. Qed.

Lemma sched_only_hw_only w w' : hw_only w w' -> sched_only w w'.
Proof. intros (h & k & ->). exists (sched w), h, k. by destruct w. Qed.

Lemma sonly_kvm_insert a len : sonly (kvm_insert_breakpoint_cpu cpu a len GDB_BREAKPOINT_HW).
Proof.
  intros w Hs. eapply wlp_mono; [by apply wlp_kvm_insert_hw_only|].
  intros. by apply sched_only_hw_only.
Qed.

Lemma sonly_kvm_remove a len : sonly (kvm_remove_breakpoint_cpu cpu a len GDB_BREAKPOINT_HW).
Proof.
  intros w Hs. eapply wlp_mono; [by apply wlp_kvm_remove_hw_only|].
  intros. by apply sched_only_hw_only.
Qed.

Lemma sonly_update_guest_debug rt : sonly (kvm_update_guest_debug cpu rt).
Proof.
  intros w Hs. eapply wlp_mono; [by apply wlp_update_guest_debug_self|]. intros _ w' [k ->].
  exists (sched w), (hw_breakpoint w), k. by destruct w.
Qed.
End Frames.

Create HintDb sonly.
#[export] Hint Resolve sonly_upd_window sonly_upd_entry sonly_upd_sched sonly_kvm_insert
  sonly_kvm_remove sonly_update_guest_debug : sonly.
#[export] Hint Extern 2 (sonly _ _) => apply sonly_reads; solve [eauto with reads] : sonly.

Ltac sonly_step :=
  match goal with
  | |- sonly _ (mbind _ _) => apply sonly_bind; [|intros ?]
  | |- sonly _ (let x := _ in _) => cbv zeta
  | |- sonly _ (if ?b then _ else _) => destruct b
  | |- sonly _ (match ?o with _ => _ end) => destruct o
  | |- sonly _ (for_loop _ _ _) => apply sonly_for_loop; intros ?
  | |- sonly _ (loop _ _ _) => apply sonly_loop; intros ?
  | |- sonly _ _ => solve [eauto with sonly]
  end.
Ltac sonly_auto := repeat sonly_step.

Section SchedOnly.
Context {P : Platform} {I : Interference} (cpu : Z).

Lemma sonly_expand_window : sonly cpu (qcsched_window_expand_window cpu).
Proof.
  unfold qcsched_window_expand_window, qcsched_window_expand_window_n,
    qcsched_window_expand_window_1, qcsched_window_activate_entry. sonly_auto.
Qed.

Lemma sonly_deactivate_entry k i : sonly cpu (qcsched_window_deactivate_entry cpu k i).
Proof.
  unfold qcsched_window_deactivate_entry, qcsched_window_deactivate_entry_remote,
    qcsched_window_deactivate_entry_local. sonly_auto.
Qed.

Lemma sonly_leave_footprint_at f o : sonly cpu (qcsched_window_leave_footprint_at cpu f o).
Proof. unfold qcsched_window_leave_footprint_at. sonly_auto. Qed.

Hint Resolve sonly_deactivate_entry sonly_leave_footprint_at : sonly.

Lemma sonly_do_shrink_entry k i : sonly cpu (do_shrink_entry cpu k i).
Proof. unfold do_shrink_entry. sonly_auto. Qed.

Hint Resolve sonly_do_shrink_entry : sonly.

Lemma sonly_shrink_entry k i : sonly cpu (qcsched_window_shrink_entry cpu k i).
Proof.
  unfold qcsched_window_shrink_entry, qcsched_window_shrink_before_entry. sonly_auto.
Qed.

Hint Resolve sonly_shrink_entry : sonly.

Lemma sonly_shrink_window : sonly cpu (qcsched_window_shrink_window cpu).
Proof.
  unfold qcsched_window_shrink_window, qcsched_window_shrink_window_n,
    qcsched_window_shrink_window_1. sonly_auto.
Qed.

Lemma sonly_close_window : sonly cpu (qcsched_window_close_window cpu).
Proof. unfold qcsched_window_close_window, close_entry. sonly_auto. Qed.

Hint Resolve sonly_close_window : sonly.

Lemma sonly_prune_missed_schedpoint : sonly cpu (qcsched_window_prune_missed_schedpoint cpu).
Proof. unfold qcsched_window_prune_missed_schedpoint, prune_entry. sonly_auto. Qed.

Lemma sonly_cleanup_left_schedpoint : sonly cpu (qcsched_window_cleanup_left_schedpoint cpu).
Proof. unfold qcsched_window_cleanup_left_schedpoint, cleanup_step. sonly_auto. Qed.

Lemma sonly_sync : sonly cpu (qcsched_window_sync cpu).
Proof. unfold qcsched_window_sync. sonly_auto. Qed.

Lemma sonly_hand_over_baton_from o : sonly cpu (hand_over_baton_from cpu o).
Proof. unfold hand_over_baton_from, forward_focus. sonly_auto. Qed.
End SchedOnly.

#[export] Hint Resolve sonly_expand_window sonly_shrink_window sonly_close_window
  sonly_prune_missed_schedpoint sonly_cleanup_left_schedpoint sonly_sync
  sonly_hand_over_baton_from : sonly.
