(* ===== verification/Accounting.v ===== *)
(** * The books of the windows

    A window counts the breakpoints it has installed.  [accounted] says that
    the books balance: the count of each vCPU's window is the number of its
    entries marked installed, at most three, and each address in a vCPU's
    breakpoint table is the hook or an installed entry of that vCPU.  So a
    window that is not full always finds a free debug register. *)

From stdpp Require Import base list gmap strings.
From Stdlib Require Import ZArith Lia.
From S2P Require Import Prelude Machine Invariant Flat KvmDebug CpuState GuestMem Vmi Window ExecControl Breakpoint VcpuLoop System HwTable Reads.

Local Open Scope Z_scope.
Local Open Scope record_scope.

(** ** Definitions *)

Definition counts (k : Z) (e : qcsched_entry) : bool :=
  installed (breakpoint e) && (e_cpu e =? k).

Definition installed_on (s : qcsched) (k : Z) : Z :=
  alen (filter (fun e => counts k e = true) (entries s)).

(** An address that may be in the table of vCPU [k]. *)
Definition accounted_addr `{P : Platform} (w : machine) (k a : Z) : Prop :=
  a = hook_addr (vmi_info w) \/
  exists i e, aget (entries (sched w)) i = Some e /\ counts k e = true /\ addr (schedpoint e) = a.

Record accounted `{P : Platform} (L : list Z) (w : machine) : Prop := {
  acc_window : forall k, k ∈ L -> exists x,
    aget (schedpoint_window (sched w)) k = Some x /\ w_cpu x = k /\
    w_activated x = installed_on (sched w) k /\ w_activated x <= SCHEDPOINT_WINDOW_SIZE;
  acc_entry : forall i e, aget (entries (sched w)) i = Some e -> e_cpu e ∈ L;
  acc_hw : forall k h, aget (hw_breakpoint w) k = Some h -> hw_ok h /\ NoDup (hw_addrs h);
  acc_addr : forall k h a, aget (hw_breakpoint w) k = Some h -> a ∈ hw_addrs h ->
    accounted_addr w k a;
}.

(** ** Counting *)

Lemma filter_length_aset {A} (f : A -> bool) l i x y :
  aget l i = Some x ->
  alen (filter (fun e => f e = true) (aset l i y)) =
  alen (filter (fun e => f e = true) l) - Z.b2z (f x) + Z.b2z (f y).
Proof.
  unfold aget, aset. destruct (i <? 0); [done|]. intros Hx.
  assert (x :: <[Z.to_nat i := y]> l ≡ₚ y :: l) as Hp by by apply insert_perm.
  apply (filter_Permutation (fun e => f e = true)), Permutation_length in Hp.
  rewrite !filter_cons in Hp. unfold alen.
  destruct (f x), (f y); repeat (case_decide; try done); simpl in *; lia.
Qed.

Lemma installed_on_pos (l : list qcsched_entry) k i e :
  aget l i = Some e -> counts k e = true ->
  0 < alen (filter (fun e => counts k e = true) l).
Proof.
  unfold aget. destruct (i <? 0); [done|]. intros Hi%list_elem_of_lookup_2 Hc.
  assert (e ∈ filter (fun e => counts k e = true) l) as Hin by (by apply list_elem_of_filter).
  unfold alen. destruct (filter _ l); [by apply not_elem_of_nil in Hin|simpl; lia].
Qed.

Section Accounted.
Context {P : Platform} (L : list Z).

(** ** Small steps that keep the books *)

Lemma acc_same (w w' : machine) :
  sched w' = sched w -> vmi_info w' = vmi_info w -> hw_breakpoint w' = hw_breakpoint w ->
  accounted L w -> accounted L w'.
Proof. intros Hs Hv Hh []. split; unfold accounted_addr; rewrite ?Hs, ?Hv, ?Hh; auto. Qed.

Lemma acc_upd_sched f (w : machine) :
  entries (f (sched w)) = entries (sched w) ->
  schedpoint_window (f (sched w)) = schedpoint_window (sched w) ->
  accounted L w -> accounted L (w <| sched ::= f |>).
Proof.
  intros He Hx []. split; unfold accounted_addr, installed_on in *; simpl; rewrite ?He, ?Hx; auto.
Qed.

Lemma acc_upd_window k x x' (w : machine) :
  aget (schedpoint_window (sched w)) k = Some x -> w_cpu x' = w_cpu x ->
  w_activated x' = w_activated x -> accounted L w ->
  accounted L (w <| sched ::= set schedpoint_window (fun l => aset l k x') |>).
Proof.
  intros Hx Hc Ha []. split; auto. intros k' Hk'. simpl.
  destruct (acc_window0 k' Hk') as (y & Hy & ? & ? & ?).
  destruct (decide (k = k')) as [<-|Hne].
  - exists x'. rewrite aget_aset_eq by by eapply aget_Some_range.
    rewrite Hx in Hy. injection Hy as <-. rewrite Hc, Ha. done.
  - exists y. by rewrite aget_aset_ne.
Qed.

Lemma acc_upd_entry i e e' (w : machine) :
  aget (entries (sched w)) i = Some e -> breakpoint e' = breakpoint e -> e_cpu e' = e_cpu e ->
  addr (schedpoint e') = addr (schedpoint e) -> accounted L w ->
  accounted L (w <| sched ::= set entries (fun l => aset l i e') |>).
Proof.
  intros He Hb Hc Ha [].
  assert (forall k, counts k e' = counts k e) as Hcnt by (intros; unfold counts; by rewrite Hb, Hc).
  split; simpl; auto.
  - intros k Hk. destruct (acc_window0 k Hk) as (x & ? & ? & Hx & ?). exists x.
    unfold installed_on. simpl. rewrite (filter_length_aset _ _ _ e), Hcnt by done.
    unfold installed_on in Hx. repeat split; try done. lia.
  - intros j e0. rewrite aget_aset. case_decide; [|apply acc_entry0].
    intros [= <-]. rewrite Hc. by eapply acc_entry0.
  - intros k h a Hh Hin. destruct (acc_addr0 k h a Hh Hin) as [->|(j & e0 & Hj & ? & ?)];
      [by left|right].
    destruct (decide (i = j)) as [<-|Hne].
    + rewrite He in Hj. injection Hj as <-. exists i, e'. simpl.
      rewrite aget_aset_eq by by eapply aget_Some_range. by rewrite Hcnt, Ha.
    + exists j, e0. simpl. by rewrite aget_aset_ne.
Qed.

Lemma acc_hw_shrink c h h' (w : machine) :
  aget (hw_breakpoint w) c = Some h -> hw_ok h' -> NoDup (hw_addrs h') ->
  (forall a, a ∈ hw_addrs h' -> a ∈ hw_addrs h \/ a = hook_addr (vmi_info w)) ->
  accounted L w -> accounted L (upd_hw c h' w).
Proof.
  intros Hh Hok Hnd Hsub []. split; simpl; auto.
  - intros k h0. rewrite aget_aset. case_decide; [by intros [= <-]|apply acc_hw0].
  - intros k h0 a. rewrite aget_aset. case_decide as Hd; [|apply acc_addr0].
    destruct Hd as [<- _]. intros [= <-] Ha. destruct (Hsub a Ha) as [Hin| ->]; [|by left].
    by eapply acc_addr0.
Qed.

(** ** A free debug register for a window that is not full *)

Lemma accounted_room k h x (w : machine) :
  accounted L w -> k ∈ L -> aget (hw_breakpoint w) k = Some h ->
  aget (schedpoint_window (sched w)) k = Some x ->
  nb h <= w_activated x + 1.
Proof.
  intros Hacc Hk Hh Hx. destruct (acc_window _ _ Hacc k Hk) as (y & Hy & _ & Hcnt & _).
  rewrite Hx in Hy. injection Hy as <-.
  destruct (acc_hw _ _ Hacc k h Hh) as [Hok Hnd].
  rewrite Hcnt. unfold installed_on, alen.
  set (l := filter (fun e => counts k e = true) (entries (sched w))).
  assert (hw_addrs h ⊆ hook_addr (vmi_info w) :: ((fun e => addr (schedpoint e)) <$> l)) as Hsub.
  { intros a Ha. destruct (acc_addr _ _ Hacc k h a Hh Ha) as [->|(i & e & Hi & Hce & <-)].
    - left.
    - right. apply list_elem_of_fmap. exists e. split; [done|]. apply list_elem_of_filter.
      split; [done|]. unfold aget in Hi. destruct (i <? 0); [done|].
      by eapply list_elem_of_lookup_2. }
  pose proof (NoDup_submseteq _ _ Hnd Hsub) as Hle%submseteq_length.
  rewrite hw_addrs_length in Hle by done. simpl in Hle. rewrite length_fmap in Hle.
  destruct Hok as (_ & ? & _). lia.
Qed.
End Accounted.

(** ** Programs that keep the books *)
Section Keep.
Context {P : Platform} {I : Interference} (L : list Z) (cpu : Z).

(** On the thread of [cpu]. *)
Definition akeep {A} (m : M A) : Prop :=
  forall w, current_cpu w = cpu -> accounted L w ->
    wlp m (fun _ w' => current_cpu w' = cpu /\ accounted L w') w.

Lemma akeep_reads {A} (m : M A) : reads m -> akeep m.
Proof. intros Hm w Hs Hw. by apply wlp_reads. Qed.

Lemma akeep_bind {A B} (m : M A) (f : A -> M B) :
  akeep m -> (forall a, akeep (f a)) -> akeep (m ≫= f).
Proof.
  intros Hm Hf w Hs Hw. apply wlp_bind. eapply wlp_mono; [by apply Hm|].
  intros a w' [Hs' Hw']. by apply Hf.
Qed.

Lemma akeep_loop {S R} fuel (step : S -> M (S + R)) s :
  (forall s, akeep (step s)) -> akeep (loop fuel step s).
Proof.
  intros Hst w Hs Hw. apply (wlp_loop (fun _ w' => current_cpu w' = cpu /\ accounted L w')); [done|].
  intros s' w' [Hs' Hw']. eapply wlp_mono; [by apply Hst|]. by intros [] ? ?.
Qed.

Lemma akeep_for_loop start cond body :
  (forall i, akeep (cond i)) -> (forall i, akeep (body i)) -> akeep (for_loop start cond body).
Proof.
  intros Hc Hb. apply akeep_loop. intros i. apply akeep_bind; [done|]. intros [].
  - apply akeep_bind; [done|]. intros []. apply akeep_reads, reads_ret.
  - apply akeep_reads, reads_ret.
Qed.

Lemma akeep_foreach {A} (l : list A) body :
  (forall x, akeep (body x)) -> akeep (foreach l body).
Proof.
  intros Hb. induction l; cbn [foreach]; [apply akeep_reads, reads_ret|].
  apply akeep_bind; [done|]. by intros [].
Qed.

Lemma akeep_CPU_FOREACH body : (forall c, akeep (body c)) -> akeep (CPU_FOREACH body).
Proof.
  intros Hb. apply akeep_bind; [apply akeep_reads, reads_gets|]. intros l. by apply akeep_foreach.
Qed.

Lemma akeep_upd_window k f :
  (forall x, w_cpu (f x) = w_cpu x /\ w_activated (f x) = w_activated x) ->
  akeep (upd_window k f).
Proof.
  intros Hf w Hs Hw. apply wlp_upd_window. intros x Hx. split; [done|].
  destruct (Hf x). by eapply acc_upd_window.
Qed.

Lemma akeep_upd_entry i f :
  (forall e, breakpoint (f e) = breakpoint e /\ e_cpu (f e) = e_cpu e /\
     addr (schedpoint (f e)) = addr (schedpoint e)) ->
  akeep (upd_entry i f).
Proof.
  intros Hf w Hs Hw. apply wlp_upd_entry. intros e He. split; [done|].
  destruct (Hf e) as (? & ? & ?). by eapply acc_upd_entry.
Qed.

Lemma akeep_upd_sched f :
  (forall s, entries (f s) = entries s /\ schedpoint_window (f s) = schedpoint_window s) ->
  akeep (upd_sched f).
Proof.
  intros Hf w Hs Hw. apply wlp_upd_sched. split; [done|].
  destruct (Hf (sched w)). by apply acc_upd_sched.
Qed.

Lemma akeep_upd_exec k f : akeep (upd_exec k f).
Proof. intros w Hs Hw. apply wlp_upd_exec. intros x Hx. split; [done|]. by apply (acc_same L w). Qed.

Lemma akeep_upd_cpu c f : akeep (upd_cpu c f).
Proof. intros w Hs Hw. apply wlp_upd_cpu. intros x Hx. split; [done|]. by apply (acc_same L w). Qed.

Lemma akeep_set_record k r : akeep (set_record k r).
Proof.
  intros w Hs Hw. apply wlp_set_record. intros x Hx. split; [done|].
  by apply (acc_upd_sched L (set last_breakpoint _)).
Qed.

(** ** Breakpoints of this CPU *)

Lemma akeep_update_guest_debug rt : akeep (kvm_update_guest_debug cpu rt).
Proof.
  intros w Hs Hw. eapply wlp_mono; [by apply wlp_update_guest_debug_self|].
  intros a w' [k ->]. split; [done|]. by apply (acc_same L w).
Qed.

(** Removing an address: it is not in the table any more, the others stay. *)
Lemma wlp_kvm_remove_self a w :
  current_cpu w = cpu -> accounted L w ->
  wlp (kvm_remove_breakpoint_cpu cpu a 1 GDB_BREAKPOINT_HW) (fun err w' =>
    current_cpu w' = cpu /\ accounted L w' /\ sched w' = sched w /\ vmi_info w' = vmi_info w /\
    forall h, aget (hw_breakpoint w') cpu = Some h -> (a ∉ hw_addrs h)) w.
Proof.
  intros Hs Hw. apply wlp_bind.
  destruct (aget (hw_breakpoint w) cpu) as [h|] eqn:Hh; cycle 1.
  { unfold wlp. simpl. unfold kvm_arch_remove_hw_breakpoint_cpu, find_hw_breakpoint_cpu, get_hw, mbind,
      prog_bind, gets, deref, id. simpl. by rewrite Hh. }
  destruct (acc_hw _ _ Hw cpu h Hh) as [Hok Hnd].
  destruct (hw_sim_remove cpu a w h (list_to_set (hw_addrs h))) as (h' & Heq & Hrel);
    [done|by (split; [|split])|].
  simpl in Heq. unfold wlp at 1. simpl. rewrite Heq. clear Heq.
  destruct Hrel as (Hok' & Hnd' & HX').
  assert (forall b, b ∈ hw_addrs h' -> b ∈ hw_addrs h /\ b <> a) as Hsub.
  { intros b Hb. apply (elem_of_list_to_set (C := gset Z)) in Hb. rewrite HX' in Hb.
    simpl in Hb. destruct (decide (a ∈ _)); simpl in Hb; set_solver. }
  assert (accounted L (upd_hw cpu h' w)) as Hw1.
  { eapply acc_hw_shrink; [done..| |done]. intros b Hb. left. by apply Hsub. }
  assert (forall h0, aget (hw_breakpoint (upd_hw cpu h' w)) cpu = Some h0 -> a ∉ hw_addrs h0) as Hna.
  { intros h0. simpl. rewrite aget_aset_eq by by eapply aget_Some_range.
    intros [= <-] Ha%Hsub. naive_solver. }
  destruct (negb _); [by apply wlp_ret|].
  eapply wlp_mono; [by apply wlp_update_guest_debug_self|].
  intros err w' [k ->]. split; [done|].
  split; [by apply (acc_same L (upd_hw cpu h' w))|]. done.
Qed.

Lemma akeep_kvm_remove a : akeep (kvm_remove_breakpoint_cpu cpu a 1 GDB_BREAKPOINT_HW).
Proof. intros w Hs Hw. eapply wlp_mono; [by apply wlp_kvm_remove_self|]. naive_solver. Qed.

(** Inserting one: the table grows by it, unless it is there already. *)
Lemma wlp_kvm_insert_self a w :
  current_cpu w = cpu -> accounted L w ->
  wlp (kvm_insert_breakpoint_cpu cpu a 1 GDB_BREAKPOINT_HW) (fun err w' =>
    current_cpu w' = cpu /\ exists h h' k, aget (hw_breakpoint w) cpu = Some h /\
      w' = upd_hw cpu h' w <| kvm := k |> /\ hw_ok h' /\ NoDup (hw_addrs h') /\
      forall b, b ∈ hw_addrs h' -> b ∈ hw_addrs h \/ b = a) w.
Proof.
  intros Hs Hw. apply wlp_bind.
  destruct (aget (hw_breakpoint w) cpu) as [h|] eqn:Hh; cycle 1.
  { unfold wlp. simpl. unfold kvm_arch_insert_hw_breakpoint_cpu, find_hw_breakpoint_cpu, get_hw, mbind,
      prog_bind, gets, deref, id. simpl. by rewrite Hh. }
  destruct (acc_hw _ _ Hw cpu h Hh) as [Hok Hnd].
  destruct (hw_sim_insert cpu a w h (list_to_set (hw_addrs h))) as (h' & Heq & Hrel);
    [done|by (split; [|split])|].
  simpl in Heq. unfold wlp at 1. simpl. rewrite Heq. clear Heq.
  destruct Hrel as (Hok' & Hnd' & HX').
  assert (forall b, b ∈ hw_addrs h' -> b ∈ hw_addrs h \/ b = a) as Hsub.
  { intros b Hb. apply (elem_of_list_to_set (C := gset Z)) in Hb. rewrite HX' in Hb.
    simpl in Hb. repeat case_decide; simpl in Hb; set_solver. }
  destruct (negb _).
  { apply wlp_ret. split; [done|]. exists h, h', (kvm w). by destruct w. }
  eapply wlp_mono; [by apply wlp_update_guest_debug_self|].
  intros err w' [k ->]. split; [done|]. by exists h, h', k.
Qed.
End Keep.

Create HintDb akeep.
#[export] Hint Resolve akeep_upd_exec akeep_upd_cpu akeep_set_record akeep_update_guest_debug
  akeep_kvm_remove : akeep.
#[export] Hint Extern 3 (akeep _ _ (upd_window _ _)) =>
  apply akeep_upd_window; intros; repeat case_match; done : akeep.
#[export] Hint Extern 3 (akeep _ _ (upd_entry _ _)) => apply akeep_upd_entry; done : akeep.
#[export] Hint Extern 3 (akeep _ _ (upd_sched _)) => apply akeep_upd_sched; done : akeep.
#[export] Hint Extern 2 (akeep _ _ _) => apply akeep_reads; solve [eauto with reads] : akeep.

Ltac akeep_step :=
  match goal with
  | |- akeep _ _ (mbind _ _) => apply akeep_bind; [|intros ?]
  | |- akeep _ _ (let x := _ in _) => cbv zeta
  | |- akeep _ _ (if ?b then _ else _) => destruct b
  | |- akeep _ _ (match ?o with _ => _ end) => destruct o
  | |- akeep _ _ (for_loop _ _ _) => apply akeep_for_loop; intros ?
  | |- akeep _ _ (loop _ _ _) => apply akeep_loop; intros ?
  | |- akeep _ _ (CPU_FOREACH _) => apply akeep_CPU_FOREACH; intros ?
  | |- akeep _ _ _ => solve [eauto with akeep]
  end.
Ltac akeep_auto := repeat akeep_step.

Section KeepWindow.
Context {P : Platform} {I : Interference} (L : list Z) (cpu : Z) (Hcpu : cpu ∈ L).

(** ** Installing and removing the breakpoint of an entry *)

(** Flip [installed] of entry [i] of this CPU, and count it. *)
Lemma acc_flip i e x (b : bool) (w : machine) :
  accounted L w ->
  aget (entries (sched w)) i = Some e -> e_cpu e = cpu -> installed (breakpoint e) = negb b ->
  aget (schedpoint_window (sched w)) cpu = Some x ->
  (b = true -> w_activated x < SCHEDPOINT_WINDOW_SIZE) ->
  (b = false -> forall h, aget (hw_breakpoint w) cpu = Some h -> addr (schedpoint e) ∉ hw_addrs h) ->
  accounted L (w <| sched ::= fun s =>
    s <| entries ::= fun l => aset l i (e <| breakpoint ::= set installed (fun _ => b) |>) |>
      <| schedpoint_window ::= fun l =>
           aset l cpu (x <| w_activated ::= if b then Z.succ else Z.pred |>) |> |>).
Proof.
  intros [] He Hc Hb Hx Hfull Hgone. set (e' := e <| breakpoint ::= _ |>).
  assert (forall k, Z.b2z (counts k e') - Z.b2z (counts k e) =
                    if decide (k = cpu) then if b then 1 else -1 else 0) as Hcnt.
  { intros k. unfold counts, e'. simpl. rewrite Hb, Hc.
    destruct (Z.eqb_spec cpu k), (decide (k = cpu)), b; simpl; lia. }
  assert (e_cpu e' = e_cpu e) as He' by done. clearbody e'. split; simpl; auto.
  - intros k Hk. destruct (acc_window0 k Hk) as (y & Hy & Hyc & Hya & Hyl).
    unfold installed_on. simpl. rewrite (filter_length_aset _ _ _ e) by done.
    specialize (Hcnt k). unfold installed_on in Hya. revert Hcnt.
    destruct (decide (k = cpu)) as [->|Hne]; intros Hcnt.
    + rewrite aget_aset_eq by by eapply aget_Some_range. eexists. split; [done|].
      rewrite Hx in Hy. injection Hy as <-. simpl. destruct b; [specialize (Hfull eq_refl)|];
        simpl; repeat split; try done; lia.
    + rewrite aget_aset_ne by done. exists y. repeat split; try done. lia.
  - intros j e0. rewrite aget_aset. case_decide; [|apply acc_entry0].
    intros [= <-]. rewrite He'. by eapply acc_entry0.
  - intros k h a Hh Ha. destruct (acc_addr0 k h a Hh Ha) as [->|(j & e0 & Hj & Hcj & <-)];
      [by left|right].
    destruct (decide (i = j)) as [<-|Hne]; [|by exists j, e0; simpl; rewrite aget_aset_ne].
    rewrite He in Hj. injection Hj as <-. unfold counts in Hcj. rewrite Hb, Hc in Hcj.
    destruct b; [done|]. simpl in Hcj. apply Z.eqb_eq in Hcj as <-.
    exfalso. by apply (Hgone eq_refl h Hh).
Qed.

Lemma acc_hw_grow h h' k i e (w : machine) :
  accounted L w -> aget (hw_breakpoint w) cpu = Some h -> hw_ok h' -> NoDup (hw_addrs h') ->
  aget (entries (sched w)) i = Some e -> counts cpu e = true ->
  (forall b, b ∈ hw_addrs h' -> b ∈ hw_addrs h \/ b = addr (schedpoint e)) ->
  accounted L (upd_hw cpu h' w <| kvm := k |>).
Proof.
  intros [] Hh Hok Hnd He Hce Hsub. split; simpl; auto.
  - intros c h0. rewrite aget_aset. case_decide; [by intros [= <-]|apply acc_hw0].
  - intros c h0 a. rewrite aget_aset. case_decide as Hd; [|apply acc_addr0].
    destruct Hd as [<- _]. intros [= <-] Ha. destruct (Hsub a Ha) as [Hin| ->].
    + by eapply acc_addr0.
    + right. by exists i, e.
Qed.

Lemma wlp_activate_entry i w :
  current_cpu w = cpu -> accounted L w ->
  (forall e, aget (entries (sched w)) i = Some e -> e_cpu e = cpu) ->
  wlp (qcsched_window_activate_entry cpu cpu i)
    (fun _ w' => current_cpu w' = cpu /\ accounted L w') w.
Proof.
  intros Hs Hw Hi. unfold qcsched_window_activate_entry.
  apply wlp_bind, wlp_get_window. intros x Hx. apply wlp_bind, wlp_ASSERT. intros Hfull.
  apply wlp_bind, wlp_get_entry. intros e He.
  destruct (_ =? _); [by apply wlp_ret|].
  destruct (installed (breakpoint e)) eqn:Hinst; [by apply wlp_ret|].
  apply wlp_bind. eapply wlp_mono; [by apply (wlp_kvm_insert_self L)|].
  intros err w1 (Hs1 & h & h' & k & Hh & -> & Hok & Hnd & Hsub).
  apply wlp_bind, wlp_ASSERT. intros _. apply wlp_bind, wlp_upd_entry.
  intros e1 He1. simpl in He1. rewrite He in He1. injection He1 as <-.
  apply wlp_upd_window. intros x1 Hx1. simpl in Hx1. rewrite Hx in Hx1. injection Hx1 as <-.
  split; [done|].
  assert (w_activated x < SCHEDPOINT_WINDOW_SIZE) as Hlt.
  { destruct (acc_window _ _ Hw cpu Hcpu) as (y & Hy & _ & _ & Hle).
    rewrite Hx in Hy. injection Hy as <-. unfold schedpoint_window_full in Hfull. bool_to_prop. lia. }
  assert (accounted L (w <| sched ::= fun s =>
    s <| entries ::= fun l => aset l i (e <| breakpoint ::= set installed (fun _ => true) |>) |>
      <| schedpoint_window ::= fun l => aset l cpu (x <| w_activated ::= Z.succ |>) |> |>)) as Hf.
  { by apply (acc_flip i e x true); auto. }
  eapply (acc_hw_grow h h' k i) in Hf; [exact Hf|done..| | |].
  - simpl. apply aget_aset_eq. by eapply aget_Some_range.
  - unfold counts. simpl. by rewrite (Hi e He), Z.eqb_refl.
  - done.
Qed.

Lemma wlp_deactivate_entry k i w :
  current_cpu w = cpu -> accounted L w -> k ∈ L ->
  wlp (qcsched_window_deactivate_entry cpu k i)
    (fun _ w' => current_cpu w' = cpu /\ accounted L w') w.
Proof.
  intros Hs Hw Hk. unfold qcsched_window_deactivate_entry.
  apply wlp_bind, wlp_get_window. intros x Hx. apply wlp_bind, wlp_get_entry. intros e He.
  apply wlp_bind, wlp_ASSERT. intros Hc%Z.eqb_eq.
  destruct (installed (breakpoint e)) eqn:Hinst; [|by apply wlp_ret]. simpl.
  apply wlp_bind, wlp_ASSERT. intros _.
  destruct (Z.eqb_spec cpu (e_cpu e)) as [Heq|Hne]; simpl; cycle 1.
  { unfold qcsched_window_deactivate_entry_remote. clear Hx He. revert w Hs Hw.
    match goal with |- forall w, _ -> _ -> wlp ?m _ w => change (akeep L cpu m) end. akeep_auto. }
  destruct (acc_window _ _ Hw k Hk) as (y & Hy & Hyk & _ & _).
  rewrite Hx in Hy. injection Hy as <-. assert (k = cpu) as -> by congruence.
  unfold qcsched_window_deactivate_entry_local.
  apply wlp_bind, wlp_gets. apply wlp_bind, wlp_ASSERT. intros _.
  apply wlp_bind, wlp_get_entry. intros e0 He0. rewrite He in He0. injection He0 as <-.
  apply wlp_bind. eapply wlp_mono; [by apply (wlp_kvm_remove_self L)|].
  intros err w1 (Hs1 & Hw1 & Hsch & _ & Hgone). apply wlp_bind, wlp_ASSERT. intros _.
  apply wlp_bind, wlp_upd_entry. rewrite Hsch. intros e0 He0. rewrite He in He0.
  injection He0 as <-.
  apply wlp_upd_window. simpl. rewrite Hsch. intros x0 Hx0. rewrite Hx in Hx0.
  injection Hx0 as <-. split; [done|].
  pose proof (acc_flip i e x false w1 Hw1) as Hf. rewrite Hsch in Hf.
  refine (Hf He _ Hinst Hx _ _); [done..|]. intros _. exact Hgone.
Qed.

(** ** The window operations *)

Lemma wlp_lookup_on_cpu from (Q : option Z -> machine -> Prop) w :
  (forall r, match r with
             | Some i => forall e, aget (entries (sched w)) i = Some e -> e_cpu e = cpu
             | None => True
             end -> Q r w) ->
  wlp (lookup_entry_by_order (Some cpu) from) Q w.
Proof.
  intros HQ. unfold lookup_entry_by_order. destruct (_ =? _); [by apply wlp_ret, HQ|].
  apply wlp_find_entry_found. intros [i|] Hi; apply HQ; [|done].
  destruct Hi as (e & He & Hf). intros e' He'. rewrite He in He'. injection He' as <-.
  simpl in Hf. by bool_to_prop.
Qed.

Lemma akeep_deactivate_entry k i : k ∈ L -> akeep L cpu (qcsched_window_deactivate_entry cpu k i).
Proof. intros Hk w Hs Hw. by apply wlp_deactivate_entry. Qed.

Hint Resolve akeep_deactivate_entry : akeep.

Lemma akeep_expand_window_1 : akeep L cpu (qcsched_window_expand_window_1 cpu cpu).
Proof.
  apply akeep_bind; [akeep_auto|]. intros x w Hs Hw.
  apply wlp_bind, wlp_lookup_on_cpu. intros [i|] Hi; [|by apply wlp_ret].
  apply wlp_bind, wlp_reads; [apply reads_entry_order|]. intros o.
  apply wlp_bind. apply (wlp_mono _ (fun _ w' => current_cpu w' = cpu /\ accounted L w' /\
    entries (sched w') = entries (sched w))).
  { destruct (schedpoint_window_empty x); [|by apply wlp_ret].
    apply wlp_upd_window. intros y Hy. split; [done|]. split; [by eapply acc_upd_window|done]. }
  intros [] w1 (Hs1 & Hw1 & He1). apply wlp_bind.
  eapply wlp_mono; [apply wlp_activate_entry; [done|done|by rewrite He1]|].
  intros [] w2 [Hs2 Hw2]. revert w2 Hs2 Hw2.
  match goal with |- forall w, _ -> _ -> wlp ?m _ w => change (akeep L cpu m) end. akeep_auto.
Qed.

Hint Resolve akeep_expand_window_1 : akeep.

Lemma akeep_expand_window : akeep L cpu (qcsched_window_expand_window cpu).
Proof. apply akeep_for_loop; intros; akeep_auto. Qed.

Lemma akeep_leave_footprint_at f o : akeep L cpu (qcsched_window_leave_footprint_at cpu f o).
Proof. unfold qcsched_window_leave_footprint_at. akeep_auto. Qed.

Hint Resolve akeep_leave_footprint_at : akeep.

Lemma akeep_leave_footprint f : akeep L cpu (qcsched_window_leave_footprint cpu f).
Proof. unfold qcsched_window_leave_footprint. akeep_auto. Qed.

Lemma akeep_do_shrink_entry k i : k ∈ L -> akeep L cpu (do_shrink_entry cpu k i).
Proof. intros. unfold do_shrink_entry. akeep_auto. Qed.

Hint Resolve akeep_do_shrink_entry : akeep.

Lemma akeep_shrink_before_entry k i :
  k ∈ L -> akeep L cpu (qcsched_window_shrink_before_entry cpu k i).
Proof. intros. unfold qcsched_window_shrink_before_entry. akeep_auto. Qed.

Hint Resolve akeep_shrink_before_entry : akeep.

Lemma akeep_shrink_entry k i : k ∈ L -> akeep L cpu (qcsched_window_shrink_entry cpu k i).
Proof. intros. unfold qcsched_window_shrink_entry. akeep_auto. Qed.

Hint Resolve akeep_shrink_entry : akeep.

Lemma akeep_shrink_window : akeep L cpu (qcsched_window_shrink_window cpu).
Proof. apply akeep_for_loop; intros; [|unfold qcsched_window_shrink_window_1]; akeep_auto. Qed.

Lemma akeep_close_window : akeep L cpu (qcsched_window_close_window cpu).
Proof. unfold qcsched_window_close_window, close_entry. akeep_auto. Qed.

Lemma akeep_prune_entry o : akeep L cpu (prune_entry cpu o).
Proof.
  intros w Hs Hw. apply wlp_bind, wlp_get_entry. intros e He.
  pose proof (acc_entry _ _ Hw _ _ He) as Hk. clear He. revert w Hs Hw.
  match goal with |- forall w, _ -> _ -> wlp ?m _ w => change (akeep L cpu m) end. akeep_auto.
Qed.

Hint Resolve akeep_close_window akeep_prune_entry : akeep.

Lemma akeep_prune_missed_schedpoint : akeep L cpu (qcsched_window_prune_missed_schedpoint cpu).
Proof. unfold qcsched_window_prune_missed_schedpoint. akeep_auto. Qed.

Lemma akeep_cleanup_left_schedpoint : akeep L cpu (qcsched_window_cleanup_left_schedpoint cpu).
Proof. unfold qcsched_window_cleanup_left_schedpoint, cleanup_step. akeep_auto. Qed.

Lemma akeep_sync : akeep L cpu (qcsched_window_sync cpu).
Proof. unfold qcsched_window_sync. akeep_auto. Qed.

Lemma akeep_forward_focus st : akeep L cpu (forward_focus cpu st).
Proof. unfold forward_focus. akeep_auto. Qed.

Hint Resolve akeep_expand_window akeep_leave_footprint akeep_shrink_window
  akeep_prune_missed_schedpoint akeep_cleanup_left_schedpoint akeep_sync akeep_forward_focus : akeep.

Lemma akeep_hand_over_baton_from o : akeep L cpu (hand_over_baton_from cpu o).
Proof. unfold hand_over_baton_from. akeep_auto. Qed.

Hint Resolve akeep_hand_over_baton_from : akeep.

(** ** The breakpoint handler, with the blocker *)
Context (Hblk : config_trampoline = false).

Lemma akeep_kidnap_task : akeep L cpu (kidnap_task cpu).
Proof.
  unfold kidnap_task, blocker_kidnap_task, qcsched_arm_selfescape_timer. rewrite Hblk. akeep_auto.
Qed.

Lemma akeep_wake_others_up : akeep L cpu (wake_others_up cpu).
Proof.
  unfold wake_others_up, wake_cpu_up, blocker_wake_cpu_up. rewrite Hblk. akeep_auto.
Qed.

Hint Resolve akeep_kidnap_task akeep_wake_others_up : akeep.

Lemma akeep_handle_breakpoint_hook : akeep L cpu (handle_breakpoint_hook cpu).
Proof.
  unfold handle_breakpoint_hook. akeep_step; [akeep_auto|]. akeep_step; [|akeep_auto].
  intros w Hs Hw. apply wlp_bind, wlp_vmi_. apply wlp_bind.
  eapply wlp_mono; [by apply (wlp_kvm_insert_self L)|].
  intros err w1 (Hs1 & h & h' & k & Hh & -> & Hok & Hnd & Hsub).
  apply wlp_ASSERT. intros _. split; [done|].
  apply (acc_same L (upd_hw cpu h' w)); [done..|]. by eapply acc_hw_shrink.
Qed.

Lemma akeep_handle_breakpoint_schedpoint : akeep L cpu (handle_breakpoint_schedpoint cpu).
Proof.
  unfold handle_breakpoint_schedpoint, qcsched_keep_this_cpu_going, qcsched_yield_turn_from.
  akeep_auto.
Qed.

Lemma akeep_handle_breakpoint_trampoline : akeep L cpu (handle_breakpoint_trampoline cpu).
Proof.
  unfold handle_breakpoint_trampoline, resume_task, blocker_resume_task. rewrite Hblk. akeep_auto.
Qed.

Lemma akeep_watchdog_breakpoint : akeep L cpu (watchdog_breakpoint cpu).
Proof.
  unfold watchdog_breakpoint, watchdog_breakpoint_reset, watchdog_breakpoint_check_count.
  akeep_auto.
Qed.

Hint Resolve akeep_handle_breakpoint_hook akeep_handle_breakpoint_schedpoint
  akeep_handle_breakpoint_trampoline akeep_watchdog_breakpoint : akeep.

Lemma akeep_handle_breakpoint_iolocked : akeep L cpu (qcsched_handle_breakpoint_iolocked cpu).
Proof. unfold qcsched_handle_breakpoint_iolocked. rewrite Hblk. akeep_auto. Qed.

Lemma akeep_handle_breakpoint : akeep L cpu (qcsched_handle_breakpoint cpu).
Proof.
  intros w Hs Hw. apply wlp_bind, wlp_bind, wlp_gets, wlp_bind, wlp_ASSERT. intros _.
  apply wlp_modify. apply wlp_bind. eapply wlp_mono; [apply akeep_upd_cpu; [done|by apply (acc_same L w)]|].
  intros [] w1 [Hs1 Hw1]. apply wlp_bind.
  eapply wlp_mono; [by apply akeep_handle_breakpoint_iolocked|].
  intros r w2 [Hs2 Hw2]. apply wlp_bind, wlp_bind, wlp_gets, wlp_bind, wlp_ASSERT. intros _.
  apply wlp_modify, wlp_ret. split; [done|]. by apply (acc_same L w2).
Qed.
End KeepWindow.

(** ** The theorems *)


(** C8.  The window size of three leaves room for the hook: while the window of
    a vCPU is not full, inserting a breakpoint on it never fails for want of
    a debug register, only because the address is there already. *)
Theorem window_fits_debug_registers `{P : Platform} L cpu w x h a :
  accounted L w -> cpu ∈ L ->
  aget (schedpoint_window (sched w)) cpu = Some x -> schedpoint_window_full x = false ->
  aget (hw_breakpoint w) cpu = Some h ->
  exists w', kvm_arch_insert_hw_breakpoint_cpu cpu a 1 GDB_BREAKPOINT_HW w =
    if decide (a ∈ hw_addrs h) then Ret (- EEXIST) w' else Ret 0 w'.
Proof.
  intros Hacc Hc Hx Hf Hh. pose proof (accounted_room L cpu h x w Hacc Hc Hh Hx) as Hroom.
  destruct (acc_window _ _ Hacc cpu Hc) as (y & Hy & _ & _ & Hle).
  rewrite Hx in Hy. injection Hy as <-.
  destruct (acc_hw _ _ Hacc cpu h Hh) as [Hok _].
  rewrite (insert_hw_spec _ _ _ h) by done. case_decide; [by exists w|].
  rewrite decide_False; [eauto|]. unfold schedpoint_window_full in Hf. bool_to_prop.
  unfold SCHEDPOINT_WINDOW_SIZE in *. lia.
Qed.

(** A schedule in progress on three vCPUs: CPU 1 is at its scheduling point
    (4096, installed), CPU 2 waits, suspended, to reach its own (8192), and
    both still have the hook (64) armed. *)
Definition flat_point (a o c : Z) (ins : bool) : qcsched_entry :=
  mk_entry (mk_schedpoint a o footprint_preserved) (mk_breakpoint None ins) (mk_task 0) c.

Definition flat_window_1 : qcsched_schedpoint_window :=
  mk_window 1 1 0 END_OF_SCHEDPOINT_WINDOW 1 END_OF_SCHEDPOINT_WINDOW.

Definition flat_table_1 : percpu_hw_breakpoint := hw_push (hw_push zero_percpu_hw 64) 4096.

Definition flat_running_machine : machine (P := flat_platform) :=
  flat_machine 3 [] <| current_cpu := 1 |>
    <| cpus ::= fun m => <[1 := zero_cpu <| regs ::= set rip (fun _ => 4096) |>]> m |>
    <| vmi_info ::= set hook_addr (fun _ => 64) |>
    <| hw_breakpoint ::= fun l => aset (aset l 1 flat_table_1) 2 (hw_push zero_percpu_hw 64) |>
    <| infos ::= fun l =>
         aset l 2 (mk_exec_info zero_trampoline (mk_blocker true false) false (timer_armed 1)) |>
    <| sched ::= fun s => s <| total := 2 |> <| orig_nr_bps := 2 |> <| nr_cpus := 2 |>
         <| used := false |> <| activated := true |>
         <| entries ::= fun l => aset (aset l 0 (flat_point 4096 0 1 true)) 1 (flat_point 8192 1 2 false) |>
         <| schedpoint_window ::= fun l =>
              aset (aset l 1 flat_window_1) 2 (mk_window 1 0 1 1 2 END_OF_SCHEDPOINT_WINDOW) |>
         <| cpu_state ::= fun l =>
              aset (aset l 1 qcsched_cpu_activated) 2 qcsched_cpu_activated |> |>.

Lemma flat_hw_ok : hw_ok zero_percpu_hw.
Proof.
  split; [done|]. split; [simpl; lia|]. intros i b Hi Hlt. apply aget_Some_range in Hi.
  simpl in *. lia.
Qed.

Lemma flat_tables k h :
  aget (hw_breakpoint flat_running_machine) k = Some h ->
  (k = 1 /\ h = flat_table_1) \/ (k = 2 /\ h = hw_push zero_percpu_hw 64) \/ h = zero_percpu_hw.
Proof.
  change (hw_breakpoint flat_running_machine) with
    (aset (aset (replicate (Z.to_nat MAX_NR_CPUS) zero_percpu_hw) 1 flat_table_1) 2
       (hw_push zero_percpu_hw 64)).
  rewrite !aget_aset. repeat case_decide; [naive_solver..|].
  intros [-> _]%aget_replicate. auto.
Qed.

Lemma flat_running_accounted : accounted [0; 1; 2] flat_running_machine.
Proof.
  split.
  - intros k [->|[->|[->|[]%not_elem_of_nil]%elem_of_cons]%elem_of_cons]%elem_of_cons;
      eexists; repeat split; vm_compute; done.
  - intros i e. change (entries (sched flat_running_machine)) with
      (aset (aset (replicate (Z.to_nat MAX_SCHEDPOINTS) zero_entry) 0 (flat_point 4096 0 1 true)) 1
         (flat_point 8192 1 2 false)).
    rewrite !aget_aset. repeat case_decide; [intros [= <-]; set_solver..|].
    intros [-> _]%aget_replicate. set_solver.
  - pose proof flat_hw_ok. intros k h [[_ ->]|[[_ ->]| ->]]%flat_tables;
      (split; [repeat apply hw_ok_push; done || simpl; lia|]); by apply (bool_decide_unpack _).
  - intros k h a [[-> ->]|[[-> ->]| ->]]%flat_tables Ha; [| |by apply not_elem_of_nil in Ha];
      vm_compute in Ha.
    + apply elem_of_cons in Ha as [->|Ha]; [by left|].
      apply list_elem_of_singleton in Ha as ->. right. exists 0, (flat_point 4096 0 1 true).
      repeat split; done.
    + apply list_elem_of_singleton in Ha as ->. by left.
Qed.

Lemma window_fits_debug_registers_witness :
  exists w', kvm_arch_insert_hw_breakpoint_cpu 1 8192 1 GDB_BREAKPOINT_HW flat_running_machine = Ret 0 w'.
Proof.
  destruct (window_fits_debug_registers [0; 1; 2] 1 flat_running_machine
    flat_window_1 flat_table_1 8192) as [w' Hw'].
  - apply flat_running_accounted.
  - set_solver.
  - reflexivity.
  - reflexivity.
  - reflexivity.
  - exists w'. rewrite Hw'. rewrite decide_False; [done|by apply (bool_decide_unpack _)].
Defined.

Lemma flat_running_outside : outside [0; 1; 2] 1 flat_running_machine.
Proof.
  destruct (init_wf (P := flat_platform) 3 ∅ (mk_flat_kvm [] ∅ ∅)) as [Hs Hv ? ? Hh ? Hcp].
  split; [split|..]; try done.
  - destruct Hs as [? ? ? ? ? ? Hes Hws]; split; try done.
    + repeat (apply aforall_aset; [|intros _; repeat split; simpl; clia]). done.
    + repeat (apply aforall_aset; [|intros _; repeat split; vm_compute; done]). done.
  - by destruct Hv; split.
  - intros k h Hk. pose proof flat_hw_ok. apply flat_tables in Hk as [[_ ->]|[[_ ->]| ->]];
      repeat apply hw_ok_push; done || simpl; lia.
  - intros c Hc. simpl. destruct (decide (c = 1)) as [->|];
      [by rewrite lookup_insert_eq|by rewrite lookup_insert_ne by done; apply Hcp].
Qed.

