(* ===== verification/WindowSpec.v ===== *)
(** * What the window operations do

    Functional specifications of [qcsched/window.c]: the lookups, closing a
    window, synchronising it with the focus of the schedule, and handing the
    turn to another vCPU. *)

From stdpp Require Import base list gmap strings.
From Stdlib Require Import ZArith Lia.
From S2P Require Import Prelude Machine Invariant Flat KvmDebug CpuState GuestMem Vmi Window ExecControl Breakpoint VcpuLoop System HwTable Reads Accounting.

Local Open Scope Z_scope.
Local Open Scope record_scope.

(** ** Closing a window *)

(** What closing the window of [cpu] does to an entry. *)
Definition closed_entry (cpu : Z) (e : qcsched_entry) : qcsched_entry :=
  if (e_cpu e =? cpu) && bool_decide (footprint (schedpoint e) = footprint_preserved) then
    let f := if addr (schedpoint e) =? QCSCHED_DUMMY_BREAKPOINT then footprint_hit
             else if installed (breakpoint e) then footprint_missed
             else footprint_not_addressed in
    e <| schedpoint ::= set footprint (fun _ => f) |>
      <| breakpoint ::= set installed (fun _ => false) |>
  else e.

Section Close.
Context {P : Platform} {I : Interference} (cpu : Z).

(** [w'] is [w] with other entries, other contents of the window of [cpu], and
    another table. *)
Definition close_frame (w w' : machine) : Prop :=
  current_cpu w' = current_cpu w /\ total (sched w') = total (sched w) /\
  (current (sched w'), cpu_state (sched w'), activated (sched w'), used (sched w')) =
    (current (sched w), cpu_state (sched w), activated (sched w), used (sched w)) /\
  forall k, k <> cpu ->
    aget (schedpoint_window (sched w')) k = aget (schedpoint_window (sched w)) k.

Lemma close_frame_refl w : close_frame w w.
Proof. done. Qed.

Lemma wlp_leave_footprint_at f o e w :
  aget (entries (sched w)) o = Some e -> e_cpu e = cpu -> o < total (sched w) ->
  wlp (qcsched_window_leave_footprint_at cpu f o) (fun _ w' =>
    w' = w <| sched ::= set entries (fun l => aset l o (e <| schedpoint ::= set footprint (fun _ =>
      if addr (schedpoint e) =? QCSCHED_DUMMY_BREAKPOINT then footprint_hit else f) |>)) |>) w.
Proof.
  intros He Hc Ho. apply wlp_bind, wlp_sched_. destruct (Z.leb_spec (total (sched w)) o); [lia|].
  apply wlp_bind, wlp_get_entry. intros e0 He0. rewrite He in He0. injection He0 as <-.
  rewrite Hc, Z.eqb_refl. apply wlp_upd_entry. intros e0 He0. rewrite He in He0.
  by injection He0 as <-.
Qed.

Lemma wlp_deactivate_local o e w :
  current_cpu w = cpu -> aget (entries (sched w)) o = Some e -> e_cpu e = cpu ->
  installed (breakpoint e) = true ->
  wlp (qcsched_window_deactivate_entry cpu cpu o) (fun _ w' => close_frame w w' /\
    entries (sched w') =
      aset (entries (sched w)) o (e <| breakpoint ::= set installed (fun _ => false) |>)) w.
Proof.
  intros Hs He Hc Hi. unfold qcsched_window_deactivate_entry.
  apply wlp_bind, wlp_get_window. intros x Hx. apply wlp_bind, wlp_get_entry.
  intros e0 He0. rewrite He in He0. injection He0 as <-.
  apply wlp_bind, wlp_ASSERT. intros _. rewrite Hi. simpl. apply wlp_bind, wlp_ASSERT. intros _.
  rewrite Hc, Z.eqb_refl. simpl. unfold qcsched_window_deactivate_entry_local.
  apply wlp_bind, wlp_gets, wlp_bind, wlp_ASSERT. intros _.
  apply wlp_bind, wlp_get_entry. intros e0 He0. rewrite He in He0. injection He0 as <-.
  apply wlp_bind. eapply wlp_mono; [by apply wlp_kvm_remove_hw_only|].
  intros err w1 (hw & k & ->). apply wlp_bind, wlp_ASSERT. intros _.
  apply wlp_bind, wlp_upd_entry. intros e0 He0. simpl in He0. rewrite He in He0.
  injection He0 as <-. apply wlp_upd_window. intros x1 Hx1.
  split; [|done]. repeat split; try done. intros c Hne. simpl. by rewrite aget_aset_ne.
Qed.

Lemma wlp_close_entry o e w :
  current_cpu w = cpu -> aget (entries (sched w)) o = Some e -> o < total (sched w) ->
  wlp (close_entry cpu o) (fun _ w' => close_frame w w' /\
    entries (sched w') = aset (entries (sched w)) o (closed_entry cpu e)) w.
Proof.
  intros Hs He Ho. apply wlp_bind, wlp_get_entry. intros e0 He0. rewrite He in He0.
  injection He0 as <-. unfold closed_entry.
  destruct (Z.eqb_spec (e_cpu e) cpu) as [Hc|]; simpl; [|apply wlp_ret; by rewrite aset_id].
  destruct (bool_decide _) eqn:Hf; simpl; [|apply wlp_ret; by rewrite aset_id].
  pose proof (aget_Some_range _ _ _ He) as Hr.
  destruct (installed (breakpoint e)) eqn:Hi.
  - apply wlp_bind. eapply wlp_mono; [by apply wlp_leave_footprint_at|]. intros [] w1 ->.
    eapply wlp_mono; [eapply wlp_deactivate_local; [done|simpl; by apply aget_aset_eq|done|done]|].
    intros [] w2 [Hfr Hen]. split; [exact Hfr|]. rewrite Hen. simpl. by rewrite aset_aset_eq.
  - eapply wlp_mono; [by apply wlp_leave_footprint_at|]. intros [] w1 ->. split; [done|]. simpl.
    f_equal. destruct e as [[] [] ? ?]. simpl in *. by subst.
Qed.

(** The loop invariant: the entries before [i] are closed. *)
Definition closed_upto (w : machine) (i : Z) (w' : machine) : Prop :=
  close_frame w w' /\ alen (entries (sched w')) = alen (entries (sched w)) /\
  forall j, aget (entries (sched w')) j =
    (if bool_decide (j < i /\ j < total (sched w)) then closed_entry cpu <$> aget (entries (sched w)) j
     else aget (entries (sched w)) j).

Lemma wlp_close_window w :
  current_cpu w = cpu ->
  wlp (qcsched_window_close_window cpu) (fun _ w' =>
    closed_upto w (total (sched w)) w' /\
    exists x, aget (schedpoint_window (sched w')) cpu = Some x /\
      w_total x = 0 /\ w_activated x = 0 /\ w_from x = END_OF_SCHEDPOINT_WINDOW /\
      w_until x = END_OF_SCHEDPOINT_WINDOW /\ w_left_behind x = END_OF_SCHEDPOINT_WINDOW) w.
Proof.
  intros Hs. apply wlp_bind.
  apply (wlp_mono _ (fun _ w' => closed_upto w (total (sched w)) w')).
  - apply (wlp_for_loop (fun i w' => 0 <= i /\ closed_upto w i w')).
    + split; [done|]. split; [done|]. split; [done|]. intros j. case_bool_decide; [|done].
      destruct (aget (entries (sched w)) j) eqn:E; [|done]. apply aget_Some_range in E. lia.
    + intros i w1 (Hi0 & Hfr & Hl & Hen). apply wlp_bind, wlp_sched_, wlp_ret.
      pose proof Hfr as (Hs1 & Ht & Hcur & Hoth). rewrite Ht.
      destruct (Z.ltb_spec i (total (sched w))) as [Hlt|Hge].
      * destruct (aget (entries (sched w1)) i) as [e|] eqn:He.
        { eapply wlp_mono; [apply wlp_close_entry; [congruence|done|by rewrite Ht]|].
          intros [] w2 ((Hs2 & Ht2 & Hc2 & Ho2) & Hen2). split; [lia|]. split; [|split].
          - repeat split; try congruence. intros k Hk. by rewrite Ho2, Hoth.
          - by rewrite Hen2, alen_aset.
          - intros j. rewrite Hen2. destruct (decide (i = j)) as [<-|Hne].
            + rewrite aget_aset_eq by by eapply aget_Some_range.
              rewrite bool_decide_true by lia. specialize (Hen i).
              rewrite bool_decide_false in Hen by lia. by rewrite <- Hen, He.
            + rewrite aget_aset_ne, Hen by done. repeat case_bool_decide; try done; lia. }
        { apply wlp_bind, wlp_get_entry. intros e He'. congruence. }
      * split; [done|]. split; [done|]. intros j. rewrite Hen.
        repeat case_bool_decide; try done; lia.
  - intros [] w1 (Hfr & Hl & Hen). pose proof Hfr as (Hs1 & Ht & Hcur & Hoth).
    apply wlp_bind, wlp_upd_window. intros x Hx. apply wlp_bind, wlp_get_window.
    intros y Hy. apply wlp_ASSERT. intros Ha%Z.eqb_eq. simpl in Hy.
    rewrite aget_aset_eq in Hy by by eapply aget_Some_range. injection Hy as <-. simpl in Ha.
    split.
    + split; [|done]. split; [done|]. split; [done|]. split; [done|].
      intros k Hk. simpl. rewrite aget_aset_ne by done. by apply Hoth.
    + eexists. split; [simpl; apply aget_aset_eq; by eapply aget_Some_range|]. done.
Qed.
End Close.

(** C7.  Closing a window settles every entry of its vCPU that is still
    pending: a dummy counts as hit, one with a breakpoint installed as missed,
    one not yet installed as not addressed; no other entry and no other
    vCPU's window changes.  If the books were balanced, none of the vCPU's
    entries stays installed, and no breakpoint but the hook is left in its
    debug registers. *)
Theorem close_window_settles `{P : Platform} {I : Interference} L cpu w :
  Small L -> StableInterference L -> cpu ∈ L -> inside L cpu w -> accounted L w ->
  match qcsched_window_close_window cpu w with
  | Ret _ w' =>
      (forall j, aget (entries (sched w')) j =
         if j <? total (sched w) then closed_entry cpu <$> aget (entries (sched w)) j
         else aget (entries (sched w)) j) /\
      (forall k, k <> cpu ->
         aget (schedpoint_window (sched w')) k = aget (schedpoint_window (sched w)) k) /\
      (forall i e, aget (entries (sched w')) i = Some e -> e_cpu e = cpu ->
         installed (breakpoint e) = false) /\
      (forall h a, aget (hw_breakpoint w') cpu = Some h -> a ∈ hw_addrs h ->
         a = hook_addr (vmi_info w'))
  | Exit msg => disciplined msg
  | UB _ | OutOfFuel => False
  end.
Proof.
  intros HS HI Hc Hw Hacc.
  pose proof (safe_close_window L cpu Hc w Hw) as Hsafe.
  pose proof (akeep_close_window L cpu Hc w (in_self _ _ _ Hw) Hacc) as Hkeep.
  pose proof (wlp_close_window cpu w (in_self _ _ _ Hw)) as Hspec.
  unfold wp in Hsafe. unfold wlp in Hkeep, Hspec.
  destruct (qcsched_window_close_window cpu w) as [[] w'| | |]; try done.
  destruct Hkeep as [_ Hacc'].
  destruct Hspec as (((_ & _ & _ & Hoth) & _ & Hen) & x & Hx & _ & Ha & _).
  destruct (acc_window _ _ Hacc' cpu Hc) as (y & Hy & _ & Hcnt & _).
  rewrite Hx in Hy. injection Hy as <-. rewrite Ha in Hcnt.
  assert (forall i e, aget (entries (sched w')) i = Some e -> counts cpu e = false) as Hnone.
  { intros i e He. apply not_true_is_false. intros Hce.
    pose proof (installed_on_pos _ _ _ _ He Hce). unfold installed_on in Hcnt. lia. }
  split; [|split; [done|split]].
  - intros j. rewrite Hen. destruct (Z.ltb_spec j (total (sched w)));
      case_bool_decide; try done; lia.
  - intros i e He Hce. specialize (Hnone i e He). unfold counts in Hnone.
    rewrite Hce, Z.eqb_refl, andb_true_r in Hnone. done.
  - intros h a Hh Hin. destruct (acc_addr _ _ Hacc' cpu h a Hh Hin) as [->|(i & e & He & Hce & _)];
      [done|]. by rewrite (Hnone i e He) in Hce.
Qed.

Lemma flat_running_inside :
  inside [0; 1; 2] 1 (flat_running_machine <| iothread_locked := true |>).
Proof. destruct flat_running_outside as [[] ? ?]. split; [split|..]; done. Qed.

Lemma flat_running_locked_accounted :
  accounted [0; 1; 2] (flat_running_machine <| iothread_locked := true |>).
Proof. by apply (acc_same [0; 1; 2] flat_running_machine); [..|apply flat_running_accounted]. Qed.

Lemma close_window_settles_witness :
  match qcsched_window_close_window 1 (flat_running_machine <| iothread_locked := true |>) with
  | Ret _ w' => forall i e, aget (entries (sched w')) i = Some e -> e_cpu e = 1 ->
         installed (breakpoint e) = false
  | Exit msg => disciplined msg
  | UB _ | OutOfFuel => False
  end.
Proof.
  pose proof (close_window_settles [0; 1; 2] 1 (flat_running_machine <| iothread_locked := true |>)
    (vcpus_small 3 ltac:(lia)) (flat_stable _) ltac:(set_solver) flat_running_inside
    flat_running_locked_accounted) as H.
  destruct (qcsched_window_close_window _ _); [|exact H|exact H|exact H].
  exact (proj1 (proj2 (proj2 H))).
Defined.
