(* ===== verification/ExecSpec.v ===== *)
(** * A suspended vCPU

    With the blocker (the default configuration) a vCPU whose task is
    kidnapped does not enter the guest; it is released by another vCPU or by
    its own timer. *)

From stdpp Require Import base list gmap strings.
From Stdlib Require Import ZArith Lia.
From S2P Require Import Prelude Machine Invariant Flat KvmDebug CpuState GuestMem Vmi Window ExecControl Breakpoint RunState VmiHint Kssb Hcall VcpuLoop System Reads Frames.

Local Open Scope Z_scope.
Local Open Scope record_scope.

(** Documented behaviour of [run->immediate_exit]: [KVM_RUN] returns -EINTR
    at once and the guest does not run. *)
Class ImmediateExit `{P : Platform} :=
  immediate_exit_law : forall k m c, ioctl_run k m c true = ((run_error (- EINTR), k), m).

Section Blocked.
Context {P : Platform} {I : Interference} (cpu : Z).
Context (Hblk : config_trampoline = false) `{!ImmediateExit}.

(** [w'] differs from [w] at most in the CPU structures, in KVM and in who
    holds the big lock. *)
Definition local_only (w w' : machine) : Prop :=
  exists cs k b, w' = w <| cpus := cs |> <| kvm := k |> <| iothread_locked := b |>.

Lemma local_only_refl w : local_only w w.
Proof. exists (cpus w), (kvm w), (iothread_locked w). by destruct w. Qed.

Lemma local_only_trans w1 w2 w3 : local_only w1 w2 -> local_only w2 w3 -> local_only w1 w3.
Proof. intros (c & k & b & ->) (c' & k' & b' & ->). by exists c', k', b'. Qed.

Lemma local_only_cpus f w : local_only w (w <| cpus ::= f |>).
Proof. exists (f (cpus w)), (kvm w), (iothread_locked w). by destruct w. Qed.

Lemma local_only_kvm k w : local_only w (w <| kvm := k |>).
Proof. exists (cpus w), k, (iothread_locked w). by destruct w. Qed.

Lemma local_only_lock b w : local_only w (w <| iothread_locked := b |>).
Proof. exists (cpus w), (kvm w), b. by destruct w. Qed.

Lemma local_only_facts w w' :
  local_only w w' -> sched w' = sched w /\ infos w' = infos w /\ mem w' = mem w /\
    hw_breakpoint w' = hw_breakpoint w /\ current_cpu w' = current_cpu w.
Proof. by intros (c & k & b & ->). Qed.

Lemma wlp_upd_cpu_local c f w : wlp (upd_cpu c f) (fun _ w' => local_only w w') w.
Proof. apply wlp_upd_cpu. intros. apply local_only_cpus. Qed.

Lemma wlp_kick_self w :
  current_cpu w = cpu ->
  wlp kvm_cpu_kick_self (fun _ w' => local_only w w' /\
    exists c, cpus w' !! cpu = Some c /\ immediate_exit c = true) w.
Proof.
  intros Hs. apply wlp_bind, wlp_gets. rewrite Hs. apply wlp_upd_cpu. intros c Hc.
  split; [apply local_only_cpus|]. eexists. simpl. rewrite lookup_insert_eq. by split.
Qed.

Lemma wlp_lock_local (w : machine) :
  wlp qemu_mutex_lock_iothread (fun _ w' => local_only w w') w.
Proof.
  apply wlp_bind, wlp_gets, wlp_bind, wlp_ASSERT. intros _. apply wlp_modify, local_only_lock.
Qed.

Lemma wlp_unlock_local (w : machine) :
  wlp qemu_mutex_unlock_iothread (fun _ w' => local_only w w') w.
Proof.
  apply wlp_bind, wlp_gets, wlp_bind, wlp_ASSERT. intros _. apply wlp_modify, local_only_lock.
Qed.

Lemma wlp_task_kidnapped i (Q : bool -> machine -> Prop) w :
  aget (infos w) cpu = Some i -> Q (blocked (blocker i)) w -> wlp (task_kidnapped cpu) Q w.
Proof.
  intros Hi HQ. unfold task_kidnapped. rewrite Hblk. apply wlp_bind, wlp_get_exec.
  intros i' Hi'. rewrite Hi in Hi'. injection Hi' as <-. by apply wlp_ret.
Qed.

Lemma wlp_pre_run_blocked i w :
  aget (infos w) cpu = Some i -> blocked (blocker i) = true ->
  wlp (qcsched_pre_run cpu) (fun b w' => b = false /\ local_only w w') w.
Proof.
  intros Hi Hb. apply wlp_bind, wlp_gets, wlp_bind, wlp_ASSERT. intros _.
  apply wlp_bind, wlp_get_cpu. intros c Hc. apply wlp_bind.
  apply (wlp_mono _ (fun _ w' => local_only w w')).
  - destruct (qcsched_dirty c); [|apply wlp_ret, local_only_refl].
    apply wlp_bind. apply (wlp_mono _ (fun _ w' => local_only w w')).
    + apply wlp_bind, wlp_get_cpu. intros c' _. apply wlp_bind, wlp_gets.
      destruct (ioctl_set_regs _ _ _) as [r k]. apply wlp_bind, wlp_modify, wlp_ret, local_only_kvm.
    + intros r w1 H1. apply wlp_bind, wlp_ASSERT. intros _.
      eapply wlp_mono; [apply wlp_upd_cpu_local|]. intros [] w2 H2.
      exact (local_only_trans _ _ _ H1 H2).
  - intros [] w1 H1. rewrite Hblk. apply wlp_bind.
    eapply wlp_task_kidnapped; [by rewrite (proj1 (proj2 (local_only_facts _ _ H1)))|].
    apply wlp_ret. by rewrite Hb.
Qed.

Lemma wlp_kvm_run_immediate c w :
  cpus w !! cpu = Some c -> immediate_exit c = true ->
  wlp (kvm_run cpu) (fun r w' => r = run_error (- EINTR) /\ local_only w w' /\ kvm w' = kvm w) w.
Proof.
  intros Hc Hie. apply wlp_bind, wlp_get_cpu. intros c' Hc'. rewrite Hc in Hc'.
  injection Hc' as <-. apply wlp_bind, wlp_gets. rewrite Hie, immediate_exit_law.
  apply wlp_bind, wlp_modify, wlp_ret. split; [done|]. split; [|done].
  exists (cpus w), (kvm w), (iothread_locked w). by destruct w.
Qed.

Lemma wlp_read_registers w : wlp (kvm_read_registers cpu) (fun _ w' => local_only w w') w.
Proof.
  apply wlp_bind, wlp_gets. destruct (ioctl_get_regs _ _) as [[r g] k].
  apply wlp_bind, wlp_modify, wlp_bind.
  apply (wlp_mono _ (fun _ w' => local_only w w')); [|intros [] w1 H1; by apply wlp_ret].
  destruct (_ =? _); [|apply wlp_ret, local_only_kvm].
  eapply wlp_mono; [apply wlp_upd_cpu_local|]. intros [] w1 H1.
  exact (local_only_trans _ _ _ (local_only_kvm k w) H1).
Qed.

(** The execution information after a round of a blocked vCPU. *)
Definition after_round (i : qcsched_exec_info) : qcsched_exec_info :=
  if waking_up (blocker i) then i <| blocker := mk_blocker false false |> <| kicked := false |>
  else if kicked i then i <| kicked := false |> <| blocker ::= set waking_up (fun _ => true) |>
  else i.

(** ... and after the kick handler alone. *)
Definition after_kick (i : qcsched_exec_info) : qcsched_exec_info :=
  if kicked i then
    if blocked (blocker i)
    then i <| kicked := false |> <| blocker ::= set waking_up (fun _ => true) |>
    else i <| kicked := false |>
  else i.

Lemma wlp_handle_kick i w :
  current_cpu w = cpu -> aget (infos w) cpu = Some i ->
  wlp (qcsched_handle_kick cpu) (fun _ w' => current_cpu w' = cpu /\ sched w' = sched w /\
    mem w' = mem w /\ infos w' = aset (infos w) cpu (after_kick i)) w.
Proof.
  intros Hs Hi. pose proof (aget_Some_range _ _ _ Hi) as Hr.
  apply wlp_bind. eapply wlp_mono; [apply wlp_lock_local|]. intros [] w1 H1.
  apply wlp_bind. eapply wlp_mono; [apply wlp_upd_cpu_local|]. intros [] w2 H2.
  pose proof (local_only_trans _ _ _ H1 H2) as H12.
  destruct (local_only_facts _ _ H12) as (Hsc & Hin & Hm & _ & Hself). rewrite Hs in Hself.
  apply wlp_bind. apply (wlp_mono _ (fun _ w' => current_cpu w' = cpu /\ sched w' = sched w /\
    mem w' = mem w /\ infos w' = aset (infos w) cpu (after_kick i))).
  - unfold after_kick. apply wlp_bind, wlp_gets, wlp_bind, wlp_ASSERT. intros _.
    apply wlp_bind, wlp_get_exec. intros i' Hi'. rewrite Hin, Hi in Hi'. injection Hi' as <-.
    destruct (kicked i) eqn:Hk; simpl; [|apply wlp_ret; by rewrite aset_id, Hin].
    apply wlp_bind, wlp_upd_exec. rewrite Hin. intros i' Hi'. rewrite Hi in Hi'. injection Hi' as <-.
    apply wlp_bind. eapply wlp_task_kidnapped.
    { simpl. rewrite Hin. by apply aget_aset_eq. }
    simpl. destruct (blocked (blocker i)); simpl.
    + apply wlp_bind, wlp_upd_cpu. intros c Hc. unfold wake_cpu_up. rewrite Hblk.
      apply wlp_upd_exec. simpl. rewrite Hin, aget_aset_eq by done. intros i' [= <-].
      by rewrite aset_aset_eq.
    + apply wlp_ret. simpl. by rewrite Hin.
  - intros [] w3 (H3 & H4 & H5 & H6). eapply wlp_mono; [apply wlp_unlock_local|].
    intros [] w4 H7. by destruct (local_only_facts _ _ H7) as (-> & -> & -> & _ & ->).
Qed.

Lemma wlp_post_run_blocked i w :
  current_cpu w = cpu -> aget (infos w) cpu = Some i -> blocked (blocker i) = true ->
  wlp (qcsched_post_run cpu) (fun _ w' => current_cpu w' = cpu /\ mem w' = mem w /\
    (waking_up (blocker i) = false -> sched w' = sched w) /\
    infos w' = if waking_up (blocker i)
               then aset (infos w) cpu (i <| blocker := mk_blocker false false |> <| kicked := false |>)
               else infos w) w.
Proof.
  intros Hs Hi Hb. pose proof (aget_Some_range _ _ _ Hi) as Hr.
  apply wlp_bind. eapply wlp_mono; [apply wlp_read_registers|]. intros r w1 H1.
  apply wlp_bind, wlp_ASSERT. intros _. rewrite Hblk.
  apply wlp_bind. eapply wlp_mono; [apply wlp_lock_local|]. intros [] w2 H2.
  pose proof (local_only_trans _ _ _ H1 H2) as H12.
  destruct (local_only_facts _ _ H12) as (Hsc & Hin & Hm & _ & Hself).
  apply wlp_bind. unfold want_to_wake_up. rewrite Hblk.
  apply wlp_bind, wlp_get_exec. rewrite Hin. intros i' Hi'. rewrite Hi in Hi'. injection Hi' as <-.
  apply wlp_ret, wlp_bind. apply (wlp_mono _ (fun _ w' => current_cpu w' = cpu /\ mem w' = mem w /\
    (waking_up (blocker i) = false -> sched w' = sched w) /\
    infos w' = if waking_up (blocker i)
               then aset (infos w) cpu (i <| blocker := mk_blocker false false |> <| kicked := false |>)
               else infos w)).
  - destruct (waking_up (blocker i)) eqn:Hwk; cycle 1.
    { apply wlp_ret. by rewrite Hself, Hm, Hsc, Hin. }
    apply wlp_bind. eapply wlp_task_kidnapped; [by rewrite Hin|].
    apply wlp_bind, wlp_ASSERT. intros _. apply wlp_bind, wlp_gets, wlp_bind, wlp_ASSERT. intros _.
    apply wlp_bind, wlp_gets, wlp_bind, wlp_ASSERT. intros _. apply wlp_bind. rewrite Hblk.
    apply wlp_bind, wlp_upd_exec. rewrite Hin. intros i' Hi'. rewrite Hi in Hi'. injection Hi' as <-.
    apply wlp_bind, wlp_upd_cpu. intros c Hc. apply wlp_upd_exec. simpl.
    rewrite Hin, aget_aset_eq by done. intros i' [= <-].
    eapply wlp_mono; [apply sonly_expand_window; simpl; congruence|].
    intros [] w3 (s & h & k & ->). simpl. rewrite Hself, Hm, Hin, aset_aset_eq. by destruct i as [? [] ? ?].
  - intros [] w3 (H3 & H4 & H5 & H6). eapply wlp_mono; [apply wlp_unlock_local|].
    intros [] w4 H7. by destruct (local_only_facts _ _ H7) as (-> & -> & -> & _ & ->).
Qed.

Lemma wlp_blocked_round i w :
  current_cpu w = cpu -> aget (infos w) cpu = Some i -> blocked (blocker i) = true ->
  wlp (kvm_cpu_exec_round cpu) (fun r w' => r = inr EXCP_INTERRUPT /\ current_cpu w' = cpu /\
    mem w' = mem w /\ (waking_up (blocker i) = false -> sched w' = sched w) /\
    infos w' = aset (infos w) cpu (after_round i)) w.
Proof.
  intros Hs Hi Hb. pose proof (aget_Some_range _ _ _ Hi) as Hr.
  apply wlp_bind, wlp_get_cpu. intros c Hc. apply wlp_bind.
  apply (wlp_mono _ (fun _ w' => local_only w w')).
  { destruct (exit_request c); [|apply wlp_ret, local_only_refl].
    eapply wlp_mono; [by apply wlp_kick_self|]. by intros [] w1 [H1 _]. }
  intros [] w1 H1. destruct (local_only_facts _ _ H1) as (_ & Hi1 & _ & _ & _).
  apply wlp_bind. eapply wlp_mono; [apply (wlp_pre_run_blocked i); by rewrite ?Hi1|].
  intros go w2 [-> H2]. pose proof (local_only_trans _ _ _ H1 H2) as H12.
  apply wlp_bind. eapply wlp_mono.
  { apply wlp_kick_self. by rewrite (proj2 (proj2 (proj2 (proj2 (local_only_facts _ _ H12))))). }
  intros [] w3 [H3 (c3 & Hc3 & Hie)]. pose proof (local_only_trans _ _ _ H12 H3) as H13.
  apply wlp_bind. eapply wlp_mono; [by eapply wlp_kvm_run_immediate|].
  intros rr w4 (-> & H4 & _). pose proof (local_only_trans _ _ _ H13 H4) as H14.
  destruct (local_only_facts _ _ H14) as (Hsc & Hin & Hm & _ & Hself).
  apply wlp_bind. eapply wlp_mono; [apply (wlp_post_run_blocked i); congruence|].
  intros [] w5 (Hs5 & Hm5 & Hsc5 & Hin5). simpl. apply wlp_bind.
  eapply wlp_mono; [apply wlp_upd_cpu_local|]. intros [] w6 H6.
  destruct (local_only_facts _ _ H6) as (Hsc6 & Hin6 & Hm6 & _ & Hs6).
  rewrite Hin in Hin5. apply wlp_bind.
  set (i5 := if waking_up (blocker i)
             then i <| blocker := mk_blocker false false |> <| kicked := false |> else i).
  assert (Hi5 : infos w6 = aset (infos w) cpu i5).
  { rewrite Hin6, Hin5. unfold i5. destruct (waking_up _); [done|]. by rewrite aset_id. }
  eapply wlp_mono; [apply (wlp_handle_kick i5); [congruence|by rewrite Hi5; apply aget_aset_eq]|].
  intros [] w7 (Hs7 & Hsc7 & Hm7 & Hin7). apply wlp_ret. split; [done|]. split; [done|].
  split; [congruence|]. split; [intros Hw; rewrite Hsc7, Hsc6, Hsc5 by done; congruence|].
  rewrite Hin7, Hi5, aset_aset_eq. f_equal. unfold i5, after_kick, after_round.
  destruct (waking_up (blocker i)); [done|]. rewrite Hb. by destruct (kicked i).
Qed.
End Blocked.

(** The vCPU's timer fires and its thread goes through two more rounds. *)
Definition timer_and_two_rounds `{P : Platform} {I : Interference} (cpu : Z) :
    M ((unit + Z) * (unit + Z)) :=
  timer_expires cpu ;;
  r1 ← kvm_cpu_exec_round cpu;
  r2 ← kvm_cpu_exec_round cpu;
  mret (r1, r2).

Section Release.
Context {P : Platform} {I : Interference} (cpu : Z).
Context (Hblk : config_trampoline = false) `{!ImmediateExit}.

Lemma wlp_timer_expires i t w :
  aget (infos w) cpu = Some i -> timerid i = timer_armed t ->
  wlp (timer_expires cpu) (fun _ w' => current_cpu w' = current_cpu w /\ mem w' = mem w /\
    infos w' = aset (infos w) cpu (i <| timerid := timer_disarmed |> <| kicked := true |>)) w.
Proof.
  intros Hi Ht. pose proof (aget_Some_range _ _ _ Hi) as Hr.
  apply wlp_bind, wlp_get_exec. intros i' Hi'. rewrite Hi in Hi'. injection Hi' as <-. rewrite Ht.
  apply wlp_bind, wlp_upd_exec. rewrite Hi. intros i' [= <-].
  apply wlp_bind, wlp_upd_exec. simpl. rewrite aget_aset_eq by done. intros i' [= <-].
  apply wlp_upd_cpu. intros c Hc. simpl. by rewrite aset_aset_eq.
Qed.

Lemma wlp_timer_and_two_rounds i t w :
  current_cpu w = cpu -> aget (infos w) cpu = Some i -> timerid i = timer_armed t ->
  blocked (blocker i) = true -> waking_up (blocker i) = false ->
  wlp (timer_and_two_rounds cpu) (fun r w' => r = (inr EXCP_INTERRUPT, inr EXCP_INTERRUPT) /\
    mem w' = mem w /\
    infos w' = aset (infos w) cpu (i <| timerid := timer_disarmed |>
      <| blocker := mk_blocker false false |> <| kicked := false |>)) w.
Proof.
  intros Hs Hi Ht Hb Hwk. pose proof (aget_Some_range _ _ _ Hi) as Hr.
  apply wlp_bind. eapply wlp_mono; [by eapply wlp_timer_expires|]. intros [] w1 (Hs1 & Hm1 & Hi1).
  apply wlp_bind. eapply wlp_mono.
  { eapply wlp_blocked_round; [done|done|congruence|by rewrite Hi1, aget_aset_eq|done]. }
  intros r1 w2 (-> & Hs2 & Hm2 & _ & Hi2).
  unfold after_round in Hi2. simpl in Hi2. rewrite Hwk, Hi1, aset_aset_eq in Hi2.
  apply wlp_bind. eapply wlp_mono.
  { eapply wlp_blocked_round; [done|done|congruence|by rewrite Hi2, aget_aset_eq|done]. }
  intros r2 w3 (-> & Hs3 & Hm3 & _ & Hi3). apply wlp_ret. split; [done|]. split; [congruence|].
  rewrite Hi3, Hi2, aset_aset_eq. done.
Qed.
End Release.

(** C5.  A vCPU whose task is kidnapped does not run its guest: a round of its
    loop ends with EXCP_INTERRUPT, and guest memory and the other vCPUs'
    execution information are as before.  Unless it has been told to wake up,
    the schedule is as before too and the vCPU is still blocked; the only thing
    the round may record is that a pending kick wants it woken up.  If it has
    been told to, the round unblocks it; its guest runs in the next round at
    the earliest. *)
Theorem kidnapped_vcpu_stays_out `{P : Platform} {I : Interference} L cpu w i :
  config_trampoline = false -> ImmediateExit ->
  Small L -> StableInterference L -> MemLaws -> GuestLaws -> cpu ∈ L -> outside L cpu w ->
  aget (infos w) cpu = Some i -> blocked (blocker i) = true ->
  match kvm_cpu_exec_round cpu w with
  | Ret r w' =>
      r = inr EXCP_INTERRUPT /\ mem w' = mem w /\ (waking_up (blocker i) = false -> sched w' = sched w) /\
      (forall k, k <> cpu -> aget (infos w') k = aget (infos w) k) /\
      exists i', aget (infos w') cpu = Some i' /\ kicked i' = false /\ timerid i' = timerid i /\
        blocker i' = if waking_up (blocker i) then mk_blocker false false else mk_blocker true (kicked i)
  | Exit msg => disciplined msg
  | UB _ | OutOfFuel => False
  end.
Proof.
  intros Hblk Hie HS HI HM HG Hc Hw Hi Hb.
  pose proof (osafe_round L cpu Hc w Hw) as Hsafe.
  pose proof (wlp_blocked_round cpu Hblk i w (out_self _ _ _ Hw) Hi Hb) as Hspec.
  unfold wp in Hsafe. unfold wlp in Hspec.
  destruct (kvm_cpu_exec_round cpu w) as [r w'| | |]; try done.
  destruct Hspec as (-> & _ & Hm & Hsc & Hin). split; [done|]. split; [done|].
  split; [done|]. rewrite Hin. split; [intros k Hk; by apply aget_aset_ne|].
  exists (after_round i). split; [apply aget_aset_eq; by eapply aget_Some_range|].
  unfold after_round. destruct i as [? [bl [|]] [|] ?]; simpl in *; by subst.
Qed.

(** A VM whose vCPU 1 is blocked with its timer armed. *)
Definition flat_blocked_info : qcsched_exec_info :=
  mk_exec_info zero_trampoline (mk_blocker true false) false (timer_armed 3).

Definition flat_blocked_machine : machine :=
  flat_machine 2 [] <| current_cpu := 1 |> <| infos ::= fun l => aset l 1 flat_blocked_info |>.

#[export] Instance flat_immediate_exit : @ImmediateExit flat_platform.
Proof. done. Qed.

Lemma flat_blocked_outside : outside [0; 1] 1 flat_blocked_machine.
Proof.
  destruct (init_wf (P := flat_platform) 2 ∅ (mk_flat_kvm [] ∅ ∅)) as [].
  split; [split|..]; done.
Qed.

Lemma kidnapped_vcpu_stays_out_witness :
  match kvm_cpu_exec_round 1 flat_blocked_machine with
  | Ret r w' => r = inr EXCP_INTERRUPT /\ exists i', aget (infos w') 1 = Some i' /\
      blocker i' = mk_blocker true false
  | Exit msg => disciplined msg
  | UB _ | OutOfFuel => False
  end.
Proof.
  pose proof (@kidnapped_vcpu_stays_out flat_platform flat_interference [0; 1] 1
    flat_blocked_machine flat_blocked_info eq_refl _ (vcpus_small 2 ltac:(lia)) (flat_stable _) _ _
    ltac:(set_solver) flat_blocked_outside eq_refl eq_refl) as H.
  destruct (kvm_cpu_exec_round _ _); [|exact H|exact H|exact H].
  destruct H as (-> & _ & _ & _ & i' & Hi & _ & _ & Hb). split; [done|]. by exists i'.
Defined.

(** C6.  A kidnapped vCPU frees itself: once its timer fires, two rounds of its
    loop unblock it, without running the guest in between; so no vCPU is
    blocked for longer than its timer, whatever the others do. *)
Theorem timer_frees_vcpu `{P : Platform} {I : Interference} L cpu w i t :
  config_trampoline = false -> ImmediateExit ->
  Small L -> StableInterference L -> MemLaws -> GuestLaws -> cpu ∈ L -> outside L cpu w ->
  aget (infos w) cpu = Some i -> timerid i = timer_armed t ->
  blocked (blocker i) = true -> waking_up (blocker i) = false ->
  match timer_and_two_rounds cpu w with
  | Ret (r1, r2) w' =>
      r1 = inr EXCP_INTERRUPT /\ r2 = inr EXCP_INTERRUPT /\ mem w' = mem w /\
      (forall k, k <> cpu -> aget (infos w') k = aget (infos w) k) /\
      exists i', aget (infos w') cpu = Some i' /\ blocker i' = mk_blocker false false /\
        kicked i' = false /\ timerid i' = timer_disarmed
  | Exit msg => disciplined msg
  | UB _ | OutOfFuel => False
  end.
Proof.
  intros Hblk Hie HS HI HM HG Hc Hw Hi Ht Hb Hwk.
  assert (Hsafe : osafe L cpu (timer_and_two_rounds cpu) (fun _ => True)).
  { eapply osafe_bind; [by apply osafe_timer_expires|]. intros _ _.
    eapply osafe_bind; [by apply osafe_round|]. intros r1 _.
    eapply osafe_bind; [by apply osafe_round|]. intros r2 _. by apply osafe_ret. }
  specialize (Hsafe w Hw).
  pose proof (wlp_timer_and_two_rounds cpu Hblk i t w (out_self _ _ _ Hw) Hi Ht Hb Hwk) as Hspec.
  unfold wp in Hsafe. unfold wlp in Hspec.
  destruct (timer_and_two_rounds cpu w) as [[r1 r2] w'| | |]; try done.
  destruct Hspec as ([= -> ->] & Hm & ->). split; [done|]. split; [done|]. split; [done|].
  split; [intros k Hk; by apply aget_aset_ne|].
  eexists. split; [apply aget_aset_eq; by eapply aget_Some_range|done].
Qed.

Lemma timer_frees_vcpu_witness :
  match timer_and_two_rounds 1 flat_blocked_machine with
  | Ret _ w' => exists i', aget (infos w') 1 = Some i' /\ blocker i' = mk_blocker false false
  | Exit msg => disciplined msg
  | UB _ | OutOfFuel => False
  end.
Proof.
  pose proof (@timer_frees_vcpu flat_platform flat_interference [0; 1] 1
    flat_blocked_machine flat_blocked_info 3 eq_refl _ (vcpus_small 2 ltac:(lia)) (flat_stable _) _ _
    ltac:(set_solver) flat_blocked_outside eq_refl eq_refl eq_refl eq_refl) as H.
  destruct (timer_and_two_rounds _ _) as [[r1 r2] w'| | |]; [|exact H|exact H|exact H].
  destruct H as (_ & _ & _ & _ & i' & Hi & Hb & _). by exists i'.
Defined.
