(* ===== verification/HcallSpec.v ===== *)
(** * What the hypercalls promise

    Return codes and effects of the commands that build, activate and collect
    a schedule, stated on the scheduler's state by executable functions. *)

From stdpp Require Import base list gmap strings.
From Stdlib Require Import ZArith Lia.
From S2P Require Import Prelude Machine Invariant Flat KvmDebug CpuState GuestMem Vmi Window ExecControl Breakpoint RunState VmiHint Kssb Hcall VcpuLoop System HwTable Reads Frames Accounting.

Local Open Scope Z_scope.
Local Open Scope record_scope.

(** CPU [c] has reached the state [st]: states are ordered
    idle < ready < activated < deactivated. *)
Definition at_least (s : qcsched) (st : qcsched_cpu_state) (c : Z) : bool :=
  match aget (cpu_state s) c with
  | Some x => cpu_state_code st <=? cpu_state_code x
  | None => false
  end.

(** The CPUs that take part: 1, ..., [nr_cpus]. *)
Definition participant (s : qcsched) (c : Z) : bool := (1 <=? c) && (c <? 1 + nr_cpus s).

Definition all_at_least (L : list Z) (s : qcsched) (st : qcsched_cpu_state) : bool :=
  forallb (fun c => negb (participant s c) || at_least s st c) L.

(** Every order below [total] has its entry. *)
Definition filled (s : qcsched) : bool :=
  negb (total s =? 0) && forallb qcsched_entry_used (take (Z.to_nat (total s)) (entries s)).

Definition with_state (cpu : Z) (st : qcsched_cpu_state) (s : qcsched) : qcsched :=
  s <| cpu_state ::= fun l => aset l cpu st |>.

Lemma neg_errno_nonzero e : 0 < e < 2 ^ 64 -> (neg_errno e =? 0) = false.
Proof.
  intros He. apply Z.eqb_neq. unfold neg_errno, u64, wrapu.
  rewrite Z.mod_opp_l_nz; rewrite ?Z.mod_small; lia.
Qed.

(** ** Searches and state checks *)
Section Checks.
Context {P : Platform}.

Lemma wlp_find_entry_first start found (Q : option Z -> machine -> Prop) w :
  (forall r, first_from (sched w) start found r -> Q r w) -> wlp (find_entry start found) Q w.
Proof.
  intros H. apply (wlp_loop (fun i w' => w' = w /\ start <= i /\
    forall j e, start <= j < i -> aget (entries (sched w)) j = Some e -> found j e = false)).
  { split; [done|]. split; [lia|]. intros; lia. }
  intros i w' (-> & Hi & Hnot). apply wlp_bind, wlp_sched_.
  destruct (Z.ltb_spec i (total (sched w))); cycle 1.
  { apply wlp_ret, H. split; [|done]. intros j e Hj. apply Hnot. simpl in Hj. lia. }
  apply wlp_bind, wlp_get_entry. intros e He. destruct (found i e) eqn:Hf; apply wlp_ret.
  - apply H. split; [done|]. split; [lia|]. eauto.
  - split; [done|]. split; [lia|]. intros j e' Hj Hje.
    destruct (decide (j = i)) as [->|]; [congruence|]. apply (Hnot j); [lia|done].
Qed.

Lemma wlp_check_cpu_state c st (Q : bool -> machine -> Prop) w :
  Q (at_least (sched w) st c) w -> wlp (qcsched_check_cpu_state c st) Q w.
Proof.
  intros HQ. apply wlp_bind, wlp_get_cpu_state. intros x Hx. apply wlp_ret.
  unfold at_least in HQ. by rewrite Hx in HQ.
Qed.

Lemma wlp_check_cpus l st (Q : bool -> machine -> Prop) w :
  Q (all_at_least l (sched w) st) w -> wlp (check_cpus l st) Q w.
Proof.
  induction l as [|c l IH]; intros HQ; [by apply wlp_ret|]. cbn [check_cpus].
  apply wlp_bind, wlp_bind, wlp_sched_, wlp_ret. fold (participant (sched w) c).
  unfold all_at_least in *. cbn [forallb] in HQ. destruct (participant (sched w) c); [|by apply IH].
  apply wlp_bind, wlp_check_cpu_state. simpl in HQ.
  destruct (at_least (sched w) st c); [by apply IH|by apply wlp_ret].
Qed.

Lemma wlp_check_all st (Q : bool -> machine -> Prop) w :
  Q (all_at_least (cpu_list w) (sched w) st) w -> wlp (qcsched_check_all_cpu_state st) Q w.
Proof.
  intros HQ. apply wlp_bind, wlp_gets, wlp_bind, wlp_ASSERT. intros _.
  apply wlp_bind, wlp_gets. by apply wlp_check_cpus.
Qed.

Lemma forallb_take_get {A} (f : A -> bool) n l :
  forallb f (take (Z.to_nat n) l) = true <->
  (forall i x, 0 <= i < n -> aget l i = Some x -> f x = true).
Proof.
  rewrite forallb_forall. split.
  - intros H i x Hi Hx. apply H, list_elem_of_In, list_elem_of_lookup. exists (Z.to_nat i).
    unfold aget in Hx. destruct (Z.ltb_spec i 0); [done|]. rewrite lookup_take_lt by lia. done.
  - intros H x (i & Hi)%list_elem_of_In%list_elem_of_lookup.
    apply lookup_take_Some in Hi as [Hi Hlt]. apply (H (Z.of_nat i)); [lia|].
    unfold aget. destruct (Z.ltb_spec (Z.of_nat i) 0); [lia|]. by rewrite Nat2Z.id.
Qed.

Lemma wlp_sanitize (Q : bool -> machine -> Prop) w :
  alen (entries (sched w)) = MAX_SCHEDPOINTS -> 0 <= total (sched w) <= MAX_SCHEDPOINTS ->
  Q (filled (sched w)) w -> wlp sanitize_breakpoint Q w.
Proof.
  intros Hlen Htot HQ. apply wlp_bind, wlp_sched_. unfold filled in HQ.
  destruct (total (sched w) =? 0); [by apply wlp_ret|]. simpl in HQ.
  apply wlp_bind, wlp_find_entry_first. intros r [Hno Hr]. apply wlp_ret.
  destruct r as [i|]; simpl in *.
  - destruct Hr as (Hi & e & He & Hu). apply negb_true_iff in Hu.
    destruct (forallb _ _) eqn:Hall; [|done].
    rewrite (proj1 (forallb_take_get _ _ _) Hall i e) in Hu; done.
  - rewrite (proj2 (forallb_take_get _ _ _)) in HQ; [done|].
    intros i x Hi Hx. specialize (Hno i x Hi Hx). by apply negb_false_iff in Hno.
Qed.
End Checks.

(** ** Activation *)

Definition first_preserved (s : qcsched) : Z :=
  match list_find (fun e => footprint (schedpoint e) = footprint_preserved)
          (take (Z.to_nat (total s)) (entries s)) with
  | Some (i, _) => Z.of_nat i
  | None => total s
  end.

(** The number of scheduling points on [cpu] among the first [n]. *)
Definition points_on (cpu n : Z) (s : qcsched) : Z :=
  alen (filter (fun e => e_cpu e = cpu) (take (Z.to_nat n) (entries s))).

(** The schedule starts at its first entry that is to be hit. *)
Definition started (s : qcsched) : qcsched :=
  if activated s then s else s <| activated := true |> <| current := first_preserved s |>.

Definition activated_sched (cpu : Z) (s : qcsched) : qcsched :=
  let s := with_state cpu qcsched_cpu_activated s in
  if cpu =? 0 then s else
  (started s) <| schedpoint_window ::= fun l =>
    match aget l cpu with
    | Some x => aset l cpu (x <| w_total ::= fun n => n + points_on cpu (total s) s |>)
    | None => l
    end |>.

Definition activate_code (L : list Z) (cpu : Z) (s : qcsched) : Z :=
  if used s || at_least s qcsched_cpu_activated cpu then neg_errno EINVAL
  else if negb (all_at_least L (with_state cpu qcsched_cpu_ready s) qcsched_cpu_ready)
  then neg_errno EAGAIN
  else if negb (filled s) then neg_errno EINVAL
  else 0.

Definition armed `{P : Platform} (cpu a : Z) (w : machine) : Prop :=
  exists h, aget (hw_breakpoint w) cpu = Some h /\ a ∈ hw_addrs h.

Section Activate.
Context {P : Platform} {I : Interference} (L : list Z) (cpu : Z).

Lemma points_on_succ n s e :
  0 <= n -> aget (entries s) n = Some e ->
  points_on cpu (n + 1) s = points_on cpu n s + (if e_cpu e =? cpu then 1 else 0).
Proof.
  intros Hn He. unfold points_on, aget in *. destruct (Z.ltb_spec n 0); [lia|].
  rewrite Z2Nat.inj_add, Nat.add_1_r by lia. rewrite (take_S_r _ _ _ He), filter_app.
  unfold alen. rewrite length_app, filter_cons, filter_nil.
  destruct (Z.eqb_spec (e_cpu e) cpu); [rewrite decide_True by done|rewrite decide_False by done];
    simpl; lia.
Qed.

Lemma first_from_preserved s r :
  first_from s 0 (fun _ e => bool_decide (footprint (schedpoint e) = footprint_preserved)) r ->
  from_option id (total s) r = first_preserved s.
Proof.
  intros [Hno Hr]. unfold first_preserved. set (l := take (Z.to_nat (total s)) (entries s)).
  assert (Hl : forall i e, l !! i = Some e -> aget (entries s) (Z.of_nat i) = Some e /\
    Z.of_nat i < total s).
  { intros i e [Hi Hlt]%lookup_take_Some. unfold aget. destruct (Z.ltb_spec (Z.of_nat i) 0); [lia|].
    rewrite Nat2Z.id. split; [done|lia]. }
  destruct (list_find _ l) as [[i e]|] eqn:Hf.
  - apply list_find_Some in Hf as (Hi & Hp & Hbefore). destruct (Hl _ _ Hi) as [He Hlt].
    destruct r as [j|]; simpl in *.
    + destruct Hr as (Hj & e' & He' & Hp'). apply bool_decide_eq_true in Hp'.
      destruct (Z.lt_trichotomy j (Z.of_nat i)) as [Hlt'|[->|Hgt]]; [|done|].
      * exfalso. eapply (Hbefore (Z.to_nat j) e'); [|lia|done].
        unfold aget in He'. destruct (Z.ltb_spec j 0); [done|]. unfold l.
        by rewrite lookup_take_lt by lia.
      * specialize (Hno (Z.of_nat i) e ltac:(lia) He). by rewrite bool_decide_eq_false in Hno.
    + specialize (Hno (Z.of_nat i) e ltac:(lia) He). by rewrite bool_decide_eq_false in Hno.
  - destruct r as [j|]; [|done]. destruct Hr as (Hj & e' & He' & Hp').
    apply bool_decide_eq_true in Hp'. rewrite list_find_None in Hf.
    rewrite Forall_lookup in Hf. exfalso. eapply (Hf (Z.to_nat j) e'); [|done].
    unfold aget in He'. destruct (Z.ltb_spec j 0); [done|]. unfold l. by rewrite lookup_take_lt by lia.
Qed.

Lemma wlp_sched_init_once w :
  wlp (sched_init_once cpu) (fun _ w' => w' = w <| sched ::= started |>) w.
Proof.
  apply wlp_bind, wlp_sched_. unfold started. destruct (activated (sched w)) eqn:Ha.
  { apply wlp_ret. destruct w. simpl in *. unfold set. simpl. by rewrite Ha. }
  apply wlp_bind, wlp_upd_sched, wlp_bind, wlp_find_entry_first. intros r Hr.
  apply first_from_preserved in Hr.
  destruct r as [i|]; apply wlp_upd_sched; destruct w as [? [] ? ?]; unfold set in *; simpl in *;
    unfold first_preserved in *; simpl in *; by rewrite Ha, <- Hr.
Qed.

Lemma wlp_insert_armed a w :
  current_cpu w = cpu -> aforall (fun _ => hw_ok) (hw_breakpoint w) ->
  wlp (kvm_insert_breakpoint_cpu cpu a 1 GDB_BREAKPOINT_HW)
    (fun err w' => sched w' = sched w /\ vmi_info w' = vmi_info w /\ (err = 0 -> armed cpu a w')) w.
Proof.
  intros Hs Hok. apply wlp_bind. unfold wlp at 1. simpl.
  destruct (aget (hw_breakpoint w) cpu) as [h|] eqn:Hh; cycle 1.
  { unfold kvm_arch_insert_hw_breakpoint_cpu, find_hw_breakpoint_cpu, get_hw, mbind,
      prog_bind, gets, deref, id. simpl. by rewrite Hh. }
  rewrite (insert_hw_spec cpu a 1 h) by (done || by eapply Hok). repeat case_decide; simpl.
  - by apply wlp_ret.
  - by apply wlp_ret.
  - eapply wlp_mono; [by apply wlp_update_guest_debug_self|].
    intros err w' [k ->]. split; [done|]. split; [done|]. intros _.
    exists (hw_push h a). split; [apply aget_aset_eq; by eapply aget_Some_range|].
    rewrite hw_addrs_push by (done || by eapply Hok). set_solver.
Qed.

(** The window of [cpu] counts [n] more scheduling points. *)
Definition counted (n : Z) (s : qcsched) : qcsched :=
  s <| schedpoint_window ::= fun l =>
    match aget l cpu with
    | Some x => aset l cpu (x <| w_total ::= fun m => m + n |>)
    | None => l
    end |>.

Lemma wlp_count_points w :
  wlp (for_loop 0 (fun i => n ← sched_ total; mret (i <? n))
    (fun i => e ← get_entry i;
       if negb (e_cpu e =? cpu) then mret tt
       else upd_window cpu (fun x => x <| w_total ::= Z.succ |>)))
    (fun _ w' => w' = w <| sched ::= counted (points_on cpu (total (sched w)) (sched w)) |>) w.
Proof.
  apply (wlp_for_loop (fun i w' => 0 <= i /\ (i <= total (sched w) \/ i = 0) /\
    w' = w <| sched ::= counted (points_on cpu i (sched w)) |>)).
  { split; [lia|]. split; [by right|]. unfold counted. destruct w as [[] ]; unfold set; simpl.
    f_equal. f_equal. destruct (aget _ cpu) as [x|] eqn:Hx; [|done].
    rewrite Z.add_0_r. symmetry. apply aset_id. rewrite Hx. by destruct x. }
  intros i w' (Hi & Hle & ->). apply wlp_bind, wlp_sched_, wlp_ret. simpl.
  destruct (Z.ltb_spec i (total (sched w))) as [Hlt|Hge].
  - apply wlp_bind, wlp_get_entry. simpl. intros e He.
    pose proof (points_on_succ i (sched w) e Hi He) as Hsucc.
    destruct (e_cpu e =? cpu); simpl.
    + apply wlp_upd_window. simpl. intros x Hx. split; [lia|]. split; [lia|].
      unfold counted in *. rewrite Hsucc.
      destruct (aget (schedpoint_window (sched w)) cpu) as [y|] eqn:Hy; [|congruence].
      rewrite aget_aset_eq in Hx by by eapply aget_Some_range. injection Hx as <-.
      destruct w as [[] ]; unfold set in *; simpl in *. rewrite Hy, aset_aset_eq.
      do 4 f_equal. lia.
    + apply wlp_ret. split; [lia|]. split; [lia|]. by rewrite Hsucc, Z.add_0_r.
  - destruct Hle as [Hle| ->]; [by replace i with (total (sched w)) by lia|].
    unfold points_on. by replace (Z.to_nat (total (sched w))) with (Z.to_nat 0) by lia.
Qed.

Lemma no_points_on s :
  first_from s 0 (fun _ e => e_cpu e =? cpu) None -> points_on cpu (total s) s <= 0.
Proof.
  intros [Hno _]. unfold points_on, alen.
  destruct (filter _ _) as [|e l] eqn:Hf; [simpl; lia|]. exfalso.
  assert (e ∈ filter (fun e => e_cpu e = cpu) (take (Z.to_nat (total s)) (entries s))) as He
    by (rewrite Hf; set_solver).
  apply list_elem_of_filter in He as [Hc (i & Hi)%list_elem_of_lookup].
  apply lookup_take_Some in Hi as [Hi Hlt]. simpl in Hno.
  enough ((e_cpu e =? cpu) = false) by lia. apply (Hno (Z.of_nat i)); [lia|].
  unfold aget. destruct (Z.ltb_spec (Z.of_nat i) 0); [lia|]. by rewrite Nat2Z.id.
Qed.

Lemma wlp_do_activate w :
  current_cpu w = cpu -> aforall (fun _ => hw_ok) (hw_breakpoint w) ->
  wlp (do_activate_breakpoint cpu) (fun _ w' =>
    sched w' = (if cpu =? 0 then sched w
                else counted (points_on cpu (total (sched w)) (sched w)) (started (sched w))) /\
    (cpu <> 0 -> 0 < points_on cpu (total (sched w)) (sched w) ->
       armed cpu (hook_addr (vmi_info w)) w')) w.
Proof.
  intros Hs Hok. unfold do_activate_breakpoint. destruct (Z.eqb_spec cpu 0); [by apply wlp_ret|].
  apply wlp_bind. eapply wlp_mono; [apply wlp_sched_init_once|]. intros [] w1 ->.
  apply wlp_bind. eapply wlp_mono; [apply wlp_count_points|]. intros [] w2 ->. simpl.
  assert (Hp : forall m, points_on cpu m (started (sched w)) = points_on cpu m (sched w)).
  { intros m. unfold points_on, started. by destruct (activated (sched w)). }
  assert (Ht : total (started (sched w)) = total (sched w)).
  { unfold started. by destruct (activated (sched w)). }
  rewrite Ht, Hp. apply wlp_bind, wlp_find_entry_first. intros r Hr. destruct r as [i|].
  - apply wlp_bind, wlp_vmi_, wlp_bind. eapply wlp_mono; [by apply wlp_insert_armed|].
    intros err w3 (Hs3 & _ & Ha). apply wlp_ASSERT. intros He%Z.eqb_eq. rewrite Hs3. auto.
  - apply wlp_ret. split; [done|]. intros _ Hpos. apply no_points_on in Hr. simpl in Hr.
    rewrite Ht in Hr. unfold points_on in Hr, Hpos. simpl in Hr.
    assert (entries (started (sched w)) = entries (sched w)) as He
      by (unfold started; by destruct (activated (sched w))).
    rewrite He in Hr. lia.
Qed.

Lemma wlp_activate w :
  inside L cpu w ->
  wlp (qcsched_activate_breakpoint cpu) (fun r w' =>
    r = activate_code L cpu (sched w) /\
    sched w' = (if used (sched w) || at_least (sched w) qcsched_cpu_activated cpu then sched w
                else if r =? 0 then activated_sched cpu (sched w)
                else with_state cpu qcsched_cpu_ready (sched w)) /\
    (r = 0 -> cpu <> 0 -> 0 < points_on cpu (total (sched w)) (sched w) ->
       armed cpu (hook_addr (vmi_info w)) w')) w.
Proof.
  intros Hw. destruct (wf_sched _ _ Hw). unfold activate_code.
  apply wlp_bind, wlp_sched_. destruct (used (sched w)); [by apply wlp_ret|]. simpl.
  apply wlp_bind, wlp_check_cpu_state.
  destruct (at_least (sched w) _ cpu) eqn:Hact; [by apply wlp_ret|].
  apply wlp_bind, wlp_set_cpu_state. intros x0 Hx0. apply wlp_bind, wlp_check_all. simpl.
  rewrite (wf_cpu_list _ _ Hw). fold (with_state cpu qcsched_cpu_ready (sched w)).
  destruct (all_at_least L _ _); [|apply wlp_ret; by rewrite neg_errno_nonzero by done]. simpl.
  apply wlp_bind, wlp_sanitize; [done|simpl; lia|]. simpl.
  change (filled (set cpu_state (fun l => aset l cpu qcsched_cpu_ready) (sched w)))
    with (filled (sched w)).
  destruct (filled (sched w)); [|apply wlp_ret; by rewrite neg_errno_nonzero by done]. simpl.
  apply wlp_bind, wlp_bind, wlp_gets, wlp_bind, wlp_ASSERT. intros _.
  apply wlp_bind, wlp_get_cpu_state. simpl. intros x Hx.
  rewrite aget_aset_eq in Hx by (by eapply aget_Some_range). injection Hx as <-. simpl.
  apply wlp_bind, wlp_set_cpu_state. simpl. intros x1 _. apply wlp_ret, wlp_bind.
  eapply wlp_mono; [apply wlp_do_activate; [apply (in_self _ _ _ Hw)|apply (wf_hw _ _ Hw)]|].
  intros [] w' [Hs Ha]. apply wlp_ret. simpl in Hs, Ha.
  assert (Heq : forall s, set cpu_state (fun l => aset l cpu qcsched_cpu_activated)
    (set cpu_state (fun l => aset l cpu qcsched_cpu_ready) s) = with_state cpu qcsched_cpu_activated s).
  { intros []. unfold with_state, set. simpl. by rewrite aset_aset_eq. }
  rewrite !Heq in Hs. rewrite Heq in Ha. split; [done|]. split; [|done].
  rewrite Hs. unfold activated_sched. by destruct (cpu =? 0).
Qed.
End Activate.

(** C10.  HCALL_ACTIVATE_BP is a barrier: it answers 0 only when the schedule is
    fresh, the caller has not activated it yet, every participating CPU has
    called it, and every order has its entry; while another CPU is missing it
    answers -EAGAIN and records only that the caller is ready.  When it
    answers 0 the caller is activated, the schedule has started at its first
    entry to be hit, the caller's scheduling points are counted, and if it has
    any its hook breakpoint is armed. *)
Theorem activate_is_a_barrier `{P : Platform} {I : Interference} L cpu w :
  Small L -> StableInterference L -> cpu ∈ L -> inside L cpu w ->
  match qcsched_activate_breakpoint cpu w with
  | Ret r w' =>
      r = activate_code L cpu (sched w) /\
      sched w' = (if used (sched w) || at_least (sched w) qcsched_cpu_activated cpu then sched w
                  else if r =? 0 then activated_sched cpu (sched w)
                  else with_state cpu qcsched_cpu_ready (sched w)) /\
      (r = 0 -> cpu <> 0 -> 0 < points_on cpu (total (sched w)) (sched w) ->
         armed cpu (hook_addr (vmi_info w)) w')
  | Exit msg => disciplined msg
  | UB _ | OutOfFuel => False
  end.
Proof.
  intros HS HI Hc Hw. pose proof (safe_activate_breakpoint L cpu Hc w Hw) as Hsafe.
  pose proof (wlp_activate L cpu w Hw) as Hspec. unfold wp in Hsafe. unfold wlp in Hspec.
  by destruct (qcsched_activate_breakpoint cpu w).
Qed.

(** Two scheduling points, on CPUs 1 and 2; CPU 2 is already waiting. *)
Definition flat_ready_machine : machine (P := flat_platform) :=
  flat_machine 3 [] <| current_cpu := 1 |> <| iothread_locked := true |>
    <| vmi_info ::= set hook_addr (fun _ => 64) |>
    <| sched ::= fun s => s <| total := 2 |> <| orig_nr_bps := 2 |> <| nr_cpus := 2 |>
         <| used := false |>
         <| entries ::= fun l => aset (aset l 0 (flat_point 4096 0 1 false)) 1 (flat_point 8192 1 2 false) |>
         <| cpu_state ::= fun l => aset l 2 qcsched_cpu_ready |> |>.

Lemma flat_ready_inside : inside [0; 1; 2] 1 flat_ready_machine.
Proof.
  destruct (init_wf (P := flat_platform) 3 ∅ (mk_flat_kvm [] ∅ ∅)) as [Hs Hv ? ? ? ? ?].
  split; [split|..]; try done; [|by destruct Hv; split].
  destruct Hs as [Hle ? ? ? ? ? Hes ?]; split; try done.
  apply aforall_aset; [apply aforall_aset; [done|]|]; intros _; repeat split; simpl; clia.
Qed.

Lemma activate_is_a_barrier_witness :
  activate_code [0; 1; 2] 1 (sched flat_ready_machine) = 0 /\
  match qcsched_activate_breakpoint 1 flat_ready_machine with
  | Ret r w' => r = 0 /\ armed 1 64 w'
  | Exit msg => disciplined msg
  | UB _ | OutOfFuel => False
  end.
Proof.
  split; [reflexivity|].
  pose proof (activate_is_a_barrier [0; 1; 2] 1 flat_ready_machine (vcpus_small 3 ltac:(lia))
    (flat_stable _) ltac:(set_solver) flat_ready_inside) as H.
  destruct (qcsched_activate_breakpoint _ _); [|exact H|exact H|exact H].
  destruct H as (-> & _ & Ha). split; [reflexivity|]. apply Ha; done.
Defined.
