(* ===== verification/KssbSpec.v ===== *)
(** * Switching the store-buffer emulation on and off

    [qcsched/kssb.c] writes one byte of the guest, and around the write asks
    QEMU to stop and restart the VM.  On a vCPU thread the stop is only a
    request, which the restart withdraws. *)

From stdpp Require Import base list gmap strings.
From Stdlib Require Import ZArith Lia.
From S2P Require Import Prelude Machine Invariant Flat KvmDebug CpuState GuestMem Vmi Window ExecControl Breakpoint RunState VmiHint Kssb Hcall VcpuLoop System HwTable Reads Frames Accounting WindowSpec HcallSpec.

Local Open Scope Z_scope.
Local Open Scope record_scope.

(** Every vCPU is idle or done. *)
Definition quiescent (L : list Z) (s : qcsched) : bool :=
  forallb (fun c => negb (at_least s qcsched_cpu_ready c) || at_least s qcsched_cpu_deactivated c) L.

(** The registers and the cookies of a vCPU are as they were. *)
Definition same_core (x x' : CPUState) : Prop :=
  regs x' = regs x /\ hcall_cookie x' = hcall_cookie x /\
  breakpoint_cookie x' = breakpoint_cookie x /\ timer_cookie x' = timer_cookie x.

(** [w'] differs from [w] in the run state, in memory and in the stop and kick
    flags of the vCPUs. *)
Definition flags_only `{P : Platform} (w w' : machine) : Prop :=
  (exists cs rs vr m, w' = w <| cpus := cs |> <| current_run_state := rs |>
     <| vmstop_requested := vr |> <| mem := m |>) /\
  (forall c x, cpus w !! c = Some x -> exists x', cpus w' !! c = Some x' /\ same_core x x').

(** No vCPU is stopped or asked to stop. *)
Definition all_running `{P : Platform} (l : list Z) (w : machine) : Prop :=
  forall c, c ∈ l -> exists x, cpus w !! c = Some x /\ stop x = false /\ stopped x = false.

(** The byte [v] is written at guest address [a], seen from [cpu]. *)
Definition byte_written `{P : Platform} (cpu a v : Z) (w w' : machine) : Prop :=
  exists p, phys_page_debug (kvm w) (mem w) cpu (a - Z.land a TARGET_PAGE_OFFSET_MASK) = Some p /\
    as_write (mem w) (u64 (p + Z.land a TARGET_PAGE_OFFSET_MASK)) [v `mod` 256] = Some (mem w').

Section Kssb.
Context {P : Platform} {I : Interference}.

Lemma flags_refl w : flags_only w w.
Proof.
  split; [exists (cpus w), (current_run_state w), (vmstop_requested w), (mem w); by destruct w|].
  intros c x Hx. by exists x.
Qed.

Lemma flags_trans w1 w2 w3 : flags_only w1 w2 -> flags_only w2 w3 -> flags_only w1 w3.
Proof.
  intros [(cs1 & rs1 & vr1 & m1 & ->) H1] [(cs & rs & vr & m & ->) H2].
  split; [by exists cs, rs, vr, m|].
  intros c x (x' & Hx' & Hc)%H1. apply H2 in Hx' as (x2 & Hx2 & Hc'). exists x2.
  split; [done|]. destruct Hc as (? & ? & ? & ?), Hc' as (? & ? & ? & ?). repeat split; congruence.
Qed.

Lemma flags_upd_cpu c x f w :
  cpus w !! c = Some x -> same_core x (f x) ->
  flags_only w (w <| cpus ::= fun m => <[c := f x]> m |>).
Proof.
  intros Hx Hf. split.
  - exists (<[c := f x]> (cpus w)), (current_run_state w), (vmstop_requested w), (mem w). by destruct w.
  - intros c' y Hy. simpl. destruct (decide (c' = c)) as [->|].
    + rewrite lookup_insert_eq. assert (x = y) as <- by congruence. eauto.
    + rewrite lookup_insert_ne by done. by exists y.
Qed.

(** A one-byte write touches one page. *)
Lemma wlp_write_byte cpu a v w :
  wlp (write_guest cpu a 1 v) (fun r w' => flags_only w w' /\
    cpus w' = cpus w /\ current_run_state w' = current_run_state w /\
    vmstop_requested w' = vmstop_requested w /\ (r = 0 -> byte_written cpu a v w w')) w.
Proof.
  apply wlp_bind. pose proof (page_offset_range a) as Ho.
  assert (Hf : forall m, flags_only w (w <| mem := m |>)).
  { intros m. split; [|intros c x Hx; by exists x].
    exists (cpus w), (current_run_state w), (vmstop_requested w), m. by destruct w. }
  unfold cpu_memory_rw_debug. cbn [le_bytes length loop].
  apply wlp_bind. simpl. apply wlp_bind. unfold rw_chunk. apply wlp_bind, wlp_gets. cbv zeta.
  rewrite page_remainder. change (alen [v `mod` 256]) with 1. unfold id.
  destruct (phys_page_debug (kvm w) _ _ _) as [p|] eqn:Hp; cycle 1.
  { apply wlp_ret, wlp_ret, wlp_ret, wlp_ret. split; [apply flags_refl|done]. }
  set (l := if 1 <? _ then 1 else _).
  assert (l = 1) as -> by (unfold l; destruct (Z.ltb_spec 1
    (TARGET_PAGE_SIZE - Z.land a TARGET_PAGE_OFFSET_MASK)); lia).
  simpl. destruct (as_write _ _ _) as [m|] eqn:Hm; cycle 1.
  { apply wlp_ret, wlp_ret, wlp_ret, wlp_ret. split; [apply flags_refl|done]. }
  apply wlp_bind, wlp_modify, wlp_ret, wlp_ret. cbn [loop]. apply wlp_bind. simpl.
  apply wlp_ret, wlp_ret, wlp_ret. split; [done|]. repeat split; try done. intros _. by exists p.
Qed.

Lemma wlp_rw_ssb cpu v w :
  wlp (qcsched_rw__ssb_do_emulate cpu v) (fun ok w' => flags_only w w' /\
    cpus w' = cpus w /\ current_run_state w' = current_run_state w /\
    vmstop_requested w' = vmstop_requested w /\
    ok = negb (ssb_do_emulate (vmi_info w) =? 0) /\
    (if ok then byte_written cpu (ssb_do_emulate (vmi_info w)) v w w' else w' = w)) w.
Proof.
  apply wlp_bind, wlp_vmi_. destruct (ssb_do_emulate (vmi_info w) =? 0).
  { apply wlp_ret. split; [apply flags_refl|]. done. }
  apply wlp_bind. eapply wlp_mono; [apply wlp_write_byte|]. intros r w1 (H1 & H2 & H3 & H4 & H5).
  apply wlp_bind, wlp_ASSERT. intros Hr%Z.eqb_eq. apply wlp_ret. auto 10.
Qed.

(** On a vCPU thread [vm_stop] changes neither the run state nor any other
    vCPU. *)
Lemma wlp_vm_stop rs w :
  wlp (vm_stop rs) (fun r w' => r = 0 /\ flags_only w w' /\
    current_run_state w' = current_run_state w /\ vmstop_requested w' = rs /\ mem w' = mem w /\
    forall c, c <> current_cpu w -> cpus w' !! c = cpus w !! c) w.
Proof.
  apply wlp_bind, wlp_modify, wlp_bind, wlp_bind, wlp_gets, wlp_bind, wlp_upd_cpu.
  simpl. intros x Hx. apply wlp_upd_cpu. simpl. rewrite lookup_insert_eq. intros y [= <-].
  apply wlp_ret. split; [done|]. repeat split; try done.
  - exists (<[current_cpu w := x <| stop := true |> <| exit_request := true |>]> (cpus w)),
      (current_run_state w), rs, (mem w). destruct w. unfold set. simpl. by rewrite insert_insert_eq.
  - intros c y Hy. simpl. rewrite insert_insert_eq. destruct (decide (c = current_cpu w)) as [->|].
    + rewrite lookup_insert_eq. eexists. split; [done|]. assert (x = y) as <- by congruence. done.
    + rewrite lookup_insert_ne by done. by exists y.
  - intros c Hc. simpl. rewrite insert_insert_eq. by rewrite lookup_insert_ne.
Qed.

Lemma wlp_vm_prepare_start w :
  wlp vm_prepare_start (fun _ w' => flags_only w w' /\ cpus w' = cpus w /\ mem w' = mem w /\
    current_run_state w' = RUN_STATE_RUNNING /\ vmstop_requested w' = RUN_STATE__MAX) w.
Proof.
  assert (Hf : forall rs, flags_only w
    (w <| vmstop_requested := RUN_STATE__MAX |> <| current_run_state := rs |>)).
  { intros rs. split; [|intros c x Hx; by exists x].
    exists (cpus w), rs, RUN_STATE__MAX, (mem w). by destruct w. }
  assert (Hr : current_run_state w = RUN_STATE_RUNNING ->
    flags_only w (w <| vmstop_requested := RUN_STATE__MAX |>)).
  { intros Hr. specialize (Hf RUN_STATE_RUNNING). rewrite <- Hr in Hf. by destruct w. }
  apply wlp_bind, wlp_bind, wlp_gets, wlp_bind, wlp_modify, wlp_ret, wlp_bind, wlp_gets. simpl.
  destruct (decide (current_run_state w = RUN_STATE_RUNNING)) as [He|He].
  - rewrite bool_decide_eq_true_2 by done. simpl.
    destruct (bool_decide _); apply wlp_ret; auto 10.
  - rewrite bool_decide_eq_false_2 by done. simpl. apply wlp_bind, wlp_bind, wlp_ASSERT.
    intros _. apply wlp_bind, wlp_gets. simpl. destruct (decide _); [done|].
    destruct (negb _); [done|]. apply wlp_modify, wlp_ret. auto 10.
Qed.

Lemma wlp_cpu_resume c w :
  wlp (cpu_resume c) (fun _ w' => flags_only w w' /\ all_running [c] w' /\
    current_run_state w' = current_run_state w /\ vmstop_requested w' = vmstop_requested w /\
    mem w' = mem w /\ forall c', c' <> c -> cpus w' !! c' = cpus w !! c') w.
Proof.
  apply wlp_bind, wlp_upd_cpu. intros x Hx. apply wlp_bind, wlp_get_cpu. simpl.
  rewrite lookup_insert_eq. intros y [= <-].
  assert (Hend : forall v w', same_core x v -> stop v = false -> stopped v = false ->
    w' = w <| cpus ::= fun m => <[c := v]> m |> ->
    flags_only w w' /\ all_running [c] w' /\ current_run_state w' = current_run_state w /\
    vmstop_requested w' = vmstop_requested w /\ mem w' = mem w /\
    forall c', c' <> c -> cpus w' !! c' = cpus w !! c').
  { intros v w' Hcore H1 H2 ->. split; [by apply (flags_upd_cpu c x (fun _ => v))|].
    split; [|split; [done|split; [done|split; [done|]]]].
    - intros c' ->%list_elem_of_singleton. exists v. simpl. by rewrite lookup_insert_eq.
    - intros c' Hc'. simpl. by rewrite lookup_insert_ne. }
  destruct (thread_kicked _).
  - by apply wlp_ret, (Hend (x <| stop := false |> <| stopped := false |>)).
  - apply wlp_bind, wlp_upd_cpu. simpl. rewrite lookup_insert_eq. intros y [= <-].
    apply wlp_bind, wlp_ret, wlp_upd_cpu. simpl. rewrite lookup_insert_eq. intros y [= <-].
    apply (Hend (x <| stop := false |> <| stopped := false |> <| thread_kicked := true |>
      <| immediate_exit := true |>)); [done..|].
    destruct w. unfold set. simpl. by rewrite !insert_insert_eq.
Qed.

Lemma wlp_resume_list l w :
  wlp (foreach l cpu_resume) (fun _ w' => flags_only w w' /\ all_running l w' /\
    current_run_state w' = current_run_state w /\ vmstop_requested w' = vmstop_requested w /\
    mem w' = mem w /\ forall c', c' ∉ l -> cpus w' !! c' = cpus w !! c') w.
Proof.
  revert w. induction l as [|c l IH]; intros w.
  { apply wlp_ret. split; [apply flags_refl|]. split; [intros c Hc; set_solver|done]. }
  cbn [foreach]. apply wlp_bind. eapply wlp_mono; [apply wlp_cpu_resume|].
  intros [] w1 (Hf1 & Hr1 & Hs1 & Hv1 & Hm1 & Ho1). eapply wlp_mono; [apply IH|].
  intros [] w2 (Hf2 & Hr2 & Hs2 & Hv2 & Hm2 & Ho2).
  split; [by eapply flags_trans|]. split; [|split; [congruence|split; [congruence|split; [congruence|]]]].
  - intros c' Hc'. destruct (decide (c' ∈ l)) as [Hin|Hin]; [by apply Hr2|].
    rewrite Ho2 by done. apply Hr1. set_solver.
  - intros c' Hc'. rewrite Ho2, Ho1 by set_solver. done.
Qed.

Lemma wlp_is_vcpu_deactivated c (Q : bool -> machine -> Prop) w :
  Q (negb (at_least (sched w) qcsched_cpu_ready c) || at_least (sched w) qcsched_cpu_deactivated c) w ->
  wlp (is_vcpu_deactivated c) Q w.
Proof.
  intros HQ. apply wlp_bind, wlp_check_cpu_state.
  destruct (at_least (sched w) qcsched_cpu_ready c); [by apply wlp_check_cpu_state|by apply wlp_ret].
Qed.

Lemma wlp_all_deactivated l (Q : bool -> machine -> Prop) w :
  Q (quiescent l (sched w)) w -> wlp (all_deactivated l) Q w.
Proof.
  induction l as [|c l IH]; intros HQ; [by apply wlp_ret|]. cbn [all_deactivated].
  apply wlp_bind, wlp_is_vcpu_deactivated. unfold quiescent in *. cbn [forallb] in HQ.
  destruct (_ || _); [by apply IH|by apply wlp_ret].
Qed.

(** Disabling: the byte is cleared only when every vCPU is idle or done. *)
Definition disabled_result (L : list Z) (cpu : Z) (w : machine) (r : Z) (w' : machine) : Prop :=
  if negb (kssb_enabled (sched w)) then r = 0 /\ w' = w
  else if negb (quiescent L (sched w)) then r = neg_errno EAGAIN /\ w' = w
  else
    let ok := negb (ssb_do_emulate (vmi_info w) =? 0) in
    r = (if ok then 0 else neg_errno EINVAL) /\
    sched w' = sched w <| kssb_enabled := negb ok |> /\
    flags_only w (w' <| sched := sched w |>) /\
    (if ok then byte_written cpu (ssb_do_emulate (vmi_info w)) 0 w w' else mem w' = mem w) /\
    current_run_state w' = RUN_STATE_RUNNING /\ vmstop_requested w' = RUN_STATE__MAX /\
    all_running L w'.

Lemma wlp_disable_kssb L cpu w :
  cpu_list w = L -> wlp (qcsched_disable_kssb cpu) (disabled_result L cpu w) w.
Proof.
  intros HL. unfold disabled_result. apply wlp_bind, wlp_sched_.
  destruct (kssb_enabled (sched w)); [|by apply wlp_ret]. simpl.
  apply wlp_bind, wlp_bind, wlp_gets. rewrite HL. apply wlp_all_deactivated.
  destruct (quiescent L (sched w)); [|by apply wlp_ret]. simpl.
  apply wlp_bind. eapply wlp_mono; [apply wlp_vm_stop|]. intros r1 w1 (_ & Hf1 & _ & _ & Hm1 & _).
  assert (vmi_info w1 = vmi_info w /\ kvm w1 = kvm w) as [Hv1 Hk1]
    by by destruct Hf1 as [(? & ? & ? & ? & ->) _].
  apply wlp_bind. eapply wlp_mono; [apply wlp_rw_ssb|].
  intros ok w2 (Hf2 & _ & _ & _ & Hok & Hb). rewrite Hv1 in Hok, Hb. rewrite <- Hok.
  apply wlp_bind. eapply wlp_mono; [apply wlp_vm_prepare_start|].
  intros r3 w3 (Hf3 & _ & Hm3 & Hrun3 & Hvr3).
  apply wlp_bind, wlp_bind, wlp_gets. rewrite Hrun3. simpl. apply wlp_bind, wlp_gets.
  assert (Hf : flags_only w w3) by (eapply flags_trans; [done|by eapply flags_trans]).
  replace (cpu_list w3) with L by by destruct Hf as [(? & ? & ? & ? & ->) _].
  eapply wlp_mono; [apply wlp_resume_list|]. intros [] w4 (Hf4 & Hr4 & Hs4 & Hv4 & Hm4 & _).
  apply wlp_bind, wlp_upd_sched, wlp_ret.
  pose proof (flags_trans _ _ _ Hf Hf4) as Hall.
  assert (Hs : sched w4 = sched w) by by destruct Hall as [(? & ? & ? & ? & ->) _].
  split; [by destruct ok|]. split; [simpl; by rewrite Hs|]. split; [|split].
  - rewrite <- Hs. by destruct w4.
  - destruct ok; simpl; [|by rewrite Hm4, Hm3, Hb]. destruct Hb as (p & Hp & Hw). exists p.
    rewrite Hk1, Hm1 in Hp. rewrite Hm1 in Hw. simpl. by rewrite Hm4, Hm3.
  - simpl. by rewrite Hs4, Hv4.
Qed.
End Kssb.

(** C13.  Disabling the emulation answers -EAGAIN, and changes nothing, while a
    vCPU is ready or activated; otherwise it clears the guest's
    [__ssb_do_emulate] byte (or answers -EINVAL when the guest has not said
    where it is) and touches only that, the run state and the stop and kick
    flags.  It never leaves the VM stopped: it ends running, with no stop
    request pending and no vCPU stopped or asked to stop. *)
Theorem disable_kssb_leaves_vm_running `{P : Platform} {I : Interference} L cpu w :
  Small L -> MemLaws -> cpu ∈ L -> inside L cpu w ->
  match qcsched_disable_kssb cpu w with
  | Ret r w' => disabled_result L cpu w r w'
  | Exit msg => disciplined msg
  | UB _ | OutOfFuel => False
  end.
Proof.
  intros HS HM Hc Hw. pose proof (safe_disable_kssb L cpu Hc w Hw) as Hsafe.
  pose proof (wlp_disable_kssb L cpu w (wf_cpu_list _ _ Hw)) as Hspec.
  unfold wp in Hsafe. unfold wlp in Hspec. by destruct (qcsched_disable_kssb cpu w).
Qed.

Definition flat_kssb_machine : machine (P := flat_platform) :=
  flat_machine 2 [] <| current_cpu := 1 |> <| iothread_locked := true |>
    <| current_run_state := RUN_STATE_RUNNING |>
    <| vmi_info ::= set ssb_do_emulate (fun _ => 4096) |>
    <| sched ::= set kssb_enabled (fun _ => true) |>.

Lemma flat_kssb_inside : inside [0; 1] 1 flat_kssb_machine.
Proof.
  destruct (init_wf (P := flat_platform) 2 ∅ (mk_flat_kvm [] ∅ ∅)) as [Hs Hv ? ? ? ? ?].
  split; [split|..]; try done; [by destruct Hs; split|by destruct Hv; split].
Qed.

Lemma flat_disabled r w' :
  disabled_result [0; 1] 1 flat_kssb_machine r w' ->
  r = 0 /\ kssb_enabled (sched w') = false /\ all_running [0; 1] w'.
Proof.
  unfold disabled_result. change (kssb_enabled (sched flat_kssb_machine)) with true.
  replace (quiescent [0; 1] (sched flat_kssb_machine)) with true by by vm_compute.
  intros (-> & -> & _ & _ & _ & _ & Hall). split; [by vm_compute|]. split; [by vm_compute|done].
Qed.

Lemma disable_kssb_leaves_vm_running_witness :
  match qcsched_disable_kssb 1 flat_kssb_machine with
  | Ret r w' => r = 0 /\ kssb_enabled (sched w') = false /\ all_running [0; 1] w'
  | Exit msg => disciplined msg
  | UB _ | OutOfFuel => False
  end.
Proof.
  pose proof (disable_kssb_leaves_vm_running [0; 1] 1 flat_kssb_machine
    (vcpus_small 2 ltac:(lia)) flat_mem_laws ltac:(set_solver) flat_kssb_inside) as H.
  destruct (qcsched_disable_kssb _ _) as [r w'| | |];
    [exact (flat_disabled r w' H)|exact H|exact H|exact H].
Defined.

(**  On a vCPU thread [vm_stop] stops nothing: it returns 0 with the run
    state, memory and every other vCPU as they were, having recorded a request
    and flagged the calling vCPU.  So when [qcsched_disable_kssb] writes the
    guest's byte right after it, the VM has not been paused. *)
Lemma vm_stop_on_vcpu_only_requests `{P : Platform} {I : Interference} L cpu rs w :
  cpu ∈ L -> inside L cpu w ->
  exists w', vm_stop rs w = Ret 0 w' /\ flags_only w w' /\
    vmstop_requested w' = rs /\ current_run_state w' = current_run_state w /\ mem w' = mem w /\
    forall c, c <> cpu -> cpus w' !! c = cpus w !! c.
Proof.
  intros Hc Hw. destruct (wf_cpus _ _ Hw cpu Hc) as [x Hx].
  pose proof (wlp_vm_stop rs w) as Hspec. rewrite (in_self _ _ _ Hw) in Hspec.
  unfold wlp in Hspec. revert Hspec.
  unfold vm_stop, qemu_system_vmstop_request, cpu_stop_current, cpu_exit, upd_cpu, get_cpu, mbind,
    prog_bind, modify, gets, deref, id, mret, prog_ret. simpl.
  rewrite (in_self _ _ _ Hw), Hx. simpl. rewrite lookup_insert_eq.
  intros (_ & Hf & Hr & Hv & Hm & Ho). eexists. split; [reflexivity|]. exact (conj Hf (conj Hv (conj Hr (conj Hm Ho)))).
Qed.

