(* ===== verification/Release.v ===== *)
(** * Letting the other vCPUs go

    What HCALL_DEACTIVATE_BP and HCALL_RESET do to the other vCPUs: their
    breakpoints are removed on their own threads and suspended tasks are
    released.  The theorems are about runs in which no other thread gets in
    between. *)

From stdpp Require Import base list gmap strings.
From Stdlib Require Import ZArith Lia.
From S2P Require Import Prelude Machine Invariant Flat KvmDebug CpuState GuestMem Vmi Window ExecControl Breakpoint RunState VmiHint Kssb Hcall VcpuLoop System HwTable Reads Frames Accounting WindowSpec HcallSpec KssbSpec.

Local Open Scope Z_scope.
Local Open Scope record_scope.

(** While this thread waits, the others only serve its work items. *)
Class Quiet `{P : Platform} {I : Interference} : Prop :=
  other_threads_quiet : forall c w, other_threads c w = w.

Definition tables_ok `{P : Platform} (w : machine) : Prop :=
  forall c h, aget (hw_breakpoint w) c = Some h -> hw_ok h /\ NoDup (hw_addrs h).

(** The task of [c] is not suspended. *)
Definition unblocked `{P : Platform} (c : Z) (w : machine) : Prop :=
  exists i, aget (infos w) c = Some i /\ blocker i = mk_blocker false false.

(** None of the schedule's addresses is armed on [c]. *)
Definition disarmed `{P : Platform} (c n : Z) (w : machine) : Prop :=
  forall j e, 0 <= j < n -> aget (entries (sched w)) j = Some e -> e_cpu e = c ->
    ~ armed c (addr (schedpoint e)) w.

(** From [w] to [w'] tables shrink and tasks are released; the rest stays. *)
Definition releasing `{P : Platform} (w w' : machine) : Prop :=
  (exists hw k ifs, w' = w <| hw_breakpoint := hw |> <| kvm := k |> <| infos := ifs |>) /\
  (tables_ok w -> tables_ok w') /\
  (forall c a, armed c a w' -> armed c a w) /\
  (forall c, unblocked c w -> unblocked c w').

Section Release.
Context {P : Platform} {I : Interference} (L : list Z).

Lemma releasing_refl w : releasing w w.
Proof.
  split; [|done]. exists (hw_breakpoint w), (kvm w), (infos w). by destruct w.
Qed.

Lemma releasing_trans w1 w2 w3 : releasing w1 w2 -> releasing w2 w3 -> releasing w1 w3.
Proof.
  intros ((h & k & i & ->) & T1 & A1 & U1) ((h' & k' & i' & ->) & T2 & A2 & U2).
  split; [by exists h', k', i'|]. auto.
Qed.

Lemma releasing_sched w w' : releasing w w' -> sched w' = sched w.
Proof. by intros ((h & k & i & ->) & _). Qed.

Lemma releasing_locked w w' : releasing w w' -> iothread_locked w' = iothread_locked w.
Proof. by intros ((h & k & i & ->) & _). Qed.

Lemma disarmed_releasing c n w w' : releasing w w' -> disarmed c n w -> disarmed c n w'.
Proof.
  intros Hr Hd j e Hj He Hc Ha. apply Hr in Ha. apply releasing_sched in Hr. rewrite Hr in He.
  by eapply Hd.
Qed.

Context `{!Quiet}.

Lemma wlp_update_guest_debug_quiet c rt w :
  iothread_locked w = true ->
  wlp (kvm_update_guest_debug c rt) (fun _ w' => exists k, w' = w <| kvm := k |>) w.
Proof.
  intros Hl. destruct (decide (current_cpu w = c)) as [Hs|Hs].
  { by apply wlp_update_guest_debug_self. }
  apply wlp_bind, wlp_reads; [apply reads_get_cpu|]. intros x.
  apply wlp_bind, wlp_reads; [apply reads_arch_update_guest_debug|]. intros dbg.
  apply wlp_bind, wlp_gets. destruct (Z.eqb_spec (current_cpu w) c); [done|].
  apply wlp_bind, wlp_gets, wlp_bind, wlp_modify, wlp_bind, wlp_bind, wlp_gets.
  destruct (ioctl_set_guest_debug _ _ _) as [err k].
  apply wlp_bind, wlp_modify, wlp_ret, wlp_bind, wlp_modify, wlp_ret.
  exists k. rewrite !other_threads_quiet. destruct w. simpl in *. by rewrite Hl.
Qed.

Lemma armed_upd_hw c h' w c' a k :
  armed c' a (upd_hw c h' w <| kvm := k |>) -> armed c' a w \/ (c' = c /\ a ∈ hw_addrs h').
Proof.
  intros (h & Hh & Ha). simpl in Hh. rewrite aget_aset in Hh. case_decide as Hd.
  - destruct Hd as [-> _]. injection Hh as <-. by right.
  - left. by exists h.
Qed.

Lemma wlp_kvm_remove_quiet c a w :
  iothread_locked w = true -> tables_ok w ->
  wlp (kvm_remove_breakpoint_cpu c a 1 GDB_BREAKPOINT_HW)
    (fun _ w' => releasing w w' /\ ~ armed c a w') w.
Proof.
  intros Hl Hok. apply wlp_bind.
  destruct (aget (hw_breakpoint w) c) as [h|] eqn:Hh; cycle 1.
  { unfold wlp. simpl. unfold kvm_arch_remove_hw_breakpoint_cpu, find_hw_breakpoint_cpu, get_hw,
      mbind, prog_bind, gets, deref, id. simpl. by rewrite Hh. }
  destruct (Hok c h Hh) as [Hh1 Hh2].
  destruct (hw_sim_remove c a w h (list_to_set (hw_addrs h))) as (h' & Heq & Hok' & Hnd' & HX);
    [done|by (split; [|split])|].
  simpl in Heq. unfold wlp at 1. simpl. rewrite Heq. clear Heq.
  assert (forall b, b ∈ hw_addrs h' -> b ∈ hw_addrs h /\ b <> a) as Hsub.
  { intros b Hb. apply (elem_of_list_to_set (C := gset Z)) in Hb. rewrite HX in Hb.
    simpl in Hb. destruct (decide (a ∈ _)); simpl in Hb; set_solver. }
  assert (forall k, releasing w (upd_hw c h' w <| kvm := k |>) /\
    ~ armed c a (upd_hw c h' w <| kvm := k |>)) as Hall.
  { intros k. split; [split; [|split; [|split]]|].
    - eexists _, k, (infos w). by destruct w.
    - intros _ c' h0. simpl. rewrite aget_aset. case_decide; [by intros [= <-]|apply Hok].
    - intros c' b [?|[-> Hb]]%armed_upd_hw; [done|]. exists h. split; [done|]. by apply Hsub.
    - done.
    - intros (h0 & Hh0 & Ha). simpl in Hh0. rewrite aget_aset_eq in Hh0
        by by eapply aget_Some_range. injection Hh0 as <-. by apply Hsub in Ha as [_ ?]. }
  destruct (negb _).
  - apply wlp_ret. specialize (Hall (kvm w)).
    by replace (upd_hw c h' w <| kvm := kvm w |>) with (upd_hw c h' w) in Hall by by destruct w.
  - eapply wlp_mono; [by apply wlp_update_guest_debug_quiet|]. intros err w' [k ->]. apply Hall.
Qed.

Context (Hblk : config_trampoline = false).

Lemma wlp_escape_if_kidnapped this c w :
  wlp (escape_if_kidnapped this c) (fun _ w' => releasing w w' /\ unblocked c w') w.
Proof.
  apply wlp_bind. unfold task_kidnapped. rewrite Hblk. apply wlp_bind, wlp_get_exec.
  intros i Hi. apply wlp_ret, wlp_bind. pose proof (aget_Some_range _ _ _ Hi) as Hr.
  assert (forall w', w' = w <| infos ::= fun l => aset l c (i <| blocker := mk_blocker false false |>) |> ->
    releasing w w' /\ unblocked c w') as Hend.
  { intros w' ->. split; [split; [|split; [done|split; [done|]]]|].
    - eexists (hw_breakpoint w), (kvm w), _. by destruct w.
    - intros c' (i' & Hi' & Hb). unfold unblocked. simpl. rewrite aget_aset. case_decide; eauto.
    - eexists. simpl. rewrite aget_aset_eq by done. done. }
  unfold wake_cpu_up, reset_exec_control. rewrite Hblk.
  destruct (blocked (blocker i)).
  - apply wlp_upd_exec. intros i' Hi'. rewrite Hi in Hi'. injection Hi' as <-.
    apply wlp_upd_exec. simpl. rewrite aget_aset_eq by done. intros i' [= <-].
    apply Hend. destruct w. unfold set. simpl. by rewrite aset_aset_eq.
  - apply wlp_ret, wlp_upd_exec. intros i' Hi'. rewrite Hi in Hi'. injection Hi' as <-. by apply Hend.
Qed.

Lemma wlp_remove_and_escape this c w :
  iothread_locked w = true -> tables_ok w ->
  wlp (remove_breakpoints_and_escape_cpu this c) (fun _ w' => releasing w w' /\
    unblocked c w' /\ disarmed c (total (sched w)) w') w.
Proof.
  intros Hl Hok. apply wlp_bind, wlp_sched_, wlp_bind, wlp_ASSERT. intros _. apply wlp_bind.
  apply (wlp_mono _ (fun _ w' => releasing w w' /\ disarmed c (total (sched w)) w')).
  - apply (wlp_for_loop (fun i w' => 0 <= i /\ releasing w w' /\ disarmed c i w')).
    { split; [done|]. split; [apply releasing_refl|]. intros j e Hj. lia. }
    intros i w1 (Hi & Hr & Hd). apply wlp_bind, wlp_sched_, wlp_ret.
    pose proof (releasing_sched _ _ Hr) as Hs. rewrite Hs.
    destruct (Z.ltb_spec i (total (sched w))) as [Hlt|Hge]; cycle 1.
    { split; [done|]. intros j e Hj. apply Hd. lia. }
    apply wlp_bind, wlp_get_entry. intros e He. rewrite Hs in He.
    destruct (Z.eqb_spec (e_cpu e) c) as [Hc|Hc].
    + apply wlp_bind. eapply wlp_mono.
      { apply wlp_kvm_remove_quiet; [by rewrite (releasing_locked _ _ Hr)|by apply Hr]. }
      intros err w2 [Hr2 Hna]. apply wlp_ret. split; [lia|].
      split; [by eapply releasing_trans|]. intros j e' Hj He' Hc'.
      destruct (decide (j = i)) as [->|].
      * rewrite (releasing_sched _ _ Hr2), Hs, He in He'. by injection He' as <-.
      * apply (disarmed_releasing _ _ _ _ Hr2 Hd j); [lia|done..].
    + apply wlp_ret. split; [lia|]. split; [done|]. intros j e' Hj He' Hc'.
      destruct (decide (j = i)) as [->|]; [rewrite Hs in He'; congruence|].
      apply (Hd j); [lia|done..].
  - intros [] w1 [Hr Hd]. eapply wlp_mono; [apply wlp_escape_if_kidnapped|].
    intros [] w2 [Hr2 Hu]. split; [by eapply releasing_trans|]. split; [done|].
    by eapply disarmed_releasing.
Qed.

(** Every vCPU but 0 is released. *)
Definition all_released (l : list Z) (n : Z) (w : machine) : Prop :=
  forall c, c ∈ l -> c <> 0 -> unblocked c w /\ disarmed c n w.

Lemma wlp_release_all this l w :
  iothread_locked w = true -> tables_ok w ->
  wlp (foreach l (fun c => if c =? 0 then mret tt else remove_breakpoints_and_escape_cpu this c))
    (fun _ w' => releasing w w' /\ all_released l (total (sched w)) w') w.
Proof.
  revert w. induction l as [|c l IH]; intros w Hl Hok.
  { apply wlp_ret. split; [apply releasing_refl|]. intros c Hc. set_solver. }
  cbn [foreach]. apply wlp_bind.
  apply (wlp_mono _ (fun _ w' => releasing w w' /\ all_released [c] (total (sched w)) w')).
  - destruct (Z.eqb_spec c 0) as [->|Hc].
    + apply wlp_ret. split; [apply releasing_refl|]. intros c Hc. set_solver.
    + eapply wlp_mono; [by apply wlp_remove_and_escape|]. intros [] w1 (Hr & Hu & Hd).
      split; [done|]. intros c' ->%list_elem_of_singleton _. done.
  - intros [] w1 [Hr H1]. eapply wlp_mono; [apply IH; [by rewrite (releasing_locked _ _ Hr)|by apply Hr]|].
    intros [] w2 [Hr2 H2]. split; [by eapply releasing_trans|].
    rewrite (releasing_sched _ _ Hr) in H2. intros c' [->|Hc']%elem_of_cons Hz; [|by apply H2].
    destruct (H1 c) as [Hu Hd]; [set_solver|done|]. split; [by apply Hr2|].
    by eapply disarmed_releasing.
Qed.
End Release.

#[export] Instance quiet_stable `{P : Platform} {I : Interference} L : Quiet -> StableInterference L.
Proof. intros HQ c w Hw. by rewrite other_threads_quiet. Qed.

#[export] Instance flat_quiet : @Quiet flat_platform flat_interference.
Proof. done. Qed.

Definition deactivated_result `{P : Platform} (L : list Z) (cpu : Z) (w : machine) (r : Z)
    (w' : machine) : Prop :=
  if at_least (sched w) qcsched_cpu_ready cpu then
    r = 0 /\
    cpu_state (sched w') = aset (cpu_state (sched w)) cpu qcsched_cpu_deactivated /\
    activated (sched w') = false /\
    (forall j, 0 <= j < total (sched w) ->
       aget (entries (sched w')) j = closed_entry cpu <$> aget (entries (sched w)) j) /\
    (if activated (sched w)
     then used (sched w') = true /\ all_released L (total (sched w)) w'
     else used (sched w') = used (sched w) /\ infos w' = infos w)
  else r = neg_errno EINVAL /\ w' = w.

Lemma wlp_deactivate `{P : Platform} {I : Interference} L cpu w :
  Quiet -> config_trampoline = false -> cpu ∈ L -> inside L cpu w -> accounted L w ->
  wlp (qcsched_deactivate_breakpoint cpu) (deactivated_result L cpu w) w.
Proof.
  intros HQ Hblk Hc Hw Hacc. unfold deactivated_result.
  apply wlp_bind, wlp_check_cpu_state. destruct (at_least _ _ cpu); [|by apply wlp_ret].
  apply wlp_bind, wlp_set_cpu_state. intros x0 _.
  set (w1 := w <| sched ::= set cpu_state (fun l => aset l cpu qcsched_cpu_deactivated) |>).
  assert (accounted L w1) as Hacc1 by by apply acc_upd_sched.
  apply wlp_bind. eapply wlp_mono.
  { apply wlp_conj; [apply (wlp_close_window cpu w1), (in_self _ _ _ Hw)|]. apply wlp_conj;
      [apply (akeep_close_window L cpu Hc w1 (in_self _ _ _ Hw) Hacc1)|].
    apply (sonly_close_window cpu w1), (in_self _ _ _ Hw). }
  intros [] w2 [[((_ & Ht & Hsame & _) & _ & Hen) _] [[_ Hacc2] (s2 & h2 & k2 & Hw2)]].
  injection Hsame as _ Hst Hact Hused. simpl in Ht, Hst, Hact, Hused.
  assert (infos w2 = infos w) as Hinf by by rewrite Hw2.
  assert (iothread_locked w2 = true) as Hlk by (rewrite Hw2; apply (in_locked _ _ _ Hw)).
  assert (cpu_list w2 = L) as Hlist by (rewrite Hw2; apply (wf_cpu_list _ _ Hw)).
  assert (forall j, 0 <= j < total (sched w) ->
    aget (entries (sched w2)) j = closed_entry cpu <$> aget (entries (sched w)) j) as Hen'.
  { intros j Hj. rewrite Hen. simpl. by rewrite bool_decide_eq_true_2 by lia. }
  clear Hw2 s2 h2 k2. apply wlp_bind, wlp_sched_. rewrite Hact.
  destruct (activated (sched w)); cycle 1.
  { apply wlp_bind, wlp_ret, wlp_ret. by rewrite Hst, Hact, Hused. }
  apply wlp_bind, wlp_bind, wlp_upd_sched, wlp_bind, wlp_upd_sched, wlp_bind, wlp_gets.
  simpl. rewrite Hlist. eapply wlp_mono.
  { apply wlp_release_all; [done|done|].
    intros c h. simpl. apply (acc_hw _ _ Hacc2). }
  intros [] w3 [Hr Hall]. apply wlp_ret. simpl in Hall. rewrite Ht in Hall.
  pose proof (releasing_sched _ _ Hr) as Hs. simpl in Hs. rewrite Hs. simpl.
  by rewrite Hst.
Qed.

(** C11.  HCALL_DEACTIVATE_BP ends the schedule, as long as no other thread
    changes the machine while the caller waits and tasks are suspended by
    blocking: a CPU that never became ready is told so and nothing changes;
    otherwise the caller, whether or not others still take part, is deactivated,
    its entries get their final footprint and the schedule is not active any
    more.  If it was active, it is marked used up, and no vCPU (but 0, which has
    no scheduling points) is left suspended or with a breakpoint at one of its
    scheduling points; the breakpoint at the hook may stay. *)
Theorem deactivate_releases_everyone `{P : Platform} {I : Interference} L cpu w :
  Quiet -> config_trampoline = false -> Small L -> cpu ∈ L -> inside L cpu w -> accounted L w ->
  match qcsched_deactivate_breakpoint cpu w with
  | Ret r w' => deactivated_result L cpu w r w'
  | Exit msg => disciplined msg
  | UB _ | OutOfFuel => False
  end.
Proof.
  intros HQ Hblk HS Hc Hw Hacc.
  pose proof (safe_deactivate_breakpoint L cpu Hc w Hw) as Hsafe.
  pose proof (wlp_deactivate L cpu w HQ Hblk Hc Hw Hacc) as Hspec.
  unfold wp in Hsafe. unfold wlp in Hspec. by destruct (qcsched_deactivate_breakpoint cpu w).
Qed.

Lemma flat_running_facts :
  let s := sched (flat_running_machine <| iothread_locked := true |>) in
  at_least s qcsched_cpu_ready 1 = true /\ activated s = true /\ total s = 2 /\
  aget (entries s) 1 = Some (flat_point 8192 1 2 false).
Proof. by vm_compute. Qed.

Lemma flat_deactivated r w' :
  deactivated_result [0; 1; 2] 1 (flat_running_machine <| iothread_locked := true |>) r w' ->
  r = 0 /\ used (sched w') = true /\ unblocked 2 w' /\ ~ armed 2 8192 w'.
Proof.
  destruct flat_running_facts as (H1 & H2 & H3 & H4). unfold deactivated_result.
  rewrite H1, H2, H3. intros (-> & _ & _ & Hen & Hused & Hall). split; [done|]. split; [done|].
  destruct (Hall 2) as [Hu Hd]; [set_solver|done|]. split; [done|].
  apply (Hd 1 (flat_point 8192 1 2 false)); [lia| |done].
  rewrite Hen, H4 by lia. done.
Qed.

Lemma deactivate_releases_everyone_witness :
  match qcsched_deactivate_breakpoint 1 (flat_running_machine <| iothread_locked := true |>) with
  | Ret r w' => r = 0 /\ used (sched w') = true /\ unblocked 2 w' /\ ~ armed 2 8192 w'
  | Exit msg => disciplined msg
  | UB _ | OutOfFuel => False
  end.
Proof.
  pose proof (deactivate_releases_everyone [0; 1; 2] 1
    (flat_running_machine <| iothread_locked := true |>) _ eq_refl (vcpus_small 3 ltac:(lia))
    ltac:(set_solver) flat_running_inside flat_running_locked_accounted) as H.
  destruct (qcsched_deactivate_breakpoint _ _) as [r w'| | |];
    [exact (flat_deactivated r w' H)|exact H|exact H|exact H].
Defined.

(** ** HCALL_RESET *)

Definition fresh_window (c : Z) : qcsched_schedpoint_window :=
  mk_window 0 0 END_OF_SCHEDPOINT_WINDOW END_OF_SCHEDPOINT_WINDOW c END_OF_SCHEDPOINT_WINDOW.

(** Nothing of an earlier schedule is left on vCPU [c]. *)
Record fresh_cpu `{P : Platform} (c : Z) (w : machine) : Prop := {
  fresh_state : aget (cpu_state (sched w)) c = Some qcsched_cpu_idle;
  fresh_win : aget (schedpoint_window (sched w)) c = Some (fresh_window c);
  fresh_record : aget (last_breakpoint (sched w)) c = Some zero_record;
  fresh_locks : exists li, aget (lock_info (vmi_info w)) c = Some li /\ li_count li = 0;
  fresh_cookies : exists x, cpus w !! c = Some x /\
    hcall_cookie x = 0 /\ breakpoint_cookie x = 0 /\ timer_cookie x = 0;
}.

(** The suspended task of [c] is released and none of the addresses that [s0]
    has on [c] is armed. *)
Definition escaped `{P : Platform} (s0 : qcsched) (c : Z) (w : machine) : Prop :=
  unblocked c w /\
  forall j e, 0 <= j < total s0 -> aget (entries s0) j = Some e -> e_cpu e = c ->
    ~ armed c (addr (schedpoint e)) w.

(** From [w] to [w'] at most vCPU [c] is reset. *)
Record resetting `{P : Platform} (s0 : qcsched) (c : Z) (w w' : machine) : Prop := {
  res_entries : entries (sched w') = entries (sched w);
  res_total : total (sched w') = total (sched w);
  res_tables : tables_ok w';
  res_locked : iothread_locked w' = true;
  res_list : cpu_list w' = cpu_list w;
  res_flags : (activated (sched w'), used (sched w')) = (activated (sched w), used (sched w));
  res_state : forall c', c' <> c -> aget (cpu_state (sched w')) c' = aget (cpu_state (sched w)) c';
  res_fresh : forall c', c' <> c -> fresh_cpu c' w -> fresh_cpu c' w';
  res_escaped : forall c', c' <> c -> escaped s0 c' w -> escaped s0 c' w';
}.

Section Reset.
Context {P : Platform} {I : Interference} `{!Quiet} (Hblk : config_trampoline = false).

(** The assignments that follow the removal of the breakpoints. *)
Lemma wlp_reset_fields s0 c w :
  iothread_locked w = true -> tables_ok w ->
  wlp (set_record c zero_record ;; qcsched_set_cpu_state c qcsched_cpu_idle ;;
       qcsched_reset_window c ;; qcsched_reset_cookie c ;; qcsched_vmi_lock_info_reset c)
    (fun _ w' => resetting s0 c w w' /\ fresh_cpu c w' /\
       hw_breakpoint w' = hw_breakpoint w /\ infos w' = infos w) w.
Proof.
  intros Hl Ht. apply wlp_bind, wlp_set_record. intros r Hr. apply wlp_bind, wlp_set_cpu_state.
  simpl. intros st Hst. apply wlp_bind, wlp_upd_window. simpl. intros x Hx.
  apply wlp_bind, wlp_upd_cpu. simpl. intros y Hy. apply wlp_bind, wlp_get_lock_info.
  simpl. intros li Hli. apply wlp_set_lock_info. simpl. intros li' _.
  apply aget_Some_range in Hr, Hst, Hx, Hli.
  split; [|split; [|done]].
  - split; simpl; try done.
    + intros c' Hc. by rewrite aget_aset_ne.
    + intros c' Hc []. split; simpl; rewrite ?aget_aset_ne, ?lookup_insert_ne by done; done.
  - split; simpl.
    + by apply aget_aset_eq.
    + by apply aget_aset_eq.
    + by apply aget_aset_eq.
    + eexists. by rewrite aget_aset_eq.
    + eexists. by rewrite lookup_insert_eq.
Qed.

Lemma resetting_trans s0 c w1 w2 w3 :
  resetting s0 c w1 w2 -> resetting s0 c w2 w3 -> resetting s0 c w1 w3.
Proof.
  intros [] []. split; try congruence; try done; intros; auto.
  rewrite res_state1, res_state0 by done. done.
Qed.

Lemma releasing_resetting s0 c w w' :
  iothread_locked w = true -> tables_ok w -> releasing w w' -> resetting s0 c w w'.
Proof.
  intros Hl Ht ((hw & k & ifs & Heq) & Htab & Harm & Hun).
  split; try (by rewrite Heq); [by apply Htab| |].
  - intros c' _ []. split; by rewrite Heq.
  - intros c' _ [Hu Hd]. split; [by apply Hun|]. intros j e Hj He Hc Ha%Harm. by eapply Hd.
Qed.

Lemma wlp_reset_cpu s0 cpu c w :
  c <> 0 -> iothread_locked w = true -> tables_ok w ->
  entries (sched w) = entries s0 -> total (sched w) = total s0 ->
  wlp (qcsched_reset_cpu cpu c) (fun _ w' => resetting s0 c w w' /\ fresh_cpu c w' /\
    (at_least (sched w) qcsched_cpu_deactivated c = false -> escaped s0 c w')) w.
Proof.
  intros Hc Hl Ht He Hn. unfold qcsched_reset_cpu. destruct (Z.eqb_spec c 0); [done|].
  apply wlp_bind, wlp_check_cpu_state, wlp_bind.
  apply (wlp_mono _ (fun _ w' => releasing w w' /\
    (at_least (sched w) qcsched_cpu_deactivated c = false -> escaped s0 c w'))).
  - destruct (at_least _ _ c); [apply wlp_ret; split; [apply releasing_refl|done]|].
    eapply wlp_mono; [by apply wlp_remove_and_escape|]. intros [] w1 (Hr & Hu & Hd).
    split; [done|]. intros _. split; [done|]. intros j e Hj Hje. apply (Hd j); [by rewrite Hn|].
    by rewrite (releasing_sched _ _ Hr), He.
  - intros [] w1 [Hr Hesc]. eapply wlp_mono.
    { apply (wlp_reset_fields s0); [by rewrite (releasing_locked _ _ Hr)|by apply Hr]. }
    intros [] w2 (Hres & Hfresh & Hhw & Hinf). split; [|split; [done|]].
    + eapply resetting_trans; [by apply releasing_resetting|done].
    + intros [Hu Hd]%Hesc. split; [unfold unblocked; by rewrite Hinf|].
      intros j e Hj Hje Hec Ha. apply (Hd j e Hj Hje Hec). unfold armed in *. by rewrite <- Hhw.
Qed.

(** What holds of the vCPUs in [l] once they are reset. *)
Definition reset_done (s0 : qcsched) (l : list Z) (w : machine) : Prop :=
  forall c, c ∈ l -> c <> 0 -> fresh_cpu c w /\
    (at_least s0 qcsched_cpu_deactivated c = false -> escaped s0 c w).

Lemma wlp_reset_all s0 cpu l w :
  NoDup l -> iothread_locked w = true -> tables_ok w ->
  entries (sched w) = entries s0 -> total (sched w) = total s0 ->
  (forall c, c ∈ l -> aget (cpu_state (sched w)) c = aget (cpu_state s0) c) ->
  wlp (foreach l (qcsched_reset_cpu cpu)) (fun _ w' => reset_done s0 l w' /\
    cpu_list w' = cpu_list w /\
    (activated (sched w'), used (sched w')) = (activated (sched w), used (sched w)) /\
    forall c, c ∉ l -> (fresh_cpu c w -> fresh_cpu c w') /\ (escaped s0 c w -> escaped s0 c w')) w.
Proof.
  revert w. induction l as [|c l IH]; intros w Hnd Hl Ht He Hn Hst.
  { apply wlp_ret. split; [intros c Hc; set_solver|done]. }
  apply NoDup_cons in Hnd as [Hc Hnd]. cbn [foreach]. apply wlp_bind.
  apply (wlp_mono _ (fun _ w1 => resetting s0 c w w1 /\ reset_done s0 [c] w1)).
  - destruct (decide (c = 0)) as [->|Hz].
    + apply wlp_ret. split; [split; done|]. intros c' ->%list_elem_of_singleton. done.
    + eapply wlp_mono; [by apply (wlp_reset_cpu s0)|]. intros [] w1 (Hr & Hf & Hesc).
      split; [done|]. intros c' ->%list_elem_of_singleton _. split; [done|].
      intros Hd. apply Hesc. unfold at_least in *. by rewrite Hst by set_solver.
  - intros [] w1 [[] Hdone]. eapply wlp_mono.
    { apply IH; [done..| | |]; [congruence|congruence|]. intros c' Hc'.
      rewrite res_state0 by set_solver. apply Hst. set_solver. }
    intros [] w2 (Hall & Hlist & Hfl & Hother). split; [|split; [congruence|split; [congruence|]]].
    + intros c' [->|Hc']%elem_of_cons Hz; [|by apply Hall].
      destruct (Hdone c) as [Hf Hesc]; [set_solver|done|]. destruct (Hother c Hc) as [H1 H2]. auto.
    + intros c' [Hne Hnin]%not_elem_of_cons. destruct (Hother c' Hnin). auto.
Qed.
End Reset.

(** HCALL_RESET forgets the schedule and makes every worker vCPU fresh. *)
Definition reset_result `{P : Platform} (L : list Z) (w w' : machine) : Prop :=
  total (sched w') = 0 /\ current (sched w') = 0 /\ nr_cpus (sched w') = 0 /\
  activated (sched w') = false /\ used (sched w') = true /\
  entries (sched w') = replicate (Z.to_nat MAX_SCHEDPOINTS) zero_entry /\
  reset_done (sched w) L w'.

(** The rest of the machine, up to the emulation's flag. *)
Definition kssb_only `{P : Platform} (w w' : machine) : Prop :=
  (exists b, sched w' = sched w <| kssb_enabled := b |>) /\
  vmi_info w' = vmi_info w /\ infos w' = infos w /\ hw_breakpoint w' = hw_breakpoint w /\
  (forall c x, cpus w !! c = Some x -> exists x', cpus w' !! c = Some x' /\ same_core x x').

Lemma kssb_only_refl `{P : Platform} w : kssb_only w w.
Proof.
  split; [|split; [done|split; [done|split; [done|intros c x Hx; by exists x]]]].
  exists (kssb_enabled (sched w)). by destruct (sched w).
Qed.

Lemma disabled_kssb_only `{P : Platform} L cpu w r w' :
  disabled_result L cpu w r w' -> kssb_only w w'.
Proof.
  unfold disabled_result. destruct (negb (kssb_enabled _)); [intros [_ ->]; apply kssb_only_refl|].
  destruct (negb (quiescent _ _)); [intros [_ ->]; apply kssb_only_refl|].
  intros (_ & Hs & [(cs & rs & vr & m & Heq) Hc] & _). split; [by eexists|].
  split; [exact (f_equal vmi_info Heq)|]. split; [exact (f_equal infos Heq)|].
  split; [exact (f_equal hw_breakpoint Heq)|exact Hc].
Qed.

Lemma reset_result_kssb `{P : Platform} L w w1 w2 :
  reset_result L w w1 -> kssb_only w1 w2 -> reset_result L w w2.
Proof.
  intros (H1 & H2 & H3 & H4 & H5 & H6 & Hdone) ([b Hs] & Hv & Hi & Hh & Hc).
  unfold reset_result. rewrite Hs. simpl. do 6 (split; [done|]). intros c Hcl Hz.
  destruct (Hdone c Hcl Hz) as [[? ? ? ? (x & Hx & ? & ? & ?)] Hesc]. split.
  - destruct (Hc c x Hx) as (x' & Hx' & _ & ? & ? & ?).
    split; rewrite ?Hs, ?Hv; try done. exists x'. repeat split; [done|congruence..].
  - intros [Hu Hd]%Hesc. split; [unfold unblocked in *; by rewrite Hi|].
    intros j e Hj He Hec Ha. apply (Hd j e Hj He Hec). unfold armed in *. by rewrite <- Hh.
Qed.

Lemma wlp_reset `{P : Platform} {I : Interference} L cpu w :
  Quiet -> config_trampoline = false -> NoDup L -> inside L cpu w -> tables_ok w ->
  wlp (qcsched_reset cpu) (fun _ w' => reset_result L w w') w.
Proof.
  intros HQ Hblk Hnd Hw Ht. apply wlp_bind, wlp_upd_sched, wlp_bind, wlp_upd_sched.
  apply wlp_bind, wlp_bind, wlp_gets. simpl. rewrite (wf_cpu_list _ _ Hw). eapply wlp_mono.
  { apply (wlp_reset_all Hblk (sched w)); [done|apply (in_locked _ _ _ Hw)|done..]. }
  intros [] w1 (Hdone & Hlist & Hfl & _). injection Hfl as Hact Hused.
  apply wlp_bind, wlp_upd_sched, wlp_bind, wlp_modify, wlp_bind. eapply wlp_mono.
  { apply (wlp_disable_kssb L). simpl. rewrite Hlist. simpl. apply (wf_cpu_list _ _ Hw). }
  intros r w2 Hres. apply wlp_ret. apply disabled_kssb_only in Hres.
  eapply reset_result_kssb; [|done]. unfold reset_result. simpl. rewrite Hact, Hused.
  do 6 (split; [done|]). intros c Hcl Hz. by destruct (Hdone c Hcl Hz) as [[] Hesc].
Qed.

(** C12.  HCALL_RESET forgets the schedule whatever state it was in, as long as
    no other thread changes the machine while it waits and tasks are suspended
    by blocking: no entry, no current position, nobody takes part, and the
    schedule is inactive and marked used up, so it cannot be activated before
    the next PREPARE.  Every worker vCPU (all but 0) is idle, with an
    empty window, no watchdog record, no recorded locks and zero cookies; and
    one that had not deactivated itself is no longer suspended and has none of
    the old scheduling points armed. *)
Theorem reset_clears_schedule `{P : Platform} {I : Interference} L cpu w :
  Quiet -> config_trampoline = false -> Small L -> MemLaws -> NoDup L -> cpu ∈ L ->
  inside L cpu w -> tables_ok w ->
  match qcsched_reset cpu w with
  | Ret _ w' => reset_result L w w'
  | Exit msg => disciplined msg
  | UB _ | OutOfFuel => False
  end.
Proof.
  intros HQ Hblk HS HM Hnd Hc Hw Ht. pose proof (safe_reset L cpu Hc w Hw) as Hsafe.
  pose proof (wlp_reset L cpu w HQ Hblk Hnd Hw Ht) as Hspec.
  unfold wp in Hsafe. unfold wlp in Hspec. by destruct (qcsched_reset cpu w).
Qed.

(** The schedule in progress, seen from the master CPU. *)
Definition flat_master_machine : machine (P := flat_platform) :=
  flat_running_machine <| current_cpu := 0 |> <| iothread_locked := true |>.

Lemma flat_master_inside : inside [0; 1; 2] 0 flat_master_machine.
Proof. destruct flat_running_outside as [[] ? ?]. split; [split|..]; done. Qed.

Lemma flat_master_tables : tables_ok flat_master_machine.
Proof. exact (acc_hw _ _ flat_running_accounted). Qed.

Lemma flat_reset_released w' :
  reset_result [0; 1; 2] flat_master_machine w' ->
  total (sched w') = 0 /\ fresh_cpu 2 w' /\ unblocked 2 w'.
Proof.
  intros (H1 & _ & _ & _ & _ & _ & Hdone). split; [done|].
  destruct (Hdone 2) as [Hf Hesc]; [set_solver|done|]. split; [done|].
  apply Hesc. by vm_compute.
Qed.

Lemma reset_clears_schedule_witness :
  match qcsched_reset 0 flat_master_machine with
  | Ret _ w' => total (sched w') = 0 /\ fresh_cpu 2 w' /\ unblocked 2 w'
  | Exit msg => disciplined msg
  | UB _ | OutOfFuel => False
  end.
Proof.
  pose proof (reset_clears_schedule [0; 1; 2] 0 flat_master_machine _ eq_refl
    (vcpus_small 3 ltac:(lia)) flat_mem_laws
    ltac:(repeat constructor; set_solver) ltac:(set_solver) flat_master_inside
    flat_master_tables) as H.
  destruct (qcsched_reset _ _) as [u w'| | |]; [exact (flat_reset_released w' H)|exact H|exact H|exact H].
Defined.
