(* ===== verification/Accesses.v ===== *)
(** * Memory accesses (pkg/interleaving/access.go)

    The fuzzer's view of one executed system call is a trace of memory
    accesses.  A [SerialAccess] is such a trace, kept in timestamp order by
    [SerialAccess_Add]; this file models the type, the binary searches of
    Go's [sort.Search] it relies on, and proves that every constructor of a
    [SerialAccess] yields a timestamp-sorted permutation of its input. *)

From stdpp Require Import base list gmap sorting.
From Stdlib Require Import ZArith Lia.
From S2P Require Import Prelude.

Local Open Scope Z_scope.

(** The [uint32] and [uint64] fields are integers in range, see [access_ok]. *)
Record Access := mk_access {
  Inst : Z;
  Addr : Z;
  Size : Z;
  Typ : Z;
  Timestamp : Z;
  Thread : Z
}.

#[export] Instance access_eta : Eta Access :=
  fun a => mk_access (Inst a) (Addr a) (Size a) (Typ a) (Timestamp a) (Thread a).
#[export] Instance access_eq_dec : EqDecision Access.
Proof. solve_decision. Defined.

Definition access_ok (a : Access) : Prop :=
  0 <= Inst a < 2 ^ 32 /\ 0 <= Addr a < 2 ^ 32 /\ 0 <= Size a < 2 ^ 32 /\
  0 <= Typ a < 2 ^ 32 /\ 0 <= Timestamp a < 2 ^ 32 /\ 0 <= Thread a < 2 ^ 64.

(** The constants of the [iota] block. *)
Definition TypeStore : Z := 0.
Definition TypeLoad : Z := 1.
Definition TypeFlush : Z := 2.
Definition TypeLFence : Z := 3.
Definition TypeLockAcquire : Z := 4.
Definition TypeLockRelease : Z := 5.

(** [uint32] arithmetic wraps around, also in the bounds compared here. *)
Definition Overlapped (acc acc2 : Access) : bool :=
  let min := Addr acc in
  let max := u32 (Addr acc + Size acc - 1) in
  negb ((u32 (Addr acc2 + Size acc2 - 1) <? min) || (max <? Addr acc2)).

Abbreviation SerialAccess := (list Access).

(** ** [sort.Search]

    Go's binary search over [0 .. n-1]; the interval at least halves, so [n]
    iterations are enough ([search_first]). *)
Fixpoint search_loop (fuel : nat) (f : nat -> bool) (i j : nat) : nat :=
  match fuel with
  | O => i
  | S fuel =>
      if (i <? j)%nat then
        let h := ((i + j) / 2)%nat in
        if f h then search_loop fuel f i h else search_loop fuel f (S h) j
      else i
  end.

Definition sort_Search (n : nat) (f : nat -> bool) : nat := search_loop n f 0 n.

(** [sort.Slice] with a less function on an integer key: some permutation
    of the slice that is sorted by the key.  It is not stable, so the order
    of equal elements is left open: any function with this law will do. *)
Class SortSlice := {
  sort_Slice : forall {A : Type}, (A -> Z) -> list A -> list A;
  sort_Slice_perm {A : Type} (key : A -> Z) l : sort_Slice key l ≡ₚ l;
  sort_Slice_sorted {A : Type} (key : A -> Z) l :
    StronglySorted (fun a b => key a <= key b) (sort_Slice key l)
}.

(** ** Operations *)

(** The closure [func(i int) bool { return serial[i].Timestamp >= ts }]. *)
Definition at_or_after (serial : SerialAccess) (ts : Z) (i : nat) : bool :=
  match serial !! i with Some a => ts <=? Timestamp a | None => false end.

Definition SerialAccess_Add (serial : SerialAccess) (acc : Access) : SerialAccess :=
  let n := length serial in
  let idx := sort_Search n (at_or_after serial (Timestamp acc)) in
  if (idx =? n)%nat then serial ++ [acc]
  else <[idx := acc]> (take (S idx) serial ++ drop idx serial).

Definition SerializeAccess `{SortSlice} (acc : list Access) : SerialAccess :=
  foldl SerialAccess_Add [] (sort_Slice Timestamp acc).

Fixpoint SingleThread (serial : SerialAccess) : bool :=
  match serial with
  | a :: ((b :: _) as rest) => if Thread b =? Thread a then SingleThread rest else false
  | _ => true
  end.

Definition FindIndex (serial : SerialAccess) (acc : Access) : Z :=
  let i := sort_Search (length serial) (at_or_after serial (Timestamp acc)) in
  match serial !! i with
  | Some a => if Timestamp a =? Timestamp acc then Z.of_nat i else -1
  | None => -1
  end.

(** The main loop of [Combine] and the two loops that drain what is left. *)
Fixpoint combine_loop (s1 : SerialAccess) : SerialAccess -> SerialAccess -> SerialAccess :=
  fix aux (s2 s : SerialAccess) {struct s2} : SerialAccess :=
    match s1, s2 with
    | acc1 :: s1', acc2 :: s2' =>
        if Timestamp acc1 <? Timestamp acc2
        then combine_loop s1' s2 (SerialAccess_Add s acc1)
        else aux s2' (SerialAccess_Add s acc2)
    | [], _ => foldl SerialAccess_Add s s2
    | _, [] => foldl SerialAccess_Add s s1
    end.

Definition Combine (s1 s2 : SerialAccess) : SerialAccess := combine_loop s1 s2 [].

(** The loop of [FindForeachThread]: [chk] counts per thread, and the loop
    breaks as soon as [max*2] accesses are found. *)
Fixpoint find_foreach_loop (inst max : Z) (chk : gmap Z Z) (res serial : SerialAccess)
    : SerialAccess :=
  match serial with
  | [] => res
  | acc :: serial =>
      let cnt := default 0 (chk !! Thread acc) in
      let '(chk, res) :=
        if (Inst acc =? inst) && (cnt <? max)
        then (<[Thread acc := cnt + 1]> chk, SerialAccess_Add res acc)
        else (chk, res) in
      if alen res =? max * 2 then res else find_foreach_loop inst max chk res serial
  end.

Definition FindForeachThread (serial : SerialAccess) (inst max : Z) : SerialAccess :=
  find_foreach_loop inst max ∅ [] serial.

(** ** Binary search *)

Lemma search_loop_first f i0 fuel i j n :
  (forall a b, a <= b < n -> f a = true -> f b = true)%nat ->
  (i0 <= i <= j /\ j <= n /\ j - i <= fuel)%nat ->
  (forall k, i0 <= k < i -> f k = false)%nat ->
  (forall k, j <= k < n -> f k = true)%nat ->
  let r := search_loop fuel f i j in
  (i <= r <= j /\ (forall k, i0 <= k < r -> f k = false) /\ (forall k, r <= k < n -> f k = true))%nat.
Proof.
  intros Hmono. revert i j. induction fuel as [|fuel IH]; intros i j Hr Hlo Hhi; cbn [search_loop].
  { assert (i = j) as -> by lia. split_and!; [lia..|done|done]. }
  destruct (Nat.ltb_spec i j) as [Hij|Hij]; cycle 1.
  { assert (i = j) as -> by lia. split_and!; [lia..|done|done]. }
  pose proof (Nat.div_lt_upper_bound (i + j) 2 j ltac:(lia) ltac:(lia)) as Hh1.
  pose proof (Nat.div_le_lower_bound (i + j) 2 i ltac:(lia) ltac:(lia)) as Hh2.
  remember ((i + j) / 2)%nat as h. destruct (f h) eqn:Hf.
  - destruct (IH i h) as (? & ? & ?); [lia|done| |split_and!; [lia..|done|done]].
    intros k Hk. destruct (decide (j <= k)%nat); [apply Hhi; lia|].
    apply (Hmono h); [lia|done].
  - destruct (IH (S h) j) as (? & ? & ?); [lia| |done|split_and!; [lia..|done|done]].
    intros k Hk. destruct (decide (k < i)%nat); [apply Hlo; lia|].
    apply not_true_is_false. intros Hfk. rewrite (Hmono k h) in Hf; [done|lia|done].
Qed.

(** On a monotone predicate [sort.Search] returns the first index where it
    holds, or [n]. *)
Lemma search_first n f :
  (forall a b, a <= b < n -> f a = true -> f b = true)%nat ->
  let r := sort_Search n f in
  (r <= n /\ (forall k, k < r -> f k = false) /\ (forall k, r <= k < n -> f k = true))%nat.
Proof.
  intros Hm. destruct (search_loop_first f 0 n 0 n n Hm) as (? & Hlo & Hhi);
    [lia | intros; lia | intros; lia |].
  cbn zeta. unfold sort_Search. split_and!; [lia| |done]. intros. apply Hlo. lia.
Qed.

(** ** Sorted traces *)

Definition ts_le (a b : Access) : Prop := Timestamp a <= Timestamp b.
Definition sorted (l : SerialAccess) : Prop := StronglySorted ts_le l.

#[export] Instance ts_le_trans : Transitive ts_le.
Proof. intros a b c. unfold ts_le. lia. Qed.

#[export] Instance ts_le_dec : RelDecision ts_le.
Proof. intros a b. unfold ts_le. apply _. Defined.

#[export] Instance sorted_dec l : Decision (sorted l).
Proof.
  destruct (decide (Sorted ts_le l)) as [H|H]; [left|right].
  - apply Sorted_StronglySorted; [apply _|done].
  - intros ?%StronglySorted_Sorted. done.
Defined.

Lemma sorted_lookup l i j a b :
  sorted l -> l !! i = Some a -> l !! j = Some b -> (i < j)%nat -> ts_le a b.
Proof.
  intros Hs. revert i j. induction Hs as [|x l Hs IH Hx]; intros i j Hi Hj Hij; [done|].
  destruct i, j; simplify_eq/=; try lia.
  - eapply Forall_lookup_1; [exact Hx|done].
  - eapply IH; [done..|lia].
Qed.

(** The searches the code makes: on a sorted trace they return the length of
    the prefix with smaller timestamps. *)
Lemma search_sorted l ts :
  sorted l ->
  let r := sort_Search (length l) (at_or_after l ts) in
  (r <= length l)%nat /\
  Forall (fun a => Timestamp a < ts) (take r l) /\
  Forall (fun a => ts <= Timestamp a) (drop r l).
Proof.
  intros Hs. destruct (search_first (length l) (at_or_after l ts)) as (Hr & Hlo & Hhi).
  { unfold at_or_after. intros a b Hab. destruct (l !! a) as [x|] eqn:Ha; [|done].
    destruct (lookup_lt_is_Some_2 l b ltac:(lia)) as [y Hb]. rewrite Hb.
    rewrite !Z.leb_le. destruct (decide (a = b)) as [->|]; [by simplify_eq|].
    pose proof (sorted_lookup l a b x y Hs Ha Hb ltac:(lia)). unfold ts_le in *. lia. }
  cbn zeta in *. generalize dependent (sort_Search (length l) (at_or_after l ts)).
  intros r Hr Hlo Hhi. split_and!; [done|..].
  - apply Forall_lookup_2. intros i x. rewrite lookup_take_Some. intros [Hx Hi].
    specialize (Hlo i Hi). unfold at_or_after in Hlo. rewrite Hx in Hlo. bool_to_prop. lia.
  - apply Forall_lookup_2. intros i x. rewrite lookup_drop. intros Hx.
    pose proof (lookup_lt_Some _ _ _ Hx).
    specialize (Hhi _ (conj (Nat.le_add_r _ i) ltac:(done))).
    unfold at_or_after in Hhi. rewrite Hx in Hhi. bool_to_prop. lia.
Qed.

(** [Add] inserts at the search position. *)
Lemma Add_insert l a :
  sorted l ->
  SerialAccess_Add l a =
    let r := sort_Search (length l) (at_or_after l (Timestamp a)) in take r l ++ a :: drop r l.
Proof.
  intros Hs. destruct (search_sorted l (Timestamp a) Hs) as (Hr & _). unfold SerialAccess_Add.
  cbn zeta in *. remember (sort_Search _ _) as r. destruct (Nat.eqb_spec r (length l)) as [->|].
  { by rewrite take_ge, drop_ge by lia. }
  destruct (lookup_lt_is_Some_2 l r ltac:(lia)) as [x Hx].
  rewrite (take_S_r _ _ _ Hx), <- app_assoc.
  replace r with (length (take r l) + 0)%nat at 1 by (rewrite length_take; lia).
  by rewrite insert_app_r.
Qed.

Lemma Add_perm l a : sorted l -> SerialAccess_Add l a ≡ₚ a :: l.
Proof.
  intros Hs. rewrite Add_insert by done. cbn zeta.
  by rewrite <- Permutation_middle, take_drop.
Qed.

Lemma Add_sorted l a : sorted l -> sorted (SerialAccess_Add l a).
Proof.
  intros Hs. rewrite Add_insert by done. destruct (search_sorted l (Timestamp a) Hs) as (_ & Hlo & Hhi).
  cbn zeta in *. remember (sort_Search _ _) as r. unfold sorted in *.
  rewrite <- (take_drop r l) in Hs. apply StronglySorted_app in Hs as (Hcross & H1 & H2).
  apply StronglySorted_app. split_and!; [|done|].
  - intros x y Hx [->|Hy]%elem_of_cons; [|by apply Hcross].
    rewrite Forall_forall in Hlo. specialize (Hlo _ Hx). unfold ts_le. lia.
  - constructor; [done|]. eapply Forall_impl; [done|]. unfold ts_le. done.
Qed.
#[export] Hint Resolve Add_sorted : ozz.

Lemma foldl_Add l s :
  sorted s -> sorted (foldl SerialAccess_Add s l) /\ foldl SerialAccess_Add s l ≡ₚ l ++ s.
Proof.
  revert s. induction l as [|a l IH]; intros s Hs; [done|]. cbn [foldl].
  destruct (IH (SerialAccess_Add s a) (Add_sorted _ _ Hs)) as [? E]. split; [done|].
  rewrite E, Add_perm by done. symmetry. apply Permutation_middle.
Qed.

Lemma combine_loop_spec s1 s2 s :
  sorted s -> sorted (combine_loop s1 s2 s) /\ combine_loop s1 s2 s ≡ₚ s1 ++ s2 ++ s.
Proof.
  revert s2 s. induction s1 as [|a1 s1 IH1].
  { intros s2 s Hs. replace (combine_loop [] s2 s) with (foldl SerialAccess_Add s s2)
      by (by destruct s2). exact (foldl_Add s2 s Hs). }
  induction s2 as [|a2 s2 IH2]; intros s Hs.
  { apply (foldl_Add (a1 :: s1)). done. }
  cbn [combine_loop]. destruct (Timestamp a1 <? Timestamp a2).
  - destruct (IH1 (a2 :: s2) (SerialAccess_Add s a1)) as [? E]; [by apply Add_sorted|].
    split; [done|]. rewrite E, Add_perm by done. by rewrite <- !Permutation_middle.
  - destruct (IH2 (SerialAccess_Add s a2)) as [? E]; [by apply Add_sorted|].
    split; [done|]. rewrite E, Add_perm by done. apply Permutation_app_head.
    symmetry. apply (Permutation_middle s2 s a2).
Qed.

Lemma single_thread_spec l :
  SingleThread l = true <-> forall a b, a ∈ l -> b ∈ l -> Thread a = Thread b.
Proof.
  induction l as [|a [|b l] IH]; [set_solver|set_solver|].
  change (SingleThread (a :: b :: l)) with
    (if Thread b =? Thread a then SingleThread (b :: l) else false).
  destruct (Z.eqb_spec (Thread b) (Thread a)) as [E|E].
  - rewrite IH. split; [|set_solver].
    intros Hl x y Hx Hy.
    assert (forall z, z ∈ a :: b :: l -> Thread z = Thread b) as Hz; [|by rewrite (Hz x Hx), (Hz y Hy)].
    intros z [->|Hz]%elem_of_cons; [done|]. apply Hl; [done|set_solver].
  - split; [done|]. intros Hl. destruct E. apply Hl; set_solver.
Qed.

(** What [FindForeachThread] keeps in [res]: the accesses found so far, with
    [chk] the number found per thread. *)
Definition count_thread (t : Z) (l : SerialAccess) : Z :=
  alen (filter (fun a => Thread a = t) l).

Lemma count_thread_perm t l l' : l ≡ₚ l' -> count_thread t l = count_thread t l'.
Proof. intros H. unfold count_thread, alen. by rewrite H. Qed.

Lemma find_foreach_loop_spec inst max chk res serial :
  0 <= max -> sorted res ->
  (forall t, default 0 (chk !! t) = count_thread t res /\ count_thread t res <= max) ->
  Forall (fun a => Inst a = inst) res ->
  let r := find_foreach_loop inst max chk res serial in
  sorted r /\ Forall (fun a => Inst a = inst) r /\
  (forall a, a ∈ r -> a ∈ res \/ a ∈ serial) /\ (forall t, count_thread t r <= max).
Proof.
  intros Hmax. revert chk res. induction serial as [|a serial IH]; intros chk res Hs Hc Hi.
  { cbn. split_and!; [done..|by left|]. intros t. apply Hc. }
  cbn zeta. cbn [find_foreach_loop].
  set (p := if (Inst a =? inst) && _ then _ else _).
  assert (Hp : sorted p.2 /\ Forall (fun a => Inst a = inst) p.2 /\
               (forall x, x ∈ p.2 -> x ∈ res \/ x = a) /\
               forall t, default 0 (p.1 !! t) = count_thread t p.2 /\ count_thread t p.2 <= max).
  { subst p. destruct (_ && _) eqn:Hb; cbn [fst snd]; [|split_and!; auto].
    bool_to_prop. pose proof (Add_perm res a Hs) as Hp. split_and!.
    - by apply Add_sorted.
    - rewrite Hp. by constructor.
    - intros x. rewrite Hp. set_solver.
    - intros t. rewrite (count_thread_perm t _ _ Hp). unfold count_thread in *.
      rewrite filter_cons. destruct (Hc t) as [E Hle]. case_decide as Ht.
      + subst t. rewrite lookup_insert_eq. cbn [from_option]. unfold id, alen in *. cbn [length]. lia.
      + rewrite lookup_insert_ne by done. done. }
  destruct p as [chk' res']. cbn [fst snd] in Hp. destruct Hp as (H1 & H2 & H3 & H4).
  case_match.
  - split_and!; [done..| |intros; apply H4]. intros x Hx. destruct (H3 x Hx); set_solver.
  - destruct (IH chk' res' H1 H4 H2) as (? & ? & Hin & ?). split_and!; [done..| |done].
    intros x Hx. destruct (Hin x Hx) as [Hx'|]; [|set_solver]. destruct (H3 x Hx'); set_solver.
Qed.

(** ** Properties *)

(** The bytes of an access. *)
Definition touches (a : Access) (x : Z) : Prop := Addr a <= x < Addr a + Size a.

(** C40. Every way to build a trace keeps it in timestamp order and loses or
    invents no access: [SerializeAccess] sorts its argument, [Combine] merges
    two traces (in any order), and [FindForeachThread] selects at most [max]
    accesses per thread, all of them executions of the instruction. *)
Theorem serial_access_well_formed `{SortSlice} (accs : list Access) (s1 s2 : SerialAccess)
    (inst max : Z) :
  0 <= max ->
  (sorted (SerializeAccess accs) /\ SerializeAccess accs ≡ₚ accs) /\
  (sorted (Combine s1 s2) /\ Combine s1 s2 ≡ₚ s1 ++ s2) /\
  (sorted (FindForeachThread s1 inst max) /\
   (forall a, a ∈ FindForeachThread s1 inst max -> a ∈ s1 /\ Inst a = inst) /\
   (forall t, count_thread t (FindForeachThread s1 inst max) <= max)).
Proof.
  intros Hmax. split_and!.
  - apply foldl_Add. constructor.
  - unfold SerializeAccess. destruct (foldl_Add (sort_Slice Timestamp accs) []) as [_ E]; [constructor|].
    rewrite E, app_nil_r. apply sort_Slice_perm.
  - apply combine_loop_spec. constructor.
  - destruct (combine_loop_spec s1 s2 []) as [_ E]; [constructor|]. by rewrite app_nil_r in E.
  - apply find_foreach_loop_spec; [done|constructor| |constructor]. intros t. by rewrite lookup_empty.
  - destruct (find_foreach_loop_spec inst max ∅ [] s1) as (_ & Hf & Hin & _);
      [done|constructor|intros t; by rewrite lookup_empty|constructor|].
    intros a Ha. rewrite Forall_forall in Hf. split; [|by apply Hf].
    destruct (Hin a Ha) as [[]%not_elem_of_nil|]; done.
  - apply find_foreach_loop_spec; [done|constructor| |constructor]. intros t. by rewrite lookup_empty.
Qed.

(** A sort for the examples: stdpp's merge sort. *)
Definition key_le {A} (key : A -> Z) (a b : A) : Prop := key a <= key b.

#[export] Instance key_le_dec {A} (key : A -> Z) : RelDecision (key_le key).
Proof. intros a b. unfold key_le. apply _. Defined.

#[export] Instance key_le_trans {A} (key : A -> Z) : Transitive (key_le key).
Proof. intros a b c. unfold key_le. lia. Qed.

#[export] Instance key_le_total {A} (key : A -> Z) : Total (key_le key).
Proof. intros a b. unfold key_le. lia. Qed.

Definition merge_sort_slice : SortSlice := {|
  sort_Slice A key l := merge_sort (key_le key) l;
  sort_Slice_perm A key l := merge_sort_Permutation (key_le key) l;
  sort_Slice_sorted A key l := StronglySorted_merge_sort (key_le key) l
|}.

(** Three accesses of two threads, out of order. *)
Definition sample_accesses : list Access :=
  [mk_access 0x10 0x100 8 TypeLoad 7 1; mk_access 0x20 0x100 4 TypeStore 3 0;
   mk_access 0x10 0x108 8 TypeLoad 5 1].

Lemma serial_access_well_formed_witness :
  SerializeAccess (H := merge_sort_slice) sample_accesses ≡ₚ sample_accesses /\
  Timestamp <$> SerializeAccess (H := merge_sort_slice) sample_accesses = [3; 5; 7] /\
  count_thread 1 (FindForeachThread sample_accesses 0x10 1) = 1.
Proof.
  destruct (serial_access_well_formed (H := merge_sort_slice)
              sample_accesses sample_accesses [] 0x10 1 ltac:(lia)) as ([_ E] & _ & _).
  split; [exact E|]. split; vm_compute; reflexivity.
Defined.

(** [FindIndex] on a trace in timestamp order: [-1] exactly when no
    access has the timestamp looked for, and otherwise the index of the first
    one. *)
Theorem find_index_spec (serial : SerialAccess) (acc : Access) :
  sorted serial ->
  match FindIndex serial acc with
  | -1 => forall a, a ∈ serial -> Timestamp a <> Timestamp acc
  | i => 0 <= i /\
         (exists a, serial !! Z.to_nat i = Some a /\ Timestamp a = Timestamp acc) /\
         (forall j a, (j < Z.to_nat i)%nat -> serial !! j = Some a ->
                      Timestamp a < Timestamp acc)
  end.
Proof.
  intros Hs. destruct (search_sorted serial (Timestamp acc) Hs) as (Hr & Hlo & Hhi).
  unfold FindIndex. cbn zeta in *. generalize dependent (sort_Search (length serial) (at_or_after serial (Timestamp acc))).
  intros r Hr Hlo Hhi. destruct (serial !! r) as [x|] eqn:Hx; cycle 1.
  { apply lookup_ge_None in Hx. rewrite take_ge in Hlo by lia.
    intros a Ha. rewrite Forall_forall in Hlo. specialize (Hlo a Ha). lia. }
  destruct (Z.eqb_spec (Timestamp x) (Timestamp acc)) as [E|E].
  - assert (0 <= Z.of_nat r) as H0 by lia. rewrite <- (Nat2Z.id r) in Hx, Hlo.
    destruct (Z.of_nat r) as [|p|p] eqn:Er; [| |lia]; (split; [done|]; split; [by exists x|]);
      intros j a Hj Ha; (eapply (Forall_lookup_1 _ _ j a Hlo); by apply lookup_take_Some).
  - intros a Ha. rewrite <- (take_drop r serial), elem_of_app in Ha. rewrite !Forall_forall in *.
    destruct Ha as [Ha|Ha]; [specialize (Hlo _ Ha); lia|].
    rewrite (drop_S _ _ _ Hx), elem_of_cons in Ha. destruct Ha as [->|Ha]; [done|].
    assert (Timestamp acc < Timestamp x).
    { rewrite (drop_S _ _ _ Hx) in Hhi. pose proof (Hhi x ltac:(set_solver)). lia. }
    apply list_elem_of_lookup_1 in Ha as [k Hk]. rewrite lookup_drop in Hk.
    pose proof (sorted_lookup _ _ _ _ _ Hs Hx Hk ltac:(lia)). unfold ts_le in *. lia.
Qed.

Lemma find_index_spec_witness :
  let s := SerializeAccess (H := merge_sort_slice) sample_accesses in
  sorted s /\ FindIndex s (mk_access 0 0 0 0 5 0) = 1 /\
  (exists a, s !! 1%nat = Some a /\ Timestamp a = 5) /\
  (forall a, a ∈ s -> Timestamp a <> 4).
Proof.
  assert (Hs : sorted (SerializeAccess (H := merge_sort_slice) sample_accesses))
    by (vm_compute; repeat constructor; discriminate).
  pose proof (find_index_spec _ (mk_access 0 0 0 0 5 0) Hs) as H5.
  pose proof (find_index_spec _ (mk_access 0 0 0 0 4 0) Hs) as H4.
  split; [exact Hs|]. split; [vm_compute; reflexivity|]. split.
  - exact (proj1 (proj2 H5)).
  - exact H4.
Defined.

(** [Overlapped] is symmetric, and for accesses that do not run past the
    end of the 32-bit address space it holds exactly when some byte belongs
    to both. *)
Theorem overlapped_spec (a b : Access) :
  access_ok a -> access_ok b ->
  0 < Size a -> Addr a + Size a <= 2 ^ 32 -> 0 < Size b -> Addr b + Size b <= 2 ^ 32 ->
  Overlapped a b = Overlapped b a /\
  (Overlapped a b = true <-> exists x, touches a x /\ touches b x).
Proof.
  intros Ha Hb ? ? ? ?. unfold access_ok in *. unfold Overlapped, touches.
  rewrite !wrapu_id by lia. split.
  - f_equal. apply orb_comm.
  - rewrite negb_true_iff, orb_false_iff, !Z.ltb_ge. split.
    + intros. exists (Z.max (Addr a) (Addr b)). lia.
    + intros (x & ? & ?). lia.
Qed.

Lemma overlapped_spec_witness :
  let a := mk_access 0x10 0x100 8 TypeLoad 7 1 in
  let b := mk_access 0x20 0x104 4 TypeStore 3 0 in
  Overlapped a b = true /\ exists x, touches a x /\ touches b x.
Proof.
  cbn zeta. split; [vm_compute; reflexivity|].
  apply (overlapped_spec (mk_access 0x10 0x100 8 TypeLoad 7 1)
                         (mk_access 0x20 0x104 4 TypeStore 3 0));
    first [unfold access_ok, TypeLoad, TypeStore; simpl; lia | simpl; lia | vm_compute; reflexivity].
Defined.
