(* ===== verification/Comms.v ===== *)
(** * Communications and knots (pkg/interleaving: communication.go, knot.go,
      segment.go)

    A communication is a pair of accesses of two threads to the same memory
    of which the first happens before the second; a knot is a pair of
    communications.  The file models the predicates on them and their FNV-1a
    hashes, and shows that [Communication_Conflict] is the existence of a
    happens-before cycle, that [Knot_Imply] is a preorder, and that a
    communication's hashed bytes identify its two instructions. *)

From stdpp Require Import base list gmap relations.
From Stdlib Require Import ZArith Lia.
From S2P Require Import Prelude Accesses.

Local Open Scope Z_scope.

Record Communication := mk_comm { Former : Access; Latter : Access }.
Record Knot := mk_knot { knot0 : Communication; knot1 : Communication }.

#[export] Instance comm_eq_dec : EqDecision Communication.
Proof. solve_decision. Defined.
#[export] Instance knot_eq_dec : EqDecision Knot.
Proof. solve_decision. Defined.

(** ** communication.go *)

Definition Communication_Imply (inner outer : Communication) : bool :=
  (Timestamp (Former outer) <=? Timestamp (Former inner)) &&
  (Timestamp (Latter inner) <=? Timestamp (Latter outer)).

Definition Communication_Same (comm comm0 : Communication) : bool :=
  (Inst (Former comm) =? Inst (Former comm0)) && (Inst (Latter comm) =? Inst (Latter comm0)).

Definition Parallel (comm0 comm1 : Communication) : bool :=
  (Thread (Former comm0) =? Thread (Former comm1)) &&
  (Thread (Latter comm0) =? Thread (Latter comm1)).

Definition Conflict (comm0 comm1 : Communication) : bool :=
  if Parallel comm0 comm1 then false
  else
    ((Timestamp (Latter comm0) <=? Timestamp (Former comm1)) &&
     (Timestamp (Latter comm1) <=? Timestamp (Former comm0))) ||
    ((Timestamp (Latter comm1) <=? Timestamp (Former comm0)) &&
     (Timestamp (Latter comm0) <=? Timestamp (Former comm1))).

Definition HappenBefore (comm0 comm1 : Communication) : bool :=
  (Timestamp (Latter comm0) <? Timestamp (Former comm1)) &&
  (Timestamp (Former comm0) <? Timestamp (Latter comm1)).

(** ** knot.go *)

Definition Knot_Same (knot other : Knot) : bool :=
  (Communication_Same (knot0 knot) (knot0 other) && Communication_Same (knot1 knot) (knot1 other)) ||
  (Communication_Same (knot0 knot) (knot1 other) && Communication_Same (knot1 knot) (knot0 other)).

Inductive KnotType := KnotInvalid | KnotParallel | KnotOverlapped | KnotSeparated.

Definition Knot_Type (knot : Knot) : KnotType :=
  let comm0 := knot0 knot in
  let comm1 := knot1 knot in
  if Parallel comm0 comm1 then KnotParallel
  else if Conflict comm0 comm1 || Conflict comm1 comm0 then KnotInvalid
  else if HappenBefore comm0 comm1 || HappenBefore comm1 comm0 then KnotSeparated
  else KnotOverlapped.

(** [None] is [ErrorNotParallel]. *)
Definition Knot_Imply (k0 k1 : Knot) : option bool :=
  let '(comm00, comm01) := (knot0 k0, knot1 k0) in
  let '(comm10, comm11) := (knot0 k1, knot1 k1) in
  let '(comm00, comm01) :=
    if negb (Parallel comm10 comm00) then (comm01, comm00) else (comm00, comm01) in
  if negb (Parallel comm10 comm00) || negb (Parallel comm11 comm01) then None
  else Some (Communication_Imply comm00 comm10 && Communication_Imply comm01 comm11).

(** ** segment.go *)

(** [binary.LittleEndian.PutUint32]: the four bytes [writer.write] stores. *)
Definition PutUint32 (v : Z) : list Z :=
  [v `mod` 256; (v / 2 ^ 8) `mod` 256; (v / 2 ^ 16) `mod` 256; (v / 2 ^ 24) `mod` 256].

(** [hash/fnv]'s 64-bit FNV-1a. *)
Definition fnv_offset64 : Z := 14695981039346656037.
Definition fnv_prime64 : Z := 1099511628211.
Definition hash (b : list Z) : Z :=
  foldl (fun h c => u64 (Z.lxor h c * fnv_prime64)) fnv_offset64 b.

(** The 16-byte buffer of [Communication.Hash]: four consecutive writes fill
    it exactly. *)
Definition comm_bytes (comm : Communication) : list Z :=
  PutUint32 (Inst (Former comm)) ++ PutUint32 0 ++ PutUint32 (Inst (Latter comm)) ++ PutUint32 1.

Definition Communication_Hash (comm : Communication) : Z := hash (comm_bytes comm).

Definition normalized (acc last : Access) : Z :=
  if Timestamp last <? Timestamp acc then 1 else 0.

(** The 32-byte buffer of [Knot.Hash]: for each access its instruction and
    whether it comes after the other communication's second access. *)
Definition knot_bytes (knot : Knot) : list Z :=
  let side c other :=
    PutUint32 (Inst (Former c)) ++ PutUint32 (normalized (Former c) (Latter other)) ++
    PutUint32 (Inst (Latter c)) ++ PutUint32 (normalized (Latter c) (Latter other)) in
  side (knot0 knot) (knot1 knot) ++ side (knot1 knot) (knot0 knot).

Definition Knot_Hash (knot : Knot) : Z := hash (knot_bytes knot).

(** ** Happens-before *)

(** Program order within a thread; one step of happens-before goes along
    program order to a communication, through it, and on in program order. *)
Definition po (a b : Access) : Prop := Thread a = Thread b /\ Timestamp a <= Timestamp b.

Definition hb_step (cs : list Communication) (a b : Access) : Prop :=
  exists c, c ∈ cs /\ po a (Former c) /\ po (Latter c) b.

(** A communication is between two threads. *)
Definition crosses (c : Communication) : Prop := Thread (Former c) <> Thread (Latter c).

(** All accesses of the two communications are of threads [t] and [u]. *)
Definition two_threads (t u : Z) (c : Communication) : Prop :=
  Thread (Former c) ∈ [t; u] /\ Thread (Latter c) ∈ [t; u].

Lemma parallel_spec c0 c1 :
  Parallel c0 c1 = true <->
  Thread (Former c0) = Thread (Former c1) /\ Thread (Latter c0) = Thread (Latter c1).
Proof. unfold Parallel. by rewrite andb_true_iff, !Z.eqb_eq. Qed.

#[export] Instance parallel_equiv : Equivalence (fun a b => Parallel a b = true).
Proof.
  split; [intros a|intros a b|intros a b c]; rewrite !parallel_spec; intuition congruence.
Qed.

Lemma parallel_refl c : Parallel c c = true.
Proof. by rewrite parallel_spec. Qed.

Lemma conflict_spec c0 c1 :
  Parallel c0 c1 = false ->
  Conflict c0 c1 = true <->
  Timestamp (Latter c0) <= Timestamp (Former c1) /\ Timestamp (Latter c1) <= Timestamp (Former c0).
Proof.
  intros H. unfold Conflict. rewrite H, orb_true_iff, !andb_true_iff, !Z.leb_le. tauto.
Qed.

(** Two communications that cross the same two threads and are not parallel
    cross them in opposite directions. *)
Lemma antiparallel t u c0 c1 :
  two_threads t u c0 -> two_threads t u c1 -> crosses c0 -> crosses c1 ->
  Parallel c0 c1 = false ->
  Thread (Latter c0) = Thread (Former c1) /\ Thread (Latter c1) = Thread (Former c0).
Proof.
  unfold two_threads, crosses. intros [H1 H2] [H3 H4] Hx0 Hx1 Hp.
  apply not_true_iff_false in Hp. rewrite parallel_spec in Hp.
  rewrite !elem_of_cons, elem_of_nil in H1, H2, H3, H4.
  destruct H1 as [?|[?|[]]], H2 as [?|[?|[]]], H3 as [?|[?|[]]], H4 as [?|[?|[]]];
    split; congruence || (exfalso; apply Hp; split; congruence).
Qed.

(** ** Properties *)

(** C39. [Conflict] decides whether two communications of two threads
    contradict each other: for communications that run in opposite directions
    between the same two threads it holds exactly when happens-before, built
    from the communications and the program order of the threads, has a
    cycle. *)
Theorem conflict_iff_cycle (t u : Z) (c0 c1 : Communication) :
  two_threads t u c0 -> two_threads t u c1 -> crosses c0 -> crosses c1 ->
  Parallel c0 c1 = false ->
  Conflict c0 c1 = true <-> exists a, tc (hb_step [c0; c1]) a a.
Proof.
  intros Ht0 Ht1 Hx0 Hx1 Hp. rewrite conflict_spec by done.
  destruct (antiparallel t u c0 c1) as [E0 E1]; [done..|]. unfold crosses in *. split.
  - intros [H0 H1]. exists (Former c0). eapply tc_l; [|apply tc_once].
    + exists c0. split; [set_solver|]. split; split; [done..|exact H0].
    + exists c1. split; [set_solver|]. split; split; [done..|exact H1].
  - intros [a Ha]. unfold hb_step, po in Ha.
    assert (Hnext : forall x y, tc (hb_step [c0; c1]) x y -> exists z, hb_step [c0; c1] x z /\
              (z = y \/ tc (hb_step [c0; c1]) z y)).
    { intros x y Hxy. destruct Hxy as [x y|x z y]; eauto. }
    destruct (Hnext _ _ Ha) as (b & Hab & [->|Hb]).
    { destruct Hab as (c & Hc & [? _] & [? _]). set_solver by congruence. }
    destruct (Hnext _ _ Hb) as (d & Hbd & Hd).
    assert (exists e, hb_step [c0; c1] d e) as (e & Hde).
    { destruct Hd as [->|Hd]; [by exists b|]. destruct (Hnext _ _ Hd) as (e & ? & _). by exists e. }
    unfold hb_step, po in Hab, Hbd, Hde.
    destruct Hab as (x & Hx & [? ?] & [? ?]), Hbd as (y & Hy & [? ?] & [? ?]),
      Hde as (z & Hz & [? ?] & [? ?]).
    rewrite !elem_of_cons, elem_of_nil in Hx, Hy, Hz.
    destruct Hx as [->|[->|[]]], Hy as [->|[->|[]]], Hz as [->|[->|[]]];
      first [split; lia | congruence].
Qed.

(** The knots of the unit tests: one that is a cycle, one that is not. *)
Definition at_ (ts thread : Z) : Access := mk_access 0 0 0 0 ts thread.
Definition invalid_knot : Knot :=
  mk_knot (mk_comm (at_ 3 1) (at_ 0 0)) (mk_comm (at_ 2 0) (at_ 1 1)).

Lemma conflict_iff_cycle_witness :
  Knot_Type invalid_knot = KnotInvalid /\
  exists a, tc (hb_step [knot0 invalid_knot; knot1 invalid_knot]) a a.
Proof.
  split; [reflexivity|].
  apply (conflict_iff_cycle 0 1); [..|reflexivity|reflexivity];
    first [split; set_solver | discriminate].
Defined.

(** [Knot.Type] on the other knots of the unit tests. *)
Example knot_types :
  Knot_Type <$>
    [mk_knot (mk_comm (at_ 0 0) (at_ 2 1)) (mk_comm (at_ 1 0) (at_ 3 1));
     mk_knot (mk_comm (at_ 2 1) (at_ 0 0)) (mk_comm (at_ 3 1) (at_ 1 0));
     mk_knot (mk_comm (at_ 0 0) (at_ 3 1)) (mk_comm (at_ 1 1) (at_ 2 0));
     mk_knot (mk_comm (at_ 0 1) (at_ 2 0)) (mk_comm (at_ 1 0) (at_ 3 1));
     mk_knot (mk_comm (at_ 0 1) (at_ 1 0)) (mk_comm (at_ 2 0) (at_ 3 1));
     mk_knot (mk_comm (at_ 2 0) (at_ 3 1)) (mk_comm (at_ 0 1) (at_ 1 0))] =
  [KnotParallel; KnotParallel; KnotOverlapped; KnotOverlapped; KnotSeparated; KnotSeparated].
Proof. reflexivity. Qed.

(** [Knot_Imply] answers [true] for a matching of the communications. *)
Lemma imply_spec k0 k1 :
  Knot_Imply k0 k1 = Some true <->
  let matches a b := Parallel b a = true /\ Communication_Imply a b = true in
  if Parallel (knot0 k1) (knot0 k0)
  then matches (knot0 k0) (knot0 k1) /\ matches (knot1 k0) (knot1 k1)
  else matches (knot1 k0) (knot0 k1) /\ matches (knot0 k0) (knot1 k1).
Proof.
  unfold Knot_Imply. cbn zeta.
  destruct (Parallel (knot0 k1) (knot0 k0)) eqn:E; cbn [negb].
  - rewrite E. cbn [negb orb]. destruct (Parallel (knot1 k1) (knot1 k0)); cbn [negb]; [|naive_solver].
    split; [intros [= [??]%andb_true_iff]; done|intros [[_ ->] [_ ->]]; done].
  - destruct (Parallel (knot0 k1) (knot1 k0)), (Parallel (knot1 k1) (knot0 k0)); cbn [negb orb];
      [|naive_solver..].
    split; [intros [= [??]%andb_true_iff]; done|intros [[_ ->] [_ ->]]; done].
Qed.

Lemma comm_imply_spec a b :
  Communication_Imply a b = true <->
  Timestamp (Former b) <= Timestamp (Former a) /\ Timestamp (Latter a) <= Timestamp (Latter b).
Proof. unfold Communication_Imply. by rewrite andb_true_iff, !Z.leb_le. Qed.

(** Knots that imply each other are ordered: [Knot_Imply] is a preorder on
    knots (an error is never a yes), and it answers with an error exactly
    when the communications of the two knots cannot be matched up in
    parallel pairs. *)
Theorem knot_imply_preorder :
  (forall k, Knot_Imply k k = Some true) /\
  (forall k0 k1 k2, Knot_Imply k0 k1 = Some true -> Knot_Imply k1 k2 = Some true ->
                    Knot_Imply k0 k2 = Some true) /\
  (forall k0 k1, Knot_Imply k0 k1 = None <->
     ~ (Parallel (knot0 k1) (knot0 k0) = true /\ Parallel (knot1 k1) (knot1 k0) = true) /\
     ~ (Parallel (knot0 k1) (knot0 k0) = false /\
        Parallel (knot0 k1) (knot1 k0) = true /\ Parallel (knot1 k1) (knot0 k0) = true)).
Proof.
  split; [|split].
  - intros k. rewrite imply_spec. rewrite !parallel_refl.
    cbv beta zeta. rewrite !parallel_refl, !comm_imply_spec. repeat split; lia.
  - intros k0 k1 k2. rewrite !imply_spec. cbv beta zeta.
    destruct (Parallel (knot0 k1) (knot0 k0)) eqn:E1, (Parallel (knot0 k2) (knot0 k1)) eqn:E2,
      (Parallel (knot0 k2) (knot0 k0)) eqn:E3;
      rewrite ?comm_imply_spec; rewrite <- ?not_true_iff_false in *; rewrite ?parallel_spec in *;
      intros [[? ?] [? ?]] [[? ?] [? ?]]; intuition (lia || congruence).
  - intros k0 k1. unfold Knot_Imply.
    destruct (Parallel (knot0 k1) (knot0 k0)) eqn:E1; cbn [negb];
      [rewrite E1; destruct (Parallel (knot1 k1) (knot1 k0))
      |destruct (Parallel (knot0 k1) (knot1 k0)), (Parallel (knot1 k1) (knot0 k0))];
      cbn [negb orb]; naive_solver.
Qed.

(** Little-endian bytes determine the integer. *)
Lemma PutUint32_inj v w :
  0 <= v < 2 ^ 32 -> 0 <= w < 2 ^ 32 -> PutUint32 v = PutUint32 w -> v = w.
Proof.
  intros Hv Hw. unfold PutUint32. intros [= H0 H1 H2 H3].
  assert (Hd : forall x, 0 <= x < 2 ^ 32 ->
    x = x mod 256 + 2 ^ 8 * ((x / 2 ^ 8) mod 256) + 2 ^ 16 * ((x / 2 ^ 16) mod 256)
        + 2 ^ 24 * ((x / 2 ^ 24) mod 256)).
  { intros x Hx. rewrite (Z.mod_small (x / 2 ^ 24)) by
      (split; [apply Z.div_pos; lia | apply Z.div_lt_upper_bound; lia]).
    pose proof (Z.div_mod x 256 ltac:(lia)). pose proof (Z.div_mod (x / 2 ^ 8) 256 ltac:(lia)).
    pose proof (Z.div_mod (x / 2 ^ 16) 256 ltac:(lia)).
    replace (x / 2 ^ 24) with (x / 2 ^ 16 / 256) by (rewrite Z.div_div by lia; done).
    assert (x / 2 ^ 8 / 256 = x / 2 ^ 16) by (rewrite Z.div_div by lia; done).
    change (2 ^ 8) with 256 in *. lia. }
  rewrite (Hd v), (Hd w) by done. rewrite H0, H1, H2, H3. done.
Qed.

(** The identity under which the fuzzer deduplicates communications is
    that of their instructions: two communications are hashed from the same
    bytes exactly when they are [Same], so same instructions always collide,
    whatever the addresses and timestamps. *)
Lemma comm_hash_identity (c c' : Communication) :
  access_ok (Former c) -> access_ok (Latter c) -> access_ok (Former c') -> access_ok (Latter c') ->
  (comm_bytes c = comm_bytes c' <-> Communication_Same c c' = true) /\
  (Communication_Same c c' = true -> Communication_Hash c = Communication_Hash c').
Proof.
  intros (? & _) (? & _) (? & _) (? & _).
  assert (comm_bytes c = comm_bytes c' <-> Communication_Same c c' = true) as E.
  { unfold comm_bytes, Communication_Same. rewrite andb_true_iff, !Z.eqb_eq. split.
    - intros Hb. apply app_inj_1 in Hb; [|done]; destruct Hb as [E1 Hb].
      apply app_inj_1 in Hb; [|done]; destruct Hb as [_ Hb].
      apply app_inj_1 in Hb; [|done]; destruct Hb as [E2 _].
      split; by apply PutUint32_inj.
    - by intros [-> ->]. }
  split; [exact E|]. intros Hsame. unfold Communication_Hash. by rewrite (proj2 E Hsame).
Qed.

(** The unit tests of segment.go. *)
Example hashes_of_unit_tests :
  let inst i ts := mk_access i 0 0 0 ts 0 in
  Communication_Hash (mk_comm (inst 1 0) (inst 2 0)) <>
    Communication_Hash (mk_comm (inst 2 0) (inst 1 0)) /\
  Knot_Hash (mk_knot (mk_comm (inst 0 0) (inst 1 3)) (mk_comm (inst 1 1) (inst 0 2))) =
    Knot_Hash (mk_knot (mk_comm (inst 0 100) (inst 1 103)) (mk_comm (inst 1 101) (inst 0 102))).
Proof. vm_compute. split; [discriminate|reflexivity]. Qed.
