(* ===== verification/Hints.v ===== *)
(** * Hints, signals and flush vectors (pkg/interleaving: hint.go, signal.go,
      ssb.go)

    A hint says which accesses of a thread may be reordered around a critical
    communication.  From it the fuzzer derives a coverage signal, the
    scheduling points and the flush vector that tells the kernel's store
    buffer which instructions to delay. *)

From stdpp Require Import base list gmap sets strings.
From Stdlib Require Import ZArith Lia Znumtheory.
From S2P Require Import Prelude Accesses Comms.

Local Open Scope Z_scope.
Local Open Scope record_scope.

(** ** Go's maps and random numbers *)

(** Ranging over a map visits its entries in an unspecified order. *)
Class GoRange := {
  range_set : gset Z -> list Z;
  range_set_perm s : range_set s ≡ₚ elements s;
  range_map : forall {V : Type}, gmap Z V -> list (Z * V);
  range_map_perm {V : Type} (m : gmap Z V) : range_map m ≡ₚ map_to_list m
}.

(** [math/rand]: a generator and the two draws the code makes. *)
Class GoRand := {
  Rand : Type;
  Uint32 : Rand -> Z * Rand;
  Intn : Z -> Rand -> Z * Rand;
  Uint32_range r : 0 <= (Uint32 r).1 < 2 ^ 32;
  Intn_range n r : 0 < n -> 0 <= (Intn n r).1 < n
}.

(** A Go panic ends the process. *)
Abbreviation panic := exit_.

(** ** signal.go *)

(** A nil map and an empty one behave alike in every operation below. *)
Abbreviation Signal := (gset Z).

Definition Signal_Copy (i : Signal) : Signal := foldr (fun e c => {[e]} ∪ c) ∅ (elements i).

(** The loop of [Split]: [n] is decremented after each move and the loop
    stops when it reaches zero. *)
Fixpoint split_loop (es : list Z) (n : Z) (i c : Signal) : Signal * Signal :=
  match es with
  | [] => (i, c)
  | e :: es =>
      let i := i ∖ {[e]} in
      let c := {[e]} ∪ c in
      if n - 1 =? 0 then (i, c) else split_loop es (n - 1) i c
  end.

(** The signal left behind and the one returned. *)
Definition Signal_Split `{GoRange} (i : Signal) (n : Z) : Signal * Signal :=
  if bool_decide (i = ∅) then (i, ∅) else split_loop (range_set i) n i ∅.

Definition Signal_Serialize `{GoRange} (i : Signal) : list Z := range_set i.

Definition Deserialize (serial : list Z) : Signal := foldl (fun ret s => {[s]} ∪ ret) ∅ serial.

Definition Signal_Empty (i : Signal) : bool := bool_decide (size i = 0%nat).

(** What [i0] has and [i] has not. *)
Definition Signal_Diff (i i0 : Signal) : Signal :=
  set_fold (fun hsh diff => if bool_decide (hsh ∈ i) then diff else {[hsh]} ∪ diff) ∅ i0.

Definition Signal_Merge (i i1 : Signal) : Signal := set_fold (fun hsh i => {[hsh]} ∪ i) i i1.

Definition Signal_Len (i : Signal) : Z := Z.of_nat (size i).

Definition Signal_Intersect (s1 s2 : Signal) : Signal :=
  set_fold (fun s sign => if bool_decide (s ∈ s2) then {[s]} ∪ sign else sign) ∅ s1.

(** [fmt.Sprintf("%x\n", k)]: hexadecimal digits, most significant first. *)
Definition hex_digit (d : Z) : Z := if d <? 10 then 48 + d else 87 + d.
Fixpoint hex_digits (fuel : nat) (k : Z) : list Z :=
  match fuel with
  | O => []
  | S fuel => if k <? 16 then [hex_digit k] else hex_digits fuel (k / 16) ++ [hex_digit (k `mod` 16)]
  end.
Definition newline : Z := 10.
Definition Sprintf_x (k : Z) : list Z := hex_digits 8 k ++ [newline].

Definition ToHex `{GoRange} (i : Signal) : list Z := k ← range_set i; Sprintf_x k.

(** [bytes.Fields] on ASCII text: the maximal runs of non-space bytes. *)
Definition isspace (c : Z) : bool := ((9 <=? c) && (c <=? 13)) || (c =? 32).
Fixpoint fields_loop (word : list Z) (s : list Z) : list (list Z) :=
  match s with
  | [] => if bool_decide (word = []) then [] else [word]
  | c :: s =>
      if isspace c
      then (if bool_decide (word = []) then fields_loop [] s else word :: fields_loop [] s)
      else fields_loop (word ++ [c]) s
  end.
Definition bytes_Fields (s : list Z) : list (list Z) := fields_loop [] s.

(** [strconv.ParseUint(s, 16, 32)]; [None] is an error. *)
Definition hex_value (c : Z) : option Z :=
  if (48 <=? c) && (c <=? 57) then Some (c - 48)
  else if (97 <=? c) && (c <=? 102) then Some (c - 87)
  else if (65 <=? c) && (c <=? 70) then Some (c - 55)
  else None.
Fixpoint parse_digits (n : Z) (s : list Z) : option Z :=
  match s with
  | [] => Some n
  | c :: s =>
      d ← hex_value c;
      let n1 := n * 16 + d in
      if 2 ^ 32 - 1 <? n1 then None else parse_digits n1 s
  end.
Definition ParseUint16_32 (s : list Z) : option Z :=
  if bool_decide (s = []) then None else parse_digits 0 s.

(** One iteration of the loop of [FromHex]: it updates the signal in place
    and panics on a malformed field. *)
Definition read_field (raw : list Z) : prog Signal unit :=
  match ParseUint16_32 raw with
  | Some sig64 => modify (fun i => {[u32 sig64]} ∪ i)
  | None => panic "strconv.ParseUint"
  end.

Definition FromHex (ret : list Z) : prog Signal unit := foreach (bytes_Fields ret) read_field.

(** [CheckCoverage] is a stub: every path returns nil. *)
Definition CheckCoverage {H : Type} (seq : list SerialAccess) (hint : H) : Signal :=
  if negb (length seq =? 2)%nat then ∅ else ∅.

(** ** hint.go *)

Definition TestingStoreBarrier : bool := true.
Definition TestingLoadBarrier : bool := false.

Record Hint := mk_hint {
  PrecedingInsts : list Access;
  FollowingInsts : list Access;
  CriticalComm : Communication;
  Hint_Typ : bool
}.

Definition Score (hint : Hint) : Z :=
  let '(accs, accTyp) :=
    if Hint_Typ hint then (PrecedingInsts hint, TypeStore) else (FollowingInsts hint, TypeLoad) in
  foldl (fun score acc => if Typ acc =? u32 accTyp then score + 1 else score) 0 accs.

Definition offset_bias : Z := 0x01000193.
Definition prime : Z := 0x01000193.

(** The hash of a pair of instructions. *)
Definition coverage_hash (pivot acc : Access) : Z :=
  let s := u32 offset_bias in
  let s := Z.lxor s (Inst pivot) in
  let s := u32 (s * prime) in
  let s := Z.lxor s (Inst acc) in
  u32 (s * prime).

Definition Coverage (hint : Hint) : Signal :=
  let '(accs, pivot) :=
    if Hint_Typ hint then (PrecedingInsts hint, Former (CriticalComm hint))
    else (FollowingInsts hint, Latter (CriticalComm hint)) in
  foldl (fun sign acc => {[coverage_hash pivot acc]} ∪ sign) ∅ accs.

Definition invalidCriticalComm (hint : Hint) : bool :=
  (Inst (Former (CriticalComm hint)) =? 0) || (Inst (Latter (CriticalComm hint)) =? 0).

Definition Invalid (hint : Hint) : bool :=
  (alen (PrecedingInsts hint) =? 0) || (alen (FollowingInsts hint) =? 0) ||
  invalidCriticalComm hint.

Definition callInstSize : Z := 5.

Definition GenerateSchedule (hint : Hint) : list Access :=
  let c := CriticalComm hint in
  if Hint_Typ hint then [Former c]
  else [(Latter c) <| Inst := u32 (Inst (Latter c) - callInstSize) |>; Former c].

Definition Select (s1 s2 : list Hint) : list Hint :=
  let s2Cov := foldl (fun cov hint => Signal_Merge cov (Coverage hint)) ∅ s2 in
  foldl (fun res hint =>
    if negb (Signal_Len (Signal_Intersect s2Cov (Coverage hint)) =? 0) then res ++ [hint] else res)
    [] s1.

(** ** ssb.go *)

Record tableEntry := mk_table_entry { inst : Z; value : Z }.
Record FlushVector := mk_flush_vector { table : list tableEntry; vector : list Z }.

#[export] Instance flush_vector_eta : Eta FlushVector :=
  fun v => mk_flush_vector (table v) (vector v).

Definition FlushVector_Valid (vec : FlushVector) : bool :=
  (alen (table vec) =? 0) || (alen (vector vec) =? 0).

Definition AddTableEntry (vec : FlushVector) (i v : Z) : FlushVector :=
  vec <| table ::= fun t => t ++ [mk_table_entry i v] |>.
Definition AddVectorEntry (vec : FlushVector) (v : Z) : FlushVector :=
  vec <| vector ::= fun t => t ++ [v] |>.

Definition SerializeVector (vec : FlushVector) : list Z := vector vec.
Definition SerializeTable (vec : FlushVector) : list Z :=
  e ← table vec; [inst e; u64 (value e)].

(** Sign-extension of a kernel text address. *)
Definition uext (v : Z) : Z := Z.lor v 0xffffffff00000000.

(** The closure [_add_entry]: [ht] holds the instructions already added. *)
Definition add_entry (st : gset Z * list tableEntry) (i v : Z) : gset Z * list tableEntry :=
  let '(ht, table) := st in
  if bool_decide (i ∈ ht) then (ht, table)
  else ({[i]} ∪ ht, table ++ [mk_table_entry (uext i) v]).

Definition generateFlushVectorForHint (hint : Hint) : FlushVector :=
  let '(accs, critPoint) :=
    if Hint_Typ hint then (PrecedingInsts hint, Former (CriticalComm hint))
    else (FollowingInsts hint, Latter (CriticalComm hint)) in
  let st := foldl (fun st acc => add_entry st (Inst acc) 0) (∅, []) accs in
  let '(_, table) := add_entry st (Inst critPoint) 1 in
  mk_flush_vector table [].

Definition MAX_LEGNTH : Z := 10.
Definition MAX_VALUE : Z := 1.

(** The state of the generator's user: [None] is a nil [*rand.Rand]. *)
Section rand.
Context `{R : GoRand}.

Definition draw {A} (f : Rand -> A * Rand) : prog (option Rand) A := fun r =>
  match r with Some g => let '(x, g) := f g in Ret x (Some g) | None => Exit "nil dereference" end.

(** [vector[i] = r.Uint32() % (MAX_VALUE + 1)] for each of [n] indices. *)
Fixpoint draw_vector (n : nat) : prog (option Rand) (list Z) :=
  match n with
  | O => mret []
  | S n => v ← draw Uint32; vs ← draw_vector n; mret (v `mod` (MAX_VALUE + 1) :: vs)
  end.

Definition generateRandomFlushVector : prog (option Rand) FlushVector :=
  v ← draw Uint32;
  let len := u32 (v `mod` (MAX_LEGNTH - 1) + 2) in
  vs ← draw_vector (Z.to_nat len);
  mret (mk_flush_vector [] vs).

Definition doRandom (randomReordering : bool) : prog (option Rand) bool :=
  r ← gets id;
  if bool_decide (is_Some r) && randomReordering then
    x ← draw (Intn 1000); mret (x <? 5)
  else mret false.

Definition GenerateFlushVector (hint : Hint) (randomReordering : bool)
    : prog (option Rand) FlushVector :=
  if negb (Invalid hint) then
    b ← doRandom randomReordering;
    if negb b then mret (generateFlushVectorForHint hint) else generateRandomFlushVector
  else generateRandomFlushVector.
End rand.

(** ** Signals as sets *)

Lemma copy_id i : Signal_Copy i = i.
Proof.
  unfold Signal_Copy. rewrite <- (list_to_set_elements_L i) at 2.
  induction (elements i) as [|e l IH]; [done|]. cbn. by rewrite IH.
Qed.

Lemma diff_spec i i0 : Signal_Diff i i0 = i0 ∖ i.
Proof.
  unfold Signal_Diff. apply (set_fold_ind_L (fun b X => b = X ∖ i)); [set_solver|].
  intros x X r Hx ->. case_bool_decide; set_solver.
Qed.

Lemma merge_spec i i1 : Signal_Merge i i1 = i ∪ i1.
Proof.
  unfold Signal_Merge. apply (set_fold_ind_L (fun b X => b = i ∪ X)); set_solver.
Qed.

Lemma intersect_spec s1 s2 : Signal_Intersect s1 s2 = s1 ∩ s2.
Proof.
  unfold Signal_Intersect. apply (set_fold_ind_L (fun b X => b = X ∩ s2)); [set_solver|].
  intros x X r Hx ->. case_bool_decide; set_solver.
Qed.

Lemma deserialize_spec serial : Deserialize serial = list_to_set serial.
Proof.
  unfold Deserialize. rewrite <- (left_id_L ∅ (∪) (list_to_set serial)).
  generalize (∅ : gset Z). induction serial as [|s l IH]; intros X; cbn; [set_solver|].
  rewrite IH. set_solver.
Qed.

(** How many elements [Split] moves: [n], or all of them when [n] is not
    positive. *)
Definition split_count (n : Z) (len : nat) : nat :=
  if n <=? 0 then len else Nat.min (Z.to_nat n) len.

Lemma split_loop_spec es n i c :
  split_loop es n i c =
  let moved := take (split_count n (length es)) es in
  (i ∖ list_to_set moved, list_to_set moved ∪ c).
Proof.
  revert n i c. induction es as [|e es IH]; intros n i c; cbn zeta.
  { cbn. rewrite take_nil. cbn. f_equal; set_solver. }
  cbn [split_loop]. destruct (Z.eqb_spec (n - 1) 0) as [En|En].
  - assert (n = 1) as -> by lia. unfold split_count. cbn. f_equal; set_solver.
  - rewrite IH. cbn zeta.
    replace (split_count n (length (e :: es))) with (S (split_count (n - 1) (length es))).
    2:{ unfold split_count. cbn [length]. destruct (Z.leb_spec n 0), (Z.leb_spec (n - 1) 0); lia. }
    cbn. f_equal; set_solver.
Qed.

(** The signal operations are the set operations: [Diff] is what is new in
    its argument, [Merge] and [Intersect] are union and intersection, copying
    and serializing lose nothing, and [Split] moves [n] elements (all of them
    when there are fewer) into a signal disjoint from what it leaves. *)
Lemma signal_algebra `{GoRange} (i i0 : Signal) (n : Z) :
  0 < n ->
  Signal_Copy i = i /\ Deserialize (Signal_Serialize i) = i /\
  Signal_Diff i i0 = i0 ∖ i /\ Signal_Merge i i0 = i ∪ i0 /\ Signal_Intersect i i0 = i ∩ i0 /\
  (Signal_Empty i = true <-> i = ∅) /\
  let '(rest, moved) := Signal_Split i n in
  rest ∪ moved = i /\ rest ## moved /\ Signal_Len moved = Z.min n (Signal_Len i).
Proof.
  intros Hn.
  assert (list_to_set (range_set i) = i) as Hr by (by rewrite range_set_perm, list_to_set_elements_L).
  split_and!; [apply copy_id| |apply diff_spec|apply merge_spec|apply intersect_spec| |].
  - by rewrite deserialize_spec.
  - unfold Signal_Empty. rewrite bool_decide_eq_true. by rewrite size_empty_iff, leibniz_equiv_iff.
  - unfold Signal_Split, Signal_Len. case_bool_decide as Hi.
    { subst i. rewrite size_empty. split_and!; [set_solver..|lia]. }
    rewrite split_loop_spec. cbn zeta. set (k := split_count _ _).
    assert (Hsub : list_to_set (take k (range_set i)) ⊆ i).
    { rewrite <- Hr at 2. intros x. rewrite !elem_of_list_to_set.
      intros Hx. eapply elem_of_submseteq; [exact Hx|]. apply sublist_submseteq, sublist_take. }
    split_and!.
    + apply set_eq. intros x. destruct (decide (x ∈ (list_to_set (take k (range_set i)) : Signal)));
        set_solver.
    + set_solver.
    + rewrite union_empty_r_L, size_list_to_set.
      2:{ eapply sublist_NoDup; [|apply sublist_take]. rewrite range_set_perm. apply NoDup_elements. }
      rewrite length_take. subst k. unfold split_count.
      rewrite (Permutation_length (range_set_perm i)). unfold size, set_size. cbn.
      destruct (Z.leb_spec n 0); lia.
Qed.

(** Ranging in the order of the elements, for the examples. *)
Definition range_in_order : GoRange := {|
  range_set s := elements s;
  range_set_perm s := Permutation_refl _;
  range_map V m := map_to_list m;
  range_map_perm V m := Permutation_refl _
|}.

(** ** The hexadecimal format *)

Lemma hex_digit_value d : 0 <= d < 16 -> hex_value (hex_digit d) = Some d.
Proof.
  intros Hd. unfold hex_digit, hex_value.
  destruct (Z.ltb_spec d 10);
    repeat match goal with |- context [?x <=? ?y] => destruct (Z.leb_spec x y); try lia end;
    cbn [andb]; f_equal; lia.
Qed.

Lemma hex_digit_nospace d : 0 <= d < 16 -> isspace (hex_digit d) = false.
Proof.
  intros Hd. unfold hex_digit, isspace. destruct (Z.ltb_spec d 10);
    rewrite orb_false_iff, andb_false_iff, Z.eqb_neq, !Z.leb_gt; lia.
Qed.

Lemma parse_digits_app n a b :
  parse_digits n (a ++ b) = parse_digits n a ≫= fun m => parse_digits m b.
Proof.
  revert n. induction a as [|c a IH]; intros n; [done|]. cbn [app parse_digits].
  destruct (hex_value c); [|done]. cbn. by destruct (_ <? _).
Qed.

Lemma hex_digits_spec fuel k :
  0 <= k < 16 ^ Z.of_nat fuel -> k < 2 ^ 32 -> (0 < fuel)%nat ->
  parse_digits 0 (hex_digits fuel k) = Some k /\
  Forall (fun c => isspace c = false) (hex_digits fuel k) /\ hex_digits fuel k <> [].
Proof.
  revert k. induction fuel as [|fuel IH]; intros k Hk H32 Hf; [lia|]. cbn [hex_digits].
  destruct (Z.ltb_spec k 16).
  { cbn. rewrite hex_digit_value by lia. cbn. rewrite Z.add_0_l.
    destruct (Z.ltb_spec (2 ^ 32 - 1) k); [lia|]. split_and!; [done| |done].
    constructor; [apply hex_digit_nospace; lia|constructor]. }
  assert (0 <= k `mod` 16 < 16) by (apply Z.mod_pos_bound; lia).
  assert (Hfuel : (0 < fuel)%nat).
  { destruct fuel; [|lia]. cbn in Hk. lia. }
  destruct (IH (k / 16)) as (Hp & Hs & Hn); [|apply Z.div_lt_upper_bound; lia|done|].
  { split; [apply Z.div_pos; lia|]. apply Z.div_lt_upper_bound; [lia|].
    rewrite Nat2Z.inj_succ, Z.pow_succ_r in Hk by lia. lia. }
  split_and!.
  - rewrite parse_digits_app, Hp. cbn. rewrite hex_digit_value by done. cbn.
    rewrite Z.mul_comm, <- Z.div_mod by lia. by destruct (Z.ltb_spec (2 ^ 32 - 1) k); [lia|].
  - apply Forall_app. split; [done|]. constructor; [by apply hex_digit_nospace|constructor].
  - by destruct (hex_digits fuel (k / 16)).
Qed.

Lemma fields_word word w s :
  Forall (fun c => isspace c = false) w -> word ++ w <> [] ->
  fields_loop word (w ++ newline :: s) = (word ++ w) :: fields_loop [] s.
Proof.
  revert word. induction w as [|c w IH]; intros word Hw Hne; cbn [app fields_loop].
  - rewrite app_nil_r in *. change (isspace newline) with true. cbn match.
    by rewrite bool_decide_eq_false_2.
  - inversion Hw as [|?? Hc Hw']; subst. rewrite Hc, IH by (done || by destruct word).
    by rewrite <- app_assoc.
Qed.

Lemma fields_of_hex ks :
  Forall (fun k => 0 <= k < 2 ^ 32) ks ->
  bytes_Fields (ks ≫= Sprintf_x) = hex_digits 8 <$> ks.
Proof.
  induction 1 as [|k ks Hk _ IH]; [done|]. unfold bytes_Fields, Sprintf_x in *.
  destruct (hex_digits_spec 8 k) as (_ & Hs & Hn); [done|lia|lia|].
  rewrite bind_cons, <- app_assoc. change ([newline] ++ ?x) with (newline :: x).
  rewrite fields_word by done. by rewrite IH.
Qed.

Lemma from_hex_foreach ws j :
  match foreach ws read_field j with
  | Ret _ j' => exists vs, Forall2 (fun w v => ParseUint16_32 w = Some v) ws vs /\
                           j' = list_to_set (u32 <$> vs) ∪ j
  | Exit _ => exists w, w ∈ ws /\ ParseUint16_32 w = None
  | _ => False
  end.
Proof.
  revert j. induction ws as [|w ws IH]; intros j; cbn [foreach].
  { exists []. split; [constructor|]. set_solver. }
  unfold mbind, prog_bind, read_field at 1. destruct (ParseUint16_32 w) as [v|] eqn:E; cbn.
  - specialize (IH ({[u32 v]} ∪ j)). destruct (foreach ws _ _); [|set_solver|done..].
    destruct IH as (vs & Hvs & ->). exists (v :: vs). split; [by constructor|]. set_solver.
  - exists w. set_solver.
Qed.

Lemma parsed_words ks vs :
  (forall k, k ∈ ks -> ParseUint16_32 (hex_digits 8 k) = Some k) ->
  Forall2 (fun w v => ParseUint16_32 w = Some v) (hex_digits 8 <$> ks) vs -> vs = ks.
Proof.
  revert vs. induction ks as [|k ks IH]; intros vs Hp.
  - by intros ->%Forall2_nil_inv_l.
  - rewrite fmap_cons. intros (v & vs' & E & Hvs & ->)%Forall2_cons_inv_l.
    rewrite Hp in E by set_solver. f_equal; [congruence|]. apply IH; set_solver.
Qed.

(** The corpus format of a signal round-trips: reading back what [ToHex]
    wrote, in whatever order, adds exactly the signal; and [FromHex] panics
    only on a text with a field that is not a 32-bit hexadecimal number. *)
Lemma hex_roundtrip `{GoRange} (i j : Signal) (text : list Z) :
  (forall e, e ∈ i -> 0 <= e < 2 ^ 32) ->
  FromHex (ToHex i) j = Ret tt (i ∪ j) /\
  match FromHex text j with
  | Ret _ _ => Forall (fun w => ParseUint16_32 w <> None) (bytes_Fields text)
  | Exit _ => exists w, w ∈ bytes_Fields text /\ ParseUint16_32 w = None
  | _ => False
  end.
Proof.
  intros Hi. split.
  - assert (Hr : Forall (fun k => 0 <= k < 2 ^ 32) (range_set i)).
    { rewrite Forall_forall. intros k. rewrite range_set_perm, elem_of_elements. apply Hi. }
    unfold FromHex, ToHex. change (range_set i ≫= fun k => Sprintf_x k) with (range_set i ≫= Sprintf_x).
    rewrite fields_of_hex by done.
    assert (Hp : forall k, k ∈ range_set i -> ParseUint16_32 (hex_digits 8 k) = Some k).
    { intros k Hk. rewrite Forall_forall in Hr. specialize (Hr _ Hk).
      destruct (hex_digits_spec 8 k) as (E & _ & Hn); [done|lia|lia|].
      unfold ParseUint16_32. by rewrite bool_decide_eq_false_2. }
    pose proof (from_hex_foreach (hex_digits 8 <$> range_set i) j) as Hf.
    destruct (foreach _ _ j) as [[] j'| | |]; [|destruct Hf as (w & Hw & Hn)|done..].
    + destruct Hf as (vs & Hvs & ->). f_equal. f_equal.
      assert (vs = range_set i) as -> by (by eapply parsed_words).
      rewrite <- (list_to_set_elements_L i) at 2. rewrite <- range_set_perm. f_equal.
      rewrite <- (list_fmap_id (range_set i)) at 2. apply list_fmap_ext. intros ? k Hk.
      apply wrapu_id. rewrite Forall_forall in Hr. apply Hr. by eapply list_elem_of_lookup_2.
    + apply list_elem_of_fmap in Hw as (k & -> & Hk). rewrite Hp in Hn; done.
  - unfold FromHex. pose proof (from_hex_foreach (bytes_Fields text) j) as Hf.
    destruct (foreach _ _ j); [|done..]. destruct Hf as (vs & Hvs & _).
    induction Hvs as [|w0 v ws vs E Hvs IH]; constructor; [by rewrite E|done].
Qed.

(** ** Coverage *)

(** [prime] is odd, so multiplying by it modulo [2^32] can be undone. *)
Lemma mul_prime_inj x y :
  0 <= x < 2 ^ 32 -> 0 <= y < 2 ^ 32 -> u32 (x * prime) = u32 (y * prime) -> x = y.
Proof.
  intros Hx Hy H. unfold wrapu in H.
  assert (Hinv : (prime * 0x359c449b) `mod` 2 ^ 32 = 1) by done.
  assert (Hun : forall z, 0 <= z < 2 ^ 32 ->
            z = ((z * prime) `mod` 2 ^ 32 * 0x359c449b) `mod` 2 ^ 32).
  { intros z Hz. rewrite Z.mul_mod_idemp_l by done. rewrite <- Z.mul_assoc.
    rewrite <- Z.mul_mod_idemp_r, Hinv, Z.mul_1_r by done. by rewrite Z.mod_small. }
  rewrite (Hun x), (Hun y) by done. by rewrite H.
Qed.

Lemma lxor_u32 x y : 0 <= x < 2 ^ 32 -> 0 <= y < 2 ^ 32 -> 0 <= Z.lxor x y < 2 ^ 32.
Proof.
  intros Hx Hy. split; [apply Z.lxor_nonneg; lia|].
  destruct (decide (Z.lxor x y = 0)) as [->|Hn]; [lia|].
  apply Z.log2_lt_pow2; [assert (0 <= Z.lxor x y) by (apply Z.lxor_nonneg; lia); lia|].
  eapply Z.le_lt_trans; [apply Z.log2_lxor; lia|].
  destruct (Z.max_spec (Z.log2 x) (Z.log2 y)) as [[_ ->]|[_ ->]];
    [destruct (decide (y = 0)) as [->|]|destruct (decide (x = 0)) as [->|]]; try done;
    apply Z.log2_lt_pow2; lia.
Qed.

Lemma lxor_cancel_l x y z : Z.lxor x y = Z.lxor x z -> y = z.
Proof.
  intros H. apply (f_equal (Z.lxor x)) in H.
  by rewrite <- !Z.lxor_assoc, !Z.lxor_nilpotent, !Z.lxor_0_l in H.
Qed.

Lemma foldl_union_spec {A} (f : A -> Z) (l : list A) (X : Signal) :
  foldl (fun s a => {[f a]} ∪ s) X l = list_to_set (f <$> l) ∪ X.
Proof.
  revert X. induction l as [|a l IH]; intros X; cbn; [set_solver|]. rewrite IH. set_solver.
Qed.

Definition hint_accs (hint : Hint) : list Access :=
  if Hint_Typ hint then PrecedingInsts hint else FollowingInsts hint.
Definition hint_pivot (hint : Hint) : Access :=
  if Hint_Typ hint then Former (CriticalComm hint) else Latter (CriticalComm hint).

Lemma coverage_spec hint :
  Coverage hint = list_to_set (coverage_hash (hint_pivot hint) <$> hint_accs hint).
Proof.
  unfold Coverage, hint_accs, hint_pivot.
  destruct (Hint_Typ hint); rewrite foldl_union_spec; set_solver.
Qed.

(** The coverage of a hint has no collisions: it has one element per
    instruction that the hint may reorder, and two accesses get the same
    element exactly when they are executions of the same instruction. *)
Lemma coverage_counts_instructions (hint : Hint) :
  (forall a, a ∈ hint_accs hint -> access_ok a) -> access_ok (hint_pivot hint) ->
  Signal_Len (Coverage hint) = Z.of_nat (size (list_to_set (Inst <$> hint_accs hint) : gset Z)) /\
  (forall a b, access_ok a -> access_ok b ->
     coverage_hash (hint_pivot hint) a = coverage_hash (hint_pivot hint) b <-> Inst a = Inst b).
Proof.
  intros Hacc (Hp & _).
  assert (Hinj : forall a b, access_ok a -> access_ok b ->
    coverage_hash (hint_pivot hint) a = coverage_hash (hint_pivot hint) b <-> Inst a = Inst b).
  { intros a b (Ha & _) (Hb & _). unfold coverage_hash. split; [|by intros ->].
    intros E. apply mul_prime_inj in E; [by apply lxor_cancel_l in E|..];
      apply lxor_u32; done || apply wrapu_range; lia. }
  split; [|exact Hinj]. unfold Signal_Len. f_equal. rewrite coverage_spec.
  induction (hint_accs hint) as [|a l IH]; [done|]. cbn.
  assert (Hin : coverage_hash (hint_pivot hint) a ∈ coverage_hash (hint_pivot hint) <$> l <->
                Inst a ∈ Inst <$> l).
  { rewrite !list_elem_of_fmap. split; intros (b & E & Hb); exists b; (split; [|done]);
      apply Hinj in E || apply Hinj; set_solver. }
  specialize (IH ltac:(set_solver)). destruct (decide (Inst a ∈ Inst <$> l)) as [Ha|Ha].
  - rewrite !subseteq_union_1_L by set_solver. exact IH.
  - rewrite !size_union by set_solver. by rewrite !size_singleton, IH.
Qed.

Definition sample_hint : Hint :=
  mk_hint [mk_access 0x8100 0x10 8 TypeStore 1 0; mk_access 0x8200 0x18 8 TypeStore 2 0;
           mk_access 0x8100 0x20 8 TypeStore 3 0]
          [mk_access 0x9100 0x10 8 TypeLoad 9 1]
          (mk_comm (mk_access 0x8300 0x28 8 TypeStore 4 0) (mk_access 0x9000 0x28 8 TypeLoad 8 1))
          TestingStoreBarrier.

Lemma sample_hint_ok :
  (forall a, a ∈ hint_accs sample_hint -> access_ok a) /\ access_ok (hint_pivot sample_hint).
Proof.
  split; [intros a Ha; unfold hint_accs in Ha; simpl in Ha; rewrite !elem_of_cons, elem_of_nil in Ha;
          destruct Ha as [->|[->|[->|[]]]]|];
    unfold access_ok, hint_pivot, TypeStore; unfold TypeStore; simpl; unfold TypeStore; lia.
Qed.

Lemma foldl_filter {A} (P : A -> bool) (Q : A -> Prop) `{forall x, Decision (Q x)} (l acc : list A) :
  (forall x, P x = true <-> Q x) ->
  foldl (fun res x => if P x then res ++ [x] else res) acc l = acc ++ filter Q l.
Proof.
  intros HPQ. revert acc. induction l as [|x l IH]; intros acc; cbn [foldl]; [by rewrite app_nil_r|].
  rewrite IH, filter_cons. specialize (HPQ x). destruct (P x), (decide (Q x));
    [by rewrite <- app_assoc|naive_solver|naive_solver|done].
Qed.

Lemma foldl_merge_spec (hs : list Hint) (X : Signal) s :
  s ∈ foldl (fun cov hint => Signal_Merge cov (Coverage hint)) X hs <->
  s ∈ X \/ exists h, h ∈ hs /\ s ∈ Coverage h.
Proof.
  revert X. induction hs as [|h hs IH]; intros X; cbn [foldl]; [set_solver|].
  rewrite IH, merge_spec. set_solver.
Qed.

(** [Select] keeps, in order, the hints of the first list whose coverage
    meets that of some hint of the second. *)
Theorem select_spec (s1 s2 : list Hint) :
  Select s1 s2 = filter (fun h => Exists (fun h2 => Coverage h ∩ Coverage h2 <> ∅) s2) s1.
Proof.
  unfold Select. rewrite <- (app_nil_l (filter _ s1)). apply foldl_filter. intros h.
  rewrite negb_true_iff, Z.eqb_neq, intersect_spec, Exists_exists. unfold Signal_Len.
  set (cov := foldl _ ∅ s2). assert (Hc : forall s, s ∈ cov <-> exists h2, h2 ∈ s2 /\ s ∈ Coverage h2).
  { intros s. subst cov. rewrite foldl_merge_spec. set_solver. }
  split.
  - intros Hn. destruct (set_choose_L (cov ∩ Coverage h)) as [s Hs]; [intros E; by rewrite E in Hn|].
    apply elem_of_intersection in Hs as [(h2 & ? & ?)%Hc ?]. exists h2. set_solver.
  - intros (h2 & Hh2 & Hne). apply set_choose_L in Hne as [s [??]%elem_of_intersection].
    intros E. assert (size (cov ∩ Coverage h) = 0%nat) as E0 by lia.
    apply size_empty_inv in E0. assert (s ∈ cov) by (apply Hc; eauto). set_solver.
Qed.

(** ** Flush vectors *)

Lemma uext_inj v w : 0 <= v < 2 ^ 32 -> 0 <= w < 2 ^ 32 -> uext v = uext w -> v = w.
Proof.
  intros Hv Hw. unfold uext. intros E. apply (f_equal (fun x => Z.land x (Z.ones 32))) in E.
  rewrite !Z.land_lor_distr_l in E. change (Z.land 0xffffffff00000000 (Z.ones 32)) with 0 in E.
  rewrite !Z.lor_0_r, !Z.land_ones, !Z.mod_small in E by lia. done.
Qed.

(** The table built so far: one entry per instruction in [ht], in the order
    of first occurrence. *)
Definition table_of (vals : list (Z * Z)) : list tableEntry :=
  (fun p => mk_table_entry (uext p.1) p.2) <$> vals.

Lemma add_entries_spec accs ht vals :
  ht = list_to_set vals.*1 -> NoDup vals.*1 -> (forall p, p ∈ vals -> p.2 = 0) ->
  exists vals', foldl (fun st acc => add_entry st (Inst acc) 0) (ht, table_of vals) accs =
                (list_to_set vals'.*1, table_of vals') /\
    NoDup vals'.*1 /\ (forall p, p ∈ vals' -> p.2 = 0) /\
    (forall i, i ∈ vals'.*1 <-> i ∈ vals.*1 \/ i ∈ Inst <$> accs).
Proof.
  revert ht vals. induction accs as [|a accs IH]; intros ht vals Hht Hnd Hz.
  { exists vals. cbn [foldl]. rewrite Hht. split_and!; [done..|]. set_solver. }
  cbn [foldl]. unfold add_entry at 2. case_bool_decide as Ha.
  - destruct (IH ht vals Hht Hnd Hz) as (vals' & E & ? & ? & Hi). exists vals'.
    split_and!; [done..|]. intros i. rewrite Hi. set_solver.
  - destruct (IH ({[Inst a]} ∪ ht) (vals ++ [(Inst a, 0)])) as (vals' & E & ? & ? & Hi).
    + rewrite fmap_app, Hht. set_solver.
    + rewrite fmap_app. apply NoDup_app. split_and!; [done| |apply NoDup_singleton]. set_solver.
    + intros p [Hp| ->%list_elem_of_singleton]%elem_of_app; [by apply Hz|done].
    + exists vals'. split_and!; [|done..|].
      * rewrite <- E. do 2 f_equal. unfold table_of. by rewrite fmap_app.
      * intros i. rewrite Hi, fmap_app. set_solver.
Qed.

(** The flush vector of a hint has one table entry per instruction: value
    0 (delay) for the instructions the hint reorders, and value 1 (flush) for
    the critical instruction unless it is itself one of those. *)
Lemma flush_vector_for_hint (hint : Hint) :
  (forall a, a ∈ hint_accs hint -> access_ok a) -> access_ok (hint_pivot hint) ->
  let vec := generateFlushVectorForHint hint in
  NoDup (inst <$> table vec) /\ vector vec = [] /\
  (forall a, a ∈ hint_accs hint -> mk_table_entry (uext (Inst a)) 0 ∈ table vec) /\
  (forall e, e ∈ table vec ->
     (exists a, a ∈ hint_accs hint /\ e = mk_table_entry (uext (Inst a)) 0) \/
     (e = mk_table_entry (uext (Inst (hint_pivot hint))) 1)) /\
  (mk_table_entry (uext (Inst (hint_pivot hint))) 1 ∈ table vec <->
   Inst (hint_pivot hint) ∉ Inst <$> hint_accs hint).
Proof.
  intros Hacc Hpiv. cbv zeta. unfold generateFlushVectorForHint.
  replace (if Hint_Typ hint then _ else _) with (hint_accs hint, hint_pivot hint)
    by (unfold hint_accs, hint_pivot; by destruct (Hint_Typ hint)).
  destruct (add_entries_spec (hint_accs hint) ∅ []) as (vals & E & Hnd & Hz & Hi);
    [done|constructor|set_solver|]. cbn [table_of fmap list_fmap] in E. rewrite E.
  assert (Hi' : forall i, i ∈ vals.*1 <-> i ∈ Inst <$> hint_accs hint) by set_solver. clear Hi E.
  assert (Hrange : forall i, i ∈ vals.*1 -> 0 <= i < 2 ^ 32).
  { intros i Hin. apply Hi', list_elem_of_fmap in Hin as (a & -> & Ha). by apply Hacc. }
  assert (Hent : forall e, e ∈ table_of vals <->
            exists a, a ∈ hint_accs hint /\ e = mk_table_entry (uext (Inst a)) 0).
  { intros e. unfold table_of. rewrite list_elem_of_fmap. split.
    - intros ([i v] & -> & Hp). rewrite (Hz _ Hp). assert (Hin : i ∈ vals.*1)
        by (apply list_elem_of_fmap; by exists (i, v)).
      apply Hi', list_elem_of_fmap in Hin as (a & -> & Ha). eauto.
    - intros (a & Ha & ->). assert (Hin : Inst a ∈ vals.*1) by (apply Hi'; set_solver).
      apply list_elem_of_fmap in Hin as ([i v] & -> & Hp). exists (i, v).
      pose proof (Hz _ Hp) as Hv. cbn in Hv. by subst v. }
  assert (Hnd' : NoDup (inst <$> table_of vals)).
  { unfold table_of. rewrite <- list_fmap_compose.
    replace ((inst ∘ _) <$> vals) with (uext <$> vals.*1) by (by rewrite <- list_fmap_compose).
    apply NoDup_fmap_2_strong; [|done]. intros x y Hx Hy. apply uext_inj; auto. }
  unfold add_entry. case_bool_decide as Hp; rewrite elem_of_list_to_set, Hi' in Hp; cbn [table vector].
  - split_and!; [done..| | |].
    + intros a Ha. apply Hent. eauto.
    + intros e He. left. by apply Hent.
    + split; [|done]. intros (a & _ & [=])%Hent.
  - split_and!; [|done|..].
    + rewrite fmap_app. apply NoDup_app. split_and!; [done| |apply NoDup_singleton].
      intros x (e & -> & (a & Ha & ->)%Hent)%list_elem_of_fmap.
      cbn. rewrite list_elem_of_singleton. intros Eu. apply uext_inj in Eu;
        [|apply Hacc, Ha|apply Hpiv]. apply Hp. rewrite <- Eu. set_solver.
    + intros a Ha. apply elem_of_app. left. apply Hent. eauto.
    + intros e [He|He%list_elem_of_singleton]%elem_of_app; [left; by apply Hent|by right].
    + split; [done|]. intros _. set_solver.
Qed.

(** Random draws. *)
Section draws.
Context `{R : GoRand}.

Lemma draw_vector_spec n g :
  exists vs g', draw_vector n (Some g) = Ret vs (Some g') /\ length vs = n /\
                Forall (fun v => v = 0 \/ v = 1) vs.
Proof.
  revert g. induction n as [|n IH]; intros g; [by exists [], g|]. cbn [draw_vector].
  unfold mbind, prog_bind, draw. destruct (Uint32 g) as [v g1] eqn:E.
  destruct (IH g1) as (vs & g2 & E2 & Hl & Hv). rewrite E2. cbn.
  eexists _, g2. split_and!; [done|cbn; lia|]. constructor; [|done].
  pose proof (Z.mod_pos_bound v (MAX_VALUE + 1) ltac:(unfold MAX_VALUE; lia)).
  unfold MAX_VALUE at 3 in H. lia.
Qed.

Lemma random_vector_spec g :
  exists vs g', generateRandomFlushVector (Some g) = Ret (mk_flush_vector [] vs) (Some g') /\
                2 <= alen vs <= MAX_LEGNTH /\ Forall (fun v => v = 0 \/ v = 1) vs.
Proof.
  unfold generateRandomFlushVector. unfold mbind, prog_bind, draw at 1.
  destruct (Uint32 g) as [v g1] eqn:E. cbv zeta. unfold MAX_LEGNTH.
  pose proof (Z.mod_pos_bound v (10 - 1) ltac:(lia)). rewrite wrapu_id by lia.
  destruct (draw_vector_spec (Z.to_nat (v `mod` (10 - 1) + 2)) g1) as (vs & g2 & -> & Hl & Hv).
  exists vs, g2. split_and!; [done|unfold alen; lia..|done].
Qed.
End draws.

(** What [GenerateFlushVector] returns, by cases: with a generator it
    always returns, either the table of the hint (for a valid hint) or a
    random vector of 2 to 10 zeros and ones; without a generator it returns
    the table for a valid hint and panics exactly for an invalid one. *)
Lemma generate_flush_vector_cases `{R : GoRand} (hint : Hint) (randomReordering : bool)
    (r : option Rand) :
  match GenerateFlushVector hint randomReordering r with
  | Ret vec r' =>
      (Invalid hint = false /\ vec = generateFlushVectorForHint hint) \/
      (is_Some r /\ table vec = [] /\ 2 <= alen (vector vec) <= MAX_LEGNTH /\
       Forall (fun v => v = 0 \/ v = 1) (vector vec) /\
       (Invalid hint = true \/ randomReordering = true))
  | Exit _ => r = None /\ Invalid hint = true
  | _ => False
  end.
Proof.
  assert (Hrand : forall g, match generateRandomFlushVector (Some g) with
    | Ret vec _ => table vec = [] /\ 2 <= alen (vector vec) <= MAX_LEGNTH /\
                   Forall (fun v => v = 0 \/ v = 1) (vector vec)
    | _ => False end).
  { intros g. destruct (random_vector_spec g) as (vs & g' & -> & ? & ?). done. }
  unfold GenerateFlushVector. destruct (Invalid hint) eqn:Hinv; cbn [negb].
  - destruct r as [g|]; [|by cbn]. specialize (Hrand g).
    destruct (generateRandomFlushVector (Some g)); [|done..]. right. split; [by eexists|]. naive_solver.
  - unfold doRandom, mbind, prog_bind, gets. cbn [id].
    destruct r as [g|]; [|by left]. rewrite bool_decide_eq_true_2 by done. cbn [andb].
    destruct randomReordering; [|by left]. unfold draw at 1. destruct (Intn 1000 g) as [x g1].
    cbn. destruct (x <? 5); cbn; [|by left]. specialize (Hrand g1).
    destruct (generateRandomFlushVector (Some g1)); [|done..]. right. split; [by eexists|]. naive_solver.
Qed.
