(* ===== verification/Knotter.v ===== *)
(** * The knotter (pkg/scheduler: scheduler.go, heuristic.go)

    From the memory traces of two system calls run one after the other, the
    knotter collects the communications between them, pairs them into knots
    that a missing store or load barrier would explain, and groups the knots
    by critical communication into hints.  This file is the translation; the
    lemmas are in KnotterSpec and the theorems in HintSpec. *)

From stdpp Require Import base list gmap sets strings.
From Stdlib Require Import ZArith Lia.
From S2P Require Import Prelude Accesses Comms Hints.

Local Open Scope Z_scope.
Local Open Scope record_scope.

(** ** State *)

Record Knotter := mk_knotter {
  loopAllowed_ : list Z;
  commChan : gset Z;
  accessMap : gmap Z (list Access);
  commHsh : gset Z;
  locks : list (gmap Z (list Z));
  storeChunks : list (gmap Z Z);
  loadChunks : list (gmap Z Z);
  seq0 : option (list SerialAccess);
  seq : list SerialAccess;
  knots : gmap Z (list Knot);
  comms : list Communication;
  testingStoreBarrier : gset Z;
  testingLoadBarrier : gset Z
}.

#[export] Instance knotter_eta : Eta Knotter := fun k =>
  mk_knotter (loopAllowed_ k) (commChan k) (accessMap k) (commHsh k) (locks k) (storeChunks k)
    (loadChunks k) (seq0 k) (seq k) (knots k) (comms k) (testingStoreBarrier k)
    (testingLoadBarrier k).

(** [Knotter{}]: nil slices and maps. *)
Definition zero_knotter : Knotter := mk_knotter [] ∅ ∅ ∅ [] [] [] None [] ∅ [] ∅ ∅.

Definition loopAllowed : list Z := [1].

(** Indexing a slice out of range panics. *)
Definition go_index {W A} (l : list A) (i : Z) : prog W A :=
  match aget l i with Some x => mret x | None => panic "index out of range" end.

Definition go_check_index {W A} (l : list A) (i : Z) : prog W unit :=
  ASSERT ((0 <=? i) && (i <? alen l)) "index out of range".

(** ** Helpers *)

Definition wordify (addr : Z) : Z := Z.land addr (2 ^ 32 - 1 - 7).
Definition getMemID (acc : Access) : Z := Inst acc.
Definition getLockID (acc : Access) : Z := Addr acc.

Definition is_memory (acc : Access) : bool := (Typ acc =? TypeLoad) || (Typ acc =? TypeStore).

(** ** Communication channels *)

Definition collectCommChansSerial (serial : SerialAccess) (chan : gset Z) : gset Z :=
  foldl (fun chan acc =>
    if Typ acc =? TypeStore then {[wordify (Addr acc)]} ∪ chan else chan) chan serial.

(** The loop of [distillSerial]: [loopCnt] counts the dynamic instances of an
    instruction, and the instances in [allowed] are kept. *)
Fixpoint distill_loop (chan : gset Z) (allowed : list Z) (loopCnt : gmap Z Z)
    (serial : SerialAccess) : SerialAccess :=
  match serial with
  | [] => []
  | acc :: serial =>
      if is_memory acc then
        if bool_decide (wordify (Addr acc) ∉ chan) then distill_loop chan allowed loopCnt serial
        else
          let cnt := default 0 (loopCnt !! Inst acc) + 1 in
          let loopCnt := <[Inst acc := cnt]> loopCnt in
          if bool_decide (cnt ∈ allowed) then acc :: distill_loop chan allowed loopCnt serial
          else distill_loop chan allowed loopCnt serial
      else acc :: distill_loop chan allowed loopCnt serial
  end.

Definition distillSerial (chan : gset Z) (allowed : list Z) (serial : SerialAccess) : SerialAccess :=
  distill_loop chan allowed ∅ serial.

Definition collectCommChans : prog Knotter unit :=
  modify (fun k =>
    let src := default [] (seq0 k) in
    let chan := foldl (fun chan serial => collectCommChansSerial serial chan) ∅ src in
    k <| commChan := chan |> <| seq := distillSerial chan (loopAllowed_ k) <$> src |>).

(** ** Access map *)

Definition buildAccessMapSerial (m : gmap Z (list Access)) (serial : SerialAccess)
    : gmap Z (list Access) :=
  foldl (fun m acc =>
    if negb ((Typ acc =? TypeStore) || (Typ acc =? TypeLoad)) then m
    else
      let addr := wordify (Addr acc) in
      <[addr := default [] (m !! addr) ++ [acc]]> m) m serial.

Definition buildAccessMap : prog Knotter unit :=
  modify (fun k => k <| accessMap := foldl buildAccessMapSerial ∅ (seq k) |>).

(** ** Locks *)

Definition MAX_LOCK_COUNT : Z := 32.

(** The lock stack: the array [locks] and its [head]. *)
Record lock_stack := mk_lock_stack { stack : list Z; head : Z }.

(** [for i := head - 1; i >= 0; i--]: the topmost entry that holds the lock. *)
Fixpoint find_lock (i : nat) (locks : list Z) (lockID : Z) : option Z :=
  match i with
  | O => None
  | S i => if bool_decide (locks !! i = Some lockID) then Some (Z.of_nat i)
           else find_lock i locks lockID
  end.

(** One iteration of the loop of [annotateLocksInSerial]. *)
Definition annotate_step (st : lock_stack * gmap Z (list Z)) (acc : Access)
    : lock_stack * gmap Z (list Z) :=
  let '(s, m) := st in
  if is_memory acc then (s, <[getMemID acc := take (Z.to_nat (head s)) (stack s)]> m)
  else if Typ acc =? TypeLockAcquire then
    if head s <? MAX_LOCK_COUNT
    then (mk_lock_stack (aset (stack s) (head s) (getLockID acc)) (head s + 1), m)
    else (s, m)
  else if Typ acc =? TypeLockRelease then
    match find_lock (Z.to_nat (head s)) (stack s) (getLockID acc) with
    | Some i => (mk_lock_stack (stack s) i, m)
    | None => (mk_lock_stack (stack s) 0, m)
    end
  else (s, m).

Definition annotate_locks (serial : SerialAccess) : gmap Z (list Z) :=
  (foldl annotate_step (mk_lock_stack (replicate 32 0) 0, ∅) serial).2.

Definition annotateLocksInSerial (tid : Z) (serial : SerialAccess) : prog Knotter unit :=
  l ← gets locks;
  go_check_index l tid;;
  modify (fun k => k <| locks ::= fun l => aset l tid (annotate_locks serial) |>).

Definition annotateLocks : prog Knotter unit :=
  modify (fun k => k <| locks := replicate 2 ∅ |>);;
  s ← gets seq;
  foreach s (fun serial =>
    match serial with
    | [] => mret tt
    | acc :: _ => annotateLocksInSerial (u32 (Thread acc)) serial
    end).

(** ** Chunks *)

(** The running chunk numbers and the two maps. *)
Record chunk_state := mk_chunk_state {
  storeChunkID : Z; loadChunkID : Z; store_map : gmap Z Z; load_map : gmap Z Z
}.

#[export] Instance chunk_state_eta : Eta chunk_state := fun c =>
  mk_chunk_state (storeChunkID c) (loadChunkID c) (store_map c) (load_map c).

(** One iteration of the loop of [chunknizeSerial]. *)
Definition chunk_step (c : chunk_state) (acc : Access) : chunk_state :=
  if is_memory acc then
    let memId := getMemID acc in
    c <| store_map ::= insert memId (storeChunkID c) |>
      <| load_map ::= insert memId (loadChunkID c) |>
  else if Typ acc =? TypeFlush then c <| storeChunkID ::= fun n => n + 1 |>
  else if Typ acc =? TypeLFence then c <| loadChunkID ::= fun n => n + 1 |>
  else c.

Definition chunknize (serial : SerialAccess) : chunk_state :=
  foldl chunk_step (mk_chunk_state 0 0 ∅ ∅) serial.

Definition chunknizeSerial (tid : Z) (serial : SerialAccess) : prog Knotter unit :=
  l ← gets storeChunks;
  go_check_index l tid;;
  modify (fun k => k <| storeChunks ::= fun l => aset l tid (store_map (chunknize serial)) |>
                     <| loadChunks ::= fun l => aset l tid (load_map (chunknize serial)) |>).

Definition chunknizeSerials : prog Knotter unit :=
  modify (fun k => k <| storeChunks := replicate 2 ∅ |> <| loadChunks := replicate 2 ∅ |>);;
  s ← gets seq;
  foreach s (fun serial =>
    match serial with
    | [] => mret tt
    | acc :: _ => chunknizeSerial (u32 (Thread acc)) serial
    end).

(** ** Communications *)

Definition duppedComm (comm : Communication) : prog Knotter bool :=
  let hsh := Communication_Hash comm in
  ok ← gets (fun k => bool_decide (hsh ∈ commHsh k));
  modify (fun k => k <| commHsh ::= fun s => {[hsh]} ∪ s |>);;
  mret ok.

Definition formCommunicationSingle (acc0 acc1 : Access) : prog Knotter unit :=
  let comm := mk_comm acc0 acc1 in
  dup ← duppedComm comm;
  if (dup : bool) then mret tt else modify (fun k => k <| comms ::= fun cs => cs ++ [comm] |>).

Definition lockContending (acc0 acc1 : Access) : prog Knotter bool :=
  ls ← gets locks;
  m0 ← go_index ls (u32 (Thread acc0));
  m1 ← go_index ls (u32 (Thread acc1));
  let l0 := default [] (m0 !! Inst acc0) in
  let l1 := default [] (m1 !! Inst acc1) in
  let ht : gset Z := foldl (fun ht l => {[l]} ∪ ht) ∅ l0 in
  mret (existsb (fun l => bool_decide (l ∈ ht)) l1).

(** The body of the inner loop of [formCommunicationAddr]. *)
Definition form_pair (acc0 acc1 : Access) : prog Knotter unit :=
  if Thread acc0 =? Thread acc1 then mret tt
  else
    let '(acc0, acc1) :=
      if Timestamp acc1 <? Timestamp acc0 then (acc1, acc0) else (acc0, acc1) in
    if Typ acc0 =? Typ acc1 then mret tt
    else if negb (Overlapped acc0 acc1) then mret tt
    else
      contending ← lockContending acc0 acc1;
      if (contending : bool) then mret tt else formCommunicationSingle acc0 acc1.

(** For every [i], the inner loop runs over [j = i, i+1, ...]. *)
Fixpoint formCommunicationAddr (accesses : list Access) : prog Knotter unit :=
  match accesses with
  | [] => mret tt
  | acc0 :: rest => foreach accesses (form_pair acc0) ;; formCommunicationAddr rest
  end.

Definition formCommunications `{GoRange} : prog Knotter unit :=
  modify (fun k => k <| comms := [] |> <| commHsh := ∅ |>);;
  m ← gets accessMap;
  foreach (range_map m) (fun kv => formCommunicationAddr kv.2).

(** ** Knots *)

Definition testMissingStoreBarrier : bool := true.
Definition testMissingLoadBarrier : bool := true.

Definition inSameChunk (acc0 acc1 : Access) (storeChunk : bool) : prog Knotter bool :=
  if negb (Thread acc0 =? Thread acc1) then panic "wrong"
  else
    let tid := u32 (Thread acc0) in
    chunks ← gets (if storeChunk then storeChunks else loadChunks);
    m ← go_index chunks tid;
    match m !! Inst acc0, m !! Inst acc1 with
    | Some c0, Some c1 => mret (c0 =? c1)
    | _, _ => mret false
    end.

Definition canTestMissingStoreBarrier (comm0 comm1 : Communication) : prog Knotter bool :=
  b ← inSameChunk (Former comm0) (Former comm1) true; mret (b && testMissingStoreBarrier).

Definition canTestMissingLoadBarrier (comm0 comm1 : Communication) : prog Knotter bool :=
  b ← inSameChunk (Latter comm0) (Latter comm1) false; mret (b && testMissingLoadBarrier).

Definition formKnotSingle (comm0 comm1 : Communication) (store : bool) : prog Knotter unit :=
  if negb (Parallel comm0 comm1) then panic "want parallel but comms are not parallel"
  else if Addr (Former comm0) =? Addr (Former comm1) then mret tt
  else
    let knot := mk_knot comm0 comm1 in
    let critHsh := Communication_Hash comm1 in
    let knotHsh := Knot_Hash knot in
    modify (fun k => k <| knots ::= fun m => <[critHsh := default [] (m !! critHsh) ++ [knot]]> m |>);;
    if store then modify (fun k => k <| testingStoreBarrier ::= fun s => {[knotHsh]} ∪ s |>)
    else modify (fun k => k <| testingLoadBarrier ::= fun s => {[knotHsh]} ∪ s |>).

Definition formKnotForStoreBarrier (comm0 comm1 : Communication) : prog Knotter unit :=
  formKnotSingle comm0 comm1 true.
Definition formKnotForLoadBarrier (comm0 comm1 : Communication) : prog Knotter unit :=
  formKnotSingle comm0 comm1 false.

Definition canonicalize (comm0 comm1 : Communication) : Communication * Communication * bool :=
  let '(comm0, comm1) :=
    if Timestamp (Former comm1) <? Timestamp (Former comm0) then (comm1, comm0) else (comm0, comm1) in
  (comm0, comm1, negb (Timestamp (Latter comm0) <? Timestamp (Latter comm1))).

(** The body of the inner loop of [formKnots]. *)
Definition form_knot (c0 c1 : Communication) : prog Knotter unit :=
  let '(comm0, comm1, ok) := canonicalize c0 c1 in
  if negb ok then mret tt
  else
    st ← canTestMissingStoreBarrier comm0 comm1;
    if (st : bool) then formKnotForStoreBarrier comm0 comm1
    else
      ld ← canTestMissingLoadBarrier comm0 comm1;
      if (ld : bool) then formKnotForLoadBarrier comm0 comm1 else mret tt.

(** For every [i], the inner loop runs over [j = i+1, i+2, ...]. *)
Fixpoint form_knots_loop (cs : list Communication) : prog Knotter unit :=
  match cs with
  | [] => mret tt
  | c0 :: rest => foreach rest (form_knot c0) ;; form_knots_loop rest
  end.

Definition formKnots : prog Knotter unit :=
  modify (fun k => k <| knots := ∅ |> <| testingLoadBarrier := ∅ |> <| testingStoreBarrier := ∅ |>);;
  cs ← gets comms;
  form_knots_loop cs.

Definition fastenKnots `{GoRange} : prog Knotter unit :=
  collectCommChans;; buildAccessMap;; annotateLocks;; chunknizeSerials;;
  formCommunications;; formKnots.

Definition AddSequentialTrace (s : list SerialAccess) : prog Knotter bool :=
  if negb (length s =? 2)%nat then mret false
  else modify (fun k => k <| seq0 := Some s |>);; mret true.

Definition ExcavateKnots `{GoRange} : prog Knotter unit :=
  s ← gets seq0;
  match s with
  | None => mret tt
  | Some _ => modify (fun k => k <| loopAllowed_ := loopAllowed |>);; fastenKnots
  end.

(** ** Hints *)

(** The closure [f]: per address, keep the access with the latest timestamp. *)
Definition keep_latest (insts : gmap Z Access) (acc : Access) : gmap Z Access :=
  match insts !! Addr acc with
  | None => <[Addr acc := acc]> insts
  | Some acc0 => if Timestamp acc <? Timestamp acc0 then insts else <[Addr acc := acc]> insts
  end.

Definition sanitizeHint (hint : Hint) : bool :=
  let '(accs, want) :=
    if Hint_Typ hint then (PrecedingInsts hint, TypeStore) else (FollowingInsts hint, TypeLoad) in
  existsb (fun acc => Typ acc =? want) accs.

Section hints.
Context `{GoRange} {W : Type}.

Definition toSlice (insts : gmap Z Access) : list Access := (range_map insts).*2.

(** The loop over the grouped knots. *)
Fixpoint aggregate_loop (critComm : Communication) (conds : gset Z) (grouped : list Knot)
    (preceding following : gmap Z Access) : prog W (gmap Z Access * gmap Z Access) :=
  match grouped with
  | [] => mret (preceding, following)
  | knot :: grouped =>
      if negb (Communication_Hash critComm =? Communication_Hash (knot1 knot)) then panic "wrong"
      else if bool_decide (Knot_Hash knot ∈ conds) then
        aggregate_loop critComm conds grouped
          (keep_latest preceding (Former (knot0 knot))) (keep_latest following (Latter (knot0 knot)))
      else aggregate_loop critComm conds grouped preceding following
  end.

(** [None] is [ok == false]. *)
Definition aggregateHintWithConditions (critComm : Communication) (grouped : list Knot)
    (conds : gset Z) (typ : bool) : prog W (option Hint) :=
  '(preceding, following) ← aggregate_loop critComm conds grouped ∅ ∅;
  if bool_decide (preceding = ∅) || bool_decide (following = ∅) then mret None
  else
    let hint := mk_hint (toSlice preceding) (toSlice following) critComm typ in
    if negb (sanitizeHint hint) then mret None else mret (Some hint).

Definition aggregateHints (critComm : Communication) (grouped : list Knot)
    (store load : gset Z) : prog W (list Hint) :=
  h0 ← aggregateHintWithConditions critComm grouped store TestingStoreBarrier;
  h1 ← aggregateHintWithConditions critComm grouped load TestingLoadBarrier;
  mret (option_list h0 ++ option_list h1).

(** The consistency test over a group. *)
Definition check_group (hsh : Z) (grouped : list Knot) : prog W unit :=
  foreach grouped (fun knot =>
    if negb (hsh =? Communication_Hash (knot1 knot)) then panic "wrong" else mret tt).

Fixpoint group_loop (store load : gset Z) (groups : list (Z * list Knot)) (hints : list Hint)
    : prog W (list Hint) :=
  match groups with
  | [] => mret hints
  | (hsh, grouped) :: groups =>
      check_group hsh grouped;;
      match grouped with
      | [] => group_loop store load groups hints
      | k :: _ =>
          hints0 ← aggregateHints (knot1 k) grouped store load;
          group_loop store load groups (hints ++ hints0)
      end
  end.

(** Run a method on a local knotter. *)
Definition on_local {K A} (k : K) (m : prog K A) : prog W K := fun w =>
  match m k with
  | Ret _ k' => Ret k' w
  | Exit s => Exit s
  | UB s => UB s
  | OutOfFuel => OutOfFuel
  end.

Definition computeHints (s : list SerialAccess) : prog W (list Hint) :=
  if negb (length s =? 2)%nat then mret []
  else
    k ← on_local zero_knotter (AddSequentialTrace s;; ExcavateKnots);
    group_loop (testingStoreBarrier k) (testingLoadBarrier k) (range_map (knots k)) [].
End hints.

(** The copy of a trace with timestamps counted from [base]; a timestamp is a
    [uint32]. *)
Fixpoint copy_serial (base : Z) (thread : Z) (s : SerialAccess) : SerialAccess :=
  match s with
  | [] => []
  | acc :: s => acc <| Timestamp := u32 base |> <| Thread := u64 thread |>
                :: copy_serial (base + 1) thread s
  end.

Definition copySeq (s0 s1 : SerialAccess) (first : Z) : list SerialAccess :=
  [copy_serial 0 first s0; copy_serial (alen s0) (1 - first) s1].

Definition ComputeHints `{GoRange} {W} (s : list SerialAccess) : prog W (list Hint) :=
  match s with
  | [s0; s1] => computeHints (copySeq s0 s1 0)
  | _ => mret []
  end.

Definition ComputeHints0 `{GoRange} {W} (s : list SerialAccess) : prog W (list Hint) :=
  match s with
  | [s0; s1] =>
      h0 ← computeHints (copySeq s0 s1 0);
      h1 ← computeHints (copySeq s1 s0 1);
      mret (h0 ++ h1)
  | _ => mret []
  end.
