(* ===== verification/KnotterSpec.v ===== *)
(** * What the knotter computes

    The analysis of a pair of traces executed one after the other, stage by
    stage: the distilled traces, the locks held and the barriers passed at an
    access, the communications, the knots and the hints.  The main theorems:
    the analysis never panics, and every hint it returns is sound. *)

From stdpp Require Import base list gmap sets strings sorting.
From Stdlib Require Import ZArith Lia.
From S2P Require Import Prelude Accesses Comms Hints Knotter.

Local Open Scope Z_scope.
Local Open Scope record_scope.

(** ** Traces *)

Definition ts_lt (a b : Access) : Prop := Timestamp a < Timestamp b.

#[export] Instance ts_lt_trans : Transitive ts_lt.
Proof. intros a b c. unfold ts_lt. lia. Qed.

(** [t0] is the trace of thread [f], executed before [t1], that of the other
    thread. *)
Record sequential (f : Z) (t0 t1 : SerialAccess) : Prop := mk_sequential {
  seq_first : f = 0 \/ f = 1;
  seq_thread0 : Forall (fun a => Thread a = f) t0;
  seq_thread1 : Forall (fun a => Thread a = 1 - f) t1;
  seq_sorted : StronglySorted ts_lt (t0 ++ t1)
}.

Lemma sorted_lt_unique l a b :
  StronglySorted ts_lt l -> a ∈ l -> b ∈ l -> Timestamp a = Timestamp b -> a = b.
Proof.
  intros Hs. induction Hs as [|x l Hs IH Hx]; intros Ha Hb E; [by apply not_elem_of_nil in Ha|].
  rewrite Forall_forall in Hx. apply elem_of_cons in Ha as [->|Ha], Hb as Hb'; try done.
  - apply elem_of_cons in Hb as [->|Hb]; [done|]. specialize (Hx _ Hb). unfold ts_lt in Hx. lia.
  - apply elem_of_cons in Hb as [->|Hb]; [specialize (Hx _ Ha); unfold ts_lt in Hx; lia|]. auto.
Qed.

(** Between two members of a sorted trace, the order of their timestamps is
    the order of their positions. *)
Lemma sorted_lt_split l a b :
  StronglySorted ts_lt l -> a ∈ l -> b ∈ l -> ts_lt a b ->
  exists pre mid post, l = pre ++ a :: mid ++ b :: post.
Proof.
  intros Hs Ha Hb Hab. apply list_elem_of_split in Ha as (pre & rest & ->).
  assert (b ∈ rest) as Hb'.
  { apply StronglySorted_app in Hs as (Hcross & _ & _).
    apply elem_of_app in Hb as [Hb|Hb].
    - specialize (Hcross b a Hb ltac:(set_solver)). unfold ts_lt in *. lia.
    - apply elem_of_cons in Hb as [->|Hb]; [unfold ts_lt in Hab; lia|done]. }
  apply list_elem_of_split in Hb' as (mid & post & ->). by exists pre, mid, post.
Qed.

Lemma sorted_lt_between l pre a mid b post x :
  StronglySorted ts_lt l -> l = pre ++ a :: mid ++ b :: post ->
  x ∈ l -> ts_lt a x -> ts_lt x b -> x ∈ mid.
Proof.
  intros Hs -> Hx Hax Hxb. apply StronglySorted_app in Hs as (Hc1 & _ & Hs).
  inversion Hs as [|?? Hs' Ha]; subst. rewrite Forall_forall in Ha.
  apply StronglySorted_app in Hs' as (_ & _ & Hs').
  inversion Hs' as [|?? _ Hb]; subst. rewrite Forall_forall in Hb.
  rewrite !elem_of_app, !elem_of_cons, elem_of_app, elem_of_cons in Hx. unfold ts_lt in *.
  destruct Hx as [Hx|[->|[Hx|[->|Hx]]]]; [|lia|done|lia|].
  - specialize (Hc1 x a Hx ltac:(set_solver)). lia.
  - specialize (Hb x Hx). lia.
Qed.

Lemma StronglySorted_sublist {A} (R : A -> A -> Prop) l k :
  l `sublist_of` k -> StronglySorted R k -> StronglySorted R l.
Proof.
  intros Hsub. induction Hsub as [|x l k Hsub IH|x l k Hsub IH]; intros Hs; [done|..];
    inversion Hs as [|?? Hs' Hx]; subst.
  - constructor; [auto|]. rewrite Forall_forall in *. intros y Hy. apply Hx.
    eapply elem_of_submseteq; [done|]. by apply sublist_submseteq.
  - auto.
Qed.

(** ** Distilled traces *)

Section distill.
Context (chan : gset Z).

(** With [loopAllowed] only the first dynamic instance of an instruction is
    kept. *)
Lemma distill_loop_spec cnt serial :
  (forall i, 0 <= default 0 (cnt !! i)) ->
  let d := distill_loop chan loopAllowed cnt serial in
  d `sublist_of` serial /\
  (forall a, a ∈ serial -> is_memory a = false -> a ∈ d) /\
  (forall a, a ∈ d -> is_memory a = true ->
     wordify (Addr a) ∈ chan /\ default 0 (cnt !! Inst a) = 0) /\
  NoDup (Inst <$> filter (fun a => is_memory a = true) d).
Proof.
  revert cnt. induction serial as [|a serial IH]; intros cnt Hcnt; cbn zeta.
  { cbn. split_and!; [constructor|set_solver..|constructor]. }
  cbn [distill_loop]. destruct (is_memory a) eqn:Hm; cycle 1.
  { destruct (IH cnt Hcnt) as (H1 & H2 & H3 & H4). split_and!.
    - by apply sublist_skip.
    - set_solver.
    - intros b [->|Hb]%elem_of_cons; [congruence|by apply H3].
    - rewrite filter_cons_False by congruence. done. }
  case_bool_decide as Hw.
  { destruct (IH cnt Hcnt) as (H1 & H2 & H3 & H4).
    split_and!; [by apply sublist_cons|set_solver by congruence|done..]. }
  set (n := default 0 (cnt !! Inst a)). set (cnt' := <[Inst a := n + 1]> cnt).
  assert (Hcnt' : forall i, default 0 (cnt !! i) <= default 0 (cnt' !! i)).
  { intros i. subst cnt'. destruct (decide (i = Inst a)) as [->|];
      [rewrite lookup_insert_eq; cbn; lia|rewrite lookup_insert_ne by done; lia]. }
  destruct (IH cnt') as (H1 & H2 & H3 & H4); [intros i; specialize (Hcnt' i); specialize (Hcnt i); lia|].
  assert (H3' : forall b, b ∈ distill_loop chan loopAllowed cnt' serial -> is_memory b = true ->
            wordify (Addr b) ∈ chan /\ default 0 (cnt !! Inst b) = 0).
  { intros b Hb Hbm. destruct (H3 b Hb Hbm). specialize (Hcnt' (Inst b)). specialize (Hcnt (Inst b)).
    split; [done|lia]. }
  case_bool_decide as Ha; cycle 1.
  { split_and!; [by apply sublist_cons|set_solver by congruence|done..]. }
  assert (n = 0) as Hn by (unfold loopAllowed in Ha; set_solver by lia).
  split_and!; [by apply sublist_skip|set_solver by congruence| |].
  - intros b [->|Hb]%elem_of_cons; [|by apply H3'].
    intros _. by split.
  - rewrite filter_cons_True by done. cbn. constructor; [|done].
    intros (b & E & [Hbm Hb]%list_elem_of_filter)%list_elem_of_fmap.
    destruct (H3 b Hb Hbm) as [_ E0]. revert E0. subst cnt'. rewrite <- E, lookup_insert_eq. cbn. lia.
Qed.

(** Memory accesses of a distilled trace are determined by their instruction. *)
Definition inst_unique (d : SerialAccess) : Prop :=
  NoDup (Inst <$> filter (fun a => is_memory a = true) d).

Lemma inst_unique_eq d a b :
  inst_unique d -> a ∈ d -> b ∈ d -> is_memory a = true -> is_memory b = true ->
  Inst a = Inst b -> a = b.
Proof.
  unfold inst_unique. intros Hnd Ha Hb Hma Hmb E. induction d as [|x d IH]; [set_solver|].
  rewrite filter_cons in Hnd. destruct (decide (is_memory x = true)) as [Hx|Hx].
  - cbn in Hnd. apply NoDup_cons in Hnd as [Hn Hnd].
    assert (Hin : forall y, y ∈ d -> is_memory y = true -> Inst y <> Inst x).
    { intros y Hy Hmy Ey. apply Hn. rewrite <- Ey. apply list_elem_of_fmap. exists y.
      split; [done|]. by apply list_elem_of_filter. }
    apply elem_of_cons in Ha as [->|Ha], Hb as [->|Hb]; [done|..|by apply IH].
    + by destruct (Hin b Hb Hmb).
    + by destruct (Hin a Ha Hma).
  - apply elem_of_cons in Ha as [->|Ha]; [done|]. apply elem_of_cons in Hb as [->|Hb]; [done|]. auto.
Qed.
End distill.

Lemma distill_sublist chan s : distillSerial chan loopAllowed s `sublist_of` s.
Proof. apply distill_loop_spec. intros i. rewrite lookup_empty. cbn. lia. Qed.

Lemma distill_keeps chan s a :
  a ∈ s -> is_memory a = false -> a ∈ distillSerial chan loopAllowed s.
Proof. apply distill_loop_spec. intros i. rewrite lookup_empty. cbn. lia. Qed.

Lemma distill_chan chan s a :
  a ∈ distillSerial chan loopAllowed s -> is_memory a = true -> wordify (Addr a) ∈ chan.
Proof. apply distill_loop_spec. intros i. rewrite lookup_empty. cbn. lia. Qed.

Lemma distill_unique chan s : inst_unique (distillSerial chan loopAllowed s).
Proof. apply distill_loop_spec. intros i. rewrite lookup_empty. cbn. lia. Qed.

(** ** Barriers passed *)

Definition count_typ (ty : Z) (l : SerialAccess) : Z := alen (filter (fun a => Typ a = ty) l).

Lemma count_typ_app ty l k : count_typ ty (l ++ k) = count_typ ty l + count_typ ty k.
Proof. unfold count_typ, alen. rewrite filter_app, length_app. lia. Qed.

Lemma count_typ_cons ty a l :
  count_typ ty (a :: l) = (if decide (Typ a = ty) then 1 else 0) + count_typ ty l.
Proof. unfold count_typ, alen. rewrite filter_cons. case_decide; cbn [length]; lia. Qed.

Lemma count_typ_zero ty l a : count_typ ty l = 0 -> a ∈ l -> Typ a <> ty.
Proof.
  unfold count_typ, alen. intros H Ha E.
  assert (a ∈ filter (fun a => Typ a = ty) l) as Hf by (by apply list_elem_of_filter).
  destruct (filter _ l); [set_solver|cbn in H; lia].
Qed.

Lemma count_typ_nonneg ty l : 0 <= count_typ ty l.
Proof. apply alen_nonneg. Qed.

Lemma memory_typ a : is_memory a = true <-> Typ a = TypeLoad \/ Typ a = TypeStore.
Proof. unfold is_memory. by rewrite orb_true_iff, !Z.eqb_eq. Qed.

Lemma chunk_step_ids c a :
  storeChunkID (chunk_step c a) = storeChunkID c + (if decide (Typ a = TypeFlush) then 1 else 0) /\
  loadChunkID (chunk_step c a) = loadChunkID c + (if decide (Typ a = TypeLFence) then 1 else 0).
Proof.
  unfold chunk_step. destruct (is_memory a) eqn:Hm.
  { apply memory_typ in Hm. cbn.
    unfold TypeFlush, TypeLFence, TypeLoad, TypeStore in *. rewrite !decide_False by lia. lia. }
  destruct (Z.eqb_spec (Typ a) TypeFlush) as [E|E].
  { rewrite decide_True by done. rewrite decide_False by (rewrite E; done). cbn. lia. }
  rewrite (decide_False _ _ E). destruct (Z.eqb_spec (Typ a) TypeLFence) as [E'|E'];
    [rewrite (decide_True _ _ E')|rewrite (decide_False _ _ E')]; cbn; lia.
Qed.

Lemma chunk_ids c l :
  storeChunkID (foldl chunk_step c l) = storeChunkID c + count_typ TypeFlush l /\
  loadChunkID (foldl chunk_step c l) = loadChunkID c + count_typ TypeLFence l.
Proof.
  revert c. induction l as [|a l IH]; intros c; cbn [foldl].
  { unfold count_typ, alen. cbn. lia. }
  destruct (IH (chunk_step c a)) as [-> ->], (chunk_step_ids c a) as [-> ->].
  rewrite !count_typ_cons. lia.
Qed.

Lemma chunk_maps_skip c l i :
  (forall a, a ∈ l -> is_memory a = true -> Inst a <> i) ->
  store_map (foldl chunk_step c l) !! i = store_map c !! i /\
  load_map (foldl chunk_step c l) !! i = load_map c !! i.
Proof.
  revert c. induction l as [|a l IH]; intros c Hl; cbn [foldl]; [done|].
  destruct (IH (chunk_step c a)) as [-> ->]; [set_solver|].
  unfold chunk_step. destruct (is_memory a) eqn:Hm.
  - cbn. unfold getMemID. rewrite !lookup_insert_ne by (apply Hl; [set_solver|done]). done.
  - by destruct (Typ a =? TypeFlush), (Typ a =? TypeLFence).
Qed.

(** A position in a trace whose memory accesses have distinct instructions. *)
Lemma inst_unique_split pre a post b :
  inst_unique (pre ++ a :: post) -> is_memory a = true ->
  b ∈ pre ++ post -> is_memory b = true -> Inst b <> Inst a.
Proof.
  unfold inst_unique. rewrite filter_app, filter_cons. intros Hnd Ha Hb Hm.
  rewrite decide_True in Hnd by done. rewrite fmap_app, fmap_cons in Hnd.
  apply NoDup_app in Hnd as (_ & Hx & Hnd). apply NoDup_cons in Hnd as [Hn _].
  intros E. apply elem_of_app in Hb as [Hb|Hb].
  - apply (Hx (Inst b)); [|rewrite E; set_solver].
    apply list_elem_of_fmap. exists b. split; [done|]. by apply list_elem_of_filter.
  - apply Hn. rewrite <- E. apply list_elem_of_fmap. exists b.
    split; [done|]. by apply list_elem_of_filter.
Qed.

(** The chunk of an access is the number of barriers before it. *)
Lemma chunknize_spec d pre a post :
  inst_unique d -> d = pre ++ a :: post -> is_memory a = true ->
  store_map (chunknize d) !! Inst a = Some (count_typ TypeFlush pre) /\
  load_map (chunknize d) !! Inst a = Some (count_typ TypeLFence pre).
Proof.
  intros Hu -> Ha. unfold chunknize. rewrite foldl_app. cbn [foldl].
  destruct (chunk_maps_skip (chunk_step (foldl chunk_step (mk_chunk_state 0 0 ∅ ∅) pre) a) post (Inst a))
    as [-> ->].
  { intros b Hb. apply (inst_unique_split pre a post b Hu Ha). set_solver. }
  destruct (chunk_ids (mk_chunk_state 0 0 ∅ ∅) pre) as [E1 E2]. cbn in E1, E2.
  unfold chunk_step at 1 3. rewrite Ha. cbn. unfold getMemID.
  rewrite !lookup_insert_eq, E1, E2. done.
Qed.

(** ** Locks held *)

(** The reference: the locks held after a trace, innermost last.  Releasing a
    lock also drops what was acquired after its last acquisition, and
    releasing a lock that is not held empties the stack. *)
Fixpoint below (l : Z) (s : list Z) : list Z :=
  match s with
  | [] => []
  | x :: s => if decide (l ∈ s) then x :: below l s else []
  end.

Definition held_step (s : list Z) (acc : Access) : list Z :=
  if Typ acc =? TypeLockAcquire then if alen s <? MAX_LOCK_COUNT then s ++ [getLockID acc] else s
  else if Typ acc =? TypeLockRelease then below (getLockID acc) s
  else s.

Definition held (t : SerialAccess) : list Z := foldl held_step [] t.

Lemma below_last l s i :
  s !! i = Some l -> (forall j, (i < j)%nat -> s !! j <> Some l) -> below l s = take i s.
Proof.
  revert i. induction s as [|x s IH]; intros i Hi Hlast; [done|]. cbn [below].
  destruct i as [|i]; cbn [take].
  - rewrite decide_False; [done|]. intros [j Hj]%list_elem_of_lookup_1. by apply (Hlast (S j)); [lia|].
  - cbn in Hi. rewrite decide_True by (by eapply list_elem_of_lookup_2).
    rewrite (IH i); [done|done|]. intros j Hj. apply (Hlast (S j)). lia.
Qed.

Lemma below_absent l s : l ∉ s -> below l s = [].
Proof. destruct s; [done|]. intros H. cbn. rewrite decide_False; set_solver. Qed.

Lemma find_lock_spec n st l :
  match find_lock n st l with
  | Some i => 0 <= i < Z.of_nat n /\ st !! Z.to_nat i = Some l /\
              forall j, (Z.to_nat i < j < n)%nat -> st !! j <> Some l
  | None => forall j, (j < n)%nat -> st !! j <> Some l
  end.
Proof.
  induction n as [|n IH]; cbn [find_lock]; [intros; lia|]. case_bool_decide as E.
  - rewrite Nat2Z.id. split_and!; [lia..|done|]. intros j ?. lia.
  - destruct (find_lock n st l) as [i|].
    + destruct IH as (? & ? & Hj). split_and!; [lia..|done|]. intros j ?.
      destruct (decide (j = n)) as [->|]; [done|]. apply Hj. lia.
    + intros j ?. destruct (decide (j = n)) as [->|]; [done|]. apply IH. lia.
Qed.

(** The array and its head represent the stack. *)
Definition represents (s : lock_stack) (l : list Z) : Prop :=
  length (stack s) = 32%nat /\ 0 <= head s <= 32 /\ take (Z.to_nat (head s)) (stack s) = l.

Lemma annotate_step_represents s m l a :
  represents s l -> represents (annotate_step (s, m) a).1 (held_step l a).
Proof.
  intros (Hlen & Hh & <-). unfold annotate_step, held_step. destruct (is_memory a) eqn:Hm.
  { apply memory_typ in Hm. unfold TypeLockAcquire, TypeLockRelease, TypeLoad, TypeStore in *.
    do 2 (rewrite (proj2 (Z.eqb_neq _ _)) by lia). done. }
  unfold alen. rewrite length_take, Hlen. rewrite Nat.min_l, Z2Nat.id by lia.
  destruct (Typ a =? TypeLockAcquire).
  - unfold MAX_LOCK_COUNT. destruct (Z.ltb_spec (head s) 32); [|done].
    unfold represents, aset. cbn. destruct (Z.ltb_spec (head s) 0); [lia|].
    rewrite length_insert. split_and!; [done|lia..|].
    replace (Z.to_nat (head s + 1)) with (S (Z.to_nat (head s))) by lia.
    rewrite (take_S_r _ _ (getLockID a)) by (apply list_lookup_insert_eq; lia).
    by rewrite take_insert_ge by lia.
  - destruct (Typ a =? TypeLockRelease); [|done].
    pose proof (find_lock_spec (Z.to_nat (head s)) (stack s) (getLockID a)) as Hf.
    destruct (find_lock _ _ _) as [i|]; cbn.
    + destruct Hf as (Hi & Hl & Hlast). rewrite Z2Nat.id in Hi by lia.
      split_and!; [done|cbn; lia..|]. cbn.
      rewrite (below_last _ _ (Z.to_nat i)).
      * rewrite take_take. f_equal. lia.
      * rewrite lookup_take_lt by lia. done.
      * intros j Hj. destruct (decide (j < Z.to_nat (head s))%nat).
        -- rewrite lookup_take_lt by lia. apply Hlast. lia.
        -- rewrite lookup_take_ge by lia. done.
    + split_and!; [done|cbn; lia..|]. cbn. rewrite below_absent; [done|].
      intros [j Hj]%list_elem_of_lookup_1. apply lookup_take_Some in Hj as [Hj ?].
      by apply (Hf j).
Qed.

Lemma annotate_represents st l t :
  represents st.1 l -> represents (foldl annotate_step st t).1 (foldl held_step l t).
Proof.
  revert st l. induction t as [|a t IH]; intros [s m] l Hr; [done|]. cbn [foldl].
  apply IH, annotate_step_represents, Hr.
Qed.

Lemma annotate_skip st t i :
  (forall a, a ∈ t -> is_memory a = true -> Inst a <> i) ->
  (foldl annotate_step st t).2 !! i = st.2 !! i.
Proof.
  revert st. induction t as [|a t IH]; intros [s m] Ht; [done|]. cbn [foldl].
  rewrite IH by set_solver. unfold annotate_step. destruct (is_memory a) eqn:Hm; cbn.
  - unfold getMemID. rewrite lookup_insert_ne; [done|]. apply Ht; [set_solver|done].
  - destruct (Typ a =? TypeLockAcquire); [by destruct (_ <? _)|].
    destruct (Typ a =? TypeLockRelease); [by destruct (find_lock _ _ _)|done].
Qed.

Lemma empty_stack_represents : represents (mk_lock_stack (replicate 32 0) 0) [].
Proof. split_and!; [done|done|done|done]. Qed.

(** The locks recorded for an access are those held just before it. *)
Lemma annotate_locks_spec d pre a post :
  inst_unique d -> d = pre ++ a :: post -> is_memory a = true ->
  annotate_locks d !! Inst a = Some (held pre).
Proof.
  intros Hu -> Ha. unfold annotate_locks. rewrite foldl_app. cbn [foldl].
  rewrite annotate_skip.
  2:{ intros b Hb. apply (inst_unique_split pre a post b Hu Ha). set_solver. }
  pose proof (annotate_represents (mk_lock_stack (replicate 32 0) 0, ∅) [] pre empty_stack_represents)
    as (_ & _ & E).
  destruct (foldl annotate_step _ pre) as [s m]. unfold annotate_step at 1. rewrite Ha. cbn in *.
  unfold getMemID. by rewrite lookup_insert_eq, E.
Qed.

(** Memory accesses do not change the locks held, so the distilled trace and
    the original one agree. *)
Lemma held_step_memory s a : is_memory a = true -> held_step s a = s.
Proof.
  intros Hm%memory_typ. unfold held_step, TypeLockAcquire, TypeLockRelease, TypeLoad, TypeStore in *.
  by do 2 (rewrite (proj2 (Z.eqb_neq _ _)) by lia).
Qed.

Lemma held_filter s t :
  foldl held_step s t = foldl held_step s (filter (fun a => is_memory a = false) t).
Proof.
  revert s. induction t as [|a t IH]; intros s; [done|]. rewrite filter_cons. cbn [foldl].
  case_decide as Ha; cbn [foldl]; rewrite IH; [done|].
  rewrite held_step_memory; [done|]. by destruct (is_memory a).
Qed.

Lemma distill_others chan cnt t :
  filter (fun a => is_memory a = false) (distill_loop chan loopAllowed cnt t) =
  filter (fun a => is_memory a = false) t.
Proof.
  revert cnt. induction t as [|a t IH]; intros cnt; [done|]. cbn [distill_loop].
  destruct (is_memory a) eqn:Hm.
  - rewrite (filter_cons_False _ a t) by congruence.
    case_bool_decide; [apply IH|]. case_bool_decide; [|apply IH].
    rewrite filter_cons_False by congruence. apply IH.
  - rewrite !filter_cons_True by done. by rewrite IH.
Qed.

(** The locks held when [a] executes. *)
Definition held_at (t : SerialAccess) (a : Access) : list Z :=
  held (filter (fun x => Timestamp x < Timestamp a) t).

Lemma filter_before pre a post :
  StronglySorted ts_lt (pre ++ a :: post) ->
  filter (fun x => Timestamp x < Timestamp a) (pre ++ a :: post) = pre.
Proof.
  intros Hs. apply StronglySorted_app in Hs as (Hc & _ & Hs).
  inversion Hs as [|?? _ Ha]; subst. rewrite Forall_forall in Ha.
  assert (E1 : forall l : SerialAccess, (forall x, x ∈ l -> Timestamp x < Timestamp a) ->
            filter (fun x => Timestamp x < Timestamp a) l = l).
  { induction l as [|x l IH]; intros Hl; [done|]. rewrite filter_cons_True by (apply Hl; set_solver).
    f_equal. apply IH. set_solver. }
  assert (E2 : forall l : SerialAccess, (forall x, x ∈ l -> Timestamp a <= Timestamp x) ->
            filter (fun x => Timestamp x < Timestamp a) l = []).
  { induction l as [|x l IH]; intros Hl; [done|].
    rewrite filter_cons_False by (specialize (Hl x ltac:(set_solver)); lia). apply IH. set_solver. }
  rewrite filter_app, E1, E2; [by rewrite app_nil_r|..].
  - intros x [->|Hx]%elem_of_cons; [lia|]. specialize (Ha x Hx). unfold ts_lt in Ha. lia.
  - intros x Hx. apply (Hc x a Hx). set_solver.
Qed.

Lemma filter_filter_comm {A} (P Q : A -> Prop) `{forall x, Decision (P x), forall x, Decision (Q x)}
    (l : list A) : filter P (filter Q l) = filter Q (filter P l).
Proof.
  induction l as [|x l IH]; [done|]. rewrite !filter_cons.
  destruct (decide (P x)), (decide (Q x)); rewrite ?filter_cons;
    repeat first [rewrite decide_True by done | rewrite decide_False by done]; by rewrite IH.
Qed.

Lemma held_at_distill chan t a : held_at (distillSerial chan loopAllowed t) a = held_at t a.
Proof.
  unfold held_at, held. rewrite held_filter, filter_filter_comm. unfold distillSerial.
  rewrite distill_others, filter_filter_comm, <- held_filter. done.
Qed.

Lemma annotate_held chan t a :
  StronglySorted ts_lt t -> a ∈ distillSerial chan loopAllowed t -> is_memory a = true ->
  annotate_locks (distillSerial chan loopAllowed t) !! Inst a = Some (held_at t a).
Proof.
  intros Hs Ha Hm. pose proof (distill_unique chan t) as Hu.
  assert (Hs' : StronglySorted ts_lt (distillSerial chan loopAllowed t))
    by (eapply StronglySorted_sublist; [apply distill_sublist|done]).
  rewrite <- (held_at_distill chan). apply list_elem_of_split in Ha as (pre & post & E).
  rewrite (annotate_locks_spec _ pre a post Hu E Hm). unfold held_at. rewrite E in Hs' |- *.
  by rewrite filter_before.
Qed.

(** Two memory accesses are in the same store (load) chunk only if no flush
    (load fence) executes between them. *)
Definition no_barrier (ty : Z) (t : SerialAccess) (a b : Access) : Prop :=
  forall x, x ∈ t -> Typ x = ty -> ~ (Timestamp a < Timestamp x < Timestamp b).

Lemma same_chunk ty chan t a b (m : gmap Z Z) :
  let d := distillSerial chan loopAllowed t in
  StronglySorted ts_lt t -> a ∈ d -> b ∈ d -> is_memory a = true -> is_memory b = true ->
  (ty = TypeFlush /\ m = store_map (chunknize d) \/ ty = TypeLFence /\ m = load_map (chunknize d)) ->
  Timestamp a <= Timestamp b ->
  is_Some (m !! Inst a) /\ is_Some (m !! Inst b) /\
  (m !! Inst a = m !! Inst b <-> no_barrier ty t a b).
Proof.
  intros d Hs Ha Hb Hma Hmb Hm Hab. pose proof (distill_unique chan t) as Hu. fold d in Hu.
  assert (Hs' : StronglySorted ts_lt d) by (eapply StronglySorted_sublist; [apply distill_sublist|done]).
  assert (Hc : forall x pre post, d = pre ++ x :: post -> is_memory x = true ->
                m !! Inst x = Some (count_typ ty pre)).
  { intros x pre post E Hx. destruct (chunknize_spec d pre x post Hu E Hx).
    by destruct Hm as [[-> ->]|[-> ->]]. }
  destruct (decide (Timestamp a = Timestamp b)) as [E|Hne].
  { assert (a = b) as <- by (by eapply (sorted_lt_unique d)).
    apply list_elem_of_split in Ha as (pre & post & Ed). rewrite (Hc a pre post Ed Hma).
    split_and!; [by eexists..|]. split; [|done]. intros _ x _ _. lia. }
  destruct (sorted_lt_split d a b Hs' Ha Hb) as (pre & mid & post & E); [unfold ts_lt; lia|].
  rewrite (Hc a pre _ E Hma). rewrite (Hc b (pre ++ a :: mid) post) by
    (by rewrite ?E, <- ?app_assoc || done).
  rewrite count_typ_app, count_typ_cons.
  assert (Typ a <> ty) by (apply memory_typ in Hma; destruct Hm as [[-> _]|[-> _]];
    unfold TypeLoad, TypeStore, TypeFlush, TypeLFence in *; lia).
  rewrite decide_False by done. split_and!; [by eexists..|]. split.
  - intros [= E0] x Hx Hty [Hax Hxb].
    assert (Hxd : x ∈ d).
    { apply distill_keeps; [done|]. apply not_true_is_false. intros Hmx%memory_typ.
      destruct Hm as [[-> _]|[-> _]]; unfold TypeLoad, TypeStore, TypeFlush, TypeLFence in *; lia. }
    apply (count_typ_zero ty mid x); [lia|by eapply (sorted_lt_between d)|done].
  - intros Hnb. f_equal. destruct (decide (count_typ ty mid = 0)) as [->|Hn]; [lia|]. exfalso.
    unfold count_typ in Hn. destruct (filter (fun a => Typ a = ty) mid) as [|x l] eqn:Ef; [done|].
    assert (Hx : x ∈ filter (fun a => Typ a = ty) mid) by (rewrite Ef; set_solver).
    apply list_elem_of_filter in Hx as [Hty Hx].
    assert (x ∈ t). { eapply elem_of_submseteq; [|apply sublist_submseteq, (distill_sublist chan)].
      fold d. rewrite E. set_solver. }
    apply (Hnb x); [done|done|]. rewrite E in Hs'.
    apply StronglySorted_app in Hs' as (_ & _ & Hs2). inversion Hs2 as [|?? Hs3 Hf]; subst.
    rewrite Forall_forall in Hf. split; [apply Hf; set_solver|].
    apply StronglySorted_app in Hs3 as (Hc3 & _ & _). apply Hc3; set_solver.
Qed.
