(* ===== verification/HintSpec.v ===== *)
(** * Soundness and completeness of the hints

    The stages of the knotter as state transitions with invariants: the
    communications it forms, the knots it ties, and what ends up in a hint.
    The theorems are about [ComputeHints] and [ComputeHints0] as the fuzzer
    calls them. *)

From stdpp Require Import base list gmap sets strings sorting.
From Stdlib Require Import ZArith Lia.
From S2P Require Import Prelude Accesses Comms Hints Knotter KnotterSpec.

Local Open Scope Z_scope.
Local Open Scope record_scope.

(** A table indexed by thread, given the entries of the thread executed first
    and of the other one. *)
Definition by_thread {A} (f : Z) (x y : A) : list A := if f =? 0 then [x; y] else [y; x].

Lemma by_thread_first {A} f (x y : A) : f = 0 \/ f = 1 -> aget (by_thread f x y) f = Some x.
Proof. by intros [-> | ->]. Qed.

Lemma by_thread_other {A} f (x y : A) : f = 0 \/ f = 1 -> aget (by_thread f x y) (1 - f) = Some y.
Proof. by intros [-> | ->]. Qed.

#[local] Arguments Communication_Hash : simpl never.
#[local] Arguments Knot_Hash : simpl never.
#[local] Arguments distillSerial : simpl never.
#[local] Arguments held_at : simpl never.

Section stages.
Context `{GoRange} (th : Z) (t0 t1 : SerialAccess) (Hseq : sequential th t0 t1).

Definition chan_of : gset Z := foldl (fun chan serial => collectCommChansSerial serial chan) ∅ [t0; t1].
Abbreviation d0 := (distillSerial chan_of loopAllowed t0).
Abbreviation d1 := (distillSerial chan_of loopAllowed t1).

(** ** Facts about the two traces *)

Lemma sorted0 : StronglySorted ts_lt t0.
Proof. destruct Hseq as [_ _ _ Hs]. by apply StronglySorted_app in Hs as (_ & ? & _). Qed.

Lemma sorted1 : StronglySorted ts_lt t1.
Proof. destruct Hseq as [_ _ _ Hs]. by apply StronglySorted_app in Hs as (_ & _ & ?). Qed.

Lemma in_d0 a : a ∈ d0 -> a ∈ t0.
Proof. intros Ha. eapply elem_of_submseteq; [done|apply sublist_submseteq, distill_sublist]. Qed.

Lemma in_d1 a : a ∈ d1 -> a ∈ t1.
Proof. intros Ha. eapply elem_of_submseteq; [done|apply sublist_submseteq, distill_sublist]. Qed.

Lemma thread0 a : a ∈ d0 -> Thread a = th.
Proof. intros Ha%in_d0. destruct Hseq as [_ Ht _ _]. rewrite Forall_forall in Ht. auto. Qed.

Lemma thread1 a : a ∈ d1 -> Thread a = 1 - th.
Proof. intros Ha%in_d1. destruct Hseq as [_ _ Ht _]. rewrite Forall_forall in Ht. auto. Qed.

Lemma before a b : a ∈ d0 -> b ∈ d1 -> Timestamp a < Timestamp b.
Proof.
  intros Ha%in_d0 Hb%in_d1. destruct Hseq as [_ _ _ Hs].
  apply StronglySorted_app in Hs as (Hc & _ & _). by apply Hc.
Qed.

Lemma u32_first : u32 th = th /\ u32 (1 - th) = 1 - th.
Proof. by destruct Hseq as [[-> | ->] _ _ _]. Qed.

(** ** The tables *)

(** The fields after the first four stages, which the others only read. *)
Record tables (k : Knotter) : Prop := mk_tables {
  tab_locks : locks k = by_thread th (annotate_locks d0) (annotate_locks d1);
  tab_store : storeChunks k = by_thread th (store_map (chunknize d0)) (store_map (chunknize d1));
  tab_load : loadChunks k = by_thread th (load_map (chunknize d0)) (load_map (chunknize d1))
}.

Lemma head_thread0 a l : d0 = a :: l -> u32 (Thread a) = th.
Proof. intros E. rewrite thread0 by (rewrite E; set_solver). apply u32_first. Qed.

Lemma head_thread1 a l : d1 = a :: l -> u32 (Thread a) = 1 - th.
Proof. intros E. rewrite thread1 by (rewrite E; set_solver). apply u32_first. Qed.

Lemma annotateLocks_run k :
  seq k = [d0; d1] ->
  annotateLocks k = Ret tt (k <| locks := by_thread th (annotate_locks d0) (annotate_locks d1) |>).
Proof.
  intros E. unfold annotateLocks, mbind, prog_bind, modify, gets. cbv beta iota.
  change (seq (k <| locks := _ |>)) with (seq k). rewrite E. pose proof head_thread0 as H0. pose proof head_thread1 as H1.
  destruct (seq_first _ _ _ Hseq) as [-> | ->];
    destruct d0 as [|a0 l0], d1 as [|a1 l1]; cbn [foreach];
    rewrite ?(H0 _ _ eq_refl), ?(H1 _ _ eq_refl); reflexivity.
Qed.

Lemma chunknizeSerials_run k :
  seq k = [d0; d1] ->
  chunknizeSerials k =
    Ret tt (k <| storeChunks := by_thread th (store_map (chunknize d0)) (store_map (chunknize d1)) |>
              <| loadChunks := by_thread th (load_map (chunknize d0)) (load_map (chunknize d1)) |>).
Proof.
  intros E. unfold chunknizeSerials, mbind, prog_bind, modify, gets. cbv beta iota.
  change (seq (k <| storeChunks := _ |> <| loadChunks := _ |>)) with (seq k). rewrite E. pose proof head_thread0 as H0. pose proof head_thread1 as H1.
  destruct (seq_first _ _ _ Hseq) as [-> | ->];
    destruct d0 as [|a0 l0], d1 as [|a1 l1]; cbn [foreach];
    rewrite ?(H0 _ _ eq_refl), ?(H1 _ _ eq_refl); reflexivity.
Qed.

Definition access_map_of : gmap Z (list Access) := foldl buildAccessMapSerial ∅ [d0; d1].

Lemma build_serial_spec m s a w :
  a ∈ default [] (buildAccessMapSerial m s !! w) <->
  a ∈ default [] (m !! w) \/ (a ∈ s /\ is_memory a = true /\ wordify (Addr a) = w).
Proof.
  unfold buildAccessMapSerial. revert m. induction s as [|b s IH]; intros m; cbn [foldl]; [set_solver|].
  rewrite IH. rewrite orb_comm. change (_ || _) with (is_memory b).
  destruct (is_memory b) eqn:Hb; cbn [negb].
  - destruct (decide (w = wordify (Addr b))) as [->|Hw].
    + rewrite lookup_insert_eq. cbn. set_solver.
    + rewrite lookup_insert_ne by done. set_solver.
  - set_solver by congruence.
Qed.

Lemma access_map_spec a w :
  a ∈ default [] (access_map_of !! w) <->
  (a ∈ d0 \/ a ∈ d1) /\ is_memory a = true /\ wordify (Addr a) = w.
Proof.
  unfold access_map_of. cbn [foldl]. rewrite !build_serial_spec, lookup_empty. set_solver.
Qed.

(** ** Communications *)

(** The pairs of accesses that communicate: a store and a load of the same
    memory that hold no lock in common. *)
Record communicates (a b : Access) : Prop := mk_communicates {
  com_former : a ∈ d0;
  com_latter : b ∈ d1;
  com_mem_former : is_memory a = true;
  com_mem_latter : is_memory b = true;
  com_word : wordify (Addr a) = wordify (Addr b);
  com_types : Typ a <> Typ b;
  com_overlap : Overlapped a b = true;
  com_locks : forall l, l ∈ held_at t0 a -> l ∉ held_at t1 b
}.

(** The invariant of the loop that forms them: what was formed communicates,
    no two have the same hash, and [commHsh] holds the hashes. *)
Record comm_inv (k : Knotter) : Prop := mk_comm_inv {
  ci_tables : tables k;
  ci_ok : forall c, c ∈ comms k -> communicates (Former c) (Latter c);
  ci_nodup : NoDup (Communication_Hash <$> comms k);
  ci_hash : commHsh k = list_to_set (Communication_Hash <$> comms k)
}.

Definition more_hashes (k k' : Knotter) : Prop := commHsh k ⊆ commHsh k'.

#[local] Instance more_hashes_preorder : PreOrder more_hashes.
Proof. split; [intros k|intros k1 k2 k3]; unfold more_hashes; set_solver. Qed.

Lemma lockContending_spec k a b (Q : bool -> Knotter -> Prop) :
  tables k -> a ∈ d0 -> b ∈ d1 -> is_memory a = true -> is_memory b = true ->
  (forall r, (r = true <-> exists l, l ∈ held_at t0 a /\ l ∈ held_at t1 b) -> Q r k) ->
  wp no_exit (lockContending a b) Q k.
Proof.
  intros Hk Ha Hb Hma Hmb HQ. unfold lockContending, go_index.
  wp_step. wp_step. rewrite (tab_locks _ Hk), (thread0 a Ha), (thread1 b Hb).
  rewrite (proj1 u32_first), (proj2 u32_first).
  rewrite by_thread_first, by_thread_other by apply Hseq. do 4 wp_step.
  rewrite (annotate_held _ t0 a sorted0 Ha Hma), (annotate_held _ t1 b sorted1 Hb Hmb). wp_step.
  apply HQ. cbn [default from_option]. rewrite foldl_union_spec. unfold id.
  rewrite list_fmap_id, existsb_exists. split.
  - intros (l & Hl & E). bool_to_prop. exists l. apply list_elem_of_In in Hl. set_solver.
  - intros (l & Hl & Hl'). exists l. split; [by apply list_elem_of_In|].
    apply bool_decide_eq_true. set_solver.
Qed.

Lemma formCommunicationSingle_spec k a b :
  comm_inv k -> communicates a b ->
  wp no_exit (formCommunicationSingle a b) (fun _ k' =>
    comm_inv k' /\ more_hashes k k' /\ Communication_Hash (mk_comm a b) ∈ commHsh k') k.
Proof.
  intros [Ht Hok Hnd Hh] Hab. unfold formCommunicationSingle, duppedComm. cbv zeta.
  do 6 wp_step. set (h := Communication_Hash (mk_comm a b)). wp_step.
  - wp_step. split_and!.
    + split; [by destruct Ht|done..|]. cbn. set_solver.
    + unfold more_hashes. cbn. set_solver.
    + cbn. set_solver.
  - wp_step. split_and!.
    + split; [by destruct Ht|..]; cbn.
      * intros c [Hc| ->%list_elem_of_singleton]%elem_of_app; [by apply Hok|done].
      * rewrite fmap_app. apply NoDup_app. split_and!; [done| |apply NoDup_singleton].
        intros x Hx ->%list_elem_of_singleton. fold h in Hx. set_solver.
      * rewrite fmap_app. cbn. fold h. set_solver.
    + unfold more_hashes. cbn. set_solver.
    + cbn. set_solver.
Qed.

(** What a pair of accesses contributes once it was visited. *)
Definition covered (a b : Access) (k : Knotter) : Prop :=
  (communicates a b -> Communication_Hash (mk_comm a b) ∈ commHsh k) /\
  (communicates b a -> Communication_Hash (mk_comm b a) ∈ commHsh k).

Lemma covered_mono a b k k' : more_hashes k k' -> covered a b k -> covered a b k'.
Proof. unfold more_hashes, covered. set_solver. Qed.

Lemma not_both a b : communicates a b -> communicates b a -> False.
Proof.
  intros H1 H2. pose proof (before a b (com_former _ _ H1) (com_latter _ _ H1)).
  pose proof (before b a (com_former _ _ H2) (com_latter _ _ H2)). lia.
Qed.

(** The part of the loop body after the accesses were put in order. *)
Lemma form_ordered_spec k a b :
  comm_inv k -> a ∈ d0 -> b ∈ d1 -> is_memory a = true -> is_memory b = true ->
  wordify (Addr a) = wordify (Addr b) ->
  wp no_exit
    (if Typ a =? Typ b then mret tt
     else if negb (Overlapped a b) then mret tt
     else contending ← lockContending a b;
          if (contending : bool) then mret tt else formCommunicationSingle a b)
    (fun _ k' => comm_inv k' /\ more_hashes k k' /\ covered a b k') k.
Proof.
  intros Hk Ha Hb Hma Hmb Hw.
  assert (Hskip : ~ communicates a b -> covered a b k).
  { intros Hn. split; [done|]. intros Hba. pose proof (before _ _ (com_former _ _ Hba) (com_latter _ _ Hba)).
    pose proof (before a b Ha Hb). lia. }
  wp_step; [wp_step; split_and!; [done|reflexivity|apply Hskip; by intros []]|].
  wp_step; [wp_step; split_and!; [done|reflexivity|apply Hskip; intros []; congruence]|].
  wp_step. apply lockContending_spec; [apply Hk|done..|]. intros [] Hr.
  - wp_step. split_and!; [done|reflexivity|]. apply Hskip. intros [].
    destruct (proj1 Hr eq_refl) as (l & ? & ?). naive_solver.
  - assert (Hc : communicates a b).
    { split; try done. intros l Hl Hl'. assert (false = true); [apply Hr; eauto|done]. }
    eapply wp_mono; [by apply formCommunicationSingle_spec|].
    intros [] k' (? & ? & ?). split_and!; [done..|]. split; [done|].
    intros Hba. by destruct (not_both a b).
Qed.

Lemma form_pair_spec k a b :
  comm_inv k -> (a ∈ d0 \/ a ∈ d1) -> (b ∈ d0 \/ b ∈ d1) ->
  is_memory a = true -> is_memory b = true -> wordify (Addr a) = wordify (Addr b) ->
  wp no_exit (form_pair a b) (fun _ k' => comm_inv k' /\ more_hashes k k' /\ covered a b k') k.
Proof.
  intros Hk Ha Hb Hma Hmb Hw. unfold form_pair.
  assert (th <> 1 - th) by (destruct (seq_first _ _ _ Hseq); lia).
  destruct (Z.eqb_spec (Thread a) (Thread b)) as [E|E].
  { wp_step. split_and!; [done|reflexivity|]. split; intros [H1 H2 _ _ _ _ _ _];
      apply thread0 in H1; apply thread1 in H2; congruence. }
  destruct Ha as [Ha|Ha], Hb as [Hb|Hb]; try (rewrite !thread0 in E by done; done);
    try (rewrite !thread1 in E by done; done).
  - pose proof (before a b Ha Hb). destruct (Z.ltb_spec (Timestamp b) (Timestamp a)); [lia|].
    by apply form_ordered_spec.
  - pose proof (before b a Hb Ha). destruct (Z.ltb_spec (Timestamp b) (Timestamp a)); [|lia].
    eapply wp_mono; [by apply form_ordered_spec|]. unfold covered. naive_solver.
Qed.

Lemma formCommunicationAddr_spec k l :
  comm_inv k ->
  (exists w, forall a, a ∈ l -> (a ∈ d0 \/ a ∈ d1) /\ is_memory a = true /\ wordify (Addr a) = w) ->
  wp no_exit (formCommunicationAddr l) (fun _ k' =>
    comm_inv k' /\ more_hashes k k' /\ forall a b, a ∈ l -> b ∈ l -> covered a b k') k.
Proof.
  intros Hk [w Hl]. revert k Hk. induction l as [|a l IH]; intros k Hk; cbn [formCommunicationAddr].
  { wp_step. split_and!; [done|reflexivity|set_solver]. }
  wp_step. eapply wp_mono.
  { apply (wp_foreach_all no_exit comm_inv more_hashes (covered a)); [intros; by eapply covered_mono|done|].
    intros b k1 Hb Hk1. destruct (Hl a ltac:(by left)) as (? & ? & ?), (Hl b Hb) as (? & ? & ?).
    apply form_pair_spec; try done. congruence. }
  intros [] k1 (Hk1 & Hm1 & Hc1). eapply wp_mono; [apply IH; [intros x Hx; apply Hl; by right|done]|].
  intros [] k2 (Hk2 & Hm2 & Hc2). split_and!; [done|by etransitivity|].
  assert (Hc1' : forall b, b ∈ a :: l -> covered a b k2) by (intros b Hb; eapply covered_mono; [exact Hm2|by apply Hc1]).
  intros x y [->|Hx]%elem_of_cons Hy; [by apply Hc1'|].
  apply elem_of_cons in Hy as [->|Hy]; [|by apply Hc2].
  destruct (Hc1' x ltac:(by right)) as [H1 H2]. by split.
Qed.

Lemma formCommunications_spec k :
  tables k -> accessMap k = access_map_of ->
  wp no_exit formCommunications (fun _ k' =>
    comm_inv k' /\ forall a b, communicates a b -> Communication_Hash (mk_comm a b) ∈ commHsh k') k.
Proof.
  intros Ht Hm. unfold formCommunications. do 4 wp_step.
  match goal with |- context [range_map ?m] => change m with (accessMap k) end. rewrite Hm. eapply wp_mono.
  - apply (wp_foreach_all no_exit comm_inv more_hashes (fun kv k' =>
      forall a b, a ∈ kv.2 -> b ∈ kv.2 -> covered a b k')).
    + intros [w l] k1 k2 Hmore Hc a b Ha Hb. eapply covered_mono; [done|]. by apply Hc.
    + split; [by destruct Ht|..]; cbn; [by intros c ?%not_elem_of_nil|constructor|done].
    + intros [w l] k1 Hin Hk1. cbn [snd]. apply formCommunicationAddr_spec; [done|]. exists w.
      rewrite range_map_perm in Hin. apply elem_of_map_to_list in Hin.
      intros a Ha. apply access_map_spec. by rewrite Hin.
  - intros [] k' (Hk' & _ & Hall). split; [done|]. intros a b Hab.
    assert (Hin : forall x, x = a \/ x = b -> x ∈ default [] (access_map_of !! wordify (Addr a))).
    { intros x Hx. apply access_map_spec. destruct Hab, Hx as [-> | ->]; auto. }
    destruct (access_map_of !! wordify (Addr a)) as [l|] eqn:El.
    + apply (Hall (wordify (Addr a), l)); [|apply Hin; auto|apply Hin; auto|done].
      rewrite range_map_perm. by apply elem_of_map_to_list.
    + specialize (Hin a (or_introl eq_refl)). by apply not_elem_of_nil in Hin.
Qed.

(** ** Knots *)

(** A knot that a missing barrier explains: the first communication encloses
    the second, they start at different addresses, and no store barrier
    separates their first accesses ([st]), or, failing that, no load barrier
    separates their second ones. *)
Record tied (st : bool) (kn : Knot) : Prop := mk_tied {
  tied_former : Timestamp (Former (knot0 kn)) < Timestamp (Former (knot1 kn));
  tied_latter : Timestamp (Latter (knot1 kn)) <= Timestamp (Latter (knot0 kn));
  tied_addr : Addr (Former (knot0 kn)) <> Addr (Former (knot1 kn));
  tied_barrier :
    if st then no_barrier TypeFlush t0 (Former (knot0 kn)) (Former (knot1 kn))
    else ~ no_barrier TypeFlush t0 (Former (knot0 kn)) (Former (knot1 kn)) /\
         no_barrier TypeLFence t1 (Latter (knot1 kn)) (Latter (knot0 kn))
}.

Definition barrier_set (st : bool) (k : Knotter) : gset Z :=
  if st then testingStoreBarrier k else testingLoadBarrier k.

Definition group (k : Knotter) (h : Z) : list Knot := default [] (knots k !! h).

(** The invariant of the loop that ties them, over the communications [cs]. *)
Record knot_inv (cs : list Communication) (k : Knotter) : Prop := mk_knot_inv {
  ki_tables : tables k;
  ki_group : forall h kn, kn ∈ group k h ->
    Communication_Hash (knot1 kn) = h /\ knot0 kn ∈ cs /\ knot1 kn ∈ cs /\
    exists st, tied st kn /\ Knot_Hash kn ∈ barrier_set st k;
  ki_sets : forall st h, h ∈ barrier_set st k ->
    exists kn, knot0 kn ∈ cs /\ knot1 kn ∈ cs /\ tied st kn /\ Knot_Hash kn = h
}.

Definition more_knots (k k' : Knotter) : Prop :=
  (forall h kn, kn ∈ group k h -> kn ∈ group k' h) /\
  (forall st, barrier_set st k ⊆ barrier_set st k').

#[local] Instance more_knots_preorder : PreOrder more_knots.
Proof.
  split; [intros k|intros k1 k2 k3 [H1 H2] [H3 H4]]; (split; [|intros st]); auto; try done.
  specialize (H2 st). specialize (H4 st). set_solver.
Qed.

Lemma inSameChunk_store_spec k a b (Q : bool -> Knotter -> Prop) :
  tables k -> a ∈ d0 -> b ∈ d0 -> is_memory a = true -> is_memory b = true ->
  Timestamp a <= Timestamp b ->
  (forall r, (r = true <-> no_barrier TypeFlush t0 a b) -> Q r k) ->
  wp no_exit (inSameChunk a b true) Q k.
Proof.
  intros Hk Ha Hb Hma Hmb Hab HQ. unfold inSameChunk, go_index.
  rewrite (thread0 a Ha), (thread0 b Hb), Z.eqb_refl. cbn [negb].
  wp_step. wp_step. rewrite (tab_store _ Hk), (proj1 u32_first).
  rewrite by_thread_first by apply Hseq. wp_step. wp_step.
  destruct (same_chunk TypeFlush chan_of t0 a b (store_map (chunknize d0)) sorted0 Ha Hb Hma Hmb)
    as ([x Ex] & [y Ey] & E); [by left|done|].
  rewrite Ex, Ey in E |- *. wp_step. apply HQ. rewrite <- E, Z.eqb_eq. naive_solver.
Qed.

Lemma inSameChunk_load_spec k a b (Q : bool -> Knotter -> Prop) :
  tables k -> a ∈ d1 -> b ∈ d1 -> is_memory a = true -> is_memory b = true ->
  Timestamp b <= Timestamp a ->
  (forall r, (r = true <-> no_barrier TypeLFence t1 b a) -> Q r k) ->
  wp no_exit (inSameChunk a b false) Q k.
Proof.
  intros Hk Ha Hb Hma Hmb Hab HQ. unfold inSameChunk, go_index.
  rewrite (thread1 a Ha), (thread1 b Hb), Z.eqb_refl. cbn [negb].
  wp_step. wp_step. rewrite (tab_load _ Hk), (proj2 u32_first).
  rewrite by_thread_other by apply Hseq. wp_step. wp_step.
  destruct (same_chunk TypeLFence chan_of t1 b a (load_map (chunknize d1)) sorted1 Hb Ha Hmb Hma)
    as ([x Ex] & [y Ey] & E); [by right|done|].
  rewrite Ex, Ey in E |- *. wp_step. apply HQ. rewrite <- E, Z.eqb_eq. naive_solver.
Qed.

Section tie.
Context (cs : list Communication).
Context (Hcs : forall c, c ∈ cs -> communicates (Former c) (Latter c)).

Lemma parallel_comms c0 c1 : c0 ∈ cs -> c1 ∈ cs -> Parallel c0 c1 = true.
Proof.
  intros [H0 H1]%Hcs [H2 H3]%Hcs. apply parallel_spec.
  rewrite (thread0 _ H0), (thread0 _ H2), (thread1 _ H1), (thread1 _ H3). done.
Qed.

(** Which barrier a knot tests. *)
Definition explains (st : bool) (c0 c1 : Communication) : Prop :=
  if st then no_barrier TypeFlush t0 (Former c0) (Former c1)
  else ~ no_barrier TypeFlush t0 (Former c0) (Former c1) /\
       no_barrier TypeLFence t1 (Latter c1) (Latter c0).

Lemma tied_intro st c0 c1 :
  c0 ∈ cs -> c1 ∈ cs -> Timestamp (Former c0) <= Timestamp (Former c1) ->
  Timestamp (Latter c1) <= Timestamp (Latter c0) -> Addr (Former c0) <> Addr (Former c1) ->
  explains st c0 c1 -> tied st (mk_knot c0 c1).
Proof.
  intros [H0 _]%Hcs [H1 _]%Hcs Hf Hl Ha Hb. split; cbn [knot0 knot1]; try done.
  destruct (decide (Timestamp (Former c0) = Timestamp (Former c1))) as [E|]; [|lia].
  destruct Ha. f_equal. apply (sorted_lt_unique t0); [apply sorted0|by apply in_d0|by apply in_d0|done].
Qed.

Lemma formKnotSingle_spec k st c0 c1 :
  knot_inv cs k -> c0 ∈ cs -> c1 ∈ cs ->
  Timestamp (Former c0) <= Timestamp (Former c1) ->
  Timestamp (Latter c1) <= Timestamp (Latter c0) -> explains st c0 c1 ->
  wp no_exit (formKnotSingle c0 c1 st) (fun _ k' =>
    knot_inv cs k' /\ more_knots k k' /\
    (Addr (Former c0) <> Addr (Former c1) ->
     mk_knot c0 c1 ∈ group k' (Communication_Hash c1) /\
     Knot_Hash (mk_knot c0 c1) ∈ barrier_set st k')) k.
Proof.
  intros Hk Hc0 Hc1 Hf Hl Hex. unfold formKnotSingle. rewrite parallel_comms by done. cbn [negb].
  wp_step; [wp_step; split_and!; [done|reflexivity|done]|].
  set (kn := mk_knot c0 c1). set (h := Communication_Hash c1). set (kh := Knot_Hash kn). cbv zeta.
  assert (Htied : tied st kn) by (by apply tied_intro).
  set (k1 := k <| knots ::= fun m => <[h := default [] (m !! h) ++ [kn]]> m |>).
  assert (Hg : forall h' x, x ∈ group k1 h' <-> x ∈ group k h' \/ (h' = h /\ x = kn)).
  { intros h' x. unfold group. subst k1. cbn. destruct (decide (h' = h)) as [->|Hne].
    - rewrite lookup_insert_eq. cbn. rewrite elem_of_app, list_elem_of_singleton.
      split; [intros [?| ->]; auto|intros [?|[_ ->]]; auto].
    - rewrite lookup_insert_ne by done. split; [by left|]. intros [?|[? _]]; done. }
  assert (Hend : forall k', (forall h', group k' h' = group k1 h') ->
    (forall st', barrier_set st' k' = if decide (st' = st) then {[kh]} ∪ barrier_set st' k
                                      else barrier_set st' k) -> tables k' ->
    knot_inv cs k' /\ more_knots k k' /\
    (Addr (Former c0) <> Addr (Former c1) -> kn ∈ group k' h /\ kh ∈ barrier_set st k')).
  { intros k' Hg' Hb' Ht'. destruct Hk as [Ht Hgr Hst].
    assert (Hsub : forall st', barrier_set st' k ⊆ barrier_set st' k').
    { intros st'. rewrite Hb'. case_decide; [apply union_subseteq_r|done]. }
    split_and!; [split; [done|..]|split; [|done]|].
    - intros h' x. rewrite Hg', Hg. intros [Hx|[-> ->]].
      + destruct (Hgr h' x Hx) as (? & ? & ? & st' & ? & ?). split_and!; [done..|].
        exists st'. split; [done|]. by apply Hsub.
      + split_and!; [done..|]. exists st. split; [done|]. rewrite Hb', decide_True by done.
        by apply elem_of_union_l, elem_of_singleton.
    - intros st' h'. rewrite Hb'. case_decide as Est; [|apply Hst].
      intros [->%elem_of_singleton|Hh]%elem_of_union; [|by apply Hst].
      subst st'. exists kn. by split_and!.
    - intros h' x Hx. rewrite Hg', Hg. by left.
    - intros _. rewrite Hg', Hg, Hb', decide_True by done.
      split; [by right|by apply elem_of_union_l, elem_of_singleton]. }
  do 2 wp_step. fold k1. destruct st; wp_step; apply Hend; try (intros; reflexivity);
    try (by destruct (ki_tables _ _ Hk)); by intros [].
Qed.

(** What a pair of communications contributes once it was visited. *)
Definition knotted (c0 c1 : Communication) (k : Knotter) : Prop :=
  forall st x y, (x = c0 /\ y = c1) \/ (x = c1 /\ y = c0) -> tied st (mk_knot x y) ->
    mk_knot x y ∈ group k (Communication_Hash y) /\ Knot_Hash (mk_knot x y) ∈ barrier_set st k.

Lemma knotted_mono c0 c1 k k' : more_knots k k' -> knotted c0 c1 k -> knotted c0 c1 k'.
Proof.
  intros [Hg Hb] Hk st x y Hxy Ht. destruct (Hk st x y Hxy Ht). split; [by apply Hg|by apply Hb].
Qed.

Lemma tied_explains st c0 c1 : tied st (mk_knot c0 c1) -> explains st c0 c1.
Proof. by intros []. Qed.

(** The body after [canonicalize]. *)
Lemma form_ordered_knot k c0 c1 :
  knot_inv cs k -> c0 ∈ cs -> c1 ∈ cs -> Timestamp (Former c0) <= Timestamp (Former c1) ->
  wp no_exit
    (if negb (negb (Timestamp (Latter c0) <? Timestamp (Latter c1))) then mret tt
     else st ← canTestMissingStoreBarrier c0 c1;
          if (st : bool) then formKnotForStoreBarrier c0 c1
          else ld ← canTestMissingLoadBarrier c0 c1;
               if (ld : bool) then formKnotForLoadBarrier c0 c1 else mret tt)
    (fun _ k' => knot_inv cs k' /\ more_knots k k' /\
       forall st, tied st (mk_knot c0 c1) ->
         mk_knot c0 c1 ∈ group k' (Communication_Hash c1) /\
         Knot_Hash (mk_knot c0 c1) ∈ barrier_set st k') k.
Proof.
  intros Hk Hc0 Hc1 Hf. destruct (Hcs c0 Hc0) as [Hx0 Hy0 Hmx0 Hmy0 _ _ _ _].
  destruct (Hcs c1 Hc1) as [Hx1 Hy1 Hmx1 Hmy1 _ _ _ _]. rewrite negb_involutive.
  destruct (Z.ltb_spec (Timestamp (Latter c0)) (Timestamp (Latter c1))) as [Hl|Hl].
  { wp_step. split_and!; [done|reflexivity|]. intros st [_ Hl' _ _]. cbn in Hl'. lia. }
  unfold canTestMissingStoreBarrier, canTestMissingLoadBarrier, testMissingStoreBarrier,
    testMissingLoadBarrier. do 2 wp_step.
  apply inSameChunk_store_spec; [apply Hk|done..|]. intros r Hr. rewrite andb_true_r. wp_step.
  destruct r.
  { eapply wp_mono; [apply (formKnotSingle_spec k true); try done; by apply Hr|].
    intros [] k' (? & ? & Hin). split_and!; [done..|]. intros st Ht.
    destruct st; [apply Hin, Ht|]. apply tied_explains in Ht as [Hn _]. by destruct Hn; apply Hr. }
  do 2 wp_step. apply inSameChunk_load_spec; [apply Hk|done..|]. intros r' Hr'. rewrite andb_true_r.
  wp_step. assert (Hn : ~ no_barrier TypeFlush t0 (Former c0) (Former c1)) by (intros E%Hr; done).
  destruct r'.
  - eapply wp_mono; [apply (formKnotSingle_spec k false); try done; split; [done|by apply Hr']|].
    intros [] k' (? & ? & Hin). split_and!; [done..|]. intros st Ht.
    destruct st; [by apply tied_explains in Ht|apply Hin, Ht].
  - wp_step. split_and!; [done|reflexivity|]. intros st Ht. apply tied_explains in Ht.
    destruct st; [done|]. destruct Ht as [_ E%Hr']. done.
Qed.

Lemma form_knot_spec k c0 c1 :
  knot_inv cs k -> c0 ∈ cs -> c1 ∈ cs ->
  wp no_exit (form_knot c0 c1) (fun _ k' => knot_inv cs k' /\ more_knots k k' /\ knotted c0 c1 k') k.
Proof.
  intros Hk Hc0 Hc1. unfold form_knot, canonicalize.
  destruct (Z.ltb_spec (Timestamp (Former c1)) (Timestamp (Former c0))) as [Hf|Hf].
  - eapply wp_mono; [apply form_ordered_knot; try done; lia|].
    intros [] k' (? & ? & Hin). split_and!; [done..|].
    intros st x y [[-> ->]|[-> ->]] Ht; [destruct Ht; cbn in *; lia|by apply Hin].
  - eapply wp_mono; [apply form_ordered_knot; try done|].
    intros [] k' (? & ? & Hin). split_and!; [done..|].
    intros st x y [[-> ->]|[-> ->]] Ht; [by apply Hin|destruct Ht; cbn in *; lia].
Qed.

Lemma form_knots_loop_spec k l :
  knot_inv cs k -> (forall c, c ∈ l -> c ∈ cs) ->
  wp no_exit (form_knots_loop l) (fun _ k' => knot_inv cs k' /\ more_knots k k' /\
    forall c0 c1, c0 ∈ l -> c1 ∈ l -> c0 <> c1 -> knotted c0 c1 k') k.
Proof.
  revert k. induction l as [|c l IH]; intros k Hk Hl; cbn [form_knots_loop].
  { wp_step. split_and!; [done|reflexivity|]. by intros c0 c1 ?%not_elem_of_nil. }
  wp_step. eapply wp_mono.
  { apply (wp_foreach_all no_exit (knot_inv cs) more_knots (knotted c));
      [intros; by eapply knotted_mono|done|].
    intros c1 k1 Hc1 Hk1. apply form_knot_spec; [done|apply Hl; by left|apply Hl; by right]. }
  intros [] k1 (Hk1 & Hm1 & Hc1). eapply wp_mono; [apply IH; [done|intros x Hx; apply Hl; by right]|].
  intros [] k2 (Hk2 & Hm2 & Hc2). split_and!; [done|by etransitivity|].
  assert (Hcl : forall x, x ∈ l -> knotted c x k2)
    by (intros x Hx; eapply knotted_mono; [exact Hm2|by apply Hc1]).
  intros x y [->|Hx]%elem_of_cons [->|Hy]%elem_of_cons Hne; [done|by apply Hcl| |by apply Hc2].
  intros st a b Hab. apply (Hcl x Hx). tauto.
Qed.
End tie.

(** ** The analysis as a whole *)

(** The state after [fastenKnots]: the communications [cs] are sound,
    pairwise distinct in hash and complete up to hash, and the knots are
    exactly the tied pairs of them. *)
Record analysed (cs : list Communication) (k : Knotter) : Prop := mk_analysed {
  an_sound : forall c, c ∈ cs -> communicates (Former c) (Latter c);
  an_nodup : NoDup (Communication_Hash <$> cs);
  an_complete : forall a b, communicates a b ->
    Communication_Hash (mk_comm a b) ∈ Communication_Hash <$> cs;
  an_knots : knot_inv cs k;
  an_tied : forall c0 c1, c0 ∈ cs -> c1 ∈ cs -> c0 <> c1 -> knotted c0 c1 k
}.

Lemma formKnots_spec k :
  comm_inv k ->
  (forall a b, communicates a b -> Communication_Hash (mk_comm a b) ∈ commHsh k) ->
  wp no_exit formKnots (fun _ k' => analysed (comms k) k') k.
Proof.
  intros [Ht Hok Hnd Hh] Hcomplete. unfold formKnots. do 4 wp_step.
  match goal with |- wp _ (form_knots_loop ?cs) _ _ => change cs with (comms k) end.
  eapply wp_mono.
  - apply (form_knots_loop_spec (comms k) Hok); [|done]. split.
    + by destruct Ht.
    + intros h kn. unfold group. cbn. rewrite lookup_empty. by intros ?%not_elem_of_nil.
    + intros [] h; unfold barrier_set; cbn; by intros ?%not_elem_of_empty.
  - intros [] k' (Hk' & _ & Hall). split; [done..| |done|done].
    intros a b Hab. specialize (Hcomplete a b Hab). rewrite Hh in Hcomplete.
    by apply elem_of_list_to_set in Hcomplete.
Qed.

Lemma fastenKnots_spec k :
  seq0 k = Some [t0; t1] -> loopAllowed_ k = loopAllowed ->
  wp no_exit fastenKnots (fun _ k' => exists cs, analysed cs k') k.
Proof.
  intros Hs0 Hla. unfold fastenKnots.
  apply wp_bind. unfold collectCommChans. apply wp_modify. rewrite Hs0, Hla. cbn [from_option id].
  fold chan_of. set (k1 := k <| commChan := chan_of |> <| seq := _ |>).
  assert (E1 : seq k1 = [d0; d1]) by done. clearbody k1. clear Hs0 Hla.
  apply wp_bind. unfold buildAccessMap. apply wp_modify.
  rewrite E1. fold access_map_of. set (k2 := k1 <| accessMap := _ |>).
  assert (E2 : seq k2 = [d0; d1]) by done. assert (Em : accessMap k2 = access_map_of) by done.
  clearbody k2. clear E1. apply wp_bind. eapply wp_run; [exact (annotateLocks_run k2 E2)|].
  set (k3 := k2 <| locks := _ |>). assert (E3 : seq k3 = [d0; d1]) by done.
  apply wp_bind. eapply wp_run; [exact (chunknizeSerials_run k3 E3)|].
  set (k4 := k3 <| storeChunks := _ |> <| loadChunks := _ |>).
  assert (Ht : tables k4) by done. assert (Em4 : accessMap k4 = access_map_of) by done.
  clearbody k4. apply wp_bind. eapply wp_mono; [by apply formCommunications_spec|].
  intros [] k5 [Hk5 Hc5]. eapply wp_mono; [by apply formKnots_spec|].
  intros [] k6 Hk6. by exists (comms k5).
Qed.
End stages.

(** ** Hints *)

Lemma elem_of_option_list {A} (o : option A) x : x ∈ option_list o <-> o = Some x.
Proof. destruct o; cbn; [rewrite list_elem_of_singleton; naive_solver|]. split; [by intros ?%not_elem_of_nil|done]. Qed.

(** The aggregation without its sanity tests. *)
Definition selected (conds : gset Z) (grouped : list Knot) : list Knot :=
  filter (fun kn => Knot_Hash kn ∈ conds) grouped.

Definition latest (l : list Access) : gmap Z Access := foldl keep_latest ∅ l.

Definition aggregate `{GoRange} (critComm : Communication) (grouped : list Knot)
    (conds : gset Z) (typ : bool) : option Hint :=
  let sel := selected conds grouped in
  let preceding := latest ((fun kn => Former (knot0 kn)) <$> sel) in
  let following := latest ((fun kn => Latter (knot0 kn)) <$> sel) in
  let hint := mk_hint (toSlice preceding) (toSlice following) critComm typ in
  if bool_decide (preceding = ∅) || bool_decide (following = ∅) then None
  else if negb (sanitizeHint hint) then None else Some hint.

Section aggregation.
Context `{GoRange} {W : Type}.

Definition consistent (h : Z) (grouped : list Knot) : Prop :=
  forall kn, kn ∈ grouped -> Communication_Hash (knot1 kn) = h.

Lemma aggregate_loop_run crit conds grouped p q (w : W) :
  consistent (Communication_Hash crit) grouped ->
  aggregate_loop crit conds grouped p q w =
  Ret (foldl keep_latest p ((fun kn => Former (knot0 kn)) <$> selected conds grouped),
       foldl keep_latest q ((fun kn => Latter (knot0 kn)) <$> selected conds grouped)) w.
Proof.
  revert p q. induction grouped as [|kn g IH]; intros p q Hc; [done|]. cbn [aggregate_loop].
  rewrite (Hc kn) by (by left). rewrite Z.eqb_refl. cbn [negb].
  assert (consistent (Communication_Hash crit) g) by (intros x Hx; apply Hc; by right).
  unfold selected. rewrite filter_cons. case_bool_decide.
  - rewrite decide_True by done. rewrite IH by done. done.
  - rewrite decide_False by done. rewrite IH by done. done.
Qed.

Lemma aggregateHint_run crit grouped conds typ (w : W) :
  consistent (Communication_Hash crit) grouped ->
  aggregateHintWithConditions crit grouped conds typ w = Ret (aggregate crit grouped conds typ) w.
Proof.
  intros Hc. unfold aggregateHintWithConditions, mbind, prog_bind.
  rewrite aggregate_loop_run by done. unfold aggregate, latest. cbv zeta.
  destruct (_ || _); [done|]. by destruct (negb _).
Qed.

(** The hints of one group. *)
Definition group_hints (store load : gset Z) (grouped : list Knot) : list Hint :=
  match grouped with
  | [] => []
  | k :: _ => option_list (aggregate (knot1 k) grouped store TestingStoreBarrier) ++
              option_list (aggregate (knot1 k) grouped load TestingLoadBarrier)
  end.

Lemma check_group_run h g (w : W) : consistent h g -> check_group h g w = Ret tt w.
Proof.
  unfold check_group. intros Hc. induction g as [|kn g IH]; [done|]. cbn [foreach].
  rewrite (Hc kn) by (by left). rewrite Z.eqb_refl. cbn [negb]. unfold mbind, prog_bind. cbn.
  apply IH. intros x Hx. apply Hc. by right.
Qed.

Lemma group_loop_run store load groups hints (w : W) :
  (forall h g, (h, g) ∈ groups -> consistent h g) ->
  group_loop store load groups hints w =
  Ret (hints ++ (groups ≫= fun hg => group_hints store load hg.2)) w.
Proof.
  revert hints. induction groups as [|[h g] groups IH]; intros hints Hg; cbn [group_loop].
  { by rewrite app_nil_r. }
  assert (Hc : consistent h g) by (apply Hg; by left).
  assert (Hg' : forall h g, (h, g) ∈ groups -> consistent h g) by (intros ? ? ?; apply Hg; by right).
  unfold mbind, prog_bind at 1. rewrite check_group_run by done.
  rewrite bind_cons. destruct g as [|k g]; [by rewrite IH|].
  assert (Hc' : consistent (Communication_Hash (knot1 k)) (k :: g)).
  { intros kn Hkn. by rewrite (Hc kn Hkn), (Hc k) by (by left). }
  unfold prog_bind, aggregateHints, mbind, prog_bind. rewrite !aggregateHint_run by done. cbn [mret prog_ret].
  rewrite IH by done. cbn [group_hints snd]. by rewrite <- app_assoc.
Qed.
End aggregation.

(** What [latest] keeps: per address the last of the accesses given. *)
Lemma keep_latest_spec m l :
  (forall x a, m !! x = Some a -> Addr a = x) ->
  let r := foldl keep_latest m l in
  (forall x a, r !! x = Some a -> (m !! x = Some a \/ a ∈ l) /\ Addr a = x) /\
  (forall x a, m !! x = Some a -> exists b, r !! x = Some b /\ Timestamp a <= Timestamp b) /\
  (forall a, a ∈ l -> exists b, r !! Addr a = Some b /\ Timestamp a <= Timestamp b).
Proof.
  revert m. induction l as [|a l IH]; intros m Hm; cbn zeta; cbn [foldl].
  { split_and!; [auto|intros x a Ha; exists a; auto with lia|by intros a ?%not_elem_of_nil]. }
  set (m' := keep_latest m a).
  assert (Hm' : (forall x b, m' !! x = Some b -> (m !! x = Some b \/ b = a) /\ Addr b = x) /\
                (forall x b, m !! x = Some b -> exists c, m' !! x = Some c /\ Timestamp b <= Timestamp c) /\
                (exists c, m' !! Addr a = Some c /\ Timestamp a <= Timestamp c)).
  { assert (Hins : forall x b, <[Addr a := a]> m !! x = Some b -> (m !! x = Some b \/ b = a) /\ Addr b = x).
    { intros x b. rewrite lookup_insert_Some. intros [[<- <-]|[? Hb]]; [auto|]. split; [auto|by apply Hm]. }
    subst m'. unfold keep_latest. destruct (m !! Addr a) as [a0|] eqn:Ea.
    - destruct (Z.ltb_spec (Timestamp a) (Timestamp a0)).
      + split_and!; [intros x b Hb; split; [auto|by apply Hm]|eauto with lia|].
        exists a0. split; [done|lia].
      + split_and!; [done| |exists a; rewrite lookup_insert_eq; auto with lia].
        intros x b Hb. destruct (decide (x = Addr a)) as [->|];
          [exists a; rewrite lookup_insert_eq; naive_solver|].
        exists b. rewrite lookup_insert_ne by done. auto with lia.
    - split_and!; [done| |exists a; rewrite lookup_insert_eq; auto with lia].
      intros x b Hb. destruct (decide (x = Addr a)) as [->|]; [congruence|].
      exists b. rewrite lookup_insert_ne by done. auto with lia. }
  destruct Hm' as (Hm1 & Hm2 & Hm3).
  destruct (IH m') as (H1 & H2 & H3); [intros x b Hb; by apply Hm1|]. split_and!.
  - intros x b Hb. destruct (H1 x b Hb) as [[Hb'|Hb'] E]; (split; [|done]).
    + destruct (Hm1 x b Hb') as [[?| ->] _]; [by left|right; by left].
    + right. by right.
  - intros x b Hb. destruct (Hm2 x b Hb) as (c & Hc & ?), (H2 x c Hc) as (e & ? & ?).
    exists e. auto with lia.
  - intros b [->|Hb]%elem_of_cons; [|by apply H3].
    destruct Hm3 as (c & Hc & ?), (H2 _ c Hc) as (e & ? & ?). exists e. auto with lia.
Qed.

Lemma toSlice_spec `{GoRange} (m : gmap Z Access) a :
  a ∈ toSlice m <-> exists x, m !! x = Some a.
Proof.
  unfold toSlice. rewrite list_elem_of_fmap. split.
  - intros ([x b] & -> & Hin). rewrite range_map_perm in Hin.
    apply elem_of_map_to_list in Hin. by exists x.
  - intros [x Hx]. exists (x, a). split; [done|]. rewrite range_map_perm. by apply elem_of_map_to_list.
Qed.

Lemma latest_spec `{GoRange} l :
  (forall a, a ∈ toSlice (latest l) -> a ∈ l) /\
  (forall a, a ∈ l -> exists b, b ∈ toSlice (latest l) /\ Addr b = Addr a /\ Timestamp a <= Timestamp b).
Proof.
  destruct (keep_latest_spec ∅ l) as (H1 & _ & H3); [intros x a; by rewrite lookup_empty|].
  split.
  - intros a [x Hx]%toSlice_spec. destruct (H1 x a Hx) as [[Hb|Hb] _]; [by rewrite lookup_empty in Hb|done].
  - intros a Ha. destruct (H3 a Ha) as (b & Hb & ?). exists b. split_and!; [|by apply (H1 _ _ Hb)|done].
    apply toSlice_spec. eauto.
Qed.

(** The wanted type of the accesses to reorder. *)
Definition wanted (st : bool) : Z := if st then TypeStore else TypeLoad.

Lemma aggregate_spec `{GoRange} crit grouped conds st h :
  aggregate crit grouped conds st = Some h ->
  CriticalComm h = crit /\ Hint_Typ h = st /\
  PrecedingInsts h = toSlice (latest ((fun kn => Former (knot0 kn)) <$> selected conds grouped)) /\
  FollowingInsts h = toSlice (latest ((fun kn => Latter (knot0 kn)) <$> selected conds grouped)) /\
  PrecedingInsts h <> [] /\ FollowingInsts h <> [] /\
  exists a, a ∈ hint_accs h /\ Typ a = wanted st.
Proof.
  assert (Hne : forall m : gmap Z Access, m <> ∅ -> toSlice m <> []).
  { intros m Hm E. apply Hm. apply map_empty. intros x. destruct (m !! x) as [a|] eqn:Ea; [|done].
    assert (a ∈ toSlice m) as Ha by (apply toSlice_spec; eauto). rewrite E in Ha.
    by apply not_elem_of_nil in Ha. }
  unfold aggregate. cbv zeta. set (p := latest _). set (q := latest _). clearbody p q.
  destruct (_ || _) eqn:Eb; [done|]. destruct (sanitizeHint _) eqn:Es; [|done]. intros [= <-].
  bool_to_prop. cbn [CriticalComm Hint_Typ PrecedingInsts FollowingInsts].
  split_and!; [done..|by apply Hne|by apply Hne|].
  unfold sanitizeHint in Es. cbn [CriticalComm Hint_Typ PrecedingInsts FollowingInsts] in Es.
  unfold hint_accs, wanted. cbn [CriticalComm Hint_Typ PrecedingInsts FollowingInsts].
  destruct st; apply existsb_exists in Es as (a & Ha & E); bool_to_prop;
    apply list_elem_of_In in Ha; eauto.
Qed.

(** ** Soundness *)

(** Another knot of the kind wanted has the hash of [kn]: the sets of tested
    knots hold 32-bit hashes only, and [kn] is mistaken for it. *)
Definition mistaken (t0 t1 : SerialAccess) (st : bool) (kn : Knot) : Prop :=
  exists kn', communicates t0 t1 (Former (knot0 kn')) (Latter (knot0 kn')) /\
    communicates t0 t1 (Former (knot1 kn')) (Latter (knot1 kn')) /\ tied t0 t1 st kn' /\
    Knot_Hash kn' = Knot_Hash kn /\ knot_bytes kn' <> knot_bytes kn.

(** What a hint promises about the traces it was computed from. *)
Record hint_sound (t0 t1 : SerialAccess) (h : Hint) : Prop := mk_hint_sound {
  hs_critical : Former (CriticalComm h) ∈ t0 /\ Latter (CriticalComm h) ∈ t1;
  hs_types : (Typ (Former (CriticalComm h)) = TypeStore /\ Typ (Latter (CriticalComm h)) = TypeLoad) \/
             (Typ (Former (CriticalComm h)) = TypeLoad /\ Typ (Latter (CriticalComm h)) = TypeStore);
  hs_overlap : Overlapped (Former (CriticalComm h)) (Latter (CriticalComm h)) = true;
  hs_locks : forall l, l ∈ held_at t0 (Former (CriticalComm h)) ->
                       l ∉ held_at t1 (Latter (CriticalComm h));
  hs_preceding : PrecedingInsts h <> [] /\ forall p, p ∈ PrecedingInsts h ->
    p ∈ t0 /\ is_memory p = true /\ Timestamp p < Timestamp (Former (CriticalComm h));
  hs_following : FollowingInsts h <> [] /\ forall q, q ∈ FollowingInsts h ->
    q ∈ t1 /\ is_memory q = true /\ Timestamp (Latter (CriticalComm h)) <= Timestamp q;
  hs_reorder : exists a, a ∈ hint_accs h /\ Typ a = wanted (Hint_Typ h);
  hs_barrier : if Hint_Typ h
    then forall p, p ∈ PrecedingInsts h -> no_barrier TypeFlush t0 p (Former (CriticalComm h)) \/
           exists q, communicates t0 t1 p q /\ mistaken t0 t1 true (mk_knot (mk_comm p q) (CriticalComm h))
    else forall q, q ∈ FollowingInsts h -> no_barrier TypeLFence t1 (Latter (CriticalComm h)) q \/
           exists p, communicates t0 t1 p q /\ mistaken t0 t1 false (mk_knot (mk_comm p q) (CriticalComm h))
}.

Section sound.
Context `{GoRange} (th : Z) (t0 t1 : SerialAccess) (Hseq : sequential th t0 t1).
Context (cs : list Communication) (k : Knotter) (Hk : analysed th t0 t1 cs k).

Lemma comm_by_hash c c' :
  c ∈ cs -> c' ∈ cs -> Communication_Hash c = Communication_Hash c' -> c = c'.
Proof.
  intros Hc Hc' E. destruct Hk as [_ Hnd _ _ _].
  apply list_elem_of_lookup_1 in Hc as [i Hi], Hc' as [j Hj].
  assert (i = j) as ->.
  { eapply NoDup_lookup; [exact Hnd|..]; rewrite list_lookup_fmap; [by rewrite Hi|by rewrite Hj, E]. }
  congruence.
Qed.

Lemma group_consistent h g : (h, g) ∈ range_map (knots k) -> consistent h g.
Proof.
  intros Hg kn Hkn. rewrite range_map_perm in Hg. apply elem_of_map_to_list in Hg.
  apply (ki_group _ _ _ _ _ (an_knots _ _ _ _ _ Hk)). unfold group. by rewrite Hg.
Qed.

(** The members of a group. *)
Lemma group_member h g kn kn' :
  (h, g) ∈ range_map (knots k) -> kn ∈ g -> kn' ∈ g ->
  knot1 kn = knot1 kn' /\ knot0 kn ∈ cs /\ knot1 kn ∈ cs /\ exists st, tied t0 t1 st kn.
Proof.
  intros Hg Hkn Hkn'. pose proof (group_consistent h g Hg) as Hc.
  rewrite range_map_perm in Hg. apply elem_of_map_to_list in Hg.
  assert (Hm : forall x, x ∈ g -> knot0 x ∈ cs /\ knot1 x ∈ cs /\ exists st, tied t0 t1 st x).
  { intros x Hx. destruct (ki_group _ _ _ _ _ (an_knots _ _ _ _ _ Hk) h x) as (? & ? & ? & st & ? & _);
      [unfold group; by rewrite Hg|eauto]. }
  destruct (Hm kn Hkn) as (? & ? & ?), (Hm kn' Hkn') as (? & ? & ?). split_and!; [|done..].
  apply comm_by_hash; [done..|]. by rewrite (Hc kn Hkn), (Hc kn' Hkn').
Qed.

(** Knots with equal instructions are equal: these identify the accesses of a
    distilled trace. *)
Lemma knot_by_bytes kn kn' :
  (forall a, a ∈ t0 -> access_ok a) -> (forall a, a ∈ t1 -> access_ok a) ->
  knot0 kn ∈ cs -> knot1 kn ∈ cs -> knot0 kn' ∈ cs -> knot1 kn' ∈ cs ->
  knot_bytes kn = knot_bytes kn' -> kn = kn'.
Proof.
  intros Hok0 Hok1 H0 H1 H0' H1' E.
  assert (Hc : forall c, c ∈ cs -> communicates t0 t1 (Former c) (Latter c)) by apply Hk.
  assert (Heq : forall c c', c ∈ cs -> c' ∈ cs -> Inst (Former c) = Inst (Former c') ->
            Inst (Latter c) = Inst (Latter c') -> c = c').
  { intros [a b] [a' b'] []%Hc []%Hc Ea Eb. cbn in *. f_equal;
      eapply inst_unique_eq; try done; apply distill_unique. }
  assert (Hir : forall c, c ∈ cs -> 0 <= Inst (Former c) < 2 ^ 32 /\ 0 <= Inst (Latter c) < 2 ^ 32).
  { intros c []%Hc. split; [apply Hok0; by apply in_d0 with t1|apply Hok1; by apply in_d1 with t0]. }
  destruct (Hir _ H0), (Hir _ H1), (Hir _ H0'), (Hir _ H1').
  unfold knot_bytes in E. cbv zeta in E. rewrite <- !app_assoc in E.
  destruct kn as [c0 c1], kn' as [c0' c1']. cbn [knot0 knot1] in *.
  do 7 (apply app_inj_1 in E; [|done]; let X := fresh "X" in destruct E as [X E]).
  f_equal; apply Heq; try done; by apply PutUint32_inj.
Qed.

(** A knot whose hash is in a set of tested knots is of that kind, or it is
    mistaken. *)
Lemma tested_knot st kn :
  (forall a, a ∈ t0 -> access_ok a) -> (forall a, a ∈ t1 -> access_ok a) ->
  knot0 kn ∈ cs -> knot1 kn ∈ cs -> Knot_Hash kn ∈ barrier_set st k ->
  tied t0 t1 st kn \/ mistaken t0 t1 st kn.
Proof.
  intros Hok0 Hok1 H0 H1 Hh.
  destruct (ki_sets _ _ _ _ _ (an_knots _ _ _ _ _ Hk) st (Knot_Hash kn) Hh) as (kn' & H0' & H1' & Ht' & E).
  destruct (decide (knot_bytes kn' = knot_bytes kn)) as [Eb|Eb].
  - left. by rewrite <- (knot_by_bytes kn' kn Hok0 Hok1).
  - right. exists kn'. split_and!; [by apply Hk|by apply Hk|done|done|done].
Qed.

(** The hints of the analysis. *)
Definition hints_of : list Hint :=
  range_map (knots k) ≫= fun hg => group_hints (testingStoreBarrier k) (testingLoadBarrier k) hg.2.

Lemma hints_of_inv h :
  h ∈ hints_of -> exists hsh g kn,
    (hsh, g) ∈ range_map (knots k) /\ kn ∈ g /\
    aggregate (knot1 kn) g (barrier_set (Hint_Typ h) k) (Hint_Typ h) = Some h.
Proof.
  unfold hints_of. rewrite list_elem_of_bind. intros ([hsh g] & Hh & Hg). cbn [snd] in Hh.
  exists hsh, g. destruct g as [|kn g]; cbn [group_hints] in Hh; [by apply not_elem_of_nil in Hh|].
  exists kn. split_and!; [done|by left|].
  apply elem_of_app in Hh as [Hh|Hh]; apply elem_of_option_list in Hh;
    destruct (aggregate_spec _ _ _ _ _ Hh) as (_ & Et & _); by rewrite Et.
Qed.

Lemma hints_of_sound h :
  (forall a, a ∈ t0 -> access_ok a) -> (forall a, a ∈ t1 -> access_ok a) ->
  h ∈ hints_of -> hint_sound t0 t1 h.
Proof.
  intros Hok0 Hok1 (hsh & g & kn0 & Hg & Hkn0 & Hagg)%hints_of_inv.
  set (st := Hint_Typ h) in *. set (conds := barrier_set st k) in *.
  destruct (aggregate_spec _ _ _ _ _ Hagg) as (Ec & _ & Ep & Eq & Hp & Hq & Hw).
  assert (Hsel : forall kn, kn ∈ selected conds g ->
    knot1 kn = CriticalComm h /\ communicates t0 t1 (Former (knot0 kn)) (Latter (knot0 kn)) /\
    (exists st', tied t0 t1 st' kn) /\ (tied t0 t1 st kn \/ mistaken t0 t1 st kn)).
  { intros kn [Hh Hin]%list_elem_of_filter.
    destruct (group_member hsh g kn kn0 Hg Hin Hkn0) as (E1 & Hc0 & Hc1 & st' & Ht).
    split_and!; [congruence|by apply Hk|by exists st'|by apply tested_knot]. }
  assert (Hprec : forall p, p ∈ PrecedingInsts h -> exists kn, kn ∈ selected conds g /\ p = Former (knot0 kn)).
  { intros p. rewrite Ep. intros (kn & -> & ?)%latest_spec%list_elem_of_fmap. eauto. }
  assert (Hfoll : forall q, q ∈ FollowingInsts h -> exists kn, kn ∈ selected conds g /\ q = Latter (knot0 kn)).
  { intros q. rewrite Eq. intros (kn & -> & ?)%latest_spec%list_elem_of_fmap. eauto. }
  destruct (group_member hsh g kn0 kn0 Hg Hkn0 Hkn0) as (_ & _ & Hcrit & _).
  apply (an_sound _ _ _ _ _ Hk) in Hcrit.
  rewrite <- Ec in *. destruct Hcrit as [Hf Hl Hmf Hml _ Hty Hov Hlk].
  split; [by split; [apply in_d0 with t1|apply in_d1 with t0]| |done|done|split; [done|]|split; [done|]|done|].
  - apply memory_typ in Hmf, Hml. intuition congruence.
  - intros p (kn & Hkn & ->)%Hprec. destruct (Hsel kn Hkn) as (E & [] & (st' & []) & _). rewrite E in *.
    split_and!; [by apply in_d0 with t1|done|done].
  - intros q (kn & Hkn & ->)%Hfoll. destruct (Hsel kn Hkn) as (E & [] & (st' & []) & _). rewrite E in *.
    split_and!; [by apply in_d1 with t0|done|done].
  - fold st. destruct st.
    + intros p (kn & Hkn & ->)%Hprec. destruct (Hsel kn Hkn) as (E & Hc & _ & [[_ _ _ Hb]|Hm]); [left; by rewrite E in Hb|right].
      exists (Latter (knot0 kn)). split; [done|]. rewrite <- E. by destruct kn as [[] ?].
    + intros q (kn & Hkn & ->)%Hfoll. destruct (Hsel kn Hkn) as (E & Hc & _ & [[_ _ _ [_ Hb]]|Hm]); [left; by rewrite E in Hb|right].
      exists (Former (knot0 kn)). split; [done|]. rewrite <- E. by destruct kn as [[] ?].
Qed.

(** A tied pair of communications shows up in a hint, provided the access it
    lets slip is the last one at its address and has the type wanted. *)
Lemma hints_of_complete st c0 c1 :
  c0 ∈ cs -> c1 ∈ cs -> tied t0 t1 st (mk_knot c0 c1) ->
  (forall c, c ∈ cs -> Timestamp (Former c) <= Timestamp (Former c0) \/ Addr (Former c) <> Addr (Former c0)) ->
  (forall c, c ∈ cs -> Timestamp (Latter c) <= Timestamp (Latter c0) \/ Addr (Latter c) <> Addr (Latter c0)) ->
  Typ (if st then Former c0 else Latter c0) = wanted st ->
  exists h, h ∈ hints_of /\ CriticalComm h = c1 /\ Hint_Typ h = st /\
    Former c0 ∈ PrecedingInsts h /\ Latter c0 ∈ FollowingInsts h.
Proof.
  intros Hc0 Hc1 Ht Hlast0 Hlast1 Hw.
  assert (Hne : c0 <> c1) by (intros ->; destruct Ht as [Hf _ _ _]; cbn in Hf; lia).
  destruct (an_tied _ _ _ _ _ Hk c0 c1 Hc0 Hc1 Hne st c0 c1) as [Hin Hset]; [by left|done|].
  unfold group in Hin. destruct (knots k !! Communication_Hash c1) as [g|] eqn:Eg;
    [|by apply not_elem_of_nil in Hin]. cbn [from_option] in Hin. unfold id in Hin.
  assert (Hg : (Communication_Hash c1, g) ∈ range_map (knots k))
    by (rewrite range_map_perm; by apply elem_of_map_to_list).
  assert (Hsel : mk_knot c0 c1 ∈ selected (barrier_set st k) g) by (by apply list_elem_of_filter).
  assert (Hcs : forall c, c ∈ cs -> communicates t0 t1 (Former c) (Latter c)) by apply Hk.
  assert (Hmem : forall kn, kn ∈ selected (barrier_set st k) g -> knot0 kn ∈ cs).
  { intros kn [_ Hkn]%list_elem_of_filter. by destruct (group_member _ g kn kn Hg Hkn Hkn) as (_ & ? & _). }
  set (p := latest ((fun kn => Former (knot0 kn)) <$> selected (barrier_set st k) g)).
  set (q := latest ((fun kn => Latter (knot0 kn)) <$> selected (barrier_set st k) g)).
  assert (Hp : Former c0 ∈ toSlice p).
  { destruct (proj2 (latest_spec ((fun kn => Former (knot0 kn)) <$> selected (barrier_set st k) g)) (Former c0))
      as (b & Hb & Ea & Hts); [apply list_elem_of_fmap; by exists (mk_knot c0 c1)|].
    pose proof (proj1 (latest_spec _) b Hb) as (kn & -> & Hkn)%list_elem_of_fmap.
    specialize (Hmem kn Hkn). destruct (Hlast0 _ Hmem) as [Hle|]; [|done].
    rewrite (sorted_lt_unique t0 (Former c0) (Former (knot0 kn))); [done| | | |lia].
    - by eapply sorted0. - apply in_d0 with t1, Hcs, Hc0. - apply in_d0 with t1, Hcs, Hmem. }
  assert (Hq : Latter c0 ∈ toSlice q).
  { destruct (proj2 (latest_spec ((fun kn => Latter (knot0 kn)) <$> selected (barrier_set st k) g)) (Latter c0))
      as (b & Hb & Ea & Hts); [apply list_elem_of_fmap; by exists (mk_knot c0 c1)|].
    pose proof (proj1 (latest_spec _) b Hb) as (kn & -> & Hkn)%list_elem_of_fmap.
    specialize (Hmem kn Hkn). destruct (Hlast1 _ Hmem) as [Hle|]; [|done].
    rewrite (sorted_lt_unique t1 (Latter c0) (Latter (knot0 kn))); [done| | | |lia].
    - by eapply sorted1. - apply in_d1 with t0, Hcs, Hc0. - apply in_d1 with t0, Hcs, Hmem. }
  destruct g as [|kn g']; [by apply not_elem_of_nil in Hin|].
  destruct (group_member _ _ (mk_knot c0 c1) kn Hg Hin ltac:(by left)) as (E1 & _). cbn [knot1] in E1.
  assert (Hagg : aggregate c1 (kn :: g') (barrier_set st k) st =
                 Some (mk_hint (toSlice p) (toSlice q) c1 st)).
  { unfold aggregate. fold p q. cbv zeta.
    rewrite !bool_decide_eq_false_2.
    2,3: intros E; rewrite E in *; apply toSlice_spec in Hp as [? Hp], Hq as [? Hq]; by rewrite lookup_empty in *.
    cbn [orb]. replace (sanitizeHint _) with true; [done|]. symmetry. unfold sanitizeHint. cbn.
    unfold wanted in Hw. destruct st; apply existsb_exists; [exists (Former c0)|exists (Latter c0)];
      (split; [by apply list_elem_of_In|by apply Z.eqb_eq]). }
  exists (mk_hint (toSlice p) (toSlice q) c1 st). split; [|by split_and!].
  unfold hints_of. apply list_elem_of_bind. exists (Communication_Hash c1, kn :: g'). split; [|done].
  cbn [snd group_hints]. rewrite <- E1. apply elem_of_app.
  destruct st; unfold barrier_set in Hagg; unfold TestingStoreBarrier, TestingLoadBarrier;
    rewrite Hagg; [left|right]; by left.
Qed.
End sound.

(** ** The entry points *)

Lemma computeHints_run `{GoRange} {W} th t0 t1 (w : W) :
  sequential th t0 t1 ->
  exists cs k, analysed th t0 t1 cs k /\ computeHints [t0; t1] w = Ret (hints_of k) w.
Proof.
  intros Hseq. unfold computeHints. cbn [length Nat.eqb negb].
  destruct (wp_outcome_total (AddSequentialTrace [t0; t1];; ExcavateKnots)
    (fun _ k => exists cs, analysed th t0 t1 cs k) zero_knotter) as ([] & k & E & cs & Hk).
  { unfold AddSequentialTrace, ExcavateKnots. cbn [length Nat.eqb negb].
    repeat (wp_step; cbn -[fastenKnots]). by apply fastenKnots_spec. }
  exists cs, k. split; [done|].
  rewrite (bind_run _ _ w k w); [|unfold on_local; by rewrite E].
  rewrite group_loop_run; [done|]. by eapply group_consistent.
Qed.

Lemma copy_serial_spec base th s a :
  a ∈ copy_serial base th s -> 0 <= base -> base + alen s <= 2 ^ 32 -> 0 <= th < 2 ^ 64 ->
  base <= Timestamp a < base + alen s /\ Thread a = th.
Proof.
  unfold alen. revert base. induction s as [|x s IH]; intros base; cbn [copy_serial length].
  { by intros ?%not_elem_of_nil. }
  intros [->|Ha]%elem_of_cons ? ? ?; cbn.
  - rewrite !wrapu_id by lia. lia.
  - destruct (IH (base + 1) Ha); lia.
Qed.

Lemma copy_serial_sorted base th s :
  0 <= base -> base + alen s <= 2 ^ 32 -> 0 <= th < 2 ^ 64 ->
  StronglySorted ts_lt (copy_serial base th s).
Proof.
  unfold alen. revert base. induction s as [|x s IH]; intros base; cbn [copy_serial length]; [constructor|].
  intros ? ? ?. constructor; [apply IH; lia|]. rewrite Forall_forall. intros a Ha. unfold ts_lt. cbn.
  apply copy_serial_spec in Ha; unfold alen in *; [|lia..]. rewrite wrapu_id by lia. lia.
Qed.

(** The copies are a sequential pair of traces as long as their timestamps
    fit 32 bits. *)
Lemma copySeq_sequential th s0 s1 :
  th = 0 \/ th = 1 -> alen s0 + alen s1 <= 2 ^ 32 ->
  sequential th (copy_serial 0 th s0) (copy_serial (alen s0) (1 - th) s1).
Proof.
  intros Hth Hlen. pose proof (alen_nonneg s0). pose proof (alen_nonneg s1). split; [done|..].
  - rewrite Forall_forall. intros a Ha. apply copy_serial_spec in Ha as [_ ?]; [done|lia..].
  - rewrite Forall_forall. intros a Ha. apply copy_serial_spec in Ha as [_ ?]; [done|lia..].
  - apply StronglySorted_app. split_and!; [|apply copy_serial_sorted; lia..].
    intros a b Ha Hb. apply copy_serial_spec in Ha; [|lia..]. apply copy_serial_spec in Hb; [|lia..].
    unfold ts_lt. lia.
Qed.

Lemma copySeq_u64 th s0 s1 : th = 0 \/ th = 1 ->
  copySeq s0 s1 th = [copy_serial 0 th s0; copy_serial (alen s0) (1 - th) s1].
Proof. done. Qed.

(** The traces [ComputeHints] analyses. *)
Definition first_trace (s0 : SerialAccess) : SerialAccess := copy_serial 0 0 s0.
Definition second_trace (s0 s1 : SerialAccess) : SerialAccess := copy_serial (alen s0) 1 s1.

(** ** Properties *)

(** The accesses of a pair of traces can be numbered in 32 bits. *)
Definition numberable (s : list SerialAccess) : Prop :=
  match s with [s0; s1] => alen s0 + alen s1 <= 2 ^ 32 | _ => True end.

(** C20. Computing hints never panics: for any two traces whose accesses can be
    numbered in 32 bits, in either order, none of the sanity tests of the
    knotter and of the aggregation fails and no index is out of range; for
    any other number of traces there are no hints. *)
Theorem compute_hints_never_panics `{GoRange} {W : Type} (s : list SerialAccess) (w : W) :
  numberable s ->
  (exists hs, ComputeHints s w = Ret hs w) /\ (exists hs, ComputeHints0 s w = Ret hs w).
Proof.
  unfold numberable. destruct s as [|s0 [|s1 [|s2 s]]]; intros Hs; [split; by eexists..| |split; by eexists].
  unfold ComputeHints, ComputeHints0.
  destruct (computeHints_run 0 _ _ w (copySeq_sequential 0 s0 s1 ltac:(by left) Hs)) as (cs & k & _ & E).
  destruct (computeHints_run 1 _ _ w (copySeq_sequential 1 s1 s0 ltac:(by right) ltac:(lia)))
    as (cs' & k' & _ & E').
  unfold mbind, prog_bind. rewrite copySeq_u64, E by (by left). split; [by eexists|].
  rewrite copySeq_u64, E' by (by right). by eexists.
Qed.


(** No other communication of the traces has the hash of [c]. *)
Definition unmistakable (t0 t1 : SerialAccess) (c : Communication) : Prop :=
  forall a b, communicates t0 t1 a b -> Communication_Hash (mk_comm a b) = Communication_Hash c -> mk_comm a b = c.

(** C19. No opportunity is missed: when two communications of the traces are
    nested so that a missing barrier would explain both, neither has its 32-bit
    hash in common with another communication, both accesses of the outer one
    are the last communicating ones at their addresses, and the one to reorder
    has the right type, then some hint has the inner communication as critical
    and the outer one among its preceding and following accesses.
    Communications are between first dynamic instances of instructions. *)
Theorem compute_hints_complete `{GoRange} {W : Type} (s0 s1 : SerialAccess) (w : W)
    (st : bool) (c0 c1 : Communication) :
  let t0 := first_trace s0 in
  let t1 := second_trace s0 s1 in
  alen s0 + alen s1 <= 2 ^ 32 ->
  communicates t0 t1 (Former c0) (Latter c0) -> communicates t0 t1 (Former c1) (Latter c1) ->
  unmistakable t0 t1 c0 -> unmistakable t0 t1 c1 ->
  tied t0 t1 st (mk_knot c0 c1) ->
  Typ (if st then Former c0 else Latter c0) = wanted st ->
  (forall a b, communicates t0 t1 a b ->
     Timestamp a <= Timestamp (Former c0) \/ Addr a <> Addr (Former c0)) ->
  (forall a b, communicates t0 t1 a b ->
     Timestamp b <= Timestamp (Latter c0) \/ Addr b <> Addr (Latter c0)) ->
  exists hs h, ComputeHints [s0; s1] w = Ret hs w /\ h ∈ hs /\ CriticalComm h = c1 /\
    Hint_Typ h = st /\ Former c0 ∈ PrecedingInsts h /\ Latter c0 ∈ FollowingInsts h.
Proof.
  intros t0 t1 Hlen Hc0 Hc1 Hu0 Hu1 Ht Hw Hlast0 Hlast1.
  pose proof (copySeq_sequential 0 s0 s1 ltac:(by left) Hlen) as Hseq.
  destruct (computeHints_run 0 t0 t1 w Hseq) as (cs & k & Hk & E).
  assert (Hin : forall c, communicates t0 t1 (Former c) (Latter c) -> unmistakable t0 t1 c -> c ∈ cs).
  { intros [a b] Hab Hu. cbn in Hab.
    pose proof (an_complete _ _ _ _ _ Hk a b Hab) as ([a' b'] & Eh & Hc)%list_elem_of_fmap.
    rewrite <- (Hu a' b'); [done|exact (an_sound _ _ _ _ _ Hk _ Hc)|done]. }
  destruct (hints_of_complete 0 t0 t1 Hseq cs k Hk st c0 c1) as (h & Hh & ? & ? & ? & ?);
    [by apply Hin..|done| | |done|].
  - intros c Hc. eapply Hlast0, (an_sound _ _ _ _ _ Hk c Hc).
  - intros c Hc. eapply Hlast1, (an_sound _ _ _ _ _ Hk c Hc).
  - exists (hints_of k), h. by split_and!.
Qed.

(** ** Message passing

    The writer stores the data and then the flag with no barrier, the reader
    loads the flag and then the data. *)

Definition mp_writer : SerialAccess :=
  [mk_access 0x1000 0x10 8 TypeStore 0 0; mk_access 0x1008 0x20 8 TypeStore 0 0].
Definition mp_reader : SerialAccess :=
  [mk_access 0x2000 0x20 8 TypeLoad 0 0; mk_access 0x2008 0x10 8 TypeLoad 0 0].

Definition st_data : Access := mk_access 0x1000 0x10 8 TypeStore 0 0.
Definition st_flag : Access := mk_access 0x1008 0x20 8 TypeStore 1 0.
Definition ld_flag : Access := mk_access 0x2000 0x20 8 TypeLoad 2 1.
Definition ld_data : Access := mk_access 0x2008 0x10 8 TypeLoad 3 1.

Abbreviation mp_t0 := (first_trace mp_writer).
Abbreviation mp_t1 := (second_trace mp_writer mp_reader).

Lemma mp_traces :
  mp_t0 = [st_data; st_flag] /\ mp_t1 = [ld_flag; ld_data] /\
  distillSerial (chan_of mp_t0 mp_t1) loopAllowed mp_t0 = [st_data; st_flag] /\
  distillSerial (chan_of mp_t0 mp_t1) loopAllowed mp_t1 = [ld_flag; ld_data].
Proof. vm_compute. repeat split; reflexivity. Qed.

Lemma mp_in_t0 a : a ∈ mp_t0 <-> a = st_data \/ a = st_flag.
Proof. rewrite (proj1 mp_traces), !elem_of_cons, elem_of_nil. tauto. Qed.
Lemma mp_in_t1 a : a ∈ mp_t1 <-> a = ld_flag \/ a = ld_data.
Proof. rewrite (proj1 (proj2 mp_traces)), !elem_of_cons, elem_of_nil. tauto. Qed.

Lemma mp_ok a : a ∈ mp_t0 \/ a ∈ mp_t1 -> access_ok a.
Proof.
  rewrite mp_in_t0, mp_in_t1.
  intros [[-> | ->]|[-> | ->]]; unfold access_ok; vm_compute; repeat split; discriminate.
Qed.

(** The one hint: delay the store of the data past that of the flag. *)
Definition mp_hint : Hint :=
  mk_hint [st_data] [ld_data] (mk_comm st_flag ld_flag) TestingStoreBarrier.

Lemma mp_run : ComputeHints (H := range_in_order) [mp_writer; mp_reader] tt = Ret [mp_hint] tt.
Proof. vm_compute. reflexivity. Qed.

Lemma compute_hints_never_panics_witness :
  exists hs, ComputeHints (H := range_in_order) [mp_writer; mp_reader] tt = Ret hs tt.
Proof.
  refine (proj1 (compute_hints_never_panics (H := range_in_order) [mp_writer; mp_reader] tt _)).
  vm_compute. discriminate.
Defined.


Lemma mp_communicates a b :
  communicates mp_t0 mp_t1 a b <-> (a = st_data /\ b = ld_data) \/ (a = st_flag /\ b = ld_flag).
Proof.
  destruct mp_traces as (_ & _ & E0 & E1). split.
  - intros [Ha Hb _ _ Hw _ _ _]. rewrite E0 in Ha. rewrite E1 in Hb.
    rewrite !elem_of_cons, elem_of_nil in Ha, Hb.
    destruct Ha as [->|[->|[]]], Hb as [->|[->|[]]]; auto; discriminate Hw.
  - intros [[-> ->]|[-> ->]]; (split; [rewrite E0; set_solver|rewrite E1; set_solver|reflexivity..
      |discriminate|reflexivity|]); intros l; vm_compute; by intros ?%not_elem_of_nil.
Qed.

Lemma mp_unmistakable a b : communicates mp_t0 mp_t1 a b -> unmistakable mp_t0 mp_t1 (mk_comm a b).
Proof.
  intros Hab a' b' Hab'. rewrite mp_communicates in Hab, Hab'.
  assert (Hne : Communication_Hash (mk_comm st_data ld_data) <> Communication_Hash (mk_comm st_flag ld_flag))
    by (vm_compute; discriminate).
  destruct Hab as [[-> ->]|[-> ->]], Hab' as [[-> ->]|[-> ->]]; intros E; [reflexivity| | |reflexivity];
    destruct Hne; [exact (eq_sym E)|exact E].
Qed.

Lemma mp_tied : tied mp_t0 mp_t1 true (mk_knot (mk_comm st_data ld_data) (mk_comm st_flag ld_flag)).
Proof.
  split; [reflexivity|vm_compute; discriminate|discriminate|]. cbn.
  intros x [-> | ->]%mp_in_t0 Ht; discriminate Ht.
Qed.

Lemma compute_hints_complete_witness :
  exists hs h, ComputeHints (H := range_in_order) [mp_writer; mp_reader] tt = Ret hs tt /\ h ∈ hs /\
    CriticalComm h = mk_comm st_flag ld_flag /\ Hint_Typ h = true /\
    st_data ∈ PrecedingInsts h /\ ld_data ∈ FollowingInsts h.
Proof.
  apply (compute_hints_complete (H := range_in_order) mp_writer mp_reader tt true
           (mk_comm st_data ld_data) (mk_comm st_flag ld_flag)).
  - vm_compute. discriminate.
  - apply mp_communicates. left. split; reflexivity.
  - apply mp_communicates. right. split; reflexivity.
  - apply mp_unmistakable, mp_communicates. left. split; reflexivity.
  - apply mp_unmistakable, mp_communicates. right. split; reflexivity.
  - exact mp_tied.
  - reflexivity.
  - intros a b Hab. apply mp_communicates in Hab as [[-> _]|[-> _]]; [left|right]; vm_compute; discriminate.
  - intros a b Hab. apply mp_communicates in Hab as [[_ ->]|[_ ->]]; [left|right]; vm_compute; discriminate.
Defined.

(** ** Corner cases

    Two stores of four bytes, with a flush in between, read by one load of
    eight bytes: the load is the second access of both communications, so the
    hint asks to reorder the critical load with itself, and its flush vector
    has no entry that flushes. *)
Definition split_writer : SerialAccess :=
  [mk_access 0x1000 0x10 4 TypeStore 0 0; mk_access 0x1004 0 0 TypeFlush 0 0;
   mk_access 0x1008 0x14 4 TypeStore 0 0].
Definition wide_reader : SerialAccess := [mk_access 0x2000 0x10 8 TypeLoad 0 0].

Example wide_load_reordered_with_itself :
  exists h, ComputeHints (H := range_in_order) [split_writer; wide_reader] tt = Ret [h] tt /\
    Hint_Typ h = TestingLoadBarrier /\ FollowingInsts h = [Latter (CriticalComm h)] /\
    table (generateFlushVectorForHint h) = [mk_table_entry 0xffffffff00002000 0].
Proof. eexists. vm_compute. split_and!; reflexivity. Qed.

(** Message passing in which the writer also reads back the data, and the
    reader also writes it: the later load of the data replaces the store in
    the aggregation, and the hint for the store is dropped as having nothing
    to reorder. *)
Definition rereading_writer : SerialAccess :=
  [mk_access 0x1000 0x10 8 TypeStore 0 0; mk_access 0x1004 0x10 8 TypeLoad 0 0;
   mk_access 0x1008 0x20 8 TypeStore 0 0].
Definition writing_reader : SerialAccess :=
  [mk_access 0x2000 0x20 8 TypeLoad 0 0; mk_access 0x2004 0x10 8 TypeLoad 0 0;
   mk_access 0x2008 0x10 8 TypeStore 0 0].

Example later_load_hides_store :
  ComputeHints (H := range_in_order) [rereading_writer; writing_reader] tt = Ret [] tt.
Proof. vm_compute. reflexivity. Qed.
