(* ===== verification/Threading.v ===== *)
(** * Programs, threads and schedules (prog/: prog.go, threading.go,
      schedule.go, clone.go)

    A test program is a list of system calls, each with the thread and the
    epoch it runs in; two of them, the contenders, run in the same epoch on
    two threads under a schedule of breakpoints.  The file models the epochs,
    the threading of a sequential program, and the construction of schedules
    from hints.

    A [*Call] is its index in [p.Calls]; arguments and other fields the code
    here only carries along are left out. *)

From stdpp Require Import base list gmap sets strings.
From Stdlib Require Import ZArith Lia.
From S2P Require Import Prelude Accesses Comms Hints.

Local Open Scope Z_scope.
Local Open Scope record_scope.

(** ** Data *)

Record Call := mk_call { Call_Thread : Z; Call_Epoch : Z }.

#[export] Instance call_eta : Eta Call := fun c => mk_call (Call_Thread c) (Call_Epoch c).

Record Point := mk_point { call : Z; addr : Z; order : Z }.
Record Schedule := mk_schedule { points : list Point; filter_ : list Z }.

Record Prog := mk_prog {
  Calls : list Call;
  Threaded : bool;
  Contender_Calls : list Z;
  Prog_Schedule : Schedule;
  Prog_FlushVector : FlushVector;
  Prog_Hint : option Hint
}.

#[export] Instance schedule_eta : Eta Schedule := fun s => mk_schedule (points s) (filter_ s).
#[export] Instance prog_eta : Eta Prog := fun p =>
  mk_prog (Calls p) (Threaded p) (Contender_Calls p) (Prog_Schedule p) (Prog_FlushVector p)
    (Prog_Hint p).
#[export] Instance point_eq_dec : EqDecision Point.
Proof. solve_decision. Defined.

(** [^uint64(0)], the epoch and thread of a call just made, and the address of
    a point that only orders calls. *)
Definition undefined : Z := 2 ^ 64 - 1.
Definition dummyAddr : Z := 2 ^ 64 - 1.
Definition empty_schedule : Schedule := mk_schedule [] [].

Definition MakeCall : Call := mk_call undefined undefined.

(** [log.Fatalf] ends the process. *)
Abbreviation Fatalf := exit_.

(** [p.Calls[i]] panics out of range. *)
Definition call_at (i : Z) : prog Prog Call :=
  cs ← gets Calls;
  match aget cs i with Some c => mret c | None => panic "index out of range" end.

Definition upd_call (i : Z) (f : Call -> Call) : prog Prog unit :=
  c ← call_at i;
  modify (fun p => p <| Calls ::= fun cs => aset cs i (f c) |>).

(** ** Epochs (prog.go) *)

Record epochContext := mk_epoch_ctx { epoch : Z; thr : list bool }.

Definition maxThr : nat := 3.

Definition newEpoch (ctx : epochContext) : epochContext :=
  mk_epoch_ctx (u64 (epoch ctx + 1)) (replicate maxThr false).

(** The body of the loop of [fixupEpoch]; a thread number out of range of
    [ctx.thr] panics ([None]). *)
Definition fixup_call (ctx : epochContext) (c : Call) : option (epochContext * Call) :=
  let undef := (Call_Epoch c =? undefined) || (Call_Thread c =? undefined) in
  let c := if undef then c <| Call_Thread := 0 |> else c in
  used ← aget (thr ctx) (Call_Thread c);
  let ctx := if undef || used then newEpoch ctx else ctx in
  Some (mk_epoch_ctx (epoch ctx) (aset (thr ctx) (Call_Thread c) true),
        c <| Call_Epoch := epoch ctx |>).

Fixpoint fixup_loop (ctx : epochContext) (cs : list Call) : option (list Call) :=
  match cs with
  | [] => Some []
  | c :: cs =>
      '(ctx, c) ← fixup_call ctx c;
      cs ← fixup_loop ctx cs;
      Some (c :: cs)
  end.

Definition fixupEpoch : prog Prog unit :=
  p ← gets id;
  if Threaded p then mret tt
  else match Calls p with
  | [] => mret tt
  | c0 :: rest =>
      match fixup_loop (mk_epoch_ctx 0 (replicate maxThr false)) (mk_call 0 0 :: rest) with
      | Some cs => modify (fun p => p <| Calls := cs |>)
      | None => panic "index out of range"
      end
  end.

Definition Frame (p : Prog) : Z * Z :=
  let '(thread, epoch) :=
    foldl (fun '(thread, epoch) c =>
      (if thread <? Call_Thread c then Call_Thread c else thread,
       if epoch <? Call_Epoch c then Call_Epoch c else epoch)) (0, 0) (Calls p) in
  (u64 (thread + 1), u64 (epoch + 1)).

(** ** Schedules (schedule.go) *)

Definition Schedule_Len (sched : Schedule) : Z := alen (points sched).

Definition Match (sched : Schedule) (c : Z) : Schedule :=
  mk_schedule (filter (fun point => call point = c) (points sched)) [].

(** Pointers are indices, so the search finds the index itself. *)
Definition CallIndex (c : Z) (p : Prog) : Z :=
  if bool_decide (is_Some (aget (Calls p) c)) then c else -1.

Definition AttachScheduleFilter (filter : list Z) : prog Prog unit :=
  modify (fun p => p <| Prog_Schedule ::= fun s => s <| filter_ := filter |> |>).

(** [Contenders()]: the calls, by pointer; indexing panics out of range. *)
Fixpoint resolve (cs : list Call) (idxs : list Z) : option (list Z) :=
  match idxs with
  | [] => Some []
  | ci :: idxs => _ ← aget cs ci; rest ← resolve cs idxs; Some (ci :: rest)
  end.

Definition Contenders : prog Prog (list Z) :=
  p ← gets id;
  match resolve (Calls p) (Contender_Calls p) with
  | Some cs => mret cs
  | None => panic "index out of range"
  end.

(** The loop of [appendDummyPoints]: [n] is the length before it. *)
Fixpoint dummy_loop (n ord : Z) (calls : list Z) (sched : Schedule) : Schedule :=
  match calls with
  | [] => sched
  | c :: calls =>
      if negb (Schedule_Len (Match sched c) =? 0) then dummy_loop n ord calls sched
      else dummy_loop n (ord + 1) calls
             (sched <| points ::= fun ps => ps ++ [mk_point c dummyAddr (u64 (ord + n))] |>)
  end.

Definition appendDummyPoints : prog Prog unit :=
  p ← gets id;
  if negb (Threaded p) then mret tt
  else
    calls ← Contenders;
    let n := Schedule_Len (Prog_Schedule p) in
    modify (fun p => p <| Prog_Schedule ::= dummy_loop n 0 calls |>).

(** Drop the trailing dummy points. *)
Fixpoint strip_dummies (rev_points : list Point) : list Point :=
  match rev_points with
  | pnt :: rest => if addr pnt =? dummyAddr then strip_dummies rest else rev_points
  | [] => []
  end.

Definition removeDummyPoints : prog Prog unit :=
  p ← gets id;
  if negb (Threaded p) then mret tt
  else if Schedule_Len (Prog_Schedule p) =? 0 then mret tt
  else modify (fun p => p <| Prog_Schedule ::= fun s =>
         s <| points ::= fun ps => rev (strip_dummies (rev ps)) |> |>).

(** The inner loop of [shapeScheduleFromAccesses]: the last contender that
    runs on the thread. *)
Definition find_call (cs : list Call) (calls : list Z) (thread : Z) : option Z :=
  foldl (fun found c =>
    match aget cs c with
    | Some cl => if Call_Thread cl =? thread then Some c else found
    | None => found
    end) None calls.

Fixpoint shape_loop (cs : list Call) (calls : list Z) (ord : Z) (accs : list Access) (ps : list Point)
    : list Point :=
  match accs with
  | [] => ps
  | acc :: accs =>
      match find_call cs calls (Thread acc) with
      | None => shape_loop cs calls ord accs ps
      | Some c =>
          shape_loop cs calls (u64 (ord + 1)) accs
            (ps ++ [mk_point c (Z.lor 0xffffffff00000000 (Inst acc)) ord])
      end
  end.

Definition shapeScheduleFromAccesses (accs : list Access) : prog Prog unit :=
  calls ← Contenders;
  modify (fun p => p <| Prog_Schedule := mk_schedule (shape_loop (Calls p) calls 0 accs []) [] |>).

Definition applySchedule (accs : list Access) : prog Prog unit :=
  shapeScheduleFromAccesses accs ;; appendDummyPoints.

Definition attachFlushVector (vec : FlushVector) : prog Prog unit :=
  modify (fun p => p <| Prog_FlushVector := vec |>).

Definition storeHint (hint : Hint) : prog Prog unit :=
  modify (fun p => p <| Prog_Hint := Some hint |>).

(** [MutateScheduleFromHint]: the generator is threaded next to the program. *)
Definition MutateScheduleFromHint `{R : GoRand} (hint : Hint) (randomReordering : bool)
    (r : option Rand) : prog Prog (option Rand) := fun p =>
  match GenerateFlushVector hint randomReordering r with
  | Ret vec r' =>
      (applySchedule (GenerateSchedule hint) ;; attachFlushVector vec ;; storeHint hint ;; mret r') p
  | Exit s => Exit s
  | UB s => UB s
  | OutOfFuel => OutOfFuel
  end.

(** ** Threading (threading.go) *)

Definition IsContender (calls : list Z) (idx : Z) : bool := existsb (fun ci => idx =? ci) calls.

(** [for i := idx1 + 1; i < len(p.Calls); i++]. *)
Definition move_later (idx1 : Z) (cs : list Call) : list Call :=
  imap (fun i c => if idx1 <? Z.of_nat i then mk_call 1 (u64 (Call_Epoch c - 1)) else c) cs.

Definition Threading (calls : list Z) : prog Prog unit :=
  match calls with
  | [] => mret tt
  | [c1; c2] =>
      call1 ← call_at c1;
      call2 ← call_at c2;
      let '(idx1, idx2, epoch1, epoch2) :=
        if Call_Epoch call2 <? Call_Epoch call1
        then (c2, c1, Call_Epoch call2, Call_Epoch call1)
        else (c1, c2, Call_Epoch call1, Call_Epoch call2) in
      if epoch1 =? epoch2 then Fatalf "wrong racing calls: same epoch"
      else
        cs ← gets Calls;
        if negb (forallb (fun c => Call_Thread c =? 0) cs) then Fatalf "wrong thread"
        else
          modify (fun p => p <| Calls ::= move_later idx1 |>);;
          later ← call_at idx2;
          upd_call idx1 (fun c => c <| Call_Epoch := Call_Epoch later |>);;
          modify (fun p => p <| Threaded := true |> <| Contender_Calls := calls |>);;
          appendDummyPoints
  | _ => Fatalf "wrong racing calls"
  end.

Definition Reverse : prog Prog unit :=
  p ← gets id;
  if negb (Threaded p) then mret tt
  else match points (Prog_Schedule p) with
  | [p0; p1] =>
      if negb (addr p0 =? dummyAddr) || negb (addr p1 =? dummyAddr) then mret tt
      else modify (fun p => p <| Prog_Schedule ::= fun s =>
             s <| points := [mk_point (call p1) (addr p0) (order p0);
                             mk_point (call p0) (addr p1) (order p1)] |> |>)
  | _ => mret tt
  end.

Definition unthreading : prog Prog unit :=
  modify (fun p => p <| Calls ::= fmap (fun _ => mk_call 0 0) |> <| Threaded := false |>);;
  fixupEpoch.

(** Errors are strings; [None] is nil. *)
Definition sanitizeRazzerThreaded : prog Prog (option string) :=
  calls ← Contenders;
  match calls with
  | [c0; c1] =>
      call0 ← call_at c0;
      call1 ← call_at c1;
      if negb (Call_Epoch call0 =? Call_Epoch call1)
      then mret (Some "two contenders do not share epoch") else mret None
  | _ => mret (Some "wrong number of contenders")
  end.

Fixpoint shared_epoch (used : gset Z) (cs : list Call) : bool :=
  match cs with
  | [] => false
  | c :: cs => if bool_decide (Call_Epoch c ∈ used) then true
               else shared_epoch ({[Call_Epoch c]} ∪ used) cs
  end.

Definition sanitizeRazzerSequential : prog Prog (option string) :=
  calls ← Contenders;
  p ← gets id;
  if negb (alen calls =? 0) then mret (Some "sequential program has contenders")
  else if negb (Schedule_Len (Prog_Schedule p) =? 0)
  then mret (Some "sequential program has schedules")
  else if shared_epoch ∅ (Calls p) then mret (Some "more than one call share epoch") else mret None.

(** The first loop of [sanitizeRazzer]: epochs increase within a thread. *)
Fixpoint epochs_increase (seen : gmap Z Z) (cs : list Call) : bool :=
  match cs with
  | [] => true
  | c :: cs =>
      match seen !! Call_Thread c with
      | Some e => if Call_Epoch c <=? e then false
                  else epochs_increase (<[Call_Thread c := Call_Epoch c]> seen) cs
      | None => epochs_increase (<[Call_Thread c := Call_Epoch c]> seen) cs
      end
  end.

Definition sanitizeRazzer : prog Prog (option string) :=
  fixupEpoch;;
  p ← gets id;
  if negb (epochs_increase ∅ (Calls p)) then mret (Some "wrong epoch in a thread")
  else if Threaded p then sanitizeRazzerThreaded else sanitizeRazzerSequential.

(** ** Cloning (clone.go) *)

(** Calls are copied in order, so a pointer's index is the same in the copy;
    a point whose call is not found gets a nil call, which has no index. *)
Definition clone_point (p : Prog) (pnt : Point) : Point :=
  mk_point (CallIndex (call pnt) p) (addr pnt) (order pnt).

Definition Clone (p : Prog) : Prog :=
  mk_prog (Calls p) (Threaded p) (Contender_Calls p)
    (mk_schedule (clone_point p <$> points (Prog_Schedule p)) []) (mk_flush_vector [] []) None.
