(* ===== verification/ThreadingSpec.v ===== *)
(** * Threading and schedules are well formed

    Threading a sequential program gives one that passes the executor's
    sanity checks and runs its contenders together; undoing it restores the
    epochs; and the schedule made from a hint numbers its points from zero
    and has one for every contender. *)

From stdpp Require Import base list gmap sets strings.
From Stdlib Require Import ZArith Lia.
From S2P Require Import Prelude Accesses Comms Hints Threading.

Local Open Scope Z_scope.
Local Open Scope record_scope.

(** The calls of a sequential program: call [i] runs in epoch [i] of thread 0. *)
Definition sequential_calls (n : nat) : list Call := (fun i => mk_call 0 (Z.of_nat i)) <$> seq 0 n.

(** Call [k] after threading calls [a] and [b], [a] before [b]. *)
Definition threaded_call (a b : Z) (k : nat) : Call :=
  if Z.of_nat k <? a then mk_call 0 (Z.of_nat k)
  else if Z.of_nat k =? a then mk_call 0 (b - 1)
  else mk_call 1 (Z.of_nat k - 1).

Definition threaded_calls (a b : Z) (n : nat) : list Call := threaded_call a b <$> seq 0 n.

Lemma sequential_aget n i :
  0 <= i < Z.of_nat n -> aget (sequential_calls n) i = Some (mk_call 0 i).
Proof.
  intros Hi. unfold aget, sequential_calls. destruct (Z.ltb_spec i 0); [lia|].
  rewrite list_lookup_fmap, lookup_seq_lt by lia. cbn. do 2 f_equal. lia.
Qed.

Lemma sequential_threads n : forallb (fun c => Call_Thread c =? 0) (sequential_calls n) = true.
Proof.
  apply forallb_forall. intros c (i & -> & _)%list_elem_of_In%list_elem_of_fmap. done.
Qed.

Lemma move_later_sequential a n :
  0 <= a -> Z.of_nat n < 2 ^ 64 ->
  move_later a (sequential_calls n) =
  (fun k => if a <? Z.of_nat k then mk_call 1 (Z.of_nat k - 1) else mk_call 0 (Z.of_nat k)) <$> seq 0 n.
Proof.
  intros Ha Hn. unfold move_later, sequential_calls. apply list_eq. intros k.
  rewrite list_lookup_imap, !list_lookup_fmap.
  destruct (decide (k < n)%nat) as [Hk|Hk]; [|by rewrite !lookup_seq_ge by lia].
  rewrite !lookup_seq_lt by lia. cbn. f_equal.
  destruct (Z.ltb_spec a (Z.of_nat k)); [|done]. by rewrite wrapu_id by lia.
Qed.

Lemma moved_aget a n i :
  0 <= i < Z.of_nat n ->
  aget ((fun k => if a <? Z.of_nat k then mk_call 1 (Z.of_nat k - 1)
                  else mk_call 0 (Z.of_nat k)) <$> seq 0 n) i =
  Some (if a <? i then mk_call 1 (i - 1) else mk_call 0 i).
Proof.
  intros Hi. unfold aget. destruct (Z.ltb_spec i 0); [lia|].
  rewrite list_lookup_fmap, lookup_seq_lt by lia. cbn. rewrite Z2Nat.id by lia. done.
Qed.

Lemma delay_first a b n :
  0 <= a < b -> b < Z.of_nat n ->
  aset ((fun k => if a <? Z.of_nat k then mk_call 1 (Z.of_nat k - 1)
                  else mk_call 0 (Z.of_nat k)) <$> seq 0 n) a (mk_call 0 (b - 1)) =
  threaded_calls a b n.
Proof.
  intros Ha Hb. unfold aset, threaded_calls. destruct (Z.ltb_spec a 0); [lia|].
  apply list_eq. intros k. rewrite list_lookup_insert, !list_lookup_fmap, length_fmap, length_seq.
  destruct (decide (k < n)%nat) as [Hk|Hk].
  - rewrite !lookup_seq_lt by lia. cbn. unfold threaded_call.
    case_decide; [destruct (Z.ltb_spec (Z.of_nat k) a), (Z.eqb_spec (Z.of_nat k) a); done || lia|].
    destruct (Z.ltb_spec a (Z.of_nat k)), (Z.ltb_spec (Z.of_nat k) a), (Z.eqb_spec (Z.of_nat k) a);
      done || lia.
  - rewrite decide_False by lia. by rewrite !lookup_seq_ge by lia.
Qed.

Lemma threaded_aget a b n i :
  0 <= i < Z.of_nat n -> aget (threaded_calls a b n) i = Some (threaded_call a b (Z.to_nat i)).
Proof.
  intros Hi. unfold aget, threaded_calls. destruct (Z.ltb_spec i 0); [lia|].
  by rewrite list_lookup_fmap, lookup_seq_lt by lia.
Qed.

#[local] Arguments move_later : simpl never.
#[local] Arguments sequential_calls : simpl never.
#[local] Arguments threaded_calls : simpl never.
#[local] Arguments aget : simpl never.
#[local] Arguments aset : simpl never.

Lemma call_at_run p i c : aget (Calls p) i = Some c -> call_at i p = Ret c p.
Proof. unfold call_at, mbind, prog_bind, gets. by intros ->. Qed.

(** ** Sanity checks *)

Lemma epochs_increase_spec seen cs :
  (forall t e c, seen !! t = Some e -> c ∈ cs -> Call_Thread c = t -> e < Call_Epoch c) ->
  (forall i j c c', (i < j)%nat -> cs !! i = Some c -> cs !! j = Some c' ->
     Call_Thread c = Call_Thread c' -> Call_Epoch c < Call_Epoch c') ->
  epochs_increase seen cs = true.
Proof.
  revert seen. induction cs as [|c cs IH]; intros seen Hs Hinc; [done|]. cbn [epochs_increase].
  assert (Hrest : epochs_increase (<[Call_Thread c := Call_Epoch c]> seen) cs = true).
  { apply IH.
    - intros t e c' Ht Hc' Et. apply lookup_insert_Some in Ht as [[<- <-]|[? Ht]].
      + apply list_elem_of_lookup_1 in Hc' as [j Hj]. apply (Hinc 0%nat (S j)); [lia|done|done|done].
      + eapply Hs; [done|by right|done].
    - intros i j x y Hij Hi Hj. apply (Hinc (S i) (S j)); [lia|done|done]. }
  destruct (seen !! Call_Thread c) as [e|] eqn:E; [|done].
  specialize (Hs _ e c E ltac:(by left) eq_refl).
  destruct (Z.leb_spec (Call_Epoch c) e); [lia|done].
Qed.

Lemma threaded_increase a b n : 0 <= a < b -> epochs_increase ∅ (threaded_calls a b n) = true.
Proof.
  intros Hab. apply epochs_increase_spec; [intros t e c; by rewrite lookup_empty|].
  intros i j c c' Hij. unfold threaded_calls. rewrite !list_lookup_fmap.
  intros (x & Hx & ->)%fmap_Some (y & Hy & ->)%fmap_Some. apply lookup_seq in Hx as [-> _], Hy as [-> _].
  unfold threaded_call. cbn.
  destruct (Z.ltb_spec (Z.of_nat i) a), (Z.eqb_spec (Z.of_nat i) a), (Z.ltb_spec (Z.of_nat j) a),
    (Z.eqb_spec (Z.of_nat j) a); cbn; intros; lia.
Qed.

(** A sequential program as the generator and the mutator produce it. *)
Definition sequential_prog (n : nat) (p : Prog) : Prop :=
  Calls p = sequential_calls n /\ Threaded p = false /\ Contender_Calls p = [] /\
  points (Prog_Schedule p) = [].

(** What [Threading] leaves: the calls renumbered, the contenders recorded and
    one dummy point for each. *)
Definition threaded_prog (n : nat) (c1 c2 : Z) (p p' : Prog) : Prop :=
  Calls p' = threaded_calls (Z.min c1 c2) (Z.max c1 c2) n /\ Threaded p' = true /\
  Contender_Calls p' = [c1; c2] /\
  points (Prog_Schedule p') = [mk_point c1 dummyAddr 0; mk_point c2 dummyAddr 1] /\
  Prog_FlushVector p' = Prog_FlushVector p /\ Prog_Hint p' = Prog_Hint p.

Lemma appendDummyPoints_run p calls :
  Threaded p = true -> resolve (Calls p) (Contender_Calls p) = Some calls ->
  appendDummyPoints p =
  Ret tt (p <| Prog_Schedule ::= dummy_loop (Schedule_Len (Prog_Schedule p)) 0 calls |>).
Proof.
  intros Ht Hr. unfold appendDummyPoints, Contenders, mbind, prog_bind, gets, modify, id.
  rewrite Ht. cbn [negb]. by rewrite Hr.
Qed.

Lemma resolve_two cs c1 c2 :
  is_Some (aget cs c1) -> is_Some (aget cs c2) -> resolve cs [c1; c2] = Some [c1; c2].
Proof. intros [x E1] [y E2]. cbn. by rewrite E1, E2. Qed.

Lemma dummy_loop_two c1 c2 fl :
  c1 <> c2 ->
  dummy_loop 0 0 [c1; c2] (mk_schedule [] fl) =
  mk_schedule [mk_point c1 dummyAddr 0; mk_point c2 dummyAddr 1] fl.
Proof.
  intros Hne. cbn [dummy_loop]. unfold Match, Schedule_Len, set. cbn [points filter_ app].
  rewrite filter_cons_False by done. done.
Qed.

(** The second half of [Threading], after the contenders were put in order. *)
Lemma threading_tail (p : Prog) n c1 c2 a b :
  sequential_prog n p -> Z.of_nat n < 2 ^ 64 ->
  0 <= a < b -> b < Z.of_nat n -> (c1 = a /\ c2 = b) \/ (c1 = b /\ c2 = a) ->
  exists p', (modify (fun p => p <| Calls ::= move_later a |>);;
          later ← call_at b;
          upd_call a (fun c => c <| Call_Epoch := Call_Epoch later |>);;
          modify (fun p => p <| Threaded := true |> <| Contender_Calls := [c1; c2] |>);;
          appendDummyPoints) p = Ret tt p' /\ threaded_prog n c1 c2 p p'.
Proof.
  intros (Hc & Ht & Hcc & Hp) Hn Ha Hb Hcs. destruct p as [cs th cc [ps fl] fv hi]. cbn in *. subst.
  erewrite bind_run by reflexivity. unfold set; cbn. rewrite move_later_sequential by lia.
  erewrite bind_run by (apply call_at_run; cbn; apply moved_aget; lia).
  destruct (Z.ltb_spec a b); [|lia].
  erewrite bind_run.
  2:{ unfold upd_call. erewrite bind_run by (apply call_at_run; cbn; apply moved_aget; lia). reflexivity. }
  destruct (Z.ltb_spec a a); [lia|]. unfold set; cbn. rewrite delay_first by lia.
  erewrite bind_run by reflexivity. unfold set; cbn.
  assert (Hget : forall i, i = a \/ i = b -> is_Some (aget (threaded_calls a b n) i)).
  { intros i Hi. rewrite threaded_aget by lia. eauto. }
  erewrite appendDummyPoints_run; [|done|apply resolve_two; apply Hget; lia]. cbn [Prog_Schedule].
  eexists. split; [reflexivity|]. unfold threaded_prog, set.
  cbn [Calls Threaded Contender_Calls Prog_Schedule Prog_FlushVector Prog_Hint].
  change (Schedule_Len {| points := []; filter_ := fl |}) with 0.
  rewrite dummy_loop_two by lia.
  replace (Z.min c1 c2) with a by lia. replace (Z.max c1 c2) with b by lia. split_and!; done.
Qed.

Lemma threading_run (p : Prog) n c1 c2 :
  sequential_prog n p -> Z.of_nat n < 2 ^ 64 ->
  0 <= c1 < Z.of_nat n -> 0 <= c2 < Z.of_nat n -> c1 <> c2 ->
  exists p', Threading [c1; c2] p = Ret tt p' /\ threaded_prog n c1 c2 p p'.
Proof.
  intros Hp Hn H1 H2 Hne. pose proof Hp as (Hc & _).
  assert (Hget : forall i, 0 <= i < Z.of_nat n -> call_at i p = Ret (mk_call 0 i) p).
  { intros i Hi. apply call_at_run. rewrite Hc. by apply sequential_aget. }
  unfold Threading. rewrite (bind_run _ _ p _ p (Hget c1 H1)), (bind_run _ _ p _ p (Hget c2 H2)).
  cbn [Call_Epoch].
  destruct (Z.ltb_spec c2 c1) as [Hlt|Hlt];
    [destruct (Z.eqb_spec c2 c1); [lia|]|destruct (Z.eqb_spec c1 c2); [lia|]];
    (erewrite bind_run by reflexivity; rewrite Hc, sequential_threads; cbn [negb];
     apply threading_tail; try done; lia).
Qed.

(** ** Undoing it *)

(** A call that a sequential program may contain before its epochs are fixed:
    on thread 0, or not placed yet. *)
Definition placeable (c : Call) : Prop :=
  Call_Thread c = 0 \/ Call_Thread c = undefined \/ Call_Epoch c = undefined.

Lemma fixup_call_next e c :
  placeable c -> 0 <= e < 2 ^ 64 - 1 ->
  fixup_call (mk_epoch_ctx e [true; false; false]) c =
  Some (mk_epoch_ctx (e + 1) [true; false; false], mk_call 0 (e + 1)).
Proof.
  intros Hc He. unfold fixup_call. cbn [epoch thr].
  set (undef := (Call_Epoch c =? undefined) || (Call_Thread c =? undefined)).
  assert (Ht : Call_Thread (if undef then c <| Call_Thread := 0 |> else c) = 0).
  { subst undef. destruct (_ || _) eqn:E; [done|]. bool_to_prop.
    destruct Hc as [?|[?|?]]; done. }
  clearbody undef. rewrite Ht. change (aget [true; false; false] 0) with (Some true). cbn [mbind option_bind].
  rewrite orb_true_r. unfold newEpoch. cbn [epoch thr]. rewrite wrapu_id by lia.
  do 2 f_equal. destruct undef; [done|]. unfold set. by rewrite Ht.
Qed.

Lemma fixup_loop_next e cs :
  Forall placeable cs -> 0 <= e -> e + alen cs < 2 ^ 64 ->
  fixup_loop (mk_epoch_ctx e [true; false; false]) cs =
  Some ((fun i => mk_call 0 (e + 1 + Z.of_nat i)) <$> seq 0 (length cs)).
Proof.
  intros Hcs. revert e. unfold alen.
  induction Hcs as [|c cs Hc Hcs IH]; intros e He Hlen; [done|]. cbn [fixup_loop].
  cbn [length] in Hlen. rewrite fixup_call_next by (done || lia). cbn.
  rewrite IH by lia. cbn. f_equal. f_equal; [f_equal; lia|].
  rewrite <- fmap_S_seq, <- list_fmap_compose. apply list_fmap_ext. intros ? i _. cbn. f_equal. lia.
Qed.

(** [fixupEpoch] numbers the calls of a sequential program. *)
Lemma fixupEpoch_run p :
  Threaded p = false -> Forall placeable (tail (Calls p)) -> alen (Calls p) < 2 ^ 64 ->
  fixupEpoch p = Ret tt (p <| Calls := sequential_calls (length (Calls p)) |>).
Proof.
  intros Ht Hp Hlen. unfold fixupEpoch, mbind, prog_bind, gets, id. rewrite Ht.
  destruct (Calls p) as [|c cs] eqn:Ec.
  { destruct p as [cs th cc sc fv hi]. cbn in Ec. by subst. }
  cbn [tail] in Hp. unfold alen in Hlen. cbn [length] in Hlen.
  change (fixup_loop (mk_epoch_ctx 0 (replicate maxThr false)) (mk_call 0 0 :: cs)) with
    (cs' ← fixup_loop (mk_epoch_ctx 0 [true; false; false]) cs; Some (mk_call 0 0 :: cs')).
  rewrite fixup_loop_next by (done || unfold alen; lia). cbn [mbind option_bind].
  replace (sequential_calls (length (c :: cs))) with
    (mk_call 0 0 :: ((fun i => mk_call 0 (0 + 1 + Z.of_nat i)) <$> seq 0 (length cs))); [done|].
  unfold sequential_calls. cbn. f_equal.
  rewrite <- fmap_S_seq, <- list_fmap_compose. apply list_fmap_ext. intros ? i _. cbn. f_equal. lia.
Qed.

(** ** Schedules *)

(** Points are numbered from zero, without gaps, in list order. *)
Definition numbered (ps : list Point) : Prop := order <$> ps = Z.of_nat <$> seq 0 (length ps).

Lemma numbered_snoc ps pt :
  numbered ps -> order pt = alen ps -> numbered (ps ++ [pt]).
Proof.
  unfold numbered, alen. intros Hn Ho. rewrite fmap_app, Hn, length_app. cbn [length].
  rewrite Nat.add_1_r, seq_S, fmap_app. cbn. by rewrite Ho.
Qed.

Lemma numbered_nil : numbered [].
Proof. done. Qed.

Lemma numbered_lookup ps i pt : numbered ps -> ps !! i = Some pt -> order pt = Z.of_nat i.
Proof.
  unfold numbered. intros Hn Hi. pose proof (f_equal (fun l => l !! i) Hn) as E. cbn in E.
  rewrite !list_lookup_fmap, Hi, lookup_seq_lt in E by (by eapply lookup_lt_Some). cbn in E. congruence.
Qed.

Lemma find_call_spec cs calls t c : find_call cs calls t = Some c -> c ∈ calls /\
  exists x, aget cs c = Some x /\ Call_Thread x = t.
Proof.
  unfold find_call. assert (H : forall found,
    foldl (fun found c => match aget cs c with
      | Some cl => if Call_Thread cl =? t then Some c else found
      | None => found end) found calls = Some c ->
    found = Some c \/ (c ∈ calls /\ exists x, aget cs c = Some x /\ Call_Thread x = t)).
  { induction calls as [|d calls IH]; intros found Hf; [by left|]. cbn in Hf.
    apply IH in Hf as [Hf|(? & ?)]; [|right; split; [by right|done]].
    destruct (aget cs d) as [x|] eqn:Ed; [|by left].
    destruct (Z.eqb_spec (Call_Thread x) t); [|by left]. simplify_eq. right. split; [by left|eauto]. }
  intros Hf. destruct (H _ Hf) as [|]; done.
Qed.

Lemma shape_loop_spec cs calls accs ps :
  numbered ps -> Forall (fun pt => call pt ∈ calls) ps ->
  alen ps + alen accs < 2 ^ 64 ->
  let r := shape_loop cs calls (alen ps) accs ps in
  numbered r /\ Forall (fun pt => call pt ∈ calls) r /\ alen r <= alen ps + alen accs.
Proof.
  revert ps. induction accs as [|a accs IH]; intros ps Hn Hc Hlen; cbn zeta.
  { cbn. unfold alen. cbn [length]. split_and!; [done..|lia]. }
  cbn [shape_loop]. unfold alen in Hlen |- *. cbn [length] in Hlen |- *.
  destruct (find_call cs calls (Thread a)) as [c|] eqn:Ef; cycle 1.
  { destruct (IH ps) as (? & ? & ?); [done|done|unfold alen; lia|].
    unfold alen in *. split_and!; [done..|lia]. }
  rewrite wrapu_id by lia.
  set (pt := mk_point c (Z.lor 0xffffffff00000000 (Inst a)) (Z.of_nat (length ps))).
  destruct (IH (ps ++ [pt])) as (H1 & H2 & H3).
  - by apply numbered_snoc.
  - apply Forall_app. split; [done|]. constructor; [by eapply find_call_spec|constructor].
  - unfold alen. rewrite length_app. cbn [length]. lia.
  - assert (E : alen (ps ++ [pt]) = Z.of_nat (length ps) + 1)
      by (unfold alen; rewrite length_app; cbn [length]; lia).
    rewrite E in *. unfold alen in *. split_and!; [done..|lia].
Qed.

Lemma match_nonempty ps fl c :
  Schedule_Len (Match (mk_schedule ps fl) c) <> 0 <-> exists pt, pt ∈ ps /\ call pt = c.
Proof.
  unfold Schedule_Len, Match, alen. cbn [points]. split.
  - intros Hl. destruct (filter (fun pt => call pt = c) ps) as [|pt l] eqn:E; [done|].
    exists pt. assert (Hin : pt ∈ filter (fun pt => call pt = c) ps) by (rewrite E; by left).
    apply list_elem_of_filter in Hin as [? ?]. done.
  - intros (pt & Hin & Hc). assert (H : pt ∈ filter (fun pt => call pt = c) ps)
      by (by apply list_elem_of_filter).
    destruct (filter _ ps); [by apply not_elem_of_nil in H|]. cbn. lia.
Qed.

Lemma dummy_loop_spec n ord calls ps fl :
  numbered ps -> alen ps = n + ord -> 0 <= ord -> n + ord + alen calls < 2 ^ 64 ->
  exists ds, dummy_loop n ord calls (mk_schedule ps fl) = mk_schedule (ps ++ ds) fl /\
    numbered (ps ++ ds) /\ Forall (fun pt => call pt ∈ calls /\ addr pt = dummyAddr) ds /\
    (forall c, c ∈ calls -> exists pt, pt ∈ ps ++ ds /\ call pt = c).
Proof.
  revert ord ps. unfold alen. induction calls as [|c calls IH]; intros ord ps Hn Hl Ho Hb.
  { exists []. rewrite app_nil_r. cbn. split_and!; [done..|by intros c ?%not_elem_of_nil]. }
  cbn [dummy_loop length] in *.
  destruct (Z.eqb_spec (Schedule_Len (Match (mk_schedule ps fl) c)) 0) as [E|E]; cbn [negb].
  - rewrite wrapu_id by lia. unfold set. cbn [points filter_].
    set (pt := mk_point c dummyAddr (ord + n)).
    destruct (IH (ord + 1) (ps ++ [pt])) as (ds & Eds & H1 & H2 & H3);
      [apply numbered_snoc; [done|unfold alen; cbn; lia]|rewrite length_app; cbn; lia|lia|lia|].
    exists (pt :: ds). rewrite <- app_assoc in *. cbn [app] in *. split_and!; [done..| |].
    + constructor; [split; [by left|done]|]. eapply Forall_impl; [exact H2|].
      intros x [? ?]. split; [by right|done].
    + intros x [->|Hx]%elem_of_cons; [|by apply H3]. exists pt. split; [|done].
      apply elem_of_app. right. by left.
  - destruct (IH ord ps) as (ds & Eds & H1 & H2 & H3); [done|lia|lia|lia|].
    exists ds. split_and!; [done..| |].
    + eapply Forall_impl; [exact H2|]. intros x [? ?]. split; [by right|done].
    + intros x [->|Hx]%elem_of_cons; [|by apply H3].
      apply match_nonempty in E as (pt & ? & ?). exists pt. split; [apply elem_of_app; by left|done].
Qed.

Lemma strip_dummies_app ds ps :
  Forall (fun pt => addr pt = dummyAddr) ds -> strip_dummies (ds ++ ps) = strip_dummies ps.
Proof.
  induction 1 as [|d ds Hd _ IH]; [done|]. cbn [app strip_dummies]. by rewrite Hd, Z.eqb_refl.
Qed.

(** The last point of a schedule stops the threads at an instruction. *)
Definition ends_with_instruction (ps : list Point) : Prop :=
  match rev ps with [] => True | pt :: _ => addr pt <> dummyAddr end.

Lemma strip_dummies_id ps : ends_with_instruction ps -> strip_dummies (rev ps) = rev ps.
Proof.
  unfold ends_with_instruction. destruct (rev ps) as [|pt l]; [done|]. cbn.
  destruct (Z.eqb_spec (addr pt) dummyAddr); done.
Qed.

(** ** Properties *)

(** How the calls of a threaded program run: the contenders in one epoch on
    different threads, and every other pair of calls in program order, except
    that the first contender waits for the second. *)
Definition races (n : nat) (c1 c2 : Z) (p : Prog) : Prop :=
  (exists x y, aget (Calls p) c1 = Some x /\ aget (Calls p) c2 = Some y /\
     Call_Epoch x = Call_Epoch y /\ Call_Thread x <> Call_Thread y) /\
  (forall i j x y, 0 <= i < j -> i <> Z.min c1 c2 ->
     aget (Calls p) i = Some x -> aget (Calls p) j = Some y -> j <> Z.min c1 c2 ->
     Call_Epoch x < Call_Epoch y) /\
  (forall k x y, Z.min c1 c2 < k < Z.max c1 c2 ->
     aget (Calls p) (Z.min c1 c2) = Some x -> aget (Calls p) k = Some y ->
     Call_Epoch y < Call_Epoch x).

Lemma threaded_races n c1 c2 p p' :
  threaded_prog n c1 c2 p p' -> 0 <= c1 < Z.of_nat n -> 0 <= c2 < Z.of_nat n -> c1 <> c2 ->
  races n c1 c2 p'.
Proof.
  intros (Hc & _) H1 H2 Hne. unfold races. rewrite Hc.
  set (a := Z.min c1 c2). set (b := Z.max c1 c2).
  assert (Hr : forall i x, aget (threaded_calls a b n) i = Some x ->
            0 <= i < Z.of_nat n /\ x = threaded_call a b (Z.to_nat i)).
  { intros i x Hx. pose proof (aget_Some_range _ _ _ Hx) as Hi. unfold alen, threaded_calls in Hi.
    rewrite length_fmap, length_seq in Hi. rewrite threaded_aget in Hx by lia. by simplify_eq. }
  unfold threaded_call in Hr. split_and!.
  - exists (threaded_call a b (Z.to_nat c1)), (threaded_call a b (Z.to_nat c2)).
    rewrite !threaded_aget by lia. do 2 (split; [done|]). unfold threaded_call. rewrite !Z2Nat.id by lia.
    split; destruct (Z.ltb_spec c1 a), (Z.eqb_spec c1 a), (Z.ltb_spec c2 a), (Z.eqb_spec c2 a);
      cbn [Call_Epoch Call_Thread]; subst a b; lia.
  - intros i j x y Hij Hi Hx Hy Hj. apply Hr in Hx as [Hir ->], Hy as [Hjr ->]. rewrite !Z2Nat.id by lia.
    destruct (Z.ltb_spec i a), (Z.eqb_spec i a), (Z.ltb_spec j a), (Z.eqb_spec j a); cbn [Call_Epoch]; lia.
  - intros k x y Hk Hx Hy. apply Hr in Hx as [Har ->], Hy as [Hkr ->]. rewrite !Z2Nat.id by lia.
    destruct (Z.ltb_spec a a), (Z.eqb_spec a a), (Z.ltb_spec k a), (Z.eqb_spec k a); cbn [Call_Epoch]; lia.
Qed.

Lemma threaded_sanitize n c1 c2 p p' :
  threaded_prog n c1 c2 p p' -> 0 <= c1 < Z.of_nat n -> 0 <= c2 < Z.of_nat n -> c1 <> c2 ->
  sanitizeRazzer p' = Ret None p'.
Proof.
  intros Hp H1 H2 Hne. destruct (threaded_races _ _ _ _ _ Hp H1 H2 Hne) as ((x & y & Ex & Ey & E & _) & _).
  destruct Hp as (Hc & Ht & Hcc & _). unfold sanitizeRazzer.
  erewrite bind_run by (unfold fixupEpoch; erewrite bind_run by reflexivity; unfold id; by rewrite Ht).
  erewrite bind_run by reflexivity. unfold id. rewrite Hc, threaded_increase, Ht by lia. cbn [negb].
  unfold sanitizeRazzerThreaded.
  erewrite bind_run.
  2:{ unfold Contenders. erewrite bind_run by reflexivity. unfold id.
      rewrite Hcc, resolve_two by eauto. reflexivity. }
  cbv beta iota. rewrite (bind_run _ _ _ _ _ (call_at_run _ _ _ Ex)), (bind_run _ _ _ _ _ (call_at_run _ _ _ Ey)).
  by rewrite E, Z.eqb_refl.
Qed.

(** C34. Threading two calls of a sequential program succeeds; the result passes
    the sanity checks made before execution, the two calls share an epoch on
    different threads, and every other pair of calls still runs in program
    order, except that the earlier contender waits for the later one's
    epoch. *)
Theorem threading_makes_contenders_race (p : Prog) (n : nat) (c1 c2 : Z) :
  sequential_prog n p -> Z.of_nat n < 2 ^ 64 ->
  0 <= c1 < Z.of_nat n -> 0 <= c2 < Z.of_nat n -> c1 <> c2 ->
  exists p', Threading [c1; c2] p = Ret tt p' /\ sanitizeRazzer p' = Ret None p' /\ races n c1 c2 p'.
Proof.
  intros Hp Hn H1 H2 Hne. destruct (threading_run p n c1 c2) as (p' & E & Hp'); [done..|].
  exists p'. split_and!; [done|by eapply threaded_sanitize|by eapply threaded_races].
Qed.

(** A program of four calls. *)
Definition sample_prog : Prog :=
  mk_prog (sequential_calls 4) false [] empty_schedule (mk_flush_vector [] []) None.

Lemma sample_sequential : sequential_prog 4 sample_prog.
Proof. repeat split; reflexivity. Qed.

Lemma threading_makes_contenders_race_witness :
  exists p', Threading [1; 3] sample_prog = Ret tt p' /\ sanitizeRazzer p' = Ret None p' /\
    Calls p' = [mk_call 0 0; mk_call 0 2; mk_call 1 1; mk_call 1 2].
Proof.
  destruct (threading_makes_contenders_race sample_prog 4 1 3 sample_sequential
              ltac:(lia) ltac:(lia) ltac:(lia) ltac:(lia)) as (p' & E & Es & _).
  exists p'. split; [exact E|]. split; [exact Es|].
  vm_compute in E. injection E as E. rewrite <- E. reflexivity.
Defined.

(** C35. Threading can be undone: [unthreading] restores the calls of the
    sequential program exactly and keeps the contenders, so that threading
    them again gives the same calls; and reversing twice the order of two
    unscheduled contenders changes nothing. *)
Theorem unthreading_roundtrip (p : Prog) (n : nat) (c1 c2 : Z) :
  sequential_prog n p -> Z.of_nat n < 2 ^ 64 ->
  0 <= c1 < Z.of_nat n -> 0 <= c2 < Z.of_nat n -> c1 <> c2 ->
  exists p' p'', Threading [c1; c2] p = Ret tt p' /\ unthreading p' = Ret tt p'' /\
    Calls p'' = Calls p /\ Threaded p'' = false /\ Contender_Calls p'' = [c1; c2] /\
    (Reverse ;; Reverse) p' = Ret tt p'.
Proof.
  intros Hp Hn H1 H2 Hne. destruct (threading_run p n c1 c2) as (p' & E & Hp'); [done..|].
  destruct Hp' as (Hc & Ht & Hcc & Hpts & Hfv & Hhi). destruct p' as [cs th cc [ps fl] fv hi]. cbn in *.
  subst. eexists _, _. split; [exact E|]. split.
  { unfold unthreading. erewrite bind_run by reflexivity. unfold set. cbn [Calls Threaded].
    apply fixupEpoch_run; cbn [Calls Threaded]; [done| |].
    - apply Forall_tail. apply Forall_fmap, Forall_true. intros x. by left.
    - unfold alen, threaded_calls. by rewrite !length_fmap, length_seq. }
  destruct Hp as (Hcp & _). rewrite Hcp. unfold set. cbn [Calls Threaded Contender_Calls].
  split_and!; [|done|done|].
  - f_equal. unfold threaded_calls. by rewrite !length_fmap, length_seq.
  - unfold Reverse, mbind, prog_bind, gets, modify, id. cbn. done.
Qed.

Lemma unthreading_roundtrip_witness :
  exists p' p'', Threading [1; 3] sample_prog = Ret tt p' /\ unthreading p' = Ret tt p'' /\
    Calls p'' = Calls sample_prog.
Proof.
  destruct (unthreading_roundtrip sample_prog 4 1 3 sample_sequential
              ltac:(lia) ltac:(lia) ltac:(lia) ltac:(lia)) as (p' & p'' & E1 & E2 & E3 & _).
  exists p', p''. split; [exact E1|]. split; [exact E2|exact E3].
Defined.

(** What [applySchedule] guarantees to the hypervisor. *)
Definition schedule_ok (calls : list Z) (s : Schedule) : Prop :=
  numbered (points s) /\
  (forall pt, pt ∈ points s -> call pt ∈ calls) /\
  (forall c, c ∈ calls -> exists pt, pt ∈ points s /\ call pt = c).

(** A schedule built from accesses numbers its breakpoints 0, 1, 2, ...
    without gaps or duplicates, gives each of them to a contender, and leaves
    no contender without one; and the dummy points it may append are exactly
    what [removeDummyPoints] takes away again. *)
Lemma apply_schedule_well_formed (p : Prog) (calls : list Z) (accs : list Access) :
  Threaded p = true -> Contender_Calls p = calls ->
  (forall c, c ∈ calls -> 0 <= c < alen (Calls p)) -> alen accs + alen calls < 2 ^ 64 ->
  exists p' ps, applySchedule accs p = Ret tt p' /\
    schedule_ok calls (Prog_Schedule p') /\
    shapeScheduleFromAccesses accs p = Ret tt (p <| Prog_Schedule := mk_schedule ps [] |>) /\
    (ends_with_instruction ps -> 0 < alen (points (Prog_Schedule p')) ->
     removeDummyPoints p' = Ret tt (p <| Prog_Schedule := mk_schedule ps [] |>)).
Proof.
  intros Ht Hc Hin Hlen.
  assert (Hr : resolve (Calls p) calls = Some calls).
  { clear Hc Hlen. induction calls as [|c calls IH]; [done|]. cbn.
    destruct (aget_is_Some (Calls p) c) as [_ [x ->]]; [apply Hin; by left|]. cbn.
    rewrite IH; [done|]. intros d Hd. apply Hin. by right. }
  set (ps := shape_loop (Calls p) calls 0 accs []).
  destruct (shape_loop_spec (Calls p) calls accs [] numbered_nil) as (Hn & Hf & Hl);
    [constructor|change (alen (@nil Point)) with 0; pose proof (alen_nonneg calls); lia|].
  change (alen (@nil Point)) with 0 in *. fold ps in Hn, Hf, Hl.
  assert (Eshape : shapeScheduleFromAccesses accs p = Ret tt (p <| Prog_Schedule := mk_schedule ps [] |>)).
  { unfold shapeScheduleFromAccesses. erewrite bind_run; [reflexivity|].
    unfold Contenders. erewrite bind_run by reflexivity. unfold id. by rewrite Hc, Hr. }
  destruct (dummy_loop_spec (alen ps) 0 calls ps [] Hn) as (ds & Eds & Hnd & Hds & Hall);
    [lia|lia|lia|].
  eexists _, ps. split_and!; [|..|exact Eshape|].
  - unfold applySchedule. erewrite bind_run by exact Eshape.
    apply appendDummyPoints_run; [done|]. cbn [Calls Contender_Calls set]. by rewrite Hc.
  - unfold set. cbn [Prog_Schedule]. change (Schedule_Len _) with (alen ps). rewrite Eds.
    split_and!; cbn [points]; [done| |done]. intros pt [Hpt|Hpt]%elem_of_app.
    + rewrite Forall_forall in Hf. by apply Hf.
    + rewrite Forall_forall in Hds. by apply Hds.
  - unfold set. cbn [Prog_Schedule]. change (Schedule_Len _) with (alen ps). rewrite Eds. cbn [points].
    intros Hend Hpos. unfold removeDummyPoints. erewrite bind_run by reflexivity. unfold id.
    cbn [Threaded Prog_Schedule]. rewrite Ht. cbn [negb].
    change (Schedule_Len (mk_schedule (ps ++ ds) [])) with (alen (ps ++ ds)).
    destruct (Z.eqb_spec (alen (ps ++ ds)) 0); [lia|]. unfold modify. do 2 f_equal.
    unfold set. cbn. f_equal. rewrite rev_app_distr, strip_dummies_app, strip_dummies_id, rev_involutive; [done|done|].
    apply Forall_rev. eapply Forall_impl; [exact Hds|]. by intros x [_ ?].
Qed.
