(* ===== verification/ExecWire.v ===== *)
(** * The program on the wire (prog/encodingexec.go, executor/executor.cc)

    The fuzzer serialises a program into 64-bit words, the executor reads them
    back: the filter of the schedule, the flush vector, and the instructions
    with the thread, the epoch and the breakpoints of every call.

    The encoder models calls with default properties whose arguments are
    constants, pointers and results; what [ForeachArg] yields for a call (its
    copy-in arguments with their addresses, its results in memory) is data of
    the call's body.  Raw data and checksums are in Copyin; call properties are
    left out. *)

From stdpp Require Import base list gmap sets strings.
From Stdlib Require Import ZArith Lia.
From S2P Require Import Prelude Accesses Comms Hints Threading.

Local Open Scope Z_scope.
Local Open Scope record_scope.

(** ** The encoder (encodingexec.go) *)

Definition execInstrEOF : Z := 2 ^ 64 - 1.
Definition execInstrCopyin : Z := 2 ^ 64 - 2.
Definition execInstrCopyout : Z := 2 ^ 64 - 3.
Definition execInstrSetProps : Z := 2 ^ 64 - 4.
Definition execInstrEpoch : Z := 2 ^ 64 - 5.
Definition execArgConst : Z := 0.
Definition execArgResult : Z := 1.
Definition ExecNoCopyout : Z := 2 ^ 64 - 1.
Definition execMaxCommands : Z := 1000.

(** A constant ([*ConstArg], [*PointerArg], or a [*ResultArg] without a
    source) or a reference to the result [res]. *)
Inductive Arg :=
| ConstArg (size val bfOffset bfLength pidStride bf : Z)
| ResultArg (size bf res OpDiv OpAdd Default : Z).

(** What a call has besides its thread and epoch: [Call_Ret] is its return value
    when some argument uses it; [outs] are the used results in memory. *)
Record Body := mk_body {
  Meta_ID : Z;
  Call_Ret : option Z;
  copyins : list (Z * Arg);
  Args : list Arg;
  outs : list (Z * Z * Z)
}.

(** [buf] is the number of bytes left; [args] holds the copyout index of each
    result; [words] is what has been written. *)
Record execContext := mk_exec_context {
  buf : Z;
  words : list Z;
  eof : bool;
  args : gmap Z Z;
  copyoutSeq : Z
}.

#[export] Instance exec_context_eta : Eta execContext := fun w =>
  mk_exec_context (buf w) (words w) (eof w) (args w) (copyoutSeq w).

Definition write (v : Z) : prog execContext unit :=
  modify (fun w => if buf w <? 8 then w <| eof := true |>
                   else w <| words ::= fun l => l ++ [u64 v] |> <| buf ::= fun n => n - 8 |>).

Definition writeScheduleFilter (p : Prog) : prog execContext unit :=
  let filter := filter_ (Prog_Schedule p) in
  write (alen filter);; foreach filter write.

Definition writeFlushVector (p : Prog) : prog execContext unit :=
  let vec := SerializeVector (Prog_FlushVector p) in
  write (alen vec);; foreach vec write;;
  let table := SerializeTable (Prog_FlushVector p) in
  write (alen table);; foreach table write.

Definition writeConstArg (size val bfOffset bfLength pidStride bf : Z) : prog execContext unit :=
  write execArgConst;;
  write (Z.lor (Z.lor (Z.lor (Z.lor size (Z.shiftl bf 8)) (Z.shiftl bfOffset 16)) (Z.shiftl bfLength 24))
               (Z.shiftl pidStride 32));;
  write val.

Definition writeArg (a : Arg) : prog execContext unit :=
  match a with
  | ConstArg size val bfOffset bfLength pidStride bf => writeConstArg size val bfOffset bfLength pidStride bf
  | ResultArg size bf res OpDiv OpAdd Default =>
      m ← gets args;
      match m !! res with
      | None => panic "no copyout index"
      | Some Idx =>
          write execArgResult;; write (Z.lor size (Z.shiftl bf 8));;
          write Idx;; write OpDiv;; write OpAdd;; write Default
      end
  end.

(** The results in memory are entered into [args], with index 0 for now. *)
Definition writeCopyin (b : Body) : prog execContext unit :=
  modify (fun w => w <| args ::= fun m => foldl (fun m '(res, _, _) => <[res := 0]> m) m (outs b) |>);;
  foreach (copyins b) (fun '(addr, a) => write execInstrCopyin;; write addr;; writeArg a).

Definition writeConcurrencyInfo (thread epoch : Z) : prog execContext unit :=
  write thread;; write epoch.

(** [writeSchedule] dereferences the call of every point that matches. *)
Definition writeSchedule (cs : list Call) (c : Z) (sched : Schedule) : prog execContext unit :=
  let m := Match sched c in
  write (Schedule_Len m);;
  foreach (points m) (fun point =>
    match aget cs (call point) with
    | None => panic "nil dereference"
    | Some cl => write (Call_Thread cl);; write (addr point);; write (order point)
    end).

(** A new copyout index for a result. *)
Definition new_index (res : Z) : prog execContext Z :=
  i ← gets copyoutSeq;
  modify (fun w => w <| args ::= insert res i |> <| copyoutSeq ::= fun n => u64 (n + 1) |>);; mret i.

Definition writeCopyout (b : Body) : prog execContext unit :=
  foreach (outs b) (fun '(res, addr, size) =>
    i ← new_index res;
    write execInstrCopyout;; write i;; write addr;; write size).

Definition serializeCall (cs : list Call) (ci : Z) (c : Call) (b : Body) (sched : Schedule)
    : prog execContext unit :=
  writeCopyin b;;
  write (Meta_ID b);;
  (match Call_Ret b with
   | Some res => i ← new_index res; write i
   | None => write ExecNoCopyout
   end);;
  write (alen (Args b));; foreach (Args b) writeArg;;
  writeConcurrencyInfo (Call_Thread c) (Call_Epoch c);;
  writeSchedule cs ci sched;;
  writeCopyout b.

(** The last call of an epoch starts it. *)
Definition writeEpoch (c : Call) (later : list Call) : prog execContext unit :=
  if existsb (fun c0 => Call_Epoch c =? Call_Epoch c0) later then mret tt else write execInstrEpoch.

(** The loop over the calls. *)
Fixpoint serialize_calls (cs : list Call) (sched : Schedule) (ci : Z) (rest : list (Call * Body))
    : prog execContext unit :=
  match rest with
  | [] => mret tt
  | (c, b) :: rest =>
      serializeCall cs ci c b sched;; writeEpoch c rest.*1;; serialize_calls cs sched (ci + 1) rest
  end.

Definition serialize_prog (bodies : list Body) (p : Prog) : prog execContext unit :=
  writeScheduleFilter p;; writeFlushVector p;;
  serialize_calls (Calls p) (Prog_Schedule p) 0 (zip (Calls p) bodies);;
  write execInstrEOF.

(** The encoder on a fresh context; [None] is [ErrExecBufferTooSmall]. *)
Definition run_encoder (bodies : list Body) (size : Z) : prog Prog (option (list Z)) := fun p =>
  match serialize_prog bodies p (mk_exec_context size [] false ∅ 0) with
  | Ret _ w => Ret (if eof w || (execMaxCommands <? copyoutSeq w) then None else Some (words w)) p
  | Exit s => Exit s
  | UB s => UB s
  | OutOfFuel => OutOfFuel
  end.

Definition SerializeForExec (bodies : list Body) (size : Z) : prog Prog (option (list Z)) :=
  err ← sanitizeRazzer;
  match err with Some e => panic e | None => run_encoder bodies size end.

(** ** The decoder (executor.cc) *)

Definition kMaxSchedule : Z := 128.
Definition kMaxVector : Z := 32.
Definition kMaxArgs : Z := 9.
Definition kMaxCommands : Z := 1000.
Definition instr_eof : Z := u64 (-1).
Definition instr_copyin : Z := u64 (-2).
Definition instr_copyout : Z := u64 (-3).
Definition instr_setprops : Z := u64 (-4).
Definition instr_epoch : Z := u64 (-5).
Definition arg_const : Z := 0.
Definition arg_result : Z := 1.
Definition binary_format_native : Z := 0.
Definition binary_format_bigendian : Z := 1.

Record schedule_t := mk_schedule_t { s_thread : Z; s_addr : Z; s_order : Z; s_filter : Z }.
Record kssb_flush_table_entry := mk_flush_entry { kf_inst : Z; kf_value : Z }.

(** An argument as read: a value, or a result with what is done to it. *)
Inductive arg_t :=
| arg_value (v : Z)
| arg_ref (idx op_div op_add default : Z).

(** The instructions, in the order [execute_one] handles them. *)
Inductive instr :=
| IEpoch
| ICopyin (addr : Z) (a : arg_t) (size bf bf_off bf_len : Z)
| ICopyout
| ISetProps
| ICall (call_num copyout_index : Z) (args : list arg_t) (thread epoch : Z) (sched : list schedule_t).

(** [failmsg] ends the process. *)
Abbreviation failmsg := exit_.

(** The state is what is left of the input region. *)
Definition read_input : prog (list Z) Z := fun l =>
  match l with [] => Exit "input command overflows input" | v :: l => Ret v l end.

(** [n] words. *)
Fixpoint read_words (n : nat) : prog (list Z) (list Z) :=
  match n with
  | O => mret []
  | S n => v ← read_input; vs ← read_words n; mret (v :: vs)
  end.

(** [for (i = 0; i < filter_size; i++)]: entries past the array are read and
    dropped. *)
Definition store_filter (filter : list Z) (vs : list Z) : list Z :=
  take (Z.to_nat kMaxSchedule) vs ++ drop (length vs) filter.

Definition read_filter : prog (list Z) (list Z) :=
  filter_size ← read_input;
  vs ← read_words (Z.to_nat (i32 filter_size));
  mret (store_filter (replicate (Z.to_nat kMaxSchedule) 0) (i32 <$> vs)).

(** The vector has no such test: entry [i] is stored at index [i]. *)
Fixpoint vector_loop (n : nat) (i : Z) : prog (list Z) (list Z) :=
  match n with
  | O => mret []
  | S n =>
      v ← read_input;
      if i <? kMaxVector then vs ← vector_loop n (i + 1); mret (i32 v :: vs)
      else ub "vector[i]"
  end.

Fixpoint table_loop (n : nat) (i : Z) : prog (list Z) (list kssb_flush_table_entry) :=
  match n with
  | O => mret []
  | S n =>
      inst ← read_input;
      value ← read_input;
      if i <? kMaxVector then es ← table_loop n (i + 1); mret (mk_flush_entry inst (i32 value) :: es)
      else ub "table[i]"
  end.

(** The arguments of the [SYS_FEEDINPUT] call. *)
Definition feed_flush_vector (vector : list Z) (table : list kssb_flush_table_entry)
    : list Z * list kssb_flush_table_entry :=
  if (alen vector =? 0) && negb (alen table =? 0) then ([1], table) else (vector, table).

(** The filter and what is fed to the kernel. *)
Definition read_header : prog (list Z) (list Z * (list Z * list kssb_flush_table_entry)) :=
  filter ← read_filter;
  vector_size ← read_input;
  vector ← vector_loop (Z.to_nat (i32 vector_size)) 0;
  table_size ← read_input;
  table ← table_loop (Z.to_nat (Z.quot (i32 table_size) 2)) 0;
  mret (filter, feed_flush_vector vector table).

Section decoder.
(** The process number, and the generated tables: the number of system calls,
    which of them are disabled, and the reader of call properties. *)
Context (procid nsyscalls : Z) (disabled : Z -> bool) (read_call_props : prog (list Z) unit).

(** Value, size, binary format, bitfield offset and length. *)
Definition read_const_arg : prog (list Z) (Z * Z * Z * Z * Z) :=
  meta ← read_input;
  val ← read_input;
  let pid_stride := Z.shiftr meta 32 in
  mret (u64 (val + u64 (pid_stride * procid)), Z.land meta 0xff, Z.land (Z.shiftr meta 8) 0xff,
        Z.land (Z.shiftr meta 16) 0xff, Z.land (Z.shiftr meta 24) 0xff).

Definition read_result : prog (list Z) arg_t :=
  idx ← read_input;
  op_div ← read_input;
  op_add ← read_input;
  arg ← read_input;
  if kMaxCommands <=? idx then failmsg "command refers to bad result"
  else mret (arg_ref idx op_div op_add arg).

(** The [n] low bytes in the opposite order ([htobe16] and the like on a
    little-endian machine). *)
Fixpoint swap_bytes (n : nat) (v : Z) : Z :=
  match n with
  | O => 0
  | S n => (v `mod` 256) * 256 ^ Z.of_nat n + swap_bytes n (v / 256)
  end.

Definition swap (v size bf : Z) : prog (list Z) Z :=
  if bf =? binary_format_native then mret v
  else if negb (bf =? binary_format_bigendian) then failmsg "bad binary format in swap"
  else if (size =? 2) || (size =? 4) || (size =? 8) then mret (swap_bytes (Z.to_nat size) v)
  else failmsg "bad big-endian int size".

Definition read_arg : prog (list Z) arg_t :=
  typ ← read_input;
  if typ =? arg_const then
    '(val, size, bf, bf_off, bf_len) ← read_const_arg;
    if negb (bf =? binary_format_native) && negb (bf =? binary_format_bigendian)
    then failmsg "bad argument binary format"
    else if negb (bf_off =? 0) || negb (bf_len =? 0) then failmsg "bad argument bitfield"
    else v ← swap val size bf; mret (arg_value v)
  else if typ =? arg_result then
    meta ← read_input;
    if negb (Z.shiftr meta 8 =? binary_format_native) then failmsg "bad result argument format"
    else read_result
  else failmsg "bad argument type".

Fixpoint read_args (n : nat) : prog (list Z) (list arg_t) :=
  match n with
  | O => mret []
  | S n => a ← read_arg; l ← read_args n; mret (a :: l)
  end.

(** Raw data and checksums, which the encoder here does not produce, are not
    read. *)
Definition read_copyin : prog (list Z) instr :=
  addr ← read_input;
  typ ← read_input;
  if typ =? arg_const then
    '(val, size, bf, bf_off, bf_len) ← read_const_arg;
    mret (ICopyin addr (arg_value val) size bf bf_off bf_len)
  else if typ =? arg_result then
    meta ← read_input;
    a ← read_result;
    mret (ICopyin addr a (Z.land meta 0xff) (Z.shiftr meta 8) 0 0)
  else failmsg "bad argument type".

(** The breakpoints of a call; those past the array are read and dropped. *)
Fixpoint read_sched (filter : list Z) (n : nat) (i : Z) : prog (list Z) (list schedule_t) :=
  match n with
  | O => mret []
  | S n =>
      thread ← read_input;
      addr ← read_input;
      order ← read_input;
      rest ← read_sched filter n (i + 1);
      if kMaxSchedule <=? i then mret rest
      else
        let f := if order <? kMaxSchedule then default 0 (aget filter order) else 1 in
        mret (mk_schedule_t thread addr order (u64 f) :: rest)
  end.

Definition read_call (filter : list Z) (call_num : Z) : prog (list Z) instr :=
  if nsyscalls <=? call_num then failmsg "invalid syscall number"
  else if disabled call_num then failmsg "executing disabled syscall"
  else
    copyout_index ← read_input;
    num_args ← read_input;
    if kMaxArgs <? num_args then failmsg "command has bad number of arguments"
    else
      l ← read_args (Z.to_nat num_args);
      thread ← read_input;
      epoch ← read_input;
      num_sched ← read_input;
      sched ← read_sched filter (Z.to_nat num_sched) 0;
      mret (ICall call_num copyout_index (l ++ replicate (Z.to_nat (kMaxArgs - num_args)) (arg_value 0))
              thread epoch sched).

(** The loop of [execute_one]; every turn reads at least one word. *)
Fixpoint read_instrs (fuel : nat) (filter : list Z) : prog (list Z) (list instr) :=
  match fuel with
  | O => fun _ => OutOfFuel
  | S fuel =>
      call_num ← read_input;
      if call_num =? instr_eof then mret []
      else
        i ← (if call_num =? instr_epoch then mret IEpoch
             else if call_num =? instr_copyin then read_copyin
             else if call_num =? instr_copyout then
               _ ← read_input; _ ← read_input; _ ← read_input; mret ICopyout
             else if call_num =? instr_setprops then read_call_props;; mret ISetProps
             else read_call filter call_num);
        rest ← read_instrs fuel filter;
        mret (i :: rest)
  end.

(** What [execute_one] makes of its input. *)
Definition decode : prog (list Z) ((list Z * list kssb_flush_table_entry) * list instr) :=
  n ← gets (@length Z);
  '(filter, fed) ← read_header;
  l ← read_instrs n filter;
  mret (fed, l).
End decoder.
