(* ===== verification/Fuzzer.v ===== *)
(** * The fuzzer's bookkeeping (syz-fuzzer: fuzzer.go, proc.go, workqueue.go)

    Which hints are new, in which bin a program with hints is kept and how it
    is taken out again, how the outcome of a run becomes the filter of the next
    one, and the work queue.

    The operations are modelled for one proc.  Each takes the fuzzer's locks,
    but [checkNewInterleavingSignal] and [dequeue] drop a read lock and take
    the write lock before they change the state, so between two procs the test
    and the change may be separated; that interleaving is not modelled. *)

From stdpp Require Import base list gmap sets strings.
From Stdlib Require Import ZArith Lia.
From S2P Require Import Prelude Accesses Comms Hints Knotter Threading ExecWire.

Local Open Scope Z_scope.
Local Open Scope record_scope.

(** ** The work queue (workqueue.go) *)

Definition ProgNormal : Z := 0.
Definition ProgCandidate : Z := Z.shiftl 1 0.

(** The coverage a triage item carries along is left out. *)
Record WorkTriage := mk_work_triage { wt_p : Prog; wt_call : Z; wt_flags : Z }.
Record WorkCandidate := mk_work_candidate { wc_p : Prog; wc_flags : Z }.
Record WorkSmash := mk_work_smash { ws_p : Prog; ws_call : Z }.
Record WorkThreading := mk_work_threading { wth_p : Prog; wth_calls : list Z; wth_hints : list Hint }.

Record WorkQueue := mk_work_queue {
  triageCandidate : list WorkTriage;
  candidate : list WorkCandidate;
  triage : list WorkTriage;
  smash : list WorkSmash;
  threading : list WorkThreading;
  procs : Z
}.

#[export] Instance work_queue_eta : Eta WorkQueue := fun q =>
  mk_work_queue (triageCandidate q) (candidate q) (triage q) (smash q) (threading q) (procs q).

Definition newWorkQueue (procs : Z) : WorkQueue := mk_work_queue [] [] [] [] [] procs.

Definition WorkQueue_stats (wq : WorkQueue) : Z * Z * Z * Z * Z :=
  (alen (triageCandidate wq), alen (candidate wq), alen (triage wq), alen (smash wq), alen (threading wq)).

Inductive work_item :=
| ItemTriage (w : WorkTriage)
| ItemCandidate (w : WorkCandidate)
| ItemSmash (w : WorkSmash)
| ItemThreading (w : WorkThreading).

Definition enqueue (item : work_item) (wq : WorkQueue) : WorkQueue :=
  match item with
  | ItemTriage w =>
      if negb (Z.land (wt_flags w) ProgCandidate =? 0)
      then wq <| triageCandidate ::= fun l => l ++ [w] |>
      else wq <| triage ::= fun l => l ++ [w] |>
  | ItemCandidate w => wq <| candidate ::= fun l => l ++ [w] |>
  | ItemSmash w => wq <| smash ::= fun l => l ++ [w] |>
  | ItemThreading w => wq <| threading ::= fun l => l ++ [w] |>
  end.

(** The last element and the slice without it. *)
Definition pop {A} (l : list A) : option (A * list A) :=
  match rev l with [] => None | x :: r => Some (x, rev r) end.

(** [coin] is [rand.Intn(2) == 0]; the third result is [wantCandidates]. *)
Definition dequeue (coin : bool) (wq : WorkQueue) : option work_item * WorkQueue * bool :=
  match pop (triageCandidate wq), pop (candidate wq), pop (threading wq), pop (triage wq), pop (smash wq) with
  | Some (w, l), _, _, _, _ => (Some (ItemTriage w), wq <| triageCandidate := l |>, false)
  | None, Some (w, l), _, _, _ => (Some (ItemCandidate w), wq <| candidate := l |>, alen l <? procs wq)
  | None, None, Some (w, l), Some (w', l'), _ =>
      if coin then (Some (ItemThreading w), wq <| threading := l |>, false)
      else (Some (ItemTriage w'), wq <| triage := l' |>, false)
  | None, None, Some (w, l), None, _ => (Some (ItemThreading w), wq <| threading := l |>, false)
  | None, None, None, Some (w', l'), _ => (Some (ItemTriage w'), wq <| triage := l' |>, false)
  | None, None, None, None, Some (w, l) => (Some (ItemSmash w), wq <| smash := l |>, false)
  | None, None, None, None, None => (None, wq, false)
  end.

Definition dequeueThreading (wq : WorkQueue) : option WorkThreading * WorkQueue :=
  match pop (threading wq) with
  | None => (None, wq)
  | Some (w, l) => (Some w, wq <| threading := l |>)
  end.

Definition wantCandidates (wq : WorkQueue) : bool := alen (candidate wq) <? procs wq.

(** ** State (fuzzer.go) *)

Definition Bin1 : Z := 0.
Definition Bin2 : Z := 1.
Definition Bin4 : Z := 2.
Definition Bin8 : Z := 3.
Definition Bin16 : Z := 4.
Definition BinLarge : Z := 5.
Definition BinCount : Z := 6.

Definition CollectionScheduleHint : Z := 0.
Definition CollectionThreadingHint : Z := 1.
Definition CollectionConcurrentCalls : Z := 2.
Definition CollectionWQTriage : Z := 3.
Definition CollectionWQTriageCandidate : Z := 4.
Definition CollectionWQCandidate : Z := 5.
Definition CollectionWQSmash : Z := 6.
Definition CollectionWQThreading : Z := 7.
Definition CollectionCount : Z := 8.

Definition StatBufferTooSmall : Z := 9.
Definition StatThreading : Z := 10.
Definition StatSchedule : Z := 11.
Definition StatThreadWorkTimeout : Z := 12.
Definition StatTestStoreReordering : Z := 23.
Definition StatTestLoadReordering : Z := 24.
Definition StatCount : Z := 25.

Record ConcurrentCalls := mk_concurrent_calls { CC_P : Prog; CC_Hint : list Hint }.

#[export] Instance concurrent_calls_eta : Eta ConcurrentCalls := fun c =>
  mk_concurrent_calls (CC_P c) (CC_Hint c).

(** A [*prog.ConcurrentCalls] is an index into [heap], the objects in the
    order they were made.  The maps of a [FuzzerSnapshot] are the fuzzer's
    own, so there is one copy of [concurrentCalls].  [executed] and
    [scheduled] are the balancer of the proc. *)
Record Fuzzer := mk_fuzzer {
  workQueue : WorkQueue;
  shifter : option (gmap Z Z);
  instBlacklist : gset Z;
  executed : Z;
  scheduled : Z;
  heap : list ConcurrentCalls;
  concurrentCalls : list (gmap Z unit);
  collection : list Z;
  stats : list Z;
  corpusInterleaving : Signal;
  maxInterleaving : Signal;
  newInterleaving : Signal;
  testLoadReordering : bool
}.

#[export] Instance fuzzer_eta : Eta Fuzzer := fun f =>
  mk_fuzzer (workQueue f) (shifter f) (instBlacklist f) (executed f) (scheduled f) (heap f) (concurrentCalls f) (collection f) (stats f) (corpusInterleaving f)
    (maxInterleaving f) (newInterleaving f) (testLoadReordering f).

(** ** Interleaving signals (fuzzer.go) *)

Definition checkNewInterleavingSignal (sign : Signal) : prog Fuzzer bool :=
  diff ← gets (fun f => Signal_Diff (maxInterleaving f) sign);
  if Signal_Empty diff then mret false
  else
    modify (fun f => f <| newInterleaving ::= fun i => Signal_Merge i diff |>
                       <| maxInterleaving ::= fun i => Signal_Merge i diff |>);;
    mret true.

Definition addThreadedInputToCorpus (sign : Signal) : prog Fuzzer unit :=
  modify (fun f => f <| maxInterleaving ::= fun i => Signal_Merge i sign |>
                     <| corpusInterleaving ::= fun i => Signal_Merge i sign |>).

Definition addMaxInterleaving (sign : Signal) : prog Fuzzer unit :=
  if Signal_Len sign =? 0 then mret tt
  else modify (fun f => f <| maxInterleaving ::= fun i => Signal_Merge i sign |>).

Definition grabNewInterleaving : prog Fuzzer Signal :=
  sign ← gets newInterleaving;
  if Signal_Empty sign then mret ∅
  else modify (fun f => f <| newInterleaving := ∅ |>);; mret sign.

(** The loop of [getNewHints].  It compacts the slice in place: a hint that
    is not new is overwritten by the last one still in range.  The result is
    the slice's array afterwards and the length of the prefix returned; each
    iteration brings [i] and [total] closer by one, so [len(hints)]
    iterations are enough. *)
Fixpoint new_hints_loop (fuel : nat) (i total : Z) (hints : list Hint) : prog Fuzzer (list Hint * Z) :=
  if negb (i <? total) then mret (hints, total)
  else match fuel with
  | O => fun _ => OutOfFuel
  | S fuel =>
      match aget hints i with
      | None => panic "index out of range"
      | Some hint =>
          let sign := Coverage hint in
          load ← gets (fun f => negb (testLoadReordering f) && bool_decide (Hint_Typ hint = TestingLoadBarrier));
          reject ← (if (load : bool) then mret true
                    else b ← checkNewInterleavingSignal sign; mret (negb b));
          if (reject : bool) then
            match aget hints (total - 1) with
            | None => panic "index out of range"
            | Some last => new_hints_loop fuel i (total - 1) (aset hints i last)
            end
          else new_hints_loop fuel (i + 1) total hints
      end
  end.

(** The array after the call and the length of the slice returned. *)
Definition getNewHints (hints : list Hint) : prog Fuzzer (list Hint * Z) :=
  new_hints_loop (length hints) 0 (alen hints) hints.

(** ** Bins (fuzzer.go) *)

(** [for k < n { k = k << 1 }] on a 64-bit [int]; 63 iterations pass any
    non-negative [n] that fits 62 bits. *)
Fixpoint pow_loop (fuel : nat) (k n : Z) : Z :=
  match fuel with
  | O => k
  | S fuel => if k <? n then pow_loop fuel (wraps 64 (Z.shiftl k 1)) n else k
  end.
Definition pow (n : Z) : Z := pow_loop 63 1 n.

Definition pickBin (hints : list Hint) : Z :=
  let maxBin := foldl (fun maxBin hint =>
    let bin := pow (Score hint) in if maxBin <? bin then bin else maxBin) (-1) hints in
  if BinLarge <? maxBin then BinLarge else maxBin.

Definition addCollection (c num : Z) : prog Fuzzer unit :=
  n ← gets (fun f => default 0 (aget (collection f) c));
  modify (fun f => f <| collection ::= fun l => aset l c (u64 (n + num)) |>).

Definition subCollection (c num : Z) : prog Fuzzer unit :=
  n ← gets (fun f => default 0 (aget (collection f) c));
  modify (fun f => f <| collection ::= fun l => aset l c (u64 (n - num)) |>).

Definition addStat (s : Z) : prog Fuzzer unit :=
  n ← gets (fun f => default 0 (aget (stats f) s));
  modify (fun f => f <| stats ::= fun l => aset l s (u64 (n + 1)) |>).

(** Dereference of a [*ConcurrentCalls]. *)
Definition cc_at (tp : Z) : prog Fuzzer ConcurrentCalls :=
  h ← gets heap;
  match aget h tp with Some c => mret c | None => panic "nil dereference" end.

Definition bookScheduleGuide_ (tp : Z) : prog Fuzzer unit :=
  c ← cc_at tp;
  if bool_decide (CC_Hint c = []) then panic "wrong"
  else
    let bin := pickBin (CC_Hint c) in
    bins ← gets concurrentCalls;
    match aget bins bin with
    | None => panic "index out of range"
    | Some m => modify (fun f => f <| concurrentCalls ::= fun l => aset l bin (<[tp := tt]> m) |>)
    end.

Definition bookScheduleGuide `{SortSlice} (p : Prog) (hints : list Hint) : prog Fuzzer unit :=
  addCollection CollectionScheduleHint (alen hints);;
  addCollection CollectionConcurrentCalls 1;;
  let hints := sort_Slice Score hints in
  tp ← gets (fun f => alen (heap f));
  modify (fun f => f <| heap ::= fun h => h ++ [mk_concurrent_calls p hints] |>);;
  bookScheduleGuide_ tp.

(** From the largest bin down, the first program the map yields. *)
Fixpoint choose_loop `{GoRange} (bins : list Z) : prog Fuzzer (option Z) :=
  match bins with
  | [] => mret None
  | bin :: bins =>
      l ← gets concurrentCalls;
      match aget l bin with
      | None => panic "index out of range"
      | Some m =>
          match range_map m with
          | [] => choose_loop bins
          | (tp, _) :: _ =>
              modify (fun f => f <| concurrentCalls ::= fun l => aset l bin (delete tp m) |>);;
              mret (Some tp)
          end
      end
  end.

Definition chooseThreadedProgram `{GoRange} : prog Fuzzer (option Z) :=
  choose_loop [BinLarge; Bin16; Bin8; Bin4; Bin2; Bin1].

(** The [retry] loop of [pickHint]: each turn takes one hint of the program
    away and the one after the last panics, so one turn more than there are
    hints is enough. *)
Fixpoint pick_retry (fuel : nat) (tp : Z) : prog Fuzzer Hint :=
  match fuel with
  | O => fun _ => OutOfFuel
  | S fuel =>
      c ← cc_at tp;
      match pop (CC_Hint c) with
      | None => panic "index out of range"
      | Some (hint, hints) =>
          subCollection CollectionScheduleHint 1;;
          modify (fun f => f <| heap ::= fun h => aset h tp (c <| CC_Hint := hints |>) |>);;
          if Invalid hint then pick_retry fuel tp else mret hint
      end
  end.

Definition pickHint (tp : Z) : prog Fuzzer (Prog * Hint) :=
  c ← cc_at tp;
  hint ← pick_retry (S (length (CC_Hint c))) tp;
  addStat (if Hint_Typ hint then StatTestStoreReordering else StatTestLoadReordering);;
  c ← cc_at tp;
  (if negb (alen (CC_Hint c) =? 0) then bookScheduleGuide_ tp
   else subCollection CollectionConcurrentCalls 1);;
  mret (Clone (CC_P c), hint).

(** ** Traces and outcomes (proc.go, ipc.go) *)

Record SchedpointOutcome := mk_outcome { Outcome_Order : Z; Outcome_Footprint : Z }.

Record CallInfo := mk_call_info {
  Info_Access : SerialAccess;
  Info_Flags : Z;
  Info_Outcome : list SchedpointOutcome
}.

Definition CallRetry : Z := Z.shiftl 1 4.

(** [None]: indexing [info.Calls] panics. *)
Fixpoint collect_serials (info : list CallInfo) (blacklist : gset Z) (calls : list Z)
    : option (list SerialAccess) :=
  match calls with
  | [] => Some []
  | c :: calls =>
      ci ← aget info c;
      rest ← collect_serials info blacklist calls;
      Some (filter (fun acc => Inst acc ∉ blacklist) (Info_Access ci) :: rest)
  end.

Definition sequentialAccesses (info : list CallInfo) (calls : list Z) : prog Fuzzer (list SerialAccess) :=
  blacklist ← gets instBlacklist;
  match collect_serials info blacklist calls with
  | None => panic "index out of range"
  | Some s => if negb (length s =? 2)%nat then mret [] else mret s
  end.

Definition shiftAccesses (shifter : option (gmap Z Z)) (info : list CallInfo) : list CallInfo :=
  match shifter with
  | None => info
  | Some m =>
      (fun ci => mk_call_info
        ((fun acc => match m !! Inst acc with
                     | Some shift => acc <| Inst := u32 (Inst acc + shift) |>
                     | None => acc
                     end) <$> Info_Access ci) (Info_Flags ci) (Info_Outcome ci)) <$> info
  end.

Fixpoint needRetry {W} (info : list CallInfo) (calls : list Z) : prog W bool :=
  match calls with
  | [] => mret false
  | c :: calls =>
      match aget info c with
      | None => panic "index out of range"
      | Some inf => if negb (Z.land (Info_Flags inf) CallRetry =? 0) then mret true
                    else needRetry info calls
      end
  end.

Definition FOOTPRINT_MISSED : Z := 1.

(** One outcome; [None] is the early [return nil]. *)
Definition filter_outcome (filter : option (list Z)) (o : SchedpointOutcome) : option (list Z) :=
  f ← filter;
  if u32 (alen f) <=? Outcome_Order o then None
  else if Outcome_Footprint o =? FOOTPRINT_MISSED then Some (aset f (Outcome_Order o) 1) else Some f.

Definition buildScheduleFilter (len : Z) (info : list CallInfo) : list Z :=
  default [] (foldl filter_outcome (Some (replicate (Z.to_nat len) 0)) (ci ← info; Info_Outcome ci)).

(** [readFootprint] of ipc.go, on the words of the output region. *)
Fixpoint read_outcomes (array : list Z) : list SchedpointOutcome :=
  match array with
  | o :: fp :: array => mk_outcome o fp :: read_outcomes array
  | _ => []
  end.

Definition readFootprint (out : list Z) (size : Z) : option (list SchedpointOutcome * list Z) :=
  let n := Z.to_nat (u32 (size * 2)) in
  if (length out <? n)%nat then None else Some (read_outcomes (take n out), drop n out).

(** ** Execution (proc.go, power.go) *)

Definition balancer_count (stat : Z) : prog Fuzzer unit :=
  modify (fun f => f <| executed ::= fun n => u64 (n + 1) |>);;
  if (stat =? StatSchedule) || (stat =? StatThreading)
  then modify (fun f => f <| scheduled ::= fun n => u64 (n + 1) |>) else mret tt.

(** What [env.Exec] reports: the traces, [prog.ErrExecBufferTooSmall], or any
    other error. *)
Inductive exec_result :=
| ExecInfo (info : list CallInfo)
| ExecTooSmall
| ExecError.

Definition collectionWorkqueue : prog Fuzzer unit :=
  modify (fun f =>
    let '(tricand, cand, tri, smash, thr) := WorkQueue_stats (workQueue f) in
    f <| collection ::= fun l =>
      aset (aset (aset (aset (aset l CollectionWQTriageCandidate tricand) CollectionWQCandidate cand)
        CollectionWQTriage tri) CollectionWQSmash smash) CollectionWQThreading thr |>).

Definition enqueueThreading (p : Prog) (calls : list Z) (hints : list Hint) : prog Fuzzer unit :=
  addCollection CollectionThreadingHint (alen hints);;
  modify (fun f => f <| workQueue ::= enqueue (ItemThreading (mk_work_threading (Clone p) calls hints)) |>);;
  collectionWorkqueue.

(** Run an operation of package prog on a program the caller holds. *)
Definition on_prog {A} (m : prog Prog A) (p : Prog) : prog Fuzzer (A * Prog) := fun f =>
  match m p with
  | Ret a p' => Ret (a, p') f
  | Exit s => Exit s
  | UB s => UB s
  | OutOfFuel => OutOfFuel
  end.

(** The choice table (prog/prio.go): [runs] has an entry for every system call,
    nil for one that is not generated. *)
Record ChoiceTable := mk_choice_table { runs : list (option (list Z)); noGenerateCalls : gset Z }.

Definition Generatable (ct : ChoiceTable) (call : Z) : prog Fuzzer bool :=
  r ← go_index (runs ct) call; mret (bool_decide (is_Some r)).

Definition Enabled (ct : ChoiceTable) (call : Z) : prog Fuzzer bool :=
  g ← Generatable ct call; mret (g || bool_decide (call ∈ noGenerateCalls ct)).

Section execution.
(** What the calls of a program have besides thread and epoch, the size of the
    input region, the choice table, and the executor: it is given the words
    and reports on the program. *)
Context (bodies : Prog -> list Body) (size : Z) (choiceTable : ChoiceTable).
Context (run : list Z -> Prog -> prog Fuzzer exec_result).

Definition checkDisabledCalls (p : Prog) : prog Fuzzer unit :=
  foreach (bodies p) (fun b =>
    e ← Enabled choiceTable (Meta_ID b);
    if negb e then panic "disabled syscall" else mret tt).

(** [env.Exec]: serialisation may panic, and numbers the epochs of a sequential
    program anew. *)
Definition Exec (p : Prog) : prog Fuzzer (exec_result * Prog) :=
  '(ws, p) ← on_prog (SerializeForExec (bodies p) size) p;
  match ws with
  | None => mret (ExecTooSmall, p)
  | Some ws => r ← run ws p; mret (r, p)
  end.

(** The retry loop of [executeRaw]; the program returned is [p] with the
    filter of the last retry.  [try] counts from 0 and the loop ends at the
    latest when it is 11, so 12 turns are enough. *)
Fixpoint exec_loop (fuel : nat) (try : Z) (stat : Z) (p : Prog) : prog Fuzzer (Prog * option (list CallInfo)) :=
  match fuel with
  | O => fun _ => OutOfFuel
  | S fuel =>
      addStat stat;;
      '(r, p) ← Exec p;
      match r with
      | ExecTooSmall => addStat StatBufferTooSmall;; mret (p, None)
      | ExecError => if 10 <? try then Fatalf "executor failed" else exec_loop fuel (try + 1) stat p
      | ExecInfo info =>
          m ← gets shifter;
          let info := shiftAccesses m info in
          retry ← needRetry info (Contender_Calls p);
          if (retry : bool) then
            let filter := buildScheduleFilter (Schedule_Len (Prog_Schedule p)) info in
            let p := p <| Prog_Schedule ::= fun s => s <| filter_ := filter |> |> in
            if 10 <? try then mret (p, Some info) else exec_loop fuel (try + 1) stat p
          else mret (p, Some info)
      end
  end.

Definition executeRaw (stat : Z) (p : Prog) : prog Fuzzer (Prog * option (list CallInfo)) :=
  balancer_count stat;; checkDisabledCalls p;; exec_loop 12 0 stat p.

(** One of the two runs of [executeThreading]; a nil [info] is dereferenced. *)
Definition run_threading `{GoRange} (p : Prog) : prog Fuzzer (Prog * list Hint) :=
  '(p, inf) ← executeRaw StatThreading p;
  match inf with
  | None => panic "nil dereference"
  | Some info =>
      seq ← sequentialAccesses info (Contender_Calls p);
      hints ← ComputeHints seq;
      '(_, p) ← on_prog Reverse p;
      mret (p, hints)
  end.

Definition executeThreading `{GoRange} (p : Prog) : prog Fuzzer (Prog * list Hint) :=
  '(p, h0) ← run_threading p;
  '(p, h1) ← run_threading p;
  mret (p, h0 ++ h1).

(** [Select] reads the array [getNewHints] has compacted. *)
Definition threadingInput `{GoRange, SortSlice} (item : WorkThreading) : prog Fuzzer unit :=
  subCollection CollectionThreadingHint (alen (wth_hints item));;
  '(_, p) ← on_prog (Threading (wth_calls item)) (Clone (wth_p item));
  '(p, hints) ← executeThreading p;
  if alen hints =? 0 then mret tt
  else
    '(arr, total) ← getNewHints hints;
    let newHints := take (Z.to_nat total) arr in
    let speculatedHints := Select (wth_hints item) arr in
    let scheduleHint := newHints ++ speculatedHints in
    if alen scheduleHint =? 0 then mret tt else bookScheduleGuide p scheduleHint.

(** [scheduleInput]; [needScheduling] draws from a floating-point
    distribution over the balancer's counts. *)
Context (needScheduling : prog Fuzzer bool).

Definition execute_threaded (p : Prog) : prog Fuzzer unit :=
  '(p, inf) ← executeRaw StatSchedule p;
  match inf with
  | None => mret tt
  | Some info => seq ← sequentialAccesses info (Contender_Calls p); mret tt
  end.

Fixpoint schedule_loop `{GoRange, GoRand} (cnt : nat) (randomReordering : bool) (rnd : option Rand)
    : prog Fuzzer (option Rand) :=
  match cnt with
  | O => mret rnd
  | S cnt =>
      need ← needScheduling;
      if negb need then mret rnd
      else
        tp ← chooseThreadedProgram;
        match tp with
        | None => mret rnd
        | Some tp =>
            '(p, hint) ← pickHint tp;
            '(rnd, p) ← on_prog (MutateScheduleFromHint hint randomReordering rnd) p;
            execute_threaded p;;
            schedule_loop cnt randomReordering rnd
        end
  end.

Definition scheduleInput `{GoRange, GoRand} (randomReordering : bool) (rnd : option Rand)
    : prog Fuzzer (option Rand) := schedule_loop 10 randomReordering rnd.
End execution.

(** ** Picking pairs of calls (proc.go) *)

Definition maxDist : Z := 10.

(** The pairs the two loops visit, in order. *)
Definition call_pairs (n : Z) : list (Z * Z) :=
  dist ← seqZ 1 (maxDist - 1); c1 ← seqZ 0 (n - dist); [(c1, c1 + dist)].

(** [expired] is the test of the clock after a pair. *)
Fixpoint pickup_loop `{GoRange} (expired : Z * Z -> bool) (p : Prog) (info : list CallInfo)
    (pairs : list (Z * Z)) : prog Fuzzer unit :=
  match pairs with
  | [] => mret tt
  | (c1, c2) :: pairs =>
      seq ← sequentialAccesses info [c1; c2];
      hints ← ComputeHints0 seq;
      if alen hints =? 0 then pickup_loop expired p info pairs
      else
        '(arr, total) ← getNewHints hints;
        let newHints := take (Z.to_nat total) arr in
        (if negb (alen newHints =? 0) then enqueueThreading p [c1; c2] newHints else mret tt);;
        if expired (c1, c2) then addStat StatThreadWorkTimeout else pickup_loop expired p info pairs
  end.

Definition pickupThreadingWorks `{GoRange} (expired : Z * Z -> bool) (p : Prog) (info : list CallInfo)
    : prog Fuzzer unit := pickup_loop expired p info (call_pairs (alen (Calls p))).
