(* ===== verification/FuzzerSpec.v ===== *)
(** * Theorems about the fuzzer's bookkeeping

    The new hints, the bins and their counters, the filter of a retry, the
    work queue and the retry loop of Fuzzer. *)

From stdpp Require Import base list gmap sets strings sorting.
From Stdlib Require Import ZArith Lia.
From S2P Require Import Prelude Machine Accesses Comms Hints Knotter Threading ExecWire Fuzzer.

Local Open Scope Z_scope.
Local Open Scope record_scope.

(** ** New hints *)

(** A hint of a type the fuzzer is configured to test. *)
Definition tested (f : Fuzzer) (h : Hint) : Prop :=
  testLoadReordering f = true \/ Hint_Typ h = TestingStoreBarrier.

(** What a list of hints covers. *)
Definition covered (hs : list Hint) : Signal := ⋃ (Coverage <$> hs).

(** Each hint covers something that neither [known] nor an earlier one does. *)
Fixpoint fresh (known : Signal) (hs : list Hint) : Prop :=
  match hs with
  | [] => True
  | h :: hs => ~ Coverage h ⊆ known /\ fresh (known ∪ Coverage h) hs
  end.

Lemma checkNew_spec sign f :
  checkNewInterleavingSignal sign f =
  if decide (sign ⊆ maxInterleaving f) then Ret false f
  else Ret true (f <| newInterleaving := newInterleaving f ∪ (sign ∖ maxInterleaving f) |>
                   <| maxInterleaving := maxInterleaving f ∪ sign |>).
Proof.
  unfold checkNewInterleavingSignal. erewrite bind_run by reflexivity.
  rewrite diff_spec. unfold Signal_Empty. case_bool_decide as H; case_decide as H'.
  - done.
  - exfalso. apply H'. apply size_empty_inv in H. set_solver.
  - exfalso. apply H. apply size_empty_iff. set_solver.
  - erewrite bind_run by reflexivity. unfold set. cbn. rewrite !merge_spec.
    replace (maxInterleaving f ∪ sign ∖ maxInterleaving f) with (maxInterleaving f ∪ sign); [done|].
    apply set_eq. intros x. destruct (decide (x ∈ maxInterleaving f)); set_solver.
Qed.

(** The state after a set of signals has been found. *)
Definition learn (sign : Signal) (f : Fuzzer) : Fuzzer :=
  f <| newInterleaving := newInterleaving f ∪ (sign ∖ maxInterleaving f) |>
    <| maxInterleaving := maxInterleaving f ∪ sign |>.

Lemma learn_learn s1 s2 f : learn s2 (learn s1 f) = learn (s1 ∪ s2) f.
Proof.
  unfold learn, set. cbn. f_equal; [set_solver|].
  apply set_eq. intros x. destruct (decide (x ∈ maxInterleaving f)), (decide (x ∈ s1)); set_solver.
Qed.

Lemma learn_nothing f : learn ∅ f = f.
Proof.
  destruct f. unfold learn, set. cbn. f_equal; set_solver.
Qed.

#[export] Instance tested_dec f h : Decision (tested f h).
Proof. unfold tested. apply _. Defined.

(** The condition of the loop: the hint is kept when it is of a tested type
    and covers something new, which is then learnt. *)
Lemma reject_run {A} h f (k : bool -> prog Fuzzer A) :
  (load ← gets (fun f => negb (testLoadReordering f) && bool_decide (Hint_Typ h = TestingLoadBarrier));
   reject ← (if (load : bool) then mret true
             else b ← checkNewInterleavingSignal (Coverage h); mret (negb b));
   k reject) f =
  if decide (tested f h /\ ~ Coverage h ⊆ maxInterleaving f)
  then k false (learn (Coverage h) f) else k true f.
Proof.
  erewrite bind_run by reflexivity.
  assert (Ht : tested f h <->
    negb (testLoadReordering f) && bool_decide (Hint_Typ h = TestingLoadBarrier) = false).
  { unfold tested, TestingLoadBarrier, TestingStoreBarrier.
    destruct (testLoadReordering f), (Hint_Typ h); cbn; naive_solver. }
  destruct (negb _ && _); unfold mbind, prog_bind, mret, prog_ret.
  { rewrite decide_False by naive_solver. done. }
  rewrite checkNew_spec. case_decide as H.
  - rewrite decide_False by tauto. done.
  - rewrite decide_True by tauto. done.
Qed.

Lemma tested_learn sign f h : tested (learn sign f) h <-> tested f h.
Proof. done. Qed.

Lemma covered_cons h hs : covered (h :: hs) = Coverage h ∪ covered hs.
Proof. done. Qed.

(** The loop on the window [win] of the array: what it keeps, what it
    rejects, and what is left behind the kept ones. *)
Lemma new_hints_loop_spec fuel : forall pre win post f,
  (length win <= fuel)%nat ->
  exists kept rejected tail,
    new_hints_loop fuel (alen pre) (alen pre + alen win) (pre ++ win ++ post) f =
      Ret (pre ++ kept ++ tail, alen pre + alen kept) (learn (covered kept) f) /\
    win ≡ₚ kept ++ rejected /\ fresh (maxInterleaving f) kept /\
    Forall (tested f) kept /\
    Forall (fun h => ~ tested f h \/ Coverage h ⊆ maxInterleaving f ∪ covered kept) rejected.
Proof.
  induction fuel as [|fuel IH]; intros pre win post f Hlen.
  { destruct win; [|cbn in Hlen; lia]. exists [], [], post. cbn. rewrite Z.add_0_r, Z.ltb_irrefl.
    unfold covered. cbn. rewrite learn_nothing. repeat constructor. }
  destruct win as [|h win].
  { exists [], [], post. cbn. rewrite Z.add_0_r, Z.ltb_irrefl.
    unfold covered. cbn. rewrite learn_nothing. repeat constructor. }
  cbn [new_hints_loop]. rewrite alen_cons.
  destruct (Z.ltb_spec (alen pre) (alen pre + (1 + alen win))); [|pose proof (alen_nonneg win); lia].
  cbn [negb]. rewrite aget_app_r. cbn [lookup list_lookup app]. cbv zeta. rewrite reject_run.
  case_decide as Hkeep.
  - destruct (IH (pre ++ [h]) win post (learn (Coverage h) f)) as (kept & rej & tail & E & Hp & Hf & Ht & Hr);
      [cbn in Hlen; lia|].
    exists (h :: kept), rej, tail. rewrite alen_app, alen_cons, <- !app_assoc in E. cbn [app alen length] in E.
    change (alen []) with 0 in E. rewrite Z.add_0_r in E. rewrite Z.add_assoc, E, covered_cons, learn_learn.
    rewrite alen_cons, Z.add_assoc. split_and!; [done|by rewrite Hp|split; [apply Hkeep|exact Hf]|by constructor; [apply Hkeep|]|].
    eapply Forall_impl; [exact Hr|]. cbn. intros x [|]; [by left|right]. set_solver.
  - assert (Hrej : ~ tested f h \/ Coverage h ⊆ maxInterleaving f) by
      (destruct (decide (tested f h)); [|by left]; right; apply dec_stable; tauto).
    assert (Hdone : forall kept rej, Forall (fun h => ~ tested f h \/
        Coverage h ⊆ maxInterleaving f ∪ covered kept) rej -> Forall (fun h => ~ tested f h \/
        Coverage h ⊆ maxInterleaving f ∪ covered kept) (h :: rej)).
    { intros. constructor; [|done]. destruct Hrej; [by left|right]. set_solver. }
    destruct win as [|l win _] using rev_ind.
    + change (alen []) with 0. replace (alen pre + (1 + 0) - 1) with (alen pre) by lia.
      rewrite aget_app_r. cbn [lookup list_lookup]. rewrite aset_app_r.
      destruct (IH pre [] (h :: post) f) as (kept & rej & tail & E & Hp & Hf & Ht & Hr); [cbn; lia|].
      change (alen []) with 0 in E. rewrite Z.add_0_r in E. exists kept, (h :: rej), tail. cbn [app] in E |- *.
      rewrite E. split_and!; [done| |done|done|by apply Hdone].
      apply Permutation_nil_l in Hp. by rewrite <- Permutation_middle, <- Hp.
    + replace (alen pre + (1 + alen (win ++ [l])) - 1) with (alen (pre ++ h :: win)) by
        (rewrite !alen_app, !alen_cons; change (alen (@nil Hint)) with 0; lia).
      replace (pre ++ h :: (win ++ [l]) ++ post) with ((pre ++ h :: win) ++ l :: post) by
        (rewrite <- !app_assoc; done).
      rewrite aget_app_r. cbn [lookup list_lookup]. rewrite <- app_assoc. cbn [app]. rewrite aset_app_r.
      destruct (IH pre (l :: win) (l :: post) f) as (kept & rej & tail & E & Hp & Hf & Ht & Hr);
        [cbn in *; rewrite length_app in Hlen; cbn in Hlen; lia|].
      exists kept, (h :: rej), tail. rewrite alen_app, !alen_cons in *. cbn [app] in E. rewrite E.
      split_and!; [done| |done|done|by apply Hdone].
      rewrite <- (Permutation_middle kept rej h), <- Hp. apply Permutation_skip, (Permutation_app_comm win [l]).
Qed.

(** ** Bins *)

Lemma pow_loop_spec (n j : nat) m :
  (j + n <= 62)%nat -> m <= 2 ^ Z.of_nat (j + n) ->
  exists i : nat, pow_loop (S n) (2 ^ Z.of_nat j) m = 2 ^ Z.of_nat (j + i) /\ (i <= n)%nat /\
    m <= 2 ^ Z.of_nat (j + i) /\ (i = O \/ 2 ^ Z.of_nat (j + i - 1) < m).
Proof.
  revert j. induction n as [|n IH]; intros j Hj Hm; cbn [pow_loop].
  - exists O. rewrite Nat.add_0_r in *. destruct (Z.ltb_spec (2 ^ Z.of_nat j) m); [lia|].
    split_and!; auto.
  - destruct (Z.ltb_spec (2 ^ Z.of_nat j) m).
    + assert (E : wraps 64 (Z.shiftl (2 ^ Z.of_nat j) 1) = 2 ^ Z.of_nat (S j)).
      { rewrite Z.shiftl_mul_pow2 by lia. replace (2 ^ Z.of_nat j * 2 ^ 1) with (2 ^ Z.of_nat (S j)) by
          (rewrite Nat2Z.inj_succ, Z.pow_succ_r by lia; lia).
        apply wraps_id; [lia|]. assert (0 < 2 ^ Z.of_nat (S j)) by (apply Z.pow_pos_nonneg; lia).
        assert (2 ^ Z.of_nat (S j) <= 2 ^ 62) by (apply Z.pow_le_mono_r; lia). lia. }
      rewrite E. destruct (IH (S j)) as (i & Ei & Hi & Hmi & Hlast); [lia|by replace (S j + n)%nat with (j + S n)%nat by lia|].
      exists (S i). replace (j + S i)%nat with (S j + i)%nat by lia. split_and!; [done|lia|done|].
      right. destruct Hlast as [->|]; [|done]. replace (S j + 0 - 1)%nat with j by lia. done.
    + exists O. rewrite Nat.add_0_r. split_and!; auto; lia.
Qed.

(** The bin a score falls in. *)
Definition bin_of (score : Z) : Z :=
  if score <=? 1 then Bin2 else if score <=? 2 then Bin4 else if score <=? 4 then Bin16 else BinLarge.

Lemma pow_spec n : n <= 2 ^ 62 -> Z.min (pow n) BinLarge = bin_of n.
Proof.
  intros Hn. destruct (pow_loop_spec 62 0 n) as (i & E & _ & Hlo & Hhi); [lia|done|].
  unfold pow. change (2 ^ Z.of_nat 0) with 1 in E. rewrite E. rewrite Nat.add_0_l in *.
  unfold bin_of, Bin2, Bin4, Bin16, BinLarge.
  destruct i as [|[|[|i]]].
  - change (2 ^ Z.of_nat 0) with 1 in *. destruct (Z.leb_spec n 1); lia.
  - change (2 ^ Z.of_nat 1) with 2 in *. change (2 ^ Z.of_nat (1 - 1)) with 1 in *.
    destruct (Z.leb_spec n 1), (Z.leb_spec n 2); lia.
  - change (2 ^ Z.of_nat 2) with 4 in *. change (2 ^ Z.of_nat (2 - 1)) with 2 in *.
    destruct (Z.leb_spec n 1), (Z.leb_spec n 2), (Z.leb_spec n 4); lia.
  - assert (4 <= 2 ^ Z.of_nat (S (S (S i)) - 1)) by
      (change 4 with (2 ^ 2); apply Z.pow_le_mono_r; lia).
    assert (2 ^ 3 <= 2 ^ Z.of_nat (S (S (S i)))) by (apply Z.pow_le_mono_r; lia).
    destruct (Z.leb_spec n 1), (Z.leb_spec n 2), (Z.leb_spec n 4); lia.
Qed.

Lemma pickBin_foldl hints m :
  (forall h, h ∈ hints -> Score h <= 2 ^ 62) ->
  Z.min (foldl (fun m h => let bin := pow (Score h) in if m <? bin then bin else m) m hints) BinLarge =
  foldl Z.max (Z.min m BinLarge) (bin_of ∘ Score <$> hints).
Proof.
  revert m. induction hints as [|h hints IH]; intros m Hs; [done|]. cbn [foldl fmap list_fmap].
  rewrite IH by (intros; apply Hs; by right). f_equal. cbn [compose].
  rewrite <- pow_spec by (apply Hs; by left). cbv zeta.
  destruct (Z.ltb_spec m (pow (Score h))); lia.
Qed.

Lemma foldl_max_spec l m :
  m <= foldl Z.max m l /\ (forall x, x ∈ l -> x <= foldl Z.max m l) /\
  (foldl Z.max m l = m \/ foldl Z.max m l ∈ l).
Proof.
  revert m. induction l as [|y l IH]; intros m; cbn [foldl].
  - split_and!; [lia|by intros x ?%elem_of_nil|by left].
  - destruct (IH (Z.max m y)) as (H1 & H2 & H3). split_and!; [lia| |].
    + intros x [->|Hx]%elem_of_cons; [lia|auto].
    + rewrite elem_of_cons. destruct H3 as [E|]; [|auto]. rewrite E.
      destruct (Z.max_spec m y) as [[_ ->]|[_ ->]]; auto.
Qed.

Lemma bin_of_range s : bin_of s ∈ [Bin2; Bin4; Bin16; BinLarge].
Proof. unfold bin_of. repeat case_match; set_solver. Qed.

Lemma pickBin_spec hints :
  hints <> [] -> (forall h, h ∈ hints -> Score h <= 2 ^ 62) ->
  (exists h, h ∈ hints /\ pickBin hints = bin_of (Score h)) /\
  (forall h, h ∈ hints -> bin_of (Score h) <= pickBin hints).
Proof.
  intros Hne Hs. assert (E : pickBin hints = foldl Z.max (-1) (bin_of ∘ Score <$> hints)).
  { change (-1) with (Z.min (-1) BinLarge). rewrite <- pickBin_foldl by done.
    unfold pickBin. cbv zeta. match goal with |- (if ?a <? ?b then _ else _) = _ => destruct (Z.ltb_spec a b); lia end. }
  rewrite E. destruct (foldl_max_spec (bin_of ∘ Score <$> hints) (-1)) as (Hm & Hall & Hin).
  assert (Hall' : forall h, h ∈ hints -> bin_of (Score h) <= foldl Z.max (-1) (bin_of ∘ Score <$> hints)).
  { intros h Hh. apply Hall. by apply (list_elem_of_fmap_2 (bin_of ∘ Score)). }
  split; [|done]. destruct Hin as [Hin|Hin].
  - destruct hints as [|h hints]; [done|]. specialize (Hall' h ltac:(by left)).
    assert (1 <= bin_of (Score h)) by
      (unfold bin_of, Bin2, Bin4, Bin16, BinLarge; repeat case_match; lia). lia.
  - apply list_elem_of_fmap_1 in Hin. destruct Hin as (h & -> & Hh). by exists h.
Qed.

(** ** The books of the bins

    [held] are the programs that some proc has taken out of a bin and not yet
    put back or dropped. *)

(** Sum of a weight over the objects of the heap. *)
Fixpoint total (w : Z -> Z) (n : nat) : Z :=
  match n with O => 0 | S n => total w n + w (Z.of_nat n) end.

Lemma total_ext w w' n :
  (forall i, 0 <= i < Z.of_nat n -> w' i = w i) -> total w' n = total w n.
Proof.
  induction n as [|n IH]; intros H; [done|]. cbn. rewrite IH, H; [done|lia|].
  intros i Hi. apply H. lia.
Qed.

Lemma total_update w w' n x :
  0 <= x < Z.of_nat n -> (forall i, i <> x -> w' i = w i) ->
  total w' n = total w n + w' x - w x.
Proof.
  induction n as [|n IH]; intros Hx H; [lia|]. cbn.
  destruct (decide (x = Z.of_nat n)) as [->|].
  - rewrite (total_ext w w'); [lia|]. intros i Hi. apply H. lia.
  - rewrite IH, (H (Z.of_nat n)) by (done || lia). lia.
Qed.

Definition in_bin (bins : list (gmap Z unit)) (b tp : Z) : Prop :=
  exists m, aget bins b = Some m /\ m !! tp = Some tt.

Definition booked (bins : list (gmap Z unit)) (tp : Z) : Prop := exists b, in_bin bins b tp.

Definition booked_b (bins : list (gmap Z unit)) (tp : Z) : bool :=
  existsb (fun m => bool_decide (m !! tp = Some tt)) bins.

Lemma booked_b_spec bins tp : booked_b bins tp = true <-> booked bins tp.
Proof.
  unfold booked_b, booked, in_bin. rewrite existsb_exists. split.
  - intros (m & Hm & H%bool_decide_eq_true). apply list_elem_of_In, list_elem_of_lookup in Hm.
    destruct Hm as [i Hi]. exists (Z.of_nat i), m. split; [|done]. unfold aget.
    destruct (Z.ltb_spec (Z.of_nat i) 0); [lia|]. by rewrite Nat2Z.id.
  - intros (b & m & Hb & H). exists m. split; [|by apply bool_decide_eq_true].
    unfold aget in Hb. destruct (b <? 0); [done|]. apply list_elem_of_lookup_2 in Hb. by apply list_elem_of_In.
Qed.

(** What every hint the fuzzer books satisfies. *)
Definition hint_fine (h : Hint) : Prop := Invalid h = false /\ Score h <= 2 ^ 62.

(** Hints in the order [bookScheduleGuide] leaves them in. *)
Definition ascending (hs : list Hint) : Prop := StronglySorted (fun a b => Score a <= Score b) hs.

Definition hint_count (h : list ConcurrentCalls) (tp : Z) : Z :=
  match aget h tp with Some c => alen (CC_Hint c) | None => 0 end.

(** The weights of an object: 1 and its number of hints, when it is in a bin
    or held. *)
Definition counted (held : gset Z) (f : Fuzzer) (tp : Z) : bool :=
  booked_b (concurrentCalls f) tp || bool_decide (tp ∈ held).
Definition weight_one (held : gset Z) (f : Fuzzer) (tp : Z) : Z :=
  if counted held f tp then 1 else 0.
Definition weight_hints (held : gset Z) (f : Fuzzer) (tp : Z) : Z :=
  if counted held f tp then hint_count (heap f) tp else 0.

Record books (held : gset Z) (f : Fuzzer) : Prop := {
  books_bins : alen (concurrentCalls f) = BinCount;
  books_collection : alen (collection f) = CollectionCount;
  books_one_bin b b' tp :
    in_bin (concurrentCalls f) b tp -> in_bin (concurrentCalls f) b' tp -> b = b';
  books_held tp : tp ∈ held -> ~ booked (concurrentCalls f) tp;
  books_object tp : tp ∈ held \/ booked (concurrentCalls f) tp ->
    exists c, aget (heap f) tp = Some c /\ Forall hint_fine (CC_Hint c) /\ ascending (CC_Hint c);
  books_nonempty tp : booked (concurrentCalls f) tp -> hint_count (heap f) tp <> 0;
  books_hints : aget (collection f) CollectionScheduleHint =
    Some (u64 (total (weight_hints held f) (length (heap f))));
  books_calls : aget (collection f) CollectionConcurrentCalls =
    Some (u64 (total (weight_one held f) (length (heap f))))
}.

Lemma in_bin_aset bins b m b' tp :
  0 <= b < alen bins ->
  in_bin (aset bins b m) b' tp <-> (b = b' /\ m !! tp = Some tt) \/ (b <> b' /\ in_bin bins b' tp).
Proof.
  intros Hb. unfold in_bin. destruct (decide (b = b')) as [<-|Hne].
  - rewrite aget_aset_eq by done. naive_solver.
  - rewrite aget_aset_ne by done. naive_solver.
Qed.

Lemma counted_spec held f tp :
  counted held f tp = true <-> booked (concurrentCalls f) tp \/ tp ∈ held.
Proof. unfold counted. by rewrite orb_true_iff, booked_b_spec, bool_decide_eq_true. Qed.

(** Weights depend on what is counted and on the hints only. *)
Lemma weights_ext held held' f f' tp :
  (booked (concurrentCalls f) tp \/ tp ∈ held <-> booked (concurrentCalls f') tp \/ tp ∈ held') ->
  hint_count (heap f') tp = hint_count (heap f) tp ->
  weight_one held' f' tp = weight_one held f tp /\ weight_hints held' f' tp = weight_hints held f tp.
Proof.
  rewrite <- !counted_spec. unfold weight_one, weight_hints. intros Hc ->.
  destruct (counted held f tp), (counted held' f' tp); try done; destruct Hc as [H1 H2];
    [discriminate (H1 eq_refl)|discriminate (H2 eq_refl)].
Qed.

(** Changing the bins without changing what is counted. *)
Lemma books_rebin held held' f bins :
  books held f -> alen bins = BinCount ->
  (forall b b' tp, in_bin bins b tp -> in_bin bins b' tp -> b = b') ->
  (forall tp, tp ∈ held' -> ~ booked bins tp) ->
  (forall tp, booked (concurrentCalls f) tp \/ tp ∈ held <-> booked bins tp \/ tp ∈ held') ->
  (forall tp, booked bins tp -> hint_count (heap f) tp <> 0) ->
  books held' (f <| concurrentCalls := bins |>).
Proof.
  intros [Hb Hcol Hone Hheld Hobj Hne Hh Hc] Hlen Hone' Hheld' Heq Hne'.
  split; unfold set; cbn [concurrentCalls collection heap]; [done..| |done| |].
  - intros tp Htp. apply Hobj. specialize (Heq tp). tauto.
  - rewrite Hh. do 2 f_equal. apply total_ext. intros i _. symmetry.
    by destruct (weights_ext held held' f (f <| concurrentCalls := bins |>) i) as [E1 E2]; [exact (Heq i)|..].
  - rewrite Hc. do 2 f_equal. apply total_ext. intros i _. symmetry.
    by destruct (weights_ext held held' f (f <| concurrentCalls := bins |>) i) as [E1 E2]; [exact (Heq i)|..].
Qed.

Lemma books_put held f tp b m :
  books held f -> tp ∈ held -> hint_count (heap f) tp <> 0 -> aget (concurrentCalls f) b = Some m ->
  books (held ∖ {[tp]}) (f <| concurrentCalls := aset (concurrentCalls f) b (<[tp := tt]> m) |>).
Proof.
  intros Hf Htp Hne Hm. pose proof (aget_Some_range _ _ _ Hm) as Hb.
  assert (Hin : forall b' x, in_bin (aset (concurrentCalls f) b (<[tp := tt]> m)) b' x <->
            (b' = b /\ x = tp) \/ in_bin (concurrentCalls f) b' x).
  { intros b' x. rewrite in_bin_aset by done. rewrite lookup_insert_Some. unfold in_bin.
    destruct (decide (b = b')) as [<-|], (decide (x = tp)) as [->|]; rewrite ?Hm; naive_solver. }
  assert (Hbk : forall x, booked (aset (concurrentCalls f) b (<[tp := tt]> m)) x <->
            x = tp \/ booked (concurrentCalls f) x).
  { intros x. unfold booked. setoid_rewrite Hin. naive_solver. }
  pose proof (books_held _ _ Hf) as Hheld. apply (books_rebin held); [done|..].
  - rewrite alen_aset. apply Hf.
  - intros b1 b2 x. rewrite !Hin. intros [[-> ->]|H1] [[-> E]|H2]; subst.
    + done.
    + exfalso. apply (Hheld tp Htp). by exists b2.
    + exfalso. apply (Hheld tp Htp). by exists b1.
    + by eapply (books_one_bin _ _ Hf).
  - intros x Hx. rewrite Hbk. apply elem_of_difference in Hx as [Hx Hx'].
    intros [->|Hbx]; [by apply Hx', elem_of_singleton|by apply (Hheld x)].
  - intros x. rewrite Hbk, elem_of_difference, elem_of_singleton. destruct (decide (x = tp)) as [->|]; tauto.
  - intros x. rewrite Hbk. intros [->|]; [done|by apply (books_nonempty _ _ Hf)].
Qed.

Lemma books_take held f tp b m :
  books held f -> aget (concurrentCalls f) b = Some m -> m !! tp = Some tt ->
  books (held ∪ {[tp]}) (f <| concurrentCalls := aset (concurrentCalls f) b (delete tp m) |>) /\
  tp ∉ held /\ hint_count (heap f) tp <> 0.
Proof.
  intros Hf Hm Hmt. pose proof (aget_Some_range _ _ _ Hm) as Hb.
  assert (Htp : in_bin (concurrentCalls f) b tp) by (by exists m).
  pose proof (books_one_bin _ _ Hf) as Hone.
  assert (Hin : forall b' x, in_bin (aset (concurrentCalls f) b (delete tp m)) b' x <->
            x <> tp /\ in_bin (concurrentCalls f) b' x).
  { intros b' x. rewrite in_bin_aset by done. rewrite lookup_delete_Some.
    assert (in_bin (concurrentCalls f) b x <-> m !! x = Some tt) by (unfold in_bin; rewrite Hm; naive_solver).
    destruct (decide (b = b')) as [<-|]; [naive_solver|]. split; [|naive_solver].
    intros [[? _]|[_ H']]; [done|]. split; [|done]. intros ->. apply n. by eapply Hone. }
  assert (Hbk : forall x, booked (aset (concurrentCalls f) b (delete tp m)) x <->
            x <> tp /\ booked (concurrentCalls f) x).
  { intros x. unfold booked. setoid_rewrite Hin. naive_solver. }
  assert (Hbt : booked (concurrentCalls f) tp) by (by exists b).
  split_and!; [|by intros ?%(books_held _ _ Hf)|by apply (books_nonempty _ _ Hf)].
  apply (books_rebin held); [done|..].
  - rewrite alen_aset. apply Hf.
  - intros b1 b2 x. rewrite !Hin. intros [_ H1] [_ H2]. by eapply Hone.
  - intros x Hx. rewrite Hbk. rewrite elem_of_union, elem_of_singleton in Hx.
    intros [? ?]. destruct Hx as [Hx| ->]; [by eapply (books_held _ _ Hf)|done].
  - intros x. rewrite Hbk, elem_of_union, elem_of_singleton. destruct (decide (x = tp)) as [->|]; tauto.
  - intros x. rewrite Hbk. intros [_ ?]. by apply (books_nonempty _ _ Hf).
Qed.

Lemma weights_counted held f tp :
  counted held f tp = true -> weight_one held f tp = 1 /\ weight_hints held f tp = hint_count (heap f) tp.
Proof. unfold weight_one, weight_hints. by intros ->. Qed.

Lemma counted_held held f tp : tp ∈ held -> counted held f tp = true.
Proof. intros H. apply counted_spec. by right. Qed.

(** A held program loses a hint. *)
Lemma books_pop held f tp c hint hints n :
  books held f -> tp ∈ held -> aget (heap f) tp = Some c -> CC_Hint c = hints ++ [hint] ->
  aget (collection f) CollectionScheduleHint = Some n ->
  books held (f <| collection := aset (collection f) CollectionScheduleHint (u64 (n - 1)) |>
                <| heap := aset (heap f) tp (mk_concurrent_calls (CC_P c) hints) |>).
Proof.
  intros Hf Htp Hc Hh Hn. pose proof (aget_Some_range _ _ _ Hc) as Hr.
  destruct Hf as [Hb Hcol Hone Hheld Hobj Hne Hsh Hcc].
  assert (Hlen : length (aset (heap f) tp (mk_concurrent_calls (CC_P c) hints)) = length (heap f)).
  { pose proof (alen_aset (heap f) tp (mk_concurrent_calls (CC_P c) hints)). unfold alen in *. lia. }
  assert (Hcnt : forall x, x <> tp ->
    hint_count (aset (heap f) tp (mk_concurrent_calls (CC_P c) hints)) x = hint_count (heap f) x).
  { intros x Hx. unfold hint_count. by rewrite aget_aset_ne. }
  split; unfold set; cbn [concurrentCalls collection heap CC_Hint CC_P]; [done|by rewrite alen_aset|done..| | | |].
  - intros x Hx. destruct (decide (x = tp)) as [->|Hxt].
    + rewrite aget_aset_eq by done. eexists. split; [done|]. destruct (Hobj tp) as (c' & Hc' & Hfine & Hasc); [done|].
      simplify_eq. rewrite Hh in Hfine, Hasc. apply Forall_app in Hfine as [? _].
      split; [done|]. by apply StronglySorted_app_1_l in Hasc.
    + rewrite aget_aset_ne by done. by apply Hobj.
  - intros x Hx. rewrite Hcnt; [by apply Hne|]. intros ->. by eapply Hheld.
  - rewrite aget_aset_eq by (rewrite Hcol; done). rewrite Hsh in Hn. injection Hn as <-.
    rewrite u64_sub, Hlen. do 2 f_equal. symmetry. erewrite (total_update (weight_hints held f)); [|exact Hr|].
    + rewrite !(proj2 (weights_counted _ _ _ (counted_held _ _ _ Htp))). cbn [heap].
      unfold hint_count. rewrite aget_aset_eq, Hc by done. cbn [CC_Hint].
      rewrite Hh, alen_app. change (alen [hint]) with 1. lia.
    + intros i Hi. unfold weight_hints, counted. cbn [concurrentCalls heap]. by rewrite Hcnt.
  - rewrite aget_aset_ne by done. by rewrite Hcc, Hlen.
Qed.

(** A held program without hints is dropped. *)
Lemma books_drop held f tp n :
  books held f -> tp ∈ held -> hint_count (heap f) tp = 0 ->
  aget (collection f) CollectionConcurrentCalls = Some n ->
  books (held ∖ {[tp]}) (f <| collection := aset (collection f) CollectionConcurrentCalls (u64 (n - 1)) |>).
Proof.
  intros [Hb Hcol Hone Hheld Hobj Hne Hsh Hcc] Htp H0 Hn.
  assert (Hr : 0 <= tp < Z.of_nat (length (heap f))).
  { destruct (Hobj tp) as (c & Hc & _); [by left|]. by apply aget_Some_range in Hc. }
  assert (Hcnt : forall x, x <> tp -> counted (held ∖ {[tp]}) f x = counted held f x).
  { intros x Hx. unfold counted. f_equal. apply bool_decide_ext. set_solver. }
  assert (Htrue : counted held f tp = true) by (apply counted_spec; by right).
  assert (Hfalse : counted (held ∖ {[tp]}) f tp = false).
  { apply not_true_iff_false. rewrite counted_spec. intros [H|H]; [by eapply Hheld|set_solver]. }
  split; unfold set; cbn [concurrentCalls collection heap]; [done|by rewrite alen_aset|done|..].
  - intros x Hx. apply Hheld. set_solver.
  - intros x Hx. apply Hobj. set_solver.
  - done.
  - rewrite aget_aset_ne by done. rewrite Hsh. do 2 f_equal. apply total_ext. intros i _.
    unfold weight_hints. cbn [heap]. change (counted (held ∖ {[tp]}) _ i) with (counted (held ∖ {[tp]}) f i).
    destruct (decide (i = tp)) as [->|Hi]; [by rewrite Htrue, H0, Hfalse|by rewrite Hcnt].
  - rewrite aget_aset_eq by (rewrite Hcol; done). rewrite Hcc in Hn. injection Hn as <-.
    rewrite u64_sub. do 2 f_equal. symmetry. erewrite (total_update (weight_one held f)); [|exact Hr|].
    + rewrite (proj1 (weights_counted held f tp Htrue)). unfold weight_one at 2.
      change (counted _ _ tp) with (counted (held ∖ {[tp]}) f tp). rewrite Hfalse. lia.
    + intros i Hi. unfold weight_one. change (counted _ _ i) with (counted (held ∖ {[tp]}) f i) at 1.
      by rewrite Hcnt.
Qed.

Lemma aget_app_l {A} (l : list A) x i y : aget l i = Some y -> aget (l ++ [x]) i = Some y.
Proof. unfold aget. destruct (i <? 0); [done|]. intros. by apply lookup_app_l_Some. Qed.

(** The weights when a program is added at the end of the heap. *)
Lemma weights_new held f f' c :
  heap f' = heap f ++ [c] -> concurrentCalls f' = concurrentCalls f ->
  total (weight_hints (held ∪ {[alen (heap f)]}) f') (length (heap f')) =
    total (weight_hints held f) (length (heap f)) + alen (CC_Hint c) /\
  total (weight_one (held ∪ {[alen (heap f)]}) f') (length (heap f')) =
    total (weight_one held f) (length (heap f)) + 1.
Proof.
  intros Hh Hcc. set (tp := alen (heap f)).
  assert (Hcnt : forall i, i <> tp -> counted (held ∪ {[tp]}) f' i = counted held f i).
  { intros i Hi. unfold counted. rewrite Hcc. f_equal. apply bool_decide_ext. set_solver. }
  assert (Htp : counted (held ∪ {[tp]}) f' tp = true) by (apply counted_held; set_solver).
  destruct (weights_counted _ _ _ Htp) as [Hl1 Hl2]. unfold hint_count in Hl2. rewrite Hh in Hl2.
  assert (aget (heap f ++ [c]) tp = Some c) as Hc by (unfold tp; by rewrite aget_app_r). rewrite Hc in Hl2. cbn in Hl2.
  assert (length (heap f') = S (length (heap f))) as -> by (rewrite Hh, length_app; cbn; lia).
  cbn [total]. change (Z.of_nat (length (heap f))) with tp. rewrite Hl1, Hl2.
  split; f_equal; apply total_ext; intros i Hi; unfold weight_hints, weight_one; rewrite Hcnt by (unfold tp, alen; lia); [|done].
  unfold hint_count. destruct (proj2 (aget_is_Some (heap f) i) Hi) as [c' Hc']. by rewrite Hh, (aget_app_l _ _ _ _ Hc'), Hc'.
Qed.

(** A program is made. *)
Lemma books_new held f p hints n k :
  books held f -> Forall hint_fine hints -> ascending hints ->
  aget (collection f) CollectionScheduleHint = Some n ->
  aget (collection f) CollectionConcurrentCalls = Some k ->
  books (held ∪ {[alen (heap f)]})
    (f <| collection := aset (aset (collection f) CollectionScheduleHint (u64 (n + alen hints)))
                          CollectionConcurrentCalls (u64 (k + 1)) |>
       <| heap := heap f ++ [mk_concurrent_calls p hints] |>).
Proof.
  intros [Hb Hcol Hone Hheld Hobj Hne Hsh Hcc] Hfine Hasc Hn Hk. set (tp := alen (heap f)).
  assert (Hold : forall x c, aget (heap f) x = Some c -> x <> tp).
  { intros x c Hx ->. apply aget_Some_range in Hx. unfold tp in Hx. lia. }
  assert (Hnb : ~ booked (concurrentCalls f) tp).
  { intros H. destruct (Hobj tp) as (c & Hc & _); [by right|]. by apply Hold in Hc. }
  set (f' := f <| collection := _ |> <| heap := _ |>).
  destruct (weights_new held f f' (mk_concurrent_calls p hints) eq_refl eq_refl) as [Hw1 Hw2].
  split; try done.
  - change (collection f') with (aset (aset (collection f) CollectionScheduleHint (u64 (n + alen hints)))
      CollectionConcurrentCalls (u64 (k + 1))). by rewrite !alen_aset.
  - intros x Hx. rewrite elem_of_union, elem_of_singleton in Hx. destruct Hx as [Hx|Hx]; [by apply Hheld|by subst x].
  - intros x Hx. change (heap f') with (heap f ++ [mk_concurrent_calls p hints]). rewrite elem_of_union, elem_of_singleton in Hx.
    destruct (decide (x = tp)) as [->|Hne']; [exists (mk_concurrent_calls p hints); unfold tp; by rewrite aget_app_r|].
    destruct (Hobj x) as (c & Hc & Hf'); [tauto|]. exists c. split; [by apply aget_app_l|done].
  - intros x Hx. destruct (Hobj x) as (c & Hc & _); [by right|]. specialize (Hne x Hx). unfold hint_count in *.
    change (heap f') with (heap f ++ [mk_concurrent_calls p hints]). rewrite (aget_app_l _ _ _ _ Hc). by rewrite Hc in Hne.
  - change (collection f') with (aset (aset (collection f) CollectionScheduleHint (u64 (n + alen hints)))
      CollectionConcurrentCalls (u64 (k + 1))).
    rewrite aget_aset_ne, aget_aset_eq by (done || rewrite Hcol; done).
    unfold tp. rewrite Hw1. rewrite Hsh in Hn. injection Hn as <-. by rewrite u64_add.
  - change (collection f') with (aset (aset (collection f) CollectionScheduleHint (u64 (n + alen hints)))
      CollectionConcurrentCalls (u64 (k + 1))).
    rewrite aget_aset_eq by (rewrite alen_aset, Hcol; done).
    unfold tp. rewrite Hw2. rewrite Hcc in Hk. injection Hk as <-. by rewrite u64_add.
Qed.

(** The counters exist. *)
Lemma books_counters held f :
  books held f -> (exists n, aget (collection f) CollectionScheduleHint = Some n) /\
                  (exists k, aget (collection f) CollectionConcurrentCalls = Some k).
Proof. intros Hf. split; eexists; apply Hf. Qed.

Lemma addCollection_run c n num f :
  aget (collection f) c = Some n ->
  addCollection c num f = Ret tt (f <| collection := aset (collection f) c (u64 (n + num)) |>).
Proof. intros H. unfold addCollection. erewrite bind_run by reflexivity. by rewrite H. Qed.

Lemma subCollection_run c n num f :
  aget (collection f) c = Some n ->
  subCollection c num f = Ret tt (f <| collection := aset (collection f) c (u64 (n - num)) |>).
Proof. intros H. unfold subCollection. erewrite bind_run by reflexivity. by rewrite H. Qed.

Lemma cc_at_run tp c f : aget (heap f) tp = Some c -> cc_at tp f = Ret c f.
Proof. intros H. unfold cc_at. erewrite bind_run by reflexivity. by rewrite H. Qed.

Lemma pickBin_in_range hints :
  hints <> [] -> Forall hint_fine hints -> 0 <= pickBin hints < BinCount.
Proof.
  intros Hne Hf. rewrite Forall_forall in Hf.
  destruct (pickBin_spec hints Hne) as [(h & _ & ->) _]; [intros; by apply Hf|].
  unfold bin_of, Bin2, Bin4, Bin16, BinLarge, BinCount. repeat case_match; lia.
Qed.

(** What the operations on bins leave alone. *)
Definition same_signals (f f' : Fuzzer) : Prop :=
  maxInterleaving f' = maxInterleaving f /\ newInterleaving f' = newInterleaving f /\
  corpusInterleaving f' = corpusInterleaving f /\ workQueue f' = workQueue f.

Lemma book_run held f tp c :
  books held f -> tp ∈ held -> aget (heap f) tp = Some c -> CC_Hint c <> [] ->
  exists f', bookScheduleGuide_ tp f = Ret tt f' /\ books (held ∖ {[tp]}) f' /\
    heap f' = heap f /\ in_bin (concurrentCalls f') (pickBin (CC_Hint c)) tp /\ same_signals f f'.
Proof.
  intros Hf Htp Hc Hne. unfold bookScheduleGuide_. rewrite (bind_run _ _ _ _ _ (cc_at_run _ _ _ Hc)).
  rewrite bool_decide_false by done. cbv zeta. erewrite bind_run by reflexivity.
  destruct (books_object _ _ Hf tp) as (c' & Hc' & Hfine & _); [by left|]. simplify_eq.
  destruct (proj2 (aget_is_Some (concurrentCalls f) (pickBin (CC_Hint c)))) as [m Hm].
  { rewrite (books_bins _ _ Hf). by apply pickBin_in_range. }
  rewrite Hm. eexists. split; [reflexivity|]. split.
  - apply (books_put held); [done..| |done]. unfold hint_count. rewrite Hc. unfold alen.
    destruct (CC_Hint c); [done|cbn; lia].
  - split; [done|]. split; [|done]. exists (<[tp := tt]> m). unfold set. cbn [concurrentCalls].
    rewrite aget_aset_eq by (by apply aget_Some_range in Hm). by rewrite lookup_insert_eq.
Qed.

Lemma bookScheduleGuide_run `{SortSlice} held f p hints :
  books held f -> hints <> [] -> Forall hint_fine hints ->
  exists f' hs, bookScheduleGuide p hints f = Ret tt f' /\ books held f' /\ same_signals f f' /\
    heap f' = heap f ++ [mk_concurrent_calls p hs] /\ hs ≡ₚ hints /\
    in_bin (concurrentCalls f') (pickBin hs) (alen (heap f)).
Proof.
  intros Hf Hne Hfine. destruct (books_counters _ _ Hf) as [[n Hn] [k Hk]].
  unfold bookScheduleGuide. rewrite (bind_run _ _ _ _ _ (addCollection_run _ _ _ _ Hn)).
  assert (Hk' : aget (aset (collection f) CollectionScheduleHint (u64 (n + alen hints))) CollectionConcurrentCalls = Some k).
  { by rewrite aget_aset_ne. }
  erewrite bind_run by (apply addCollection_run; exact Hk').
  cbv zeta. erewrite bind_run by reflexivity. erewrite bind_run by reflexivity.
  set (hs := sort_Slice Score hints). assert (Hp : hs ≡ₚ hints) by apply sort_Slice_perm.
  assert (Hnh : alen (heap f) ∉ held).
  { intros Hin. destruct (books_object _ _ Hf _ (or_introl Hin)) as (c & Hc & _).
    apply aget_Some_range in Hc. lia. }
  assert (Hl : alen hs = alen hints) by (unfold alen; by rewrite Hp).
  pose proof (books_new held f p hs n k Hf) as Hnew. rewrite Hl in Hnew.
  destruct (book_run _ _ (alen (heap f)) (mk_concurrent_calls p hs) (Hnew ltac:(by rewrite Hp)
              (sort_Slice_sorted Score hints) Hn Hk)) as (f' & E & Hf' & Hh & Hb & Hs).
  - set_solver.
  - unfold set. cbn [heap]. by rewrite aget_app_r.
  - cbn. intros E. apply Hne. symmetry in Hp. rewrite E in Hp. by apply Permutation_nil_r in Hp.
  - exists f', hs. split; [exact E|].
    replace ((held ∪ {[alen (heap f)]}) ∖ {[alen (heap f)]}) with held in Hf' by set_solver.
    split_and!; try done; apply Hs.
Qed.

Lemma range_map_nil `{GoRange} {V} (m : gmap Z V) : range_map m = [] -> m = ∅.
Proof.
  intros E. pose proof (range_map_perm m) as Hp. rewrite E in Hp. symmetry in Hp.
  apply Permutation_nil_r in Hp. by apply map_to_list_empty_iff.
Qed.

Lemma range_map_in `{GoRange} {V} (m : gmap Z V) k v l : range_map m = (k, v) :: l -> m !! k = Some v.
Proof.
  intros E. apply elem_of_map_to_list. rewrite <- range_map_perm, E. by left.
Qed.

(** The loop over the bins finds the first of them that is not empty. *)
Lemma choose_loop_run `{GoRange} held f bins :
  books held f -> (forall b, b ∈ bins -> 0 <= b < BinCount) ->
  exists r f', choose_loop bins f = Ret r f' /\
    match r with
    | None => f' = f /\ forall b tp, b ∈ bins -> ~ in_bin (concurrentCalls f) b tp
    | Some tp => exists pre b post, bins = pre ++ b :: post /\ in_bin (concurrentCalls f) b tp /\
        (forall b' x, b' ∈ pre -> ~ in_bin (concurrentCalls f) b' x) /\
        books (held ∪ {[tp]}) f' /\ tp ∉ held /\ hint_count (heap f) tp <> 0 /\
        heap f' = heap f /\ same_signals f f'
    end.
Proof.
  intros Hf. induction bins as [|b bins IH]; intros Hb; cbn [choose_loop].
  { exists None, f. split; [done|]. split; [done|]. intros b tp Hin. by apply elem_of_nil in Hin. }
  erewrite bind_run by reflexivity.
  destruct (proj2 (aget_is_Some (concurrentCalls f) b)) as [m Hm].
  { rewrite (books_bins _ _ Hf). apply Hb. by left. }
  rewrite Hm. destruct (range_map m) as [|[tp []] l] eqn:Hr.
  - apply range_map_nil in Hr. subst m.
    assert (Hemp : forall x, ~ in_bin (concurrentCalls f) b x).
    { intros x (m & Hm' & Hx). rewrite Hm in Hm'. injection Hm' as <-. by rewrite lookup_empty in Hx. }
    destruct IH as (r & f' & E & HP); [intros; apply Hb; by right|]. exists r, f'. split; [done|].
    destruct r as [tp|].
    + destruct HP as (pre & b' & post & -> & Hin & Hpre & HP). exists (b :: pre), b', post.
      split; [done|]. split; [done|]. split; [|done]. intros x y [->|Hx]%elem_of_cons; auto.
    + destruct HP as [-> HP]. split; [done|]. intros x y [->|Hx]%elem_of_cons; auto.
  - apply range_map_in in Hr. destruct (books_take held f tp b m Hf Hm Hr) as (Hf' & Hnh & Hne).
    eexists (Some tp), _. split; [reflexivity|]. exists [], b, bins. split; [done|].
    split; [by exists m|]. split; [intros ? ? Hin; by apply elem_of_nil in Hin|].
    split_and!; [exact Hf'|done..].
Qed.

Lemma pop_app {A} (l : list A) x : pop (l ++ [x]) = Some (x, l).
Proof. unfold pop. rewrite rev_app_distr. cbn. by rewrite rev_involutive. Qed.

Lemma addStat_run s f :
  exists l, addStat s f = Ret tt (f <| stats := l |>).
Proof. eexists. unfold addStat. by erewrite bind_run by reflexivity. Qed.

(** Statistics are in nobody's way. *)
Lemma books_stats held f l : books held f -> books held (f <| stats := l |>).
Proof. intros [? ? ? ? ? ? ? ?]. by split. Qed.

Lemma pickHint_run held f tp c :
  books held f -> tp ∈ held -> aget (heap f) tp = Some c -> CC_Hint c <> [] ->
  exists hint hints f', CC_Hint c = hints ++ [hint] /\
    pickHint tp f = Ret (Clone (CC_P c), hint) f' /\
    books (held ∖ {[tp]}) f' /\ same_signals f f' /\
    heap f' = aset (heap f) tp (mk_concurrent_calls (CC_P c) hints) /\
    (booked (concurrentCalls f') tp <-> hints <> []).
Proof.
  intros Hf Htp Hc Hne. pose proof (aget_Some_range _ _ _ Hc) as Hr.
  destruct (CC_Hint c) as [|hint hints _] eqn:Hh using rev_ind; [done|].
  exists hint, hints. destruct (books_object _ _ Hf tp) as (c' & Hc' & Hfine & _); [by left|]. simplify_eq.
  rewrite Hh in Hfine. apply Forall_app in Hfine as [_ Hv]. apply Forall_singleton in Hv as [Hv _].
  destruct (books_counters _ _ Hf) as [[n Hn] [k Hk]].
  pose proof (books_pop held f tp c hint hints n Hf Htp Hc Hh Hn) as Hf1.
  set (f1 := f <| collection := _ |> <| heap := _ |>) in Hf1.
  assert (Hpick : pick_retry (S (length (CC_Hint c))) tp f = Ret hint f1).
  { cbn [pick_retry]. rewrite (bind_run _ _ _ _ _ (cc_at_run _ _ _ Hc)), Hh, pop_app.
    rewrite (bind_run _ _ _ _ _ (subCollection_run _ _ _ _ Hn)).
    erewrite bind_run by reflexivity. by rewrite Hv. }
  unfold pickHint. rewrite (bind_run _ _ _ _ _ (cc_at_run _ _ _ Hc)), (bind_run _ _ _ _ _ Hpick).
  destruct (addStat_run (if Hint_Typ hint then StatTestStoreReordering else StatTestLoadReordering) f1) as [l Hl].
  rewrite (bind_run _ _ _ _ _ Hl). apply (books_stats _ _ l) in Hf1.
  set (f2 := f1 <| stats := l |>) in *.
  assert (Hc2 : aget (heap f2) tp = Some (mk_concurrent_calls (CC_P c) hints)) by (by apply aget_aset_eq).
  rewrite (bind_run _ _ _ _ _ (cc_at_run _ _ _ Hc2)). cbn [CC_Hint CC_P].
  destruct hints as [|h0 hints0] eqn:Hhs.
  - change (alen (@nil Hint) =? 0) with true. cbn [negb].
    assert (Hk2 : aget (collection f2) CollectionConcurrentCalls = Some k) by (rewrite <- Hk; by apply aget_aset_ne).
    rewrite (bind_run _ _ _ _ _ (subCollection_run _ _ 1 _ Hk2)).
    eexists. split; [done|]. split; [reflexivity|]. split_and!; try done.
    + apply (books_drop held f2); [done..| |done]. unfold hint_count. by rewrite Hc2.
    + split; [|done]. intros Hb. by destruct (books_held _ _ Hf tp Htp).
  - destruct (book_run held f2 tp _ Hf1 Htp Hc2) as (f3 & E & Hf3 & Hh3 & Hb3 & Hs3); [done|].
    replace (alen (h0 :: hints0) =? 0) with false by (symmetry; apply Z.eqb_neq; unfold alen; cbn; lia). cbn [negb].
    rewrite (bind_run _ _ _ _ _ E). eexists. split; [done|]. split; [reflexivity|].
    split_and!; [done|apply Hs3..|by rewrite Hh3|]. split; [done|]. intros _. by eexists.
Qed.

(** ** Filters *)

(** The outcomes of a run, in order. *)
Definition outcomes (info : list CallInfo) : list SchedpointOutcome := ci ← info; Info_Outcome ci.

Definition missed_at (os : list SchedpointOutcome) (i : Z) : bool :=
  existsb (fun o => (Outcome_Order o =? i) && (Outcome_Footprint o =? footprint_code footprint_missed)) os.

Lemma filter_None os : foldl filter_outcome None os = None.
Proof. by induction os. Qed.

Lemma filter_outcomes_spec os f :
  alen f < 2 ^ 32 -> Forall (fun o => 0 <= Outcome_Order o) os ->
  match foldl filter_outcome (Some f) os with
  | Some r => Forall (fun o => Outcome_Order o < alen f) os /\ alen r = alen f /\
      forall i x, aget f i = Some x -> aget r i = Some (if missed_at os i then 1 else x)
  | None => Exists (fun o => alen f <= Outcome_Order o) os
  end.
Proof.
  revert f. induction os as [|o os IH]; intros f Hf Hos; [done|].
  apply Forall_cons in Hos as [Ho Hos]. cbn [foldl filter_outcome mbind option_bind].
  rewrite wrapu_id by (pose proof (alen_nonneg f); lia).
  destruct (Z.leb_spec (alen f) (Outcome_Order o)) as [Hle|Hlt].
  { rewrite filter_None. by left. }
  set (f1 := if Outcome_Footprint o =? FOOTPRINT_MISSED then aset f (Outcome_Order o) 1 else f).
  replace (if Outcome_Footprint o =? FOOTPRINT_MISSED then Some (aset f (Outcome_Order o) 1) else Some f)
    with (Some f1) by (unfold f1; by destruct (_ =? _)).
  assert (Hlen : alen f1 = alen f) by (unfold f1; destruct (_ =? _); [apply alen_aset|done]).
  specialize (IH f1 ltac:(lia) Hos). destruct (foldl _ _ os) as [r|].
  - destruct IH as (H1 & H2 & H3). rewrite Hlen in *. split_and!; [by constructor|done|].
    intros i x Hi. cbn [missed_at existsb]. change (existsb _ os) with (missed_at os i).
    change (footprint_code footprint_missed) with FOOTPRINT_MISSED. unfold f1 in H3.
    destruct (Outcome_Footprint o =? FOOTPRINT_MISSED); cycle 1.
    { rewrite andb_false_r. by apply H3. }
    rewrite andb_true_r. destruct (Z.eqb_spec (Outcome_Order o) i) as [<-|Hne]; cbn [orb].
    + rewrite (H3 _ 1) by (apply aget_aset_eq; lia). by destruct (missed_at os (Outcome_Order o)).
    + apply H3. by rewrite aget_aset_ne.
  - rewrite Hlen in IH. by right.
Qed.

(** ** Work items *)

(** Everything in the queue. *)
Definition items (wq : WorkQueue) : list work_item :=
  (ItemTriage <$> triageCandidate wq) ++ (ItemCandidate <$> candidate wq) ++
  (ItemThreading <$> threading wq) ++ (ItemTriage <$> triage wq) ++ (ItemSmash <$> smash wq).

Lemma pop_spec {A} (l : list A) :
  match pop l with Some (x, l') => l = l' ++ [x] | None => l = [] end.
Proof.
  destruct l as [|x l _] using rev_ind; [done|]. by rewrite pop_app.
Qed.

Lemma enqueue_items it wq : items (enqueue it wq) ≡ₚ it :: items wq.
Proof.
  destruct it; unfold enqueue; try case_match; unfold items, set; cbn; rewrite fmap_app; cbn; solve_Permutation.
Qed.

Lemma dequeue_items coin wq :
  match dequeue coin wq with
  | (Some it, wq', _) => items wq ≡ₚ it :: items wq'
  | (None, wq', _) => wq' = wq /\ items wq = []
  end.
Proof.
  unfold dequeue. pose proof (pop_spec (triageCandidate wq)) as H1. pose proof (pop_spec (candidate wq)) as H2.
  pose proof (pop_spec (threading wq)) as H3. pose proof (pop_spec (triage wq)) as H4.
  pose proof (pop_spec (smash wq)) as H5.
  destruct wq as [l1 l2 l4 l5 l3 n]. cbn [triageCandidate candidate threading triage smash procs] in *.
  destruct (pop l1) as [[]|], (pop l2) as [[]|], (pop l3) as [[]|], (pop l4) as [[]|], (pop l5) as [[]|];
    try destruct coin; unfold items, set; cbn; subst; rewrite ?fmap_app; cbn; try done; solve_Permutation.
Qed.

(** ** Retries *)

(** Some contender asked for another run. *)
Definition wants_retry (info : list CallInfo) (calls : list Z) : bool :=
  existsb (fun c => match aget info c with
                    | Some ci => negb (Z.land (Info_Flags ci) CallRetry =? 0)
                    | None => false
                    end) calls.

Lemma needRetry_run {W} info calls (w : W) :
  (forall c, c ∈ calls -> 0 <= c < alen info) ->
  needRetry info calls w = Ret (wants_retry info calls) w.
Proof.
  induction calls as [|c calls IH]; intros Hc; [done|]. cbn.
  destruct (proj2 (aget_is_Some info c)) as [ci ->]; [apply Hc; by left|].
  destruct (negb _); [done|]. apply IH. intros. apply Hc. by right.
Qed.

Lemma alen_shiftAccesses m info : alen (shiftAccesses m info) = alen info.
Proof. unfold shiftAccesses, alen. destruct m; [|done]. by rewrite length_fmap. Qed.

(** The same program up to the filter of its schedule and, if it is sequential,
    the threads and epochs of its calls, which are numbered anew. *)
Definition touched (p p' : Prog) : Prop :=
  exists cs filter, p' = p <| Calls := cs |> <| Prog_Schedule ::= fun s => s <| filter_ := filter |> |> /\
    length cs = length (Calls p) /\ (Threaded p = true -> cs = Calls p).

(** The executor on programs with these contenders: it leaves the statistics
    alone and reports on every contender. *)
Definition well_behaved (calls : list Z) (run : list Z -> Prog -> prog Fuzzer exec_result) : Prop :=
  forall ws p f, Contender_Calls p = calls ->
    exists r f', run ws p f = Ret r f' /\ stats f' = stats f /\
      match r with ExecInfo info => forall c, c ∈ calls -> 0 <= c < alen info | _ => True end.

Lemma addStat_stats s f k :
  aget (stats f) s = Some k ->
  exists f', addStat s f = Ret tt f' /\ stats f' = aset (stats f) s (u64 (k + 1)).
Proof. intros H. eexists. unfold addStat. erewrite bind_run by reflexivity. by rewrite H. Qed.

Lemma touched_refl p : touched p p.
Proof. exists (Calls p), (filter_ (Prog_Schedule p)). destruct p as [? ? ? [? ?] ? ?]. done. Qed.

Lemma touched_trans p p' p'' : touched p p' -> touched p' p'' -> touched p p''.
Proof.
  intros (cs & fl & -> & Hl & Hc) (cs' & fl' & -> & Hl' & Hc'). exists cs', fl'. cbn in *. split; [done|].
  split; [congruence|]. intros Ht. rewrite Hc', Hc; done.
Qed.

Lemma touched_filter p fl : touched p (p <| Prog_Schedule ::= fun s => s <| filter_ := fl |> |>).
Proof. exists (Calls p), fl. by destruct p. Qed.

Lemma touched_contenders p p' : touched p p' -> Contender_Calls p' = Contender_Calls p.
Proof. by intros (cs & fl & -> & _). Qed.

Lemma fixup_loop_length ctx cs cs' : fixup_loop ctx cs = Some cs' -> length cs' = length cs.
Proof.
  revert ctx cs'. induction cs as [|c cs IH]; intros ctx cs'; cbn [fixup_loop]; [by intros [= <-]|].
  destruct (fixup_call ctx c) as [[ctx' c']|]; [|done]. cbn.
  destruct (fixup_loop ctx' cs) as [cs1|] eqn:E; [|done]. cbn. intros [= <-]. cbn. f_equal. by eapply IH.
Qed.

Lemma fixupEpoch_touches p : wp any_exit fixupEpoch (fun _ p' => touched p p') p.
Proof.
  unfold fixupEpoch. apply wp_bind, wp_gets. unfold id. destruct (Threaded p) eqn:Ht; [apply wp_ret, touched_refl|].
  destruct (Calls p) as [|c cs] eqn:Ec; [apply wp_ret, touched_refl|].
  destruct (fixup_loop _ _) as [cs'|] eqn:E; [|done]. apply wp_modify.
  exists cs', (filter_ (Prog_Schedule p)). split; [by destruct p as [? ? ? [? ?] ? ?]|].
  split; [|by rewrite Ht]. rewrite Ec. apply fixup_loop_length in E. done.
Qed.

(** The sanity test only reads what [fixupEpoch] leaves. *)
Lemma sanitize_reads (p : Prog) (m : prog Prog (option string)) :
  m = sanitizeRazzerThreaded \/ m = sanitizeRazzerSequential -> wp any_exit m (fun _ p' => p' = p) p.
Proof.
  intros [-> | ->]; (apply wp_bind, wp_bind, wp_gets; unfold id; destruct (resolve _ _) as [cs|]; [|done]; apply wp_ret).
  - destruct cs as [|c0 [|c1 [|c2 cs]]]; [by apply wp_ret..| |by apply wp_ret].
    apply wp_bind. unfold call_at. apply wp_bind, wp_gets. destruct (aget _ c0); [|done]. apply wp_ret.
    apply wp_bind, wp_bind, wp_gets. destruct (aget _ c1); [|done]. apply wp_ret.
    destruct (negb _); by apply wp_ret.
  - apply wp_bind, wp_gets. unfold id. repeat (case_match; [by apply wp_ret|]). by apply wp_ret.
Qed.

Lemma sanitize_touches p : wp any_exit sanitizeRazzer (fun _ p' => touched p p') p.
Proof.
  apply wp_bind. eapply wp_mono; [apply fixupEpoch_touches|]. intros [] p1 Hp. apply wp_bind, wp_gets. unfold id.
  destruct (negb _); [by apply wp_ret|].
  destruct (Threaded p1); (eapply wp_mono; [apply sanitize_reads; auto|]); by intros ? ? ->.
Qed.

(** The encoder returns or panics. *)
Definition decided (m : prog execContext unit) : Prop := forall w, wp any_exit m (fun _ _ => True) w.

Lemma decided_bind {A} (m : prog execContext A) f :
  (forall w, wp any_exit m (fun _ _ => True) w) -> (forall a, decided (f a)) -> decided (m ≫= f).
Proof. intros Hm Hf w. apply wp_bind. eapply wp_mono; [apply Hm|]. intros a w' _. apply Hf. Qed.

Lemma decided_foreach {A} (l : list A) body : (forall x, decided (body x)) -> decided (foreach l body).
Proof. intros Hb w. apply (wp_foreach _ (fun _ => True)); [done|intros; apply Hb|done]. Qed.

Ltac decide_encoder :=
  repeat first
    [ apply decided_foreach; intros ? | apply decided_bind; [|intros ?]
    | done | progress intros [] | case_match | progress intros ? ].

Lemma serialize_calls_decided cs sched ci rest : decided (serialize_calls cs sched ci rest).
Proof.
  revert ci. induction rest as [|[c b] rest IH]; intros ci; [done|]. cbn [serialize_calls].
  apply decided_bind; [|intros _; apply decided_bind; [|intros _; apply IH]].
  - unfold serializeCall, writeCopyin, writeConcurrencyInfo, writeSchedule, writeCopyout, new_index, writeArg, writeConstArg.
    decide_encoder.
  - unfold writeEpoch. decide_encoder.
Qed.

Lemma serialize_touches bs size p : wp any_exit (SerializeForExec bs size) (fun _ p' => touched p p') p.
Proof.
  apply wp_bind. eapply wp_mono; [apply sanitize_touches|]. intros [e|] p1 Hp; [done|].
  assert (Hd : decided (serialize_prog bs p1)).
  { unfold serialize_prog, writeScheduleFilter, writeFlushVector.
    repeat (apply decided_bind; [decide_encoder; apply serialize_calls_decided|intros ?]). done. }
  unfold run_encoder, wp. specialize (Hd (mk_exec_context size [] false ∅ 0)). unfold wp in Hd.
  by destruct (serialize_prog _ _ _).
Qed.

Section retries.
Context (bodies : Prog -> list Body) (size : Z) (ct : ChoiceTable).
Context (calls : list Z) (run : list Z -> Prog -> prog Fuzzer exec_result) (Hrun : well_behaved calls run).
Context (stat : Z) (Hstat : stat <> StatBufferTooSmall).

(** Serialising the program panics at some attempt. *)
Definition serialisation_panics (p : Prog) (s : string) : Prop :=
  exists p', touched p p' /\ SerializeForExec (bodies p') size p' = Exit s.

(** What a call of the loop at the [try]-th attempt guarantees. *)
Definition retry_post (try : Z) (k : Z) (p : Prog) (o : outcome Fuzzer (Prog * option (list CallInfo))) : Prop :=
  match o with
  | Ret (p', inf) f' => touched p p' /\ exists n, 1 <= n <= 12 - try /\
      aget (stats f') stat = Some (u64 (k + n)) /\
      (forall info, inf = Some info -> wants_retry info (Contender_Calls p) = true -> n = 12 - try)
  | Exit s => s = "executor failed"%string \/ serialisation_panics p s
  | _ => False
  end.

Lemma retry_again try k p p' o :
  touched p p' -> retry_post (try + 1) (u64 (k + 1)) p' o -> retry_post try k p o.
Proof.
  intros Hp. unfold retry_post. destruct o as [[p'' inf] f'|s|s|]; [| |done..].
  - intros [Hp' (n & Hn & Hk & Hr)]. split; [by eapply touched_trans|]. exists (n + 1).
    split; [lia|]. split; [by rewrite Hk, u64_add, <- Z.add_assoc, (Z.add_comm 1)|].
    intros info Hi Hw. rewrite <- (touched_contenders _ _ Hp) in Hw. specialize (Hr info Hi Hw). lia.
  - intros [|(p'' & Hp'' & Hs)]; [by left|right]. exists p''. split; [by eapply touched_trans|done].
Qed.

(** An attempt: it panics, or the executor reports on a touched program. *)
Lemma Exec_cases p f :
  Contender_Calls p = calls ->
  (exists s, Exec bodies size run p f = Exit s /\ serialisation_panics p s) \/
  exists r p' f', Exec bodies size run p f = Ret (r, p') f' /\ touched p p' /\ stats f' = stats f /\
    match r with ExecInfo info => forall c, c ∈ calls -> 0 <= c < alen info | _ => True end.
Proof.
  intros Hp. unfold Exec, on_prog.
  destruct (wp_outcome _ _ _ _ (serialize_touches (bodies p) size p)) as [(ws & p' & E & Hp')|(s & E & _)].
  - right. destruct ws as [ws|].
    + destruct (Hrun ws p' f) as (r & f' & Er & Hs & Hc); [by rewrite (touched_contenders _ _ Hp')|].
      exists r, p', f'. split; [|done]. unfold mbind, prog_bind. by rewrite E, Er.
    + exists ExecTooSmall, p', f. split; [|done]. unfold mbind, prog_bind. by rewrite E.
  - left. exists s. split; [unfold mbind, prog_bind; by rewrite E|]. exists p. split; [apply touched_refl|done].
Qed.

Lemma exec_loop_post fuel : forall try p f k,
  0 <= try <= 11 -> 12 - try <= Z.of_nat fuel -> Contender_Calls p = calls ->
  aget (stats f) stat = Some k ->
  retry_post try k p (exec_loop bodies size run fuel try stat p f).
Proof.
  induction fuel as [|fuel IH]; intros try p f k Htry Hfuel Hp Hk; [lia|]. cbn [exec_loop].
  destruct (addStat_stats stat f k Hk) as (f1 & E1 & Hs1). rewrite (bind_run _ _ _ _ _ E1).
  pose proof (aget_Some_range _ _ _ Hk) as Hr.
  destruct (Exec_cases p f1 Hp) as [(s & E2 & Hs)|(r & p' & f2 & E2 & Hp' & Hs2 & Hc)].
  { unfold mbind, prog_bind. rewrite E2. by right. }
  rewrite (bind_run _ _ _ _ _ E2).
  assert (Hk2 : aget (stats f2) stat = Some (u64 (k + 1))) by (rewrite Hs2, Hs1; by apply aget_aset_eq).
  assert (Hcc : Contender_Calls p' = calls) by (by rewrite (touched_contenders _ _ Hp')).
  destruct r as [info| |].
  - erewrite bind_run by reflexivity. cbv zeta.
    erewrite bind_run by (apply needRetry_run; intros; rewrite alen_shiftAccesses; apply Hc; congruence).
    destruct (wants_retry _ _) eqn:Hw; cycle 1.
    { split; [done|]. exists 1. split; [lia|]. split; [done|].
      intros info' [= <-]. rewrite Hcc in Hw. by rewrite Hp, Hw. }
    pose proof (touched_trans _ _ _ Hp' (touched_filter p' (buildScheduleFilter
      (Schedule_Len (Prog_Schedule p')) (shiftAccesses (shifter f2) info)))) as Hpf.
    destruct (Z.ltb_spec 10 try).
    + split; [exact Hpf|]. exists 1. split; [lia|]. split; [done|]. intros. lia.
    + eapply retry_again; [exact Hpf|]. apply IH; [lia|lia|exact Hcc|done].
  - unfold addStat. erewrite bind_run by reflexivity. unfold mret, prog_ret.
    split; [done|]. exists 1. split; [lia|]. unfold set. cbn [stats]. split; [by rewrite aget_aset_ne|done].
  - destruct (Z.ltb_spec 10 try); [by left|]. eapply retry_again; [exact Hp'|].
    apply IH; [lia|lia|exact Hcc|done].
Qed.
End retries.

(** A call the choice table enables. *)
Definition call_enabled (ct : ChoiceTable) (id : Z) : Prop :=
  exists r, aget (runs ct) id = Some r /\ (is_Some r \/ id ∈ noGenerateCalls ct).

Definition balanced (stat : Z) (f : Fuzzer) : Fuzzer :=
  match balancer_count stat f with Ret _ f' => f' | _ => f end.

Lemma balancer_count_run stat f : balancer_count stat f = Ret tt (balanced stat f).
Proof. unfold balanced, balancer_count. by destruct (_ || _). Qed.

Lemma balancer_count_stats stat f : stats (balanced stat f) = stats f.
Proof. unfold balanced, balancer_count. by destruct (_ || _). Qed.

Lemma Enabled_run ct id f :
  (call_enabled ct id /\ Enabled ct id f = Ret true f) \/
  (~ call_enabled ct id /\ (Enabled ct id f = Ret false f \/ Enabled ct id f = Exit "index out of range")).
Proof.
  unfold Enabled, Generatable, go_index, call_enabled. destruct (aget (runs ct) id) as [r|]; cycle 1.
  { right. split; [by intros (? & ? & _)|]. by right. }
  unfold mbind, prog_bind, mret, prog_ret. cbn.
  destruct (decide (is_Some r \/ id ∈ noGenerateCalls ct)) as [H|H].
  - left. split; [by exists r|]. f_equal. apply orb_true_iff. rewrite !bool_decide_eq_true. exact H.
  - right. split; [intros (r' & [= <-] & Hr); by apply H|]. left. f_equal.
    apply orb_false_iff. rewrite !bool_decide_eq_false. tauto.
Qed.

Lemma checkDisabledCalls_run bodies ct p f :
  (Forall (call_enabled ct) (Meta_ID <$> bodies p) /\ checkDisabledCalls bodies ct p f = Ret tt f) \/
  (~ Forall (call_enabled ct) (Meta_ID <$> bodies p) /\
   (checkDisabledCalls bodies ct p f = Exit "disabled syscall" \/
    checkDisabledCalls bodies ct p f = Exit "index out of range")).
Proof.
  unfold checkDisabledCalls. induction (bodies p) as [|b bs IH]; [by left|]. cbn [foreach fmap list_fmap].
  rewrite Forall_cons. unfold mbind, prog_bind in *.
  destruct (Enabled_run ct (Meta_ID b) f) as [[Hb E]|[Hb [E|E]]]; rewrite E; cbn.
  - destruct IH as [[HF E']|[HF E']]; [left|right]; tauto.
  - right. split; [tauto|by left].
  - right. split; [tauto|by right].
Qed.

Lemma all_bins b : 0 <= b < BinCount -> b ∈ [BinLarge; Bin16; Bin8; Bin4; Bin2; Bin1].
Proof.
  unfold BinCount, BinLarge, Bin16, Bin8, Bin4, Bin2, Bin1. intros H.
  rewrite !elem_of_cons, elem_of_nil. lia.
Qed.

(** The bins are visited from the largest down. *)
Lemma larger_bin_before pre b post b' :
  [BinLarge; Bin16; Bin8; Bin4; Bin2; Bin1] = pre ++ b :: post -> b < b' -> b' < BinCount -> 0 <= b -> b' ∈ pre.
Proof.
  unfold BinCount, BinLarge, Bin16, Bin8, Bin4, Bin2, Bin1. intros Hl Hlt Hb' Hb.
  do 6 (destruct pre as [|? pre]; [injection Hl as <- Hl; rewrite ?elem_of_cons; lia|injection Hl as <- Hl]).
  by destruct pre.
Qed.

(** ** Properties *)

(** C36. [getNewHints] always returns, and its result is exactly the news: the
    hints it keeps are of a tested type and each covers something that neither
    the fuzzer nor an earlier kept hint did; every other hint is of an
    untested type or covers only what is known afterwards; and the fuzzer
    learns what the kept hints cover, as seen and as not yet reported. *)
Theorem get_new_hints_spec (hints : list Hint) (f : Fuzzer) :
  exists kept rejected tail,
    getNewHints hints f = Ret (kept ++ tail, alen kept) (learn (covered kept) f) /\
    hints ≡ₚ kept ++ rejected /\ fresh (maxInterleaving f) kept /\ Forall (tested f) kept /\
    Forall (fun h => ~ tested f h \/ Coverage h ⊆ maxInterleaving f ∪ covered kept) rejected.
Proof.
  destruct (new_hints_loop_spec (length hints) [] hints [] f) as (kept & rej & tail & E & HP); [lia|].
  exists kept, rej, tail. unfold getNewHints. change (alen []) with 0 in E.
  cbn [app] in E. rewrite app_nil_r in E. by rewrite !Z.add_0_l in E.
Qed.

(** C37. The bins and the fuzzer's counters stay consistent, whatever programs
    other procs hold.  Booking a program with valid hints, choosing a program
    and picking one of its hints never panic.  A booked program lies in one
    bin and has hints left; the counters are the numbers of programs and hints
    in bins or held; a program is chosen from the highest bin that has one;
    and the hint picked from it is valid and of its best score. *)
Theorem bins_keep_books `{SortSlice, GoRange} (held : gset Z) (f : Fuzzer) :
  books held f ->
  (forall p hints, hints <> [] -> Forall hint_fine hints ->
     exists f', bookScheduleGuide p hints f = Ret tt f' /\ books held f' /\ same_signals f f') /\
  (exists r f', chooseThreadedProgram f = Ret r f' /\
     match r with
     | None => f' = f /\ forall tp, ~ booked (concurrentCalls f) tp
     | Some tp => tp ∉ held /\ books (held ∪ {[tp]}) f' /\ same_signals f f' /\
         hint_count (heap f') tp <> 0 /\ exists b, in_bin (concurrentCalls f) b tp /\
         forall b' x, b < b' -> ~ in_bin (concurrentCalls f) b' x
     end) /\
  (forall tp, tp ∈ held -> hint_count (heap f) tp <> 0 ->
     exists c hint f', aget (heap f) tp = Some c /\ pickHint tp f = Ret (Clone (CC_P c), hint) f' /\
       books (held ∖ {[tp]}) f' /\ same_signals f f' /\
       hint_fine hint /\ hint ∈ CC_Hint c /\ forall h, h ∈ CC_Hint c -> Score h <= Score hint).
Proof.
  intros Hf. split_and!.
  - intros p hints Hne Hfine. destruct (bookScheduleGuide_run held f p hints) as (f' & hs & E & Hf' & Hs & _); [done..|].
    by exists f'.
  - destruct (choose_loop_run held f [BinLarge; Bin16; Bin8; Bin4; Bin2; Bin1] Hf) as (r & f' & E & HP).
    { intros b Hb. rewrite !elem_of_cons, elem_of_nil in Hb. unfold BinCount.
      decompose [or] Hb; subst; try done; unfold BinLarge, Bin16, Bin8, Bin4, Bin2, Bin1; lia. }
    exists r, f'. split; [exact E|]. destruct r as [tp|].
    + destruct HP as (pre & b & post & Hl & Hin & Hpre & Hf' & Hnh & Hc & Hh & Hs). rewrite Hh.
      split_and!; [done..|]. exists b. split; [done|]. intros b' x Hbb Hin'.
      assert (Hb' : 0 <= b' < BinCount).
      { destruct Hin' as (m & Hm & _). rewrite <- (books_bins _ _ Hf). by eapply aget_Some_range. }
      assert (Hmem : b' ∈ pre).
      { apply (larger_bin_before pre b post b' Hl Hbb); [lia|]. destruct Hin as (m & Hm & _).
        apply aget_Some_range in Hm. lia. }
      by eapply Hpre.
    + destruct HP as [-> HP]. split; [done|]. intros tp (b & m & Hm & Htp).
      eapply (HP b tp); [|by exists m]. apply aget_Some_range in Hm. rewrite (books_bins _ _ Hf) in Hm.
      apply all_bins. exact Hm.
  - intros tp Htp Hne. destruct (books_object _ _ Hf tp) as (c & Hc & Hfine & Hasc); [by left|].
    unfold hint_count in Hne. rewrite Hc in Hne.
    destruct (pickHint_run held f tp c) as (hint & hints & f' & Hh & E & Hf' & Hs & _);
      [done..|by intros Hnil; rewrite Hnil in Hne|].
    rewrite Hh in *. apply Forall_app in Hfine as [_ Hfine]. rewrite Forall_singleton in Hfine.
    exists c, hint, f'. do 5 (split; [done|]). rewrite Hh. split; [rewrite elem_of_app; right; by left|].
    intros h [Hin|Hin]%elem_of_app; [|apply list_elem_of_singleton in Hin; subst; lia].
    apply (StronglySorted_app_1_elem_of (fun a b => Score a <= Score b) hints [hint]); [exact Hasc|done|by left].
Qed.

(** A fuzzer that has just started. *)
Definition idle_fuzzer : Fuzzer :=
  mk_fuzzer (newWorkQueue 1) None ∅ 0 0 [] (replicate 6 ∅) (replicate 8 0) (replicate 25 0) ∅ ∅ ∅ true.

Lemma idle_books : books ∅ idle_fuzzer.
Proof.
  assert (Hnb : forall b tp, ~ in_bin (replicate 6 ∅) b tp).
  { intros b tp (m & Hm & Htp). apply aget_replicate in Hm as [-> _]. by rewrite lookup_empty in Htp. }
  split; try done.
  - intros b b' tp H. by apply Hnb in H.
  - intros tp [H|[b H]]; [by apply elem_of_empty in H|by apply Hnb in H].
  - intros tp [b H]. by apply Hnb in H.
Qed.

Lemma sample_fine : Forall hint_fine [sample_hint].
Proof. repeat constructor; vm_compute; done || discriminate. Qed.

Lemma bins_keep_books_witness :
  exists f1 f2 r, bookScheduleGuide (H := merge_sort_slice)
    (mk_prog [] true [] empty_schedule (mk_flush_vector [] []) None) [sample_hint] idle_fuzzer = Ret tt f1 /\
    books ∅ f1 /\ chooseThreadedProgram (H := range_in_order) f1 = Ret r f2 /\ r = Some 0.
Proof.
  destruct (bins_keep_books (H := merge_sort_slice) (H0 := range_in_order) ∅ idle_fuzzer idle_books) as (HB & _).
  destruct (HB (mk_prog [] true [] empty_schedule (mk_flush_vector [] []) None) [sample_hint]) as (f1 & E1 & Hf1 & _);
    [discriminate|exact sample_fine|].
  destruct (bins_keep_books (H := merge_sort_slice) (H0 := range_in_order) ∅ f1 Hf1) as (_ & (r & f2 & E2 & _) & _).
  exists f1, f2, r. split; [exact E1|]. split; [exact Hf1|]. split; [exact E2|].
  vm_compute in E1. injection E1 as <-. vm_compute in E2. injection E2 as <- _. reflexivity.
Defined.

(** The bin of a program is determined by the best score of its hints, but
    by the power of two itself and not by its logarithm: scores up to 1 go to
    the second bin, 2 to the third, 3 and 4 to the fifth, more to the last.
    The index is always valid; the first and the fourth bin are never used. *)
Theorem pick_bin_spec (hints : list Hint) :
  hints <> [] -> (forall h, h ∈ hints -> Score h <= 2 ^ 62) ->
  (exists h, h ∈ hints /\ pickBin hints = bin_of (Score h)) /\
  (forall h, h ∈ hints -> bin_of (Score h) <= pickBin hints) /\
  0 <= pickBin hints < BinCount /\ pickBin hints <> Bin1 /\ pickBin hints <> Bin8.
Proof.
  intros Hne Hs. destruct (pickBin_spec hints Hne Hs) as [(h & Hh & E) Hmax].
  split; [by exists h|]. split; [done|]. rewrite E. pose proof (bin_of_range (Score h)) as Hr.
  rewrite !elem_of_cons, elem_of_nil in Hr. unfold BinCount, Bin1, Bin2, Bin4, Bin8, Bin16, BinLarge in *. lia.
Qed.

Lemma pick_bin_spec_witness : pickBin [sample_hint] <> Bin1.
Proof.
  apply (pick_bin_spec [sample_hint]); [discriminate|].
  intros h Hh. apply list_elem_of_singleton in Hh. subst h. vm_compute. discriminate.
Defined.

(** The filter of a retry follows the hypervisor's footprints: when every
    outcome is of a breakpoint of the schedule, the filter masks exactly the
    breakpoints reported as missed; an outcome of any other order discards
    the whole filter. *)
Lemma build_filter_spec (len : Z) (info : list CallInfo) :
  0 <= len < 2 ^ 32 -> Forall (fun o => 0 <= Outcome_Order o) (outcomes info) ->
  (Forall (fun o => Outcome_Order o < len) (outcomes info) ->
     alen (buildScheduleFilter len info) = len /\
     forall i, 0 <= i < len ->
       aget (buildScheduleFilter len info) i = Some (if missed_at (outcomes info) i then 1 else 0)) /\
  (~ Forall (fun o => Outcome_Order o < len) (outcomes info) -> buildScheduleFilter len info = []).
Proof.
  intros Hlen Ho. unfold buildScheduleFilter. change (ci ← info; Info_Outcome ci) with (outcomes info).
  assert (Hl : alen (replicate (Z.to_nat len) 0) = len) by (rewrite alen_replicate; lia).
  pose proof (filter_outcomes_spec (outcomes info) (replicate (Z.to_nat len) 0)) as HF.
  rewrite Hl in HF. specialize (HF ltac:(lia) Ho).
  destruct (foldl _ _ (outcomes info)) as [r|]; cbn [default from_option].
  - destruct HF as (H1 & H2 & H3). split; [|done]. intros _. split; [done|]. intros i Hi. apply H3.
    apply aget_replicate. split; [done|lia].
  - split; [|done]. intros H. exfalso. apply Exists_exists in HF as (o & Hin & Hle).
    rewrite Forall_forall in H. specialize (H o Hin). lia.
Qed.

(** The work queue loses nothing and invents nothing: enqueueing adds the
    item, dequeueing takes out one item that was there, and reports none only
    when the queue is empty. *)
Lemma work_queue_conserves (it : work_item) (coin : bool) (wq : WorkQueue) :
  items (enqueue it wq) ≡ₚ it :: items wq /\
  match dequeue coin wq with
  | (Some it', wq', _) => items wq ≡ₚ it' :: items wq'
  | (None, wq', _) => wq' = wq /\ items wq = []
  end.
Proof. split; [apply enqueue_items|apply dequeue_items]. Qed.

(** C38. Executing a program ends, whatever the executor reports: an error, or
    information on at least every contender.  A program
    with a call that is not enabled ends the fuzzer before the first attempt.
    Otherwise there are between one and twelve attempts, all of them counted;
    the program is unchanged up to the filter of its schedule and, if it is
    sequential, its epochs; traces that still ask for a retry are returned
    only after the twelfth attempt; and the process ends only because the
    executor keeps failing or because the program, with such a filter, cannot
    be serialised. *)
Theorem execute_raw_terminates (bodies : Prog -> list Body) (size : Z) (ct : ChoiceTable)
    (run : list Z -> Prog -> prog Fuzzer exec_result) (stat k : Z) (p : Prog) (f : Fuzzer) :
  well_behaved (Contender_Calls p) run -> stat <> StatBufferTooSmall -> aget (stats f) stat = Some k ->
  let o := executeRaw bodies size ct run stat p f in
  (Forall (call_enabled ct) (Meta_ID <$> bodies p) -> retry_post bodies size stat 0 k p o) /\
  (~ Forall (call_enabled ct) (Meta_ID <$> bodies p) ->
     o = Exit "disabled syscall" \/ o = Exit "index out of range").
Proof.
  intros He Hs Hk o. unfold o, executeRaw. rewrite (bind_run _ _ _ _ _ (balancer_count_run stat f)).
  rewrite <- (balancer_count_stats stat f) in Hk. destruct (checkDisabledCalls_run bodies ct p (balanced stat f)) as [[HF E]|[HF E]].
  - split; [intros _|done]. rewrite (bind_run _ _ _ _ _ E). by apply (exec_loop_post _ _ (Contender_Calls p)).
  - split; [done|intros _]. unfold mbind, prog_bind. by destruct E as [-> | ->]; [left|right].
Qed.

(** An executor that always asks for a retry. *)
Definition retrying_exec : list Z -> Prog -> prog Fuzzer exec_result :=
  fun _ _ => mret (ExecInfo [mk_call_info [] CallRetry []; mk_call_info [] 0 []]).

Definition two_calls : Prog := mk_prog [mk_call 0 0; mk_call 1 0] true [0; 1] empty_schedule (mk_flush_vector [] []) None.

Definition two_bodies : list Body := [mk_body 0 None [] [] []; mk_body 1 None [] [] []].

Definition two_enabled : ChoiceTable := mk_choice_table [Some [1]; None] {[1]}.

Lemma retrying_well_behaved : well_behaved [0; 1] retrying_exec.
Proof.
  intros ws p f _. eexists _, f. split; [reflexivity|]. split; [done|].
  intros c Hc. rewrite !elem_of_cons, elem_of_nil in Hc. unfold alen. cbn [length]. lia.
Qed.

Lemma execute_raw_terminates_witness :
  exists p' info f',
    executeRaw (fun _ => two_bodies) 1000 two_enabled retrying_exec StatThreading two_calls idle_fuzzer
      = Ret (p', Some info) f' /\ touched two_calls p' /\ aget (stats f') StatThreading = Some 12.
Proof.
  destruct (execute_raw_terminates (fun _ => two_bodies) 1000 two_enabled retrying_exec StatThreading 0 two_calls
    idle_fuzzer retrying_well_behaved ltac:(discriminate) eq_refl) as [H _].
  specialize (H ltac:(repeat constructor; eexists; (split; [reflexivity|]); [left; by eexists|right; set_solver])).
  destruct (executeRaw _ _ _ _ _ _ _) as [[p' inf] f'|s|s|] eqn:E; cbn in H;
    [|vm_compute in E; discriminate E|contradiction|contradiction].
  destruct H as [Hp _]. pose proof E as E'. vm_compute in E'. injection E' as Ep Ei Ef.
  exists p', (default [] inf), f'. rewrite <- Ei. split; [reflexivity|]. split; [exact Hp|].
  rewrite <- Ef. reflexivity.
Defined.

(** The compaction done by [getNewHints] loses hints that [threadingInput]
    looks for afterwards: of two known hints that both occurred, the first is
    overwritten, so the speculated hint that did occur is not found. *)
Definition other_hint : Hint :=
  mk_hint [mk_access 0x77 0x100 8 TypeStore 0 0] [mk_access 0x78 0x100 8 TypeLoad 9 1]
    (CriticalComm sample_hint) TestingStoreBarrier.

Example speculated_hint_lost :
  let f := learn (covered [sample_hint; other_hint]) idle_fuzzer in
  let hints := [sample_hint; other_hint] in
  Select [sample_hint] hints = [sample_hint] /\
  exists arr, getNewHints hints f = Ret (arr, 0) f /\ Select [sample_hint] arr = [].
Proof.
  split; [vm_compute; reflexivity|]. eexists. split; [vm_compute; reflexivity|vm_compute; reflexivity].
Qed.
