(* ===== verification/ExecWireSpec.v ===== *)
(** * The executor reads what the fuzzer wrote

    Round trip between the encoder and the decoder of ExecWire. *)

From stdpp Require Import base list gmap sets strings.
From Stdlib Require Import ZArith Lia.
From S2P Require Import Prelude Accesses Comms Hints Threading ThreadingSpec ExecWire.

Local Open Scope Z_scope.
Local Open Scope record_scope.

(** ** Writing *)

(** The context after one write, and after several. *)
Definition put (w : execContext) (v : Z) : execContext :=
  if buf w <? 8 then w <| eof := true |>
  else w <| words ::= fun l => l ++ [u64 v] |> <| buf ::= fun n => n - 8 |>.
Definition puts (l : list Z) (w : execContext) : execContext := foldl put w l.

(** The part of the context that is not the buffer. *)
Abbreviation index_state := (gmap Z Z * Z)%type.
Definition with_index (st : index_state) (w : execContext) : execContext :=
  w <| args := st.1 |> <| copyoutSeq := st.2 |>.

Lemma put_with_index st w v : put (with_index st w) v = with_index st (put w v).
Proof. unfold put, with_index, set. cbn. by case_match. Qed.

Lemma puts_cons v l w : puts (v :: l) w = puts l (put w v).
Proof. done. Qed.

Lemma puts_with_index st l w : puts l (with_index st w) = with_index st (puts l w).
Proof.
  revert w. induction l as [|v l IH]; intros w; [done|]. by rewrite !puts_cons, put_with_index, IH.
Qed.

Lemma with_index_twice st st' w : with_index st (with_index st' w) = with_index st w.
Proof. done. Qed.

Lemma puts_app l1 l2 w : puts (l1 ++ l2) w = puts l2 (puts l1 w).
Proof. unfold puts. by rewrite foldl_app. Qed.

(** [m] writes [l] and takes the indices from [st] to [st']. *)
Definition emits (m : prog execContext unit) (st : index_state) (l : list Z) (st' : index_state) : Prop :=
  forall w, args w = st.1 -> copyoutSeq w = st.2 -> m w = Ret tt (with_index st' (puts l w)).

Lemma with_index_same st w : args w = st.1 -> copyoutSeq w = st.2 -> with_index st w = w.
Proof. destruct st as [m s], w. cbn. intros -> ->. done. Qed.

Lemma puts_index l w : args (puts l w) = args w /\ copyoutSeq (puts l w) = copyoutSeq w.
Proof.
  revert w. induction l as [|v l IH]; intros w; [done|]. rewrite puts_cons. destruct (IH (put w v)) as [-> ->].
  unfold put, set. by case_match.
Qed.

Lemma emits_ret st : emits (mret tt) st [] st.
Proof. intros w H1 H2. cbn. by rewrite with_index_same. Qed.

Lemma emits_write v st : emits (write v) st [v] st.
Proof.
  intros w H1 H2. destruct (puts_index [v] w) as [H3 H4]. by rewrite with_index_same by congruence.
Qed.

Lemma emits_bind {m1 m2 st1 l1 st2 l2 st3} :
  emits m1 st1 l1 st2 -> emits m2 st2 l2 st3 -> emits (m1 ;; m2) st1 (l1 ++ l2) st3.
Proof.
  intros E1 E2 w H1 H2. unfold mbind, prog_bind. rewrite (E1 w H1 H2), E2 by done.
  by rewrite puts_with_index, with_index_twice, puts_app.
Qed.

Lemma emits_foreach {A} (f : A -> prog execContext unit) (g : A -> list Z) l st :
  (forall x, x ∈ l -> emits (f x) st (g x) st) -> emits (foreach l f) st (x ← l; g x) st.
Proof.
  induction l as [|x l IH]; intros H; [apply emits_ret|]. cbn [foreach mbind list_bind].
  eapply emits_bind; [apply H; by left|apply IH; intros; apply H; by right].
Qed.

Lemma puts_eof l w : eof w = true -> eof (puts l w) = true.
Proof.
  revert w. induction l as [|v l IH]; intros w Hw; [exact Hw|]. rewrite puts_cons. apply IH.
  unfold put, set. by case_match.
Qed.

(** When everything fits, nothing is lost; otherwise [eof] tells. *)
Lemma puts_fit l w :
  eof w = false -> 0 <= buf w ->
  if decide (8 * alen l <= buf w)
  then words (puts l w) = words w ++ (u64 <$> l) /\ eof (puts l w) = false
  else eof (puts l w) = true.
Proof.
  revert w. induction l as [|v l IH]; intros w He Hb.
  - cbn. rewrite decide_True by (unfold alen; cbn; lia). by rewrite app_nil_r.
  - cbn [puts foldl]. change (foldl put ?x l) with (puts l x). rewrite alen_cons. unfold put at 1 2 3.
    destruct (Z.ltb_spec (buf w) 8) as [Hlt|Hge].
    + rewrite decide_False by (pose proof (alen_nonneg l); lia).
      by apply puts_eof.
    + set (w1 := w <| words ::= _ |> <| buf ::= _ |>). specialize (IH w1 He).
      change (buf w1) with (buf w - 8) in IH. specialize (IH ltac:(lia)).
      destruct (decide (8 * (1 + alen l) <= buf w)).
      * rewrite decide_True in IH by lia. destruct IH as [-> ->].
        change (words w1) with (words w ++ [u64 v]). by rewrite <- app_assoc.
      * by rewrite decide_False in IH by lia.
Qed.

(** ** Reading *)

Lemma read_words_app l rest : read_words (length l) (l ++ rest) = Ret l rest.
Proof.
  induction l as [|v l IH]; [done|]. cbn. unfold mbind, prog_bind, read_input. cbn. by rewrite IH.
Qed.

Lemma vector_loop_app l i rest :
  0 <= i -> i + alen l <= kMaxVector -> vector_loop (length l) i (l ++ rest) = Ret (i32 <$> l) rest.
Proof.
  revert i. induction l as [|v l IH]; intros i Hi Hl; [done|]. rewrite alen_cons in Hl.
  pose proof (alen_nonneg l). cbn [length vector_loop app]. unfold mbind, prog_bind, read_input at 1.
  destruct (Z.ltb_spec i kMaxVector); [|lia]. by rewrite IH by lia.
Qed.

Lemma vector_loop_overflow l i rest :
  0 <= i <= kMaxVector -> kMaxVector < i + alen l -> exists s, vector_loop (length l) i (l ++ rest) = UB s.
Proof.
  revert i. induction l as [|v l IH]; intros i Hi Hl; [unfold alen in Hl; cbn in Hl; lia|]. rewrite alen_cons in Hl.
  cbn [length vector_loop app]. unfold mbind, prog_bind, read_input at 1.
  destruct (Z.ltb_spec i kMaxVector); [|by eexists]. destruct (IH (i + 1)) as [s ->]; [lia..|]. by eexists.
Qed.

(** A table entry as the executor stores it. *)
Definition entry_read (e : tableEntry) : kssb_flush_table_entry :=
  mk_flush_entry (inst e) (i32 (u64 (value e))).

Lemma table_loop_app t i rest :
  0 <= i -> i + alen t <= kMaxVector ->
  table_loop (length t) i ((e ← t; [inst e; u64 (value e)]) ++ rest) = Ret (entry_read <$> t) rest.
Proof.
  revert i. induction t as [|e t IH]; intros i Hi Hl; [done|]. rewrite alen_cons in Hl.
  pose proof (alen_nonneg t). cbn [length table_loop app mbind list_bind].
  unfold mbind at 1 2, prog_bind, read_input at 1 2.
  destruct (Z.ltb_spec i kMaxVector); [|lia]. unfold mbind at 1. by rewrite IH by lia.
Qed.

Lemma table_loop_overflow t i rest :
  0 <= i <= kMaxVector -> kMaxVector < i + alen t ->
  exists s, table_loop (length t) i ((e ← t; [inst e; u64 (value e)]) ++ rest) = UB s.
Proof.
  revert i. induction t as [|e t IH]; intros i Hi Hl; [unfold alen in Hl; cbn in Hl; lia|]. rewrite alen_cons in Hl.
  cbn [length table_loop app mbind list_bind].
  unfold mbind at 1 2, prog_bind, read_input at 1 2.
  destruct (Z.ltb_spec i kMaxVector); [|by eexists]. unfold mbind at 1.
  destruct (IH (i + 1)) as [s ->]; [lia..|]. by eexists.
Qed.

(** ** Packed fields *)

Lemma lor_shiftl_add x y n : 0 <= n -> 0 <= x < 2 ^ n -> Z.lor x (Z.shiftl y n) = x + y * 2 ^ n.
Proof.
  intros Hn Hx. rewrite <- Z.shiftl_mul_pow2, <- Z.add_lor_land by done.
  replace (Z.land x (Z.shiftl y n)) with 0; [lia|]. symmetry. apply Z.bits_inj'. intros i Hi.
  rewrite Z.land_spec, Z.bits_0. destruct (Z.lt_ge_cases i n).
  - by rewrite Z.shiftl_spec_low, andb_false_r.
  - rewrite <- (Z.mod_small x (2 ^ n)), Z.mod_pow2_bits_high by lia. done.
Qed.

(** The fields of the word that describes a constant. *)
Lemma const_meta size bf off len stride :
  0 <= size < 2 ^ 8 -> 0 <= bf < 2 ^ 8 -> 0 <= off < 2 ^ 8 -> 0 <= len < 2 ^ 8 -> 0 <= stride < 2 ^ 32 ->
  let meta := Z.lor (Z.lor (Z.lor (Z.lor size (Z.shiftl bf 8)) (Z.shiftl off 16)) (Z.shiftl len 24))
                (Z.shiftl stride 32) in
  0 <= meta < 2 ^ 64 /\ Z.land meta 0xff = size /\ Z.land (Z.shiftr meta 8) 0xff = bf /\
  Z.land (Z.shiftr meta 16) 0xff = off /\ Z.land (Z.shiftr meta 24) 0xff = len /\ Z.shiftr meta 32 = stride.
Proof.
  intros H1 H2 H3 H4 H5. cbv zeta. rewrite (lor_shiftl_add size bf 8) by lia.
  rewrite (lor_shiftl_add _ off 16), (lor_shiftl_add _ len 24), (lor_shiftl_add _ stride 32) by lia.
  change 0xff with (Z.ones 8). rewrite !Z.land_ones, !Z.shiftr_div_pow2 by lia.
  set (m := size + bf * 2 ^ 8 + off * 2 ^ 16 + len * 2 ^ 24 + stride * 2 ^ 32).
  assert (E8 : m / 2 ^ 8 = bf + off * 2 ^ 8 + len * 2 ^ 16 + stride * 2 ^ 24).
  { symmetry. apply (Z.div_unique _ _ _ size); unfold m; lia. }
  assert (E16 : m / 2 ^ 16 = off + len * 2 ^ 8 + stride * 2 ^ 16).
  { symmetry. apply (Z.div_unique _ _ _ (size + bf * 2 ^ 8)); unfold m; lia. }
  assert (E24 : m / 2 ^ 24 = len + stride * 2 ^ 8).
  { symmetry. apply (Z.div_unique _ _ _ (size + bf * 2 ^ 8 + off * 2 ^ 16)); unfold m; lia. }
  assert (E32 : m / 2 ^ 32 = stride).
  { symmetry. apply (Z.div_unique _ _ _ (size + bf * 2 ^ 8 + off * 2 ^ 16 + len * 2 ^ 24)); unfold m; lia. }
  rewrite E8, E16, E24, E32. split; [unfold m; lia|]. split_and!; [..|done]; symmetry.
  - apply (Z.mod_unique _ _ (bf + off * 2 ^ 8 + len * 2 ^ 16 + stride * 2 ^ 24)); unfold m; lia.
  - apply (Z.mod_unique _ _ (off + len * 2 ^ 8 + stride * 2 ^ 16)); lia.
  - apply (Z.mod_unique _ _ (len + stride * 2 ^ 8)); lia.
  - apply (Z.mod_unique _ _ stride); lia.
Qed.

Lemma result_meta size bf :
  0 <= size < 2 ^ 8 -> 0 <= bf < 2 ^ 8 ->
  let meta := Z.lor size (Z.shiftl bf 8) in
  0 <= meta < 2 ^ 64 /\ Z.land meta 0xff = size /\ Z.shiftr meta 8 = bf.
Proof.
  intros H1 H2. cbv zeta. rewrite !lor_shiftl_add by lia.
  change 0xff with (Z.ones 8). rewrite !Z.land_ones, !Z.shiftr_div_pow2 by lia.
  split; [lia|]. split; symmetry; [apply (Z.mod_unique _ _ bf); lia|apply (Z.div_unique _ _ _ size); lia].
Qed.

(** ** Calls *)

Definition is_u64 (v : Z) : Prop := 0 <= v < 2 ^ 64.

Lemma u64_id v : is_u64 v -> u64 v = v.
Proof. intros H. by apply wrapu_id. Qed.

(** What the encoder may be given: fields of their widths, and references to
    results that have an index below [kMaxCommands]. *)
Definition arg_fits (m : gmap Z Z) (a : Arg) : Prop :=
  match a with
  | ConstArg size val bfOffset bfLength pidStride bf =>
      0 <= size < 2 ^ 8 /\ 0 <= bf < 2 ^ 8 /\ 0 <= bfOffset < 2 ^ 8 /\ 0 <= bfLength < 2 ^ 8 /\
      0 <= pidStride < 2 ^ 32 /\ is_u64 val
  | ResultArg size bf res OpDiv OpAdd Default =>
      0 <= size < 2 ^ 8 /\ 0 <= bf < 2 ^ 8 /\ is_u64 OpDiv /\ is_u64 OpAdd /\ is_u64 Default /\
      exists i, m !! res = Some i /\ 0 <= i < kMaxCommands
  end.

(** An argument of a call has no bitfield and is native, or big-endian of a
    size the executor can swap. *)
Definition call_arg_ok (a : Arg) : Prop :=
  match a with
  | ConstArg size _ bfOffset bfLength _ bf =>
      bfOffset = 0 /\ bfLength = 0 /\
      (bf = binary_format_native \/ bf = binary_format_bigendian /\ (size = 2 \/ size = 4 \/ size = 8))
  | ResultArg _ bf _ _ _ _ => bf = binary_format_native
  end.

(** The words of an argument. *)
Definition arg_words (m : gmap Z Z) (a : Arg) : list Z :=
  match a with
  | ConstArg size val bfOffset bfLength pidStride bf =>
      [execArgConst;
       Z.lor (Z.lor (Z.lor (Z.lor size (Z.shiftl bf 8)) (Z.shiftl bfOffset 16)) (Z.shiftl bfLength 24))
             (Z.shiftl pidStride 32); val]
  | ResultArg size bf res OpDiv OpAdd Default =>
      [execArgResult; Z.lor size (Z.shiftl bf 8); default 0 (m !! res); OpDiv; OpAdd; Default]
  end.

Lemma emits_arg m s a : arg_fits m a -> emits (writeArg a) (m, s) (arg_words m a) (m, s).
Proof.
  destruct a as [size val off len stride bf|size bf res dv ad df]; cbn [writeArg arg_fits arg_words].
  - intros _. unfold writeConstArg. change [?a; ?b; ?c] with ([a] ++ [b] ++ [c]).
    repeat (eapply emits_bind; [apply emits_write|]). apply emits_write.
  - intros (_ & _ & _ & _ & _ & i & Hi & _) w H1 H2. unfold mbind at 1, prog_bind at 1, gets at 1.
    cbn in H1. rewrite H1, Hi. cbn [default from_option]. revert w H1 H2.
    change [?a; ?b; ?c; ?d; ?e; ?f] with ([a] ++ [b] ++ [c] ++ [d] ++ [e] ++ [f]).
    change (emits (write execArgResult;; write (Z.lor size (Z.shiftl bf 8));;
          write i;; write dv;; write ad;; write df) (m, s)
          ([execArgResult] ++ [Z.lor size (Z.shiftl bf 8)] ++ [i] ++ [dv] ++ [ad] ++ [df]) (m, s)).
    repeat (eapply emits_bind; [apply emits_write|]). apply emits_write.
Qed.

Lemma arg_words_u64 m a : arg_fits m a -> Forall is_u64 (arg_words m a).
Proof.
  destruct a as [size val off len stride bf|size bf res dv ad df]; cbn [arg_fits arg_words].
  - intros (H1 & H2 & H3 & H4 & H5 & H6). destruct (const_meta size bf off len stride) as [Hm _]; [done..|].
    rewrite !Forall_cons. split_and!; done.
  - intros (H1 & H2 & H3 & H4 & H5 & i & -> & Hi). destruct (result_meta size bf) as [Hm _]; [done..|].
    cbn [default from_option]. unfold id. cbv zeta in Hm.
    rewrite !Forall_cons. split_and!; try done; unfold is_u64, kMaxCommands, execArgResult in *; lia.
Qed.

(** ** Indices of results *)

(** After the copy-ins of a call, after its return value, after its results
    in memory. *)
Definition entered (b : Body) (st : index_state) : index_state :=
  (foldl (fun m '(res, _, _) => <[res := 0]> m) st.1 (outs b), st.2).
Definition indexed (res : Z) (st : index_state) : index_state := (<[res := st.2]> st.1, u64 (st.2 + 1)).
Definition returned (b : Body) (st : index_state) : index_state :=
  match Call_Ret b with Some res => indexed res (entered b st) | None => entered b st end.
Definition finished (b : Body) (st : index_state) : index_state :=
  foldl (fun st '(res, _, _) => indexed res st) (returned b st) (outs b).

Lemma emits_enter b st :
  emits (modify (fun w => w <| args ::= fun m => foldl (fun m '(res, _, _) => <[res := 0]> m) m (outs b) |>))
    st [] (entered b st).
Proof. intros w H1 H2. cbn. unfold modify, with_index, entered, set. cbn. by rewrite H1, H2. Qed.

Lemma emits_index {res k st l st'} :
  emits (k st.2) (indexed res st) l st' -> emits (i ← new_index res; k i) st l st'.
Proof.
  intros E w H1 H2. unfold new_index. unfold mbind, prog_bind, gets, modify. cbn. rewrite H2.
  rewrite E; [|unfold set; cbn; by rewrite H1|unfold set; cbn; by rewrite H2].
  unfold set. cbn. f_equal.
  change (mk_exec_context (buf w) (words w) (eof w) (<[res := st.2]> (args w)) (u64 (copyoutSeq w + 1)))
    with (with_index (<[res := st.2]> (args w), u64 (copyoutSeq w + 1)) w).
  by rewrite puts_with_index, with_index_twice.
Qed.

(** ** The words of a program *)

Fixpoint outs_words (st : index_state) (l : list (Z * Z * Z)) : list Z :=
  match l with
  | [] => []
  | (res, ad, size) :: l => [execInstrCopyout; st.2; ad; size] ++ outs_words (indexed res st) l
  end.

Lemma emits_outs l st :
  emits (foreach l (fun '(res, ad, size) =>
           i ← new_index res; write execInstrCopyout;; write i;; write ad;; write size))
    st (outs_words st l) (foldl (fun st '(res, _, _) => indexed res st) st l).
Proof.
  revert st. induction l as [|[[res ad] size] l IH]; intros st; [apply emits_ret|].
  cbn [foreach outs_words foldl]. eapply emits_bind; [|apply IH].
  apply emits_index. change [?a; ?b; ?c; ?d] with ([a] ++ [b] ++ [c] ++ [d]).
  repeat (eapply emits_bind; [apply emits_write|]). apply emits_write.
Qed.

Section decoding.
Context (procid nsyscalls : Z) (disabled : Z -> bool) (read_call_props : prog (list Z) unit).

Abbreviation rd_const := (read_const_arg procid).
Abbreviation rd_arg := (read_arg procid).
Abbreviation rd_instrs := (read_instrs procid nsyscalls disabled read_call_props).

(** The value the executor computes for a constant of this process. *)
Definition pid_value (val pidStride : Z) : Z := u64 (val + u64 (pidStride * procid)).

Definition arg_read (m : gmap Z Z) (a : Arg) : arg_t :=
  match a with
  | ConstArg size val _ _ pidStride bf =>
      let v := pid_value val pidStride in
      arg_value (if bf =? binary_format_native then v else swap_bytes (Z.to_nat size) v)
  | ResultArg _ _ res OpDiv OpAdd Default => arg_ref (default 0 (m !! res)) OpDiv OpAdd Default
  end.

Definition copyin_read (m : gmap Z Z) (addr : Z) (a : Arg) : instr :=
  match a with
  | ConstArg size val bfOffset bfLength pidStride bf =>
      ICopyin addr (arg_value (pid_value val pidStride)) size bf bfOffset bfLength
  | ResultArg size bf res OpDiv OpAdd Default =>
      ICopyin addr (arg_ref (default 0 (m !! res)) OpDiv OpAdd Default) size bf 0 0
  end.

Lemma read_const_app size val off len stride bf rest :
  arg_fits ∅ (ConstArg size val off len stride bf) ->
  rd_const (drop 1 (arg_words ∅ (ConstArg size val off len stride bf)) ++ rest) =
  Ret (pid_value val stride, size, bf, off, len) rest.
Proof.
  intros (H1 & H2 & H3 & H4 & H5 & H6).
  destruct (const_meta size bf off len stride) as (Hm & E1 & E2 & E3 & E4 & E5); [done..|].
  cbn [arg_words drop app]. unfold read_const_arg, mbind, prog_bind, read_input, mret, prog_ret.
  by rewrite E1, E2, E3, E4, E5.
Qed.

Lemma read_result_app i dv ad df rest :
  0 <= i < kMaxCommands ->
  read_result ([i; dv; ad; df] ++ rest) = Ret (arg_ref i dv ad df) rest.
Proof.
  intros Hi. unfold read_result, mbind, prog_bind, read_input. cbn.
  destruct (Z.leb_spec kMaxCommands i); [lia|done].
Qed.

Lemma read_arg_app m a rest :
  arg_fits m a -> call_arg_ok a -> rd_arg (arg_words m a ++ rest) = Ret (arg_read m a) rest.
Proof.
  destruct a as [size val off len stride bf|size bf res dv ad df].
  - intros Hf (-> & -> & Hbf). pose proof (read_const_app _ _ _ _ _ _ rest Hf) as E. cbn [arg_words drop app] in *.
    unfold read_arg. erewrite bind_run by reflexivity. change (execArgConst =? arg_const) with true. cbv iota.
    rewrite (bind_run _ _ _ _ _ E). cbv beta iota. cbn [arg_read]. cbn [Z.eqb negb orb].
    unfold swap, binary_format_native, binary_format_bigendian in *.
    destruct Hbf as [->|[-> Hs]]; [done|]. cbn [Z.eqb Pos.eqb negb andb].
    replace ((size =? 2) || (size =? 4) || (size =? 8)) with true; [done|].
    destruct Hs as [->|[->| ->]]; done.
  - cbn [arg_fits call_arg_ok arg_words arg_read]. intros (H1 & H2 & H3 & H4 & H5 & i & -> & Hi) ->.
    destruct (result_meta size binary_format_native) as (_ & _ & E); [done..|].
    unfold read_arg. cbn [app default from_option]. erewrite bind_run by reflexivity.
    change (execArgResult =? arg_const) with false. change (execArgResult =? arg_result) with true. cbv iota.
    erewrite bind_run by reflexivity. rewrite E, Z.eqb_refl. cbn [negb].
    apply (read_result_app i dv ad df rest Hi).
Qed.

Lemma read_args_app m l rest :
  Forall (arg_fits m) l -> Forall call_arg_ok l ->
  read_args procid (length l) ((a ← l; arg_words m a) ++ rest) = Ret (arg_read m <$> l) rest.
Proof.
  revert rest. induction l as [|a l IH]; intros rest Hf Hc; [done|].
  apply Forall_cons in Hf as [Hf1 Hf], Hc as [Hc1 Hc]. cbn [length read_args mbind list_bind fmap list_fmap].
  rewrite <- app_assoc. rewrite (bind_run _ _ _ _ _ (read_arg_app m a _ Hf1 Hc1)).
  by rewrite (bind_run _ _ _ _ _ (IH rest Hf Hc)).
Qed.

(** The filter and the thread a breakpoint is read with. *)
Definition point_read (filter : list Z) (thread : Z) (pt : Point) : schedule_t :=
  mk_schedule_t thread (addr pt) (order pt)
    (u64 (if order pt <? kMaxSchedule then default 0 (aget filter (order pt)) else 1)).

Lemma read_sched_app filter thread pts i rest :
  0 <= i ->
  read_sched filter (length pts) i ((pt ← pts; [thread; addr pt; order pt]) ++ rest) =
  Ret (take (Z.to_nat (kMaxSchedule - i)) (point_read filter thread <$> pts)) rest.
Proof.
  revert i. induction pts as [|pt pts IH]; intros i Hi.
  { cbn [fmap list_fmap]. by rewrite take_nil. }
  cbn [length read_sched mbind list_bind app fmap list_fmap].
  do 3 (erewrite bind_run by reflexivity). rewrite (bind_run _ _ _ _ _ (IH (i + 1) ltac:(lia))).
  destruct (Z.leb_spec kMaxSchedule i).
  - unfold mret, prog_ret. f_equal. by replace (Z.to_nat (kMaxSchedule - i)) with O by lia;
      replace (Z.to_nat (kMaxSchedule - (i + 1))) with O by lia.
  - unfold mret, prog_ret. f_equal. by replace (Z.to_nat (kMaxSchedule - i)) with (S (Z.to_nat (kMaxSchedule - (i + 1)))) by lia.
Qed.

(** [l] is read as the instructions [is]. *)
Definition decodes (filter l : list Z) (ins : list instr) : Prop :=
  (length ins <= length l)%nat /\
  forall rest fuel, rd_instrs (length ins + fuel) filter (l ++ rest) =
                    (tl ← rd_instrs fuel filter; mret (ins ++ tl)) rest.

Lemma decodes_nil filter : decodes filter [] [].
Proof.
  split; [done|]. intros rest fuel. cbn [length Nat.add app]. unfold mbind, prog_bind.
  by destruct (rd_instrs fuel filter rest).
Qed.

Lemma decodes_app filter l1 l2 is1 is2 :
  decodes filter l1 is1 -> decodes filter l2 is2 -> decodes filter (l1 ++ l2) (is1 ++ is2).
Proof.
  intros [H1 E1] [H2 E2]. split; [rewrite !length_app; lia|]. intros rest fuel.
  rewrite length_app, <- Nat.add_assoc, <- app_assoc, E1. unfold mbind, prog_bind. rewrite E2.
  unfold mbind, prog_bind. destruct (rd_instrs fuel filter rest); try done. cbn. by rewrite app_assoc.
Qed.

(** One instruction: its first word and what it reads of the others. *)
Lemma decodes_one filter v l i :
  v <> instr_eof ->
  (forall rest, (if v =? instr_epoch then mret IEpoch
           else if v =? instr_copyin then read_copyin procid
           else if v =? instr_copyout then
             _ ← read_input; _ ← read_input; _ ← read_input; mret ICopyout
           else if v =? instr_setprops then read_call_props;; mret ISetProps
           else read_call procid nsyscalls disabled filter v) (l ++ rest) = Ret i rest) ->
  decodes filter (v :: l) [i].
Proof.
  intros Hv E. split; [cbn; lia|]. intros rest fuel. cbn [length Nat.add read_instrs app].
  erewrite bind_run by reflexivity. destruct (Z.eqb_spec v instr_eof); [done|].
  by rewrite (bind_run _ _ _ _ _ (E rest)).
Qed.

Lemma decodes_epoch filter : decodes filter [execInstrEpoch] [IEpoch].
Proof. by apply decodes_one. Qed.

Lemma decodes_copyin filter m a ad :
  arg_fits m a -> decodes filter (execInstrCopyin :: ad :: arg_words m a) [copyin_read m ad a].
Proof.
  intros Hf. apply decodes_one; [done|]. intros rest.
  change (execInstrCopyin =? instr_epoch) with false. change (execInstrCopyin =? instr_copyin) with true.
  cbv iota. unfold read_copyin. erewrite bind_run by reflexivity.
  destruct a as [size val off len stride bf|size bf res dv adv df].
  - pose proof (read_const_app _ _ _ _ _ _ rest Hf) as E. cbn [arg_words drop app] in *.
    erewrite bind_run by reflexivity. change (execArgConst =? arg_const) with true. cbv iota.
    by rewrite (bind_run _ _ _ _ _ E).
  - cbn [arg_fits arg_words copyin_read] in *. destruct Hf as (H1 & H2 & H3 & H4 & H5 & i & -> & Hi).
    destruct (result_meta size bf) as (_ & E1 & E2); [done..|]. cbn [app default from_option].
    erewrite bind_run by reflexivity.
    change (execArgResult =? arg_const) with false. change (execArgResult =? arg_result) with true. cbv iota.
    erewrite bind_run by reflexivity. rewrite (bind_run _ _ _ _ _ (read_result_app i dv adv df rest Hi)).
    by rewrite E1, E2.
Qed.

Lemma decodes_copyout filter i ad size : decodes filter [execInstrCopyout; i; ad; size] [ICopyout].
Proof. by apply decodes_one. Qed.

(** The words of the call instruction proper. *)
Definition call_words (m : gmap Z Z) (id ret : Z) (l : list Arg) (thread epoch : Z) (pts : list Point) : list Z :=
  id :: ret :: alen l :: (a ← l; arg_words m a) ++
  thread :: epoch :: alen pts :: (pt ← pts; [thread; addr pt; order pt]).

Lemma decodes_call filter m id ret l thread epoch pts :
  0 <= id < nsyscalls -> nsyscalls < 2 ^ 64 - 5 -> disabled id = false -> alen l <= kMaxArgs ->
  Forall (arg_fits m) l -> Forall call_arg_ok l ->
  decodes filter (call_words m id ret l thread epoch pts)
    [ICall id ret ((arg_read m <$> l) ++ replicate (Z.to_nat (kMaxArgs - alen l)) (arg_value 0))
       thread epoch (take (Z.to_nat kMaxSchedule) (point_read filter thread <$> pts))].
Proof.
  intros Hid Hn Hd Hl Hf Hc. apply decodes_one; [change instr_eof with (2 ^ 64 - 1); lia|]. intros rest.
  assert (Hne : forall k, -5 <= k < 0 -> (id =? u64 k) = false).
  { intros k Hk. apply Z.eqb_neq. unfold wrapu. rewrite <- (Z.mod_unique k (2 ^ 64) (-1) (2 ^ 64 + k)); lia. }
  unfold instr_epoch, instr_copyin, instr_copyout, instr_setprops. rewrite !Hne by lia. cbv iota.
  unfold read_call. destruct (Z.leb_spec nsyscalls id); [lia|]. rewrite Hd. cbn [app].
  do 2 (erewrite bind_run by reflexivity). destruct (Z.ltb_spec kMaxArgs (alen l)); [lia|].
  replace (Z.to_nat (alen l)) with (length l) by (unfold alen; lia). rewrite <- app_assoc.
  rewrite (bind_run _ _ _ _ _ (read_args_app m l _ Hf Hc)). cbn [app].
  do 3 (erewrite bind_run by reflexivity).
  replace (Z.to_nat (alen pts)) with (length pts) by (unfold alen; lia).
  rewrite (bind_run _ _ _ _ _ (read_sched_app filter thread pts 0 rest ltac:(lia))). by rewrite Z.sub_0_r.
Qed.

(** *** A call with its body *)

Definition points_of (sched : Schedule) (ci : Z) : list Point := points (Match sched ci).

Definition ret_word (b : Body) (st : index_state) : Z :=
  match Call_Ret b with Some _ => st.2 | None => ExecNoCopyout end.

Definition body_words (sched : Schedule) (ci : Z) (c : Call) (b : Body) (st : index_state) : list Z :=
  (x ← copyins b; execInstrCopyin :: x.1 :: arg_words (entered b st).1 x.2) ++
  call_words (returned b st).1 (Meta_ID b) (ret_word b st) (Args b) (Call_Thread c) (Call_Epoch c)
    (points_of sched ci) ++
  outs_words (returned b st) (outs b).

(** What the executor makes of it. *)
Definition body_instrs (filter : list Z) (sched : Schedule) (ci : Z) (c : Call) (b : Body) (st : index_state)
    : list instr :=
  ((fun x => copyin_read (entered b st).1 x.1 x.2) <$> copyins b) ++
  [ICall (Meta_ID b) (ret_word b st)
     ((arg_read (returned b st).1 <$> Args b) ++ replicate (Z.to_nat (kMaxArgs - alen (Args b))) (arg_value 0))
     (Call_Thread c) (Call_Epoch c)
     (take (Z.to_nat kMaxSchedule) (point_read filter (Call_Thread c) <$> points_of sched ci))] ++
  ((fun _ => ICopyout) <$> outs b).

Record body_ok (sched : Schedule) (ci : Z) (c : Call) (b : Body) (st : index_state) : Prop := {
  bo_id : 0 <= Meta_ID b < nsyscalls;
  bo_enabled : disabled (Meta_ID b) = false;
  bo_copyins : Forall (fun '(ad, a) => is_u64 ad /\ arg_fits (entered b st).1 a) (copyins b);
  bo_nargs : alen (Args b) <= kMaxArgs;
  bo_args : Forall (arg_fits (returned b st).1) (Args b);
  bo_plain : Forall call_arg_ok (Args b);
  bo_outs : Forall (fun '(_, ad, size) => is_u64 ad /\ is_u64 size) (outs b);
  bo_thread : is_u64 (Call_Thread c);
  bo_epoch : is_u64 (Call_Epoch c);
  bo_points : Forall (fun pt => is_u64 (addr pt) /\ is_u64 (order pt)) (points_of sched ci);
  bo_npoints : is_u64 (alen (points_of sched ci))
}.

Lemma emits_call_words cs sched ci c b st :
  aget cs ci = Some c -> body_ok sched ci c b st ->
  emits (serializeCall cs ci c b sched) st (body_words sched ci c b st) (finished b st).
Proof.
  intros Hc Hb. unfold serializeCall, body_words, writeCopyin.
  assert (Hcopy : emits (foreach (copyins b) (fun '(ad, a) => write execInstrCopyin;; write ad;; writeArg a))
            (entered b st) (x ← copyins b; execInstrCopyin :: x.1 :: arg_words (entered b st).1 x.2) (entered b st)).
  { apply (emits_foreach _ (fun x => execInstrCopyin :: x.1 :: arg_words (entered b st).1 x.2)).
    intros [ad a] Hin. pose proof (bo_copyins _ _ _ _ _ Hb) as HF. rewrite Forall_forall in HF.
    destruct (HF _ Hin) as [_ Hfit]. cbn [fst snd]. change (execInstrCopyin :: ad :: ?l) with ([execInstrCopyin] ++ [ad] ++ l).
    do 2 (eapply emits_bind; [apply emits_write|]). destruct (entered b st). by apply emits_arg. }
  eapply emits_bind; [exact (emits_bind (emits_enter b st) Hcopy)|]. clear Hcopy.
  assert (Hret : emits (match Call_Ret b with Some res => i ← new_index res; write i | None => write ExecNoCopyout end)
            (entered b st) [ret_word b st] (returned b st)).
  { unfold ret_word, returned. destruct (Call_Ret b) as [res|]; [|apply emits_write].
    apply emits_index. apply emits_write. }
  assert (Hargs : emits (foreach (Args b) writeArg) (returned b st) (a ← Args b; arg_words (returned b st).1 a) (returned b st)).
  { apply emits_foreach. intros a Ha. pose proof (bo_args _ _ _ _ _ Hb) as HF. rewrite Forall_forall in HF.
    specialize (HF a Ha). destruct (returned b st). by apply emits_arg. }
  assert (Hpts : emits (foreach (points_of sched ci) (fun point =>
                   match aget cs (call point) with
                   | None => panic "nil dereference"
                   | Some cl => write (Call_Thread cl);; write (addr point);; write (order point)
                   end)) (returned b st)
                   (pt ← points_of sched ci; [Call_Thread c; addr pt; order pt]) (returned b st)).
  { apply emits_foreach. intros pt Hpt. unfold points_of, Match in Hpt. cbn [points] in Hpt.
    apply list_elem_of_filter in Hpt as [-> _]. rewrite Hc. change [?a; ?b; ?c] with ([a] ++ [b] ++ [c]).
    do 2 (eapply emits_bind; [apply emits_write|]). apply emits_write. }
  unfold call_words. change (?a :: ?r :: ?n :: ?l1 ++ ?t :: ?e :: ?k :: ?l2)
    with ([a] ++ [r] ++ [n] ++ l1 ++ [t] ++ [e] ++ [k] ++ l2). rewrite <- !app_assoc.
  eapply emits_bind; [apply emits_write|]. eapply emits_bind; [exact Hret|].
  eapply emits_bind; [apply emits_write|]. eapply emits_bind; [exact Hargs|].
  unfold writeConcurrencyInfo, writeSchedule. rewrite (app_assoc [Call_Thread c]).
  eapply emits_bind; [eapply emits_bind; apply emits_write|]. rewrite (app_assoc [alen _]).
  eapply emits_bind; [eapply emits_bind; [apply emits_write|exact Hpts]|].
  apply emits_outs.
Qed.

Lemma decodes_bind {A} filter (f : A -> list Z) (g : A -> instr) l :
  Forall (fun x => decodes filter (f x) [g x]) l -> decodes filter (x ← l; f x) (g <$> l).
Proof.
  induction 1 as [|x l Hx _ IH]; [apply decodes_nil|]. cbn [mbind list_bind fmap list_fmap].
  change (g x :: (g <$> l)) with ([g x] ++ (g <$> l)). by apply decodes_app.
Qed.

Lemma decodes_outs filter st l : decodes filter (outs_words st l) ((fun _ => ICopyout) <$> l).
Proof.
  revert st. induction l as [|[[res ad] size] l IH]; intros st; [apply decodes_nil|].
  cbn [outs_words fmap list_fmap]. change (ICopyout :: ?x) with ([ICopyout] ++ x).
  apply decodes_app; [apply decodes_copyout|apply IH].
Qed.

Lemma decodes_body filter sched ci c b st :
  nsyscalls < 2 ^ 64 - 5 -> body_ok sched ci c b st ->
  decodes filter (body_words sched ci c b st) (body_instrs filter sched ci c b st).
Proof.
  intros Hn Hb. unfold body_words, body_instrs. apply decodes_app; [|apply decodes_app].
  - apply decodes_bind. eapply Forall_impl; [apply (bo_copyins _ _ _ _ _ Hb)|].
    intros [ad a] [_ Hfit]. by apply decodes_copyin.
  - apply decodes_call; try done; apply Hb.
  - apply decodes_outs.
Qed.

(** *** Every word fits *)

Lemma indexed_u64 res st : is_u64 (indexed res st).2.
Proof. apply wrapu_range. lia. Qed.

Lemma outs_words_u64 l st :
  is_u64 st.2 -> Forall (fun '(_, ad, size) => is_u64 ad /\ is_u64 size) l -> Forall is_u64 (outs_words st l).
Proof.
  revert st. induction l as [|[[res ad] size] l IH]; intros st Hs Hl; [constructor|].
  apply Forall_cons in Hl as [[Ha Hz] Hl]. cbn [outs_words app]. rewrite !Forall_cons. split_and!; try done.
  apply IH; [apply indexed_u64|done].
Qed.

Lemma Forall_bind_u64 {A} (f : A -> list Z) l :
  Forall (fun x => Forall is_u64 (f x)) l -> Forall is_u64 (x ← l; f x).
Proof. induction 1; [constructor|]. cbn. by apply Forall_app. Qed.

Lemma returned_u64 b st : is_u64 st.2 -> is_u64 (returned b st).2.
Proof. intros H. unfold returned. destruct (Call_Ret b); [apply indexed_u64|done]. Qed.

Lemma finished_u64 b st : is_u64 st.2 -> is_u64 (finished b st).2.
Proof.
  intros H%(returned_u64 b). unfold finished. revert H. generalize (returned b st). clear.
  induction (outs b) as [|[[res ad] size] l IH]; intros st H; [done|]. apply IH, indexed_u64.
Qed.

Lemma body_words_u64 sched ci c b st :
  nsyscalls < 2 ^ 64 - 5 -> is_u64 st.2 -> body_ok sched ci c b st ->
  Forall is_u64 (body_words sched ci c b st).
Proof.
  intros Hn Hs Hb. unfold body_words, call_words. rewrite !Forall_app, !Forall_cons, Forall_app, !Forall_cons.
  assert (Hid : is_u64 (Meta_ID b)) by (destruct Hb; unfold is_u64; lia).
  split_and!; try done; try apply Hb.
  - apply Forall_bind_u64. eapply Forall_impl; [apply (bo_copyins _ _ _ _ _ Hb)|].
    intros [ad a] [Ha Hfit]. rewrite !Forall_cons. split_and!; [done..|by eapply arg_words_u64].
  - unfold ret_word. by destruct (Call_Ret b).
  - pose proof (bo_nargs _ _ _ _ _ Hb). pose proof (alen_nonneg (Args b)). unfold is_u64, kMaxArgs in *. lia.
  - apply Forall_bind_u64. eapply Forall_impl; [apply (bo_args _ _ _ _ _ Hb)|]. intros a. apply arg_words_u64.
  - apply Forall_bind_u64. eapply Forall_impl; [apply (bo_points _ _ _ _ _ Hb)|].
    intros pt [Ha Ho]. rewrite !Forall_cons. split_and!; try done. apply Hb.
  - apply outs_words_u64; [by apply returned_u64|apply Hb].
Qed.

(** *** All calls *)

Definition ends_epoch (c : Call) (later : list Call) : bool :=
  negb (existsb (fun c0 => Call_Epoch c =? Call_Epoch c0) later).

Fixpoint calls_words (sched : Schedule) (ci : Z) (rest : list (Call * Body)) (st : index_state) : list Z :=
  match rest with
  | [] => []
  | (c, b) :: rest =>
      body_words sched ci c b st ++ (if ends_epoch c rest.*1 then [execInstrEpoch] else []) ++
      calls_words sched (ci + 1) rest (finished b st)
  end.

Fixpoint calls_instrs (filter : list Z) (sched : Schedule) (ci : Z) (rest : list (Call * Body)) (st : index_state)
    : list instr :=
  match rest with
  | [] => []
  | (c, b) :: rest =>
      body_instrs filter sched ci c b st ++ (if ends_epoch c rest.*1 then [IEpoch] else []) ++
      calls_instrs filter sched (ci + 1) rest (finished b st)
  end.

Fixpoint calls_ok (sched : Schedule) (ci : Z) (rest : list (Call * Body)) (st : index_state) : Prop :=
  match rest with
  | [] => True
  | (c, b) :: rest => body_ok sched ci c b st /\ calls_ok sched (ci + 1) rest (finished b st)
  end.

Definition calls_index (rest : list (Call * Body)) (st : index_state) : index_state :=
  foldl (fun st x => finished x.2 st) st rest.

Lemma emits_calls cs sched rest : forall ci st,
  (forall i c b, rest !! i = Some (c, b) -> aget cs (ci + Z.of_nat i) = Some c) ->
  calls_ok sched ci rest st ->
  emits (serialize_calls cs sched ci rest) st (calls_words sched ci rest st) (calls_index rest st).
Proof.
  induction rest as [|[c b] rest IH]; intros ci st Hcs Hok; [apply emits_ret|].
  destruct Hok as [Hb Hok]. cbn [serialize_calls calls_words]. change (calls_index ((c, b) :: rest) st)
    with (calls_index rest (finished b st)).
  eapply emits_bind; [apply emits_call_words; [|done]|eapply emits_bind].
  - rewrite <- (Hcs O c b eq_refl). f_equal. lia.
  - unfold writeEpoch, ends_epoch. destruct (existsb _ _); [apply emits_ret|apply emits_write].
  - apply IH; [|done]. intros i c' b' Hi. rewrite <- (Hcs (S i) c' b' Hi). f_equal. lia.
Qed.

Lemma decodes_calls filter sched rest : forall ci st,
  nsyscalls < 2 ^ 64 - 5 -> calls_ok sched ci rest st ->
  decodes filter (calls_words sched ci rest st) (calls_instrs filter sched ci rest st).
Proof.
  induction rest as [|[c b] rest IH]; intros ci st Hn Hok; [apply decodes_nil|].
  destruct Hok as [Hb Hok]. cbn [calls_words calls_instrs].
  apply decodes_app; [by apply decodes_body|apply decodes_app; [|by apply IH]].
  destruct (ends_epoch _ _); [apply decodes_epoch|apply decodes_nil].
Qed.

Lemma calls_words_u64 sched rest : forall ci st,
  nsyscalls < 2 ^ 64 - 5 -> is_u64 st.2 -> calls_ok sched ci rest st ->
  Forall is_u64 (calls_words sched ci rest st).
Proof.
  induction rest as [|[c b] rest IH]; intros ci st Hn Hs Hok; [constructor|].
  destruct Hok as [Hb Hok]. cbn [calls_words]. rewrite !Forall_app. split_and!.
  - by apply body_words_u64.
  - destruct (ends_epoch _ _); [|constructor]. by repeat constructor.
  - apply IH; [done|by apply finished_u64|done].
Qed.
End decoding.

(** ** Programs *)

Definition header_words (p : Prog) : list Z :=
  let filter := filter_ (Prog_Schedule p) in
  let vec := SerializeVector (Prog_FlushVector p) in
  let table := SerializeTable (Prog_FlushVector p) in
  (alen filter :: filter) ++ (alen vec :: vec) ++ (alen table :: table).

Definition prog_words (bodies : list Body) (p : Prog) : list Z :=
  header_words p ++ calls_words (Prog_Schedule p) 0 (zip (Calls p) bodies) (∅, 0) ++ [execInstrEOF].

(** The filter array of the executor. *)
Definition filter_read (p : Prog) : list Z :=
  store_filter (replicate (Z.to_nat kMaxSchedule) 0) (i32 <$> filter_ (Prog_Schedule p)).

Definition fed (p : Prog) : list Z * list kssb_flush_table_entry :=
  feed_flush_vector (i32 <$> vector (Prog_FlushVector p)) (entry_read <$> table (Prog_FlushVector p)).

(** The header fits the executor's variables. *)
Record header_ok (p : Prog) : Prop := {
  ho_filter : Forall is_u64 (filter_ (Prog_Schedule p));
  ho_filter_len : alen (filter_ (Prog_Schedule p)) < 2 ^ 31;
  ho_vector : Forall is_u64 (vector (Prog_FlushVector p));
  ho_vector_len : alen (vector (Prog_FlushVector p)) <= kMaxVector;
  ho_table : Forall (fun e => is_u64 (inst e)) (table (Prog_FlushVector p));
  ho_table_len : alen (table (Prog_FlushVector p)) < 2 ^ 30
}.

Lemma alen_table vec : alen (SerializeTable vec) = 2 * alen (table vec).
Proof.
  unfold SerializeTable, alen. induction (table vec) as [|e t IH]; [done|]. cbn in *. lia.
Qed.

Lemma emits_list l st : emits (foreach l write) st l st.
Proof.
  replace l with (x ← l; [x]) at 2 by (induction l as [|x l IH]; [done|cbn; by rewrite IH]).
  apply emits_foreach. intros. apply emits_write.
Qed.

Lemma emits_counted l st : emits (write (alen l);; foreach l write) st (alen l :: l) st.
Proof. change (alen l :: l) with ([alen l] ++ l). eapply emits_bind; [apply emits_write|apply emits_list]. Qed.

Lemma emits_prog nsyscalls disabled bodies p :
  length bodies = length (Calls p) ->
  calls_ok nsyscalls disabled (Prog_Schedule p) 0 (zip (Calls p) bodies) (∅, 0) ->
  emits (serialize_prog bodies p) (∅, 0) (prog_words bodies p) (calls_index (zip (Calls p) bodies) (∅, 0)).
Proof.
  intros Hlen Hok. unfold serialize_prog, prog_words, header_words, writeScheduleFilter, writeFlushVector.
  cbv zeta. rewrite <- (app_assoc (alen _ :: _)). eapply emits_bind; [apply emits_counted|].
  eapply emits_bind; [|eapply emits_bind; [eapply emits_calls; [|exact Hok]|apply emits_write]].
  - change (alen ?l :: ?l) with ([alen l] ++ l). rewrite <- app_assoc.
    eapply emits_bind; [apply emits_write|]. eapply emits_bind; [apply emits_list|apply emits_counted].
  - intros i c b Hi. unfold aget. destruct (Z.ltb_spec (0 + Z.of_nat i) 0); [lia|].
    rewrite Z.add_0_l, Nat2Z.id. apply lookup_zip_with_Some in Hi as (x & y & [= -> ->] & Hx & _). done.
Qed.

Lemma read_filter_app p rest :
  header_ok p ->
  read_filter ((alen (filter_ (Prog_Schedule p)) :: filter_ (Prog_Schedule p)) ++ rest) = Ret (filter_read p) rest.
Proof.
  intros Hp. unfold read_filter. cbn [app]. erewrite bind_run by reflexivity.
  pose proof (alen_nonneg (filter_ (Prog_Schedule p))). pose proof (ho_filter_len p Hp).
  rewrite wraps_id by (change (2 ^ (32 - 1)) with (2 ^ 31); lia). unfold alen. rewrite Nat2Z.id.
  by rewrite (bind_run _ _ _ _ _ (read_words_app _ rest)).
Qed.

(** The header up to the table. *)
Lemma read_header_to_table p rest :
  header_ok p ->
  read_header (header_words p ++ rest) =
  (t ← table_loop (length (table (Prog_FlushVector p))) 0;
   mret (filter_read p, feed_flush_vector (i32 <$> vector (Prog_FlushVector p)) t))
  ((e ← table (Prog_FlushVector p); [inst e; u64 (value e)]) ++ rest).
Proof.
  intros Hp. unfold read_header, header_words. cbv zeta. rewrite <- !app_assoc.
  rewrite (bind_run _ _ _ _ _ (read_filter_app p _ Hp)). cbn [app].
  pose proof (ho_vector_len p Hp) as Hv. pose proof (alen_nonneg (vector (Prog_FlushVector p))).
  pose proof (ho_table_len p Hp). pose proof (alen_nonneg (table (Prog_FlushVector p))). unfold kMaxVector in *.
  erewrite bind_run by reflexivity. unfold SerializeVector.
  rewrite wraps_id by (change (2 ^ (32 - 1)) with (2 ^ 31); lia).
  replace (Z.to_nat (alen (vector (Prog_FlushVector p)))) with (length (vector (Prog_FlushVector p))) by (unfold alen; lia).
  rewrite (bind_run _ _ _ _ _ (vector_loop_app (vector (Prog_FlushVector p)) 0 _ ltac:(lia) ltac:(unfold kMaxVector; lia))).
  erewrite bind_run by reflexivity. rewrite alen_table.
  rewrite wraps_id by (change (2 ^ (32 - 1)) with (2 ^ 31); lia). rewrite Z.mul_comm, Z.quot_mul by lia.
  by replace (Z.to_nat (alen (table (Prog_FlushVector p)))) with (length (table (Prog_FlushVector p))) by (unfold alen; lia).
Qed.

Lemma read_header_app p rest :
  header_ok p -> alen (table (Prog_FlushVector p)) <= kMaxVector ->
  read_header (header_words p ++ rest) = Ret (filter_read p, fed p) rest.
Proof.
  intros Hp Ht. rewrite read_header_to_table by done.
  by rewrite (bind_run _ _ _ _ _ (table_loop_app (table (Prog_FlushVector p)) 0 rest ltac:(lia) ltac:(lia))).
Qed.

Lemma header_words_u64 p : header_ok p -> Forall is_u64 (header_words p).
Proof.
  intros Hp. unfold header_words. cbv zeta. rewrite !Forall_app, !Forall_cons, alen_table.
  pose proof (ho_filter_len p Hp). pose proof (ho_vector_len p Hp). pose proof (ho_table_len p Hp).
  pose proof (alen_nonneg (filter_ (Prog_Schedule p))). pose proof (alen_nonneg (vector (Prog_FlushVector p))).
  pose proof (alen_nonneg (table (Prog_FlushVector p))). unfold SerializeVector, kMaxVector in *.
  split_and!; try apply Hp; try (unfold is_u64; lia).
  unfold SerializeTable. apply Forall_bind_u64. eapply Forall_impl; [apply (ho_table p Hp)|].
  intros e He. rewrite !Forall_cons. split_and!; try done. apply wrapu_range. lia.
Qed.

Lemma fmap_u64 l : Forall is_u64 l -> u64 <$> l = l.
Proof. induction 1 as [|v l Hv _ IH]; [done|]. cbn. by rewrite u64_id, IH. Qed.

(** Running the encoder: the words, or the error, according to the room. *)
Lemma run_encoder_spec nsyscalls disabled bodies size p :
  nsyscalls < 2 ^ 64 - 5 -> header_ok p -> length bodies = length (Calls p) ->
  calls_ok nsyscalls disabled (Prog_Schedule p) 0 (zip (Calls p) bodies) (∅, 0) ->
  (calls_index (zip (Calls p) bodies) (∅, 0)).2 <= execMaxCommands -> 0 <= size ->
  run_encoder bodies size p =
  Ret (if decide (8 * alen (prog_words bodies p) <= size) then Some (prog_words bodies p) else None) p.
Proof.
  intros Hn Hh Hlen Hok Hc Hs. unfold run_encoder.
  rewrite (emits_prog nsyscalls disabled bodies p Hlen Hok) by done.
  assert (Hu : u64 <$> prog_words bodies p = prog_words bodies p).
  { apply fmap_u64. unfold prog_words. rewrite !Forall_app. split_and!; [by apply header_words_u64| |by repeat constructor].
    by eapply calls_words_u64. }
  pose proof (puts_fit (prog_words bodies p) (mk_exec_context size [] false ∅ 0) eq_refl Hs) as HF.
  cbn [buf words app] in HF. unfold with_index, set. cbn [eof copyoutSeq words].
  destruct (Z.ltb_spec execMaxCommands (calls_index (zip (Calls p) bodies) (∅, 0)).2); [lia|].
  case_decide; [destruct HF as [-> ->]; by rewrite Hu|by rewrite HF].
Qed.

Lemma sanitize_then bodies size p :
  sanitizeRazzer p = Ret None p -> SerializeForExec bodies size p = run_encoder bodies size p.
Proof. intros E. unfold SerializeForExec. by rewrite (bind_run _ _ _ _ _ E). Qed.

Lemma decode_prog_words procid nsyscalls disabled props bodies p :
  nsyscalls < 2 ^ 64 - 5 -> header_ok p -> alen (table (Prog_FlushVector p)) <= kMaxVector ->
  calls_ok nsyscalls disabled (Prog_Schedule p) 0 (zip (Calls p) bodies) (∅, 0) ->
  decode procid nsyscalls disabled props (prog_words bodies p) =
  Ret (fed p, calls_instrs procid (filter_read p) (Prog_Schedule p) 0 (zip (Calls p) bodies) (∅, 0)) [].
Proof.
  intros Hn Hh Ht Hok. unfold decode. erewrite bind_run by reflexivity.
  set (ins := calls_instrs _ _ _ _ _ _). set (cw := calls_words (Prog_Schedule p) 0 (zip (Calls p) bodies) (∅, 0)).
  destruct (decodes_calls procid nsyscalls disabled props (filter_read p) (Prog_Schedule p)
              (zip (Calls p) bodies) 0 (∅, 0) Hn Hok) as [Hl E]. fold ins cw in Hl, E.
  unfold prog_words. fold cw. rewrite (bind_run _ _ _ _ _ (read_header_app p _ Hh Ht)).
  set (n := length _). assert (Hfuel : exists k, n = (length ins + S k)%nat).
  { exists (n - length ins - 1)%nat. unfold n. rewrite !length_app. cbn [length]. lia. }
  destruct Hfuel as [k ->]. erewrite bind_run; [reflexivity|]. rewrite E.
  unfold mbind, prog_bind. cbn [read_instrs]. unfold mbind, prog_bind, read_input.
  change (execInstrEOF =? instr_eof) with true. cbv iota. unfold mret, prog_ret. by rewrite app_nil_r.
Qed.

(** ** Properties *)

(** A longer table is written past the end of the executor's array. *)
Lemma flush_table_overflow (procid nsyscalls : Z) (disabled : Z -> bool) (props : prog (list Z) unit)
    (bodies : list Body) (p : Prog) :
  header_ok p -> kMaxVector < alen (table (Prog_FlushVector p)) ->
  exists s, decode procid nsyscalls disabled props (prog_words bodies p) = UB s.
Proof.
  intros Hp Ht. unfold decode. erewrite bind_run by reflexivity. unfold prog_words.
  destruct (table_loop_overflow (table (Prog_FlushVector p)) 0
    (calls_words (Prog_Schedule p) 0 (zip (Calls p) bodies) (∅, 0) ++ [execInstrEOF])) as [s E];
    [unfold kMaxVector in *; lia..|].
  exists s. unfold mbind at 1, prog_bind at 1. rewrite read_header_to_table by done.
  unfold mbind at 1, prog_bind at 1. by rewrite E.
Qed.

(** C25. The executor reads exactly what the fuzzer wrote.  For a program that
    passes the sanity test, whose calls have constant and result arguments
    only (no data, checksum or call property), with fields of their widths, at
    most nine arguments per call, at most 1000 results and at most 32 entries
    in its flush vector: when the words fit the buffer, serialisation
    succeeds, else it reports that the buffer is too small.  If the flush
    table has at most 32 entries too, decoding the words gives back the flush
    vector and table, and for every call in order its copy-ins, its number,
    arguments, thread, epoch and breakpoints, each breakpoint with the filter
    of its order, and the start of an epoch after the last call of it.  If the
    table has more entries, the executor writes past the end of its array. *)
Theorem wire_roundtrip (procid nsyscalls : Z) (disabled : Z -> bool) (props : prog (list Z) unit)
    (bodies : list Body) (size : Z) (p : Prog) :
  sanitizeRazzer p = Ret None p -> nsyscalls < 2 ^ 64 - 5 -> 0 <= size ->
  header_ok p -> length bodies = length (Calls p) ->
  calls_ok nsyscalls disabled (Prog_Schedule p) 0 (zip (Calls p) bodies) (∅, 0) ->
  (calls_index (zip (Calls p) bodies) (∅, 0)).2 <= execMaxCommands ->
  let ws := prog_words bodies p in
  SerializeForExec bodies size p = Ret (if decide (8 * alen ws <= size) then Some ws else None) p /\
  (alen (table (Prog_FlushVector p)) <= kMaxVector -> decode procid nsyscalls disabled props ws =
    Ret (fed p, calls_instrs procid (filter_read p) (Prog_Schedule p) 0 (zip (Calls p) bodies) (∅, 0)) []) /\
  (kMaxVector < alen (table (Prog_FlushVector p)) -> exists s, decode procid nsyscalls disabled props ws = UB s).
Proof.
  intros Hs Hn Hsize Hh Hlen Hok Hc. cbv zeta. rewrite (sanitize_then _ _ _ Hs). split_and!.
  - by eapply run_encoder_spec.
  - intros Ht. by apply decode_prog_words.
  - by apply flush_table_overflow.
Qed.

(** Two racing calls, the second of which uses the result of the first. *)
Definition wire_prog : Prog :=
  mk_prog [mk_call 0 0; mk_call 1 0] true [0; 1]
    (mk_schedule [mk_point 0 0xffffffff81000010 0; mk_point 1 dummyAddr 1] [0; 1])
    (mk_flush_vector [mk_table_entry 0xffffffff81000020 0; mk_table_entry 0xffffffff81000010 1] []) None.

Definition wire_bodies : list Body :=
  [mk_body 3 (Some 7) [(0x20000000, ConstArg 4 9 0 0 0 0)] [ConstArg 8 5 0 0 2 0] [];
   mk_body 4 None [] [ResultArg 4 0 7 0 0 (2 ^ 64 - 1)] []].

Ltac decide_ok :=
  repeat first [ apply Forall_nil; exact I | apply Forall_cons; split | split | exact I ];
  try (vm_compute; done); try (vm_compute; intuition (discriminate || done)).

Lemma wire_header_ok : header_ok wire_prog.
Proof. split; decide_ok. Qed.

Lemma wire_calls_ok : calls_ok 10 (fun _ => false) (Prog_Schedule wire_prog) 0 (zip (Calls wire_prog) wire_bodies) (∅, 0).
Proof.
  split; [|split; [|exact I]].
  - split; decide_ok.
  - split; decide_ok. exists 0. split; [vm_compute; reflexivity|decide_ok].
Qed.

(** The first call races with the second under one breakpoint each; the
    filter masks the second. *)
Definition wire_instrs : list instr :=
  [ICopyin 0x20000000 (arg_value 9) 4 0 0 0;
   ICall 3 0 (arg_value 7 :: replicate 8 (arg_value 0)) 0 0 [mk_schedule_t 0 0xffffffff81000010 0 0];
   ICall 4 (2 ^ 64 - 1) (arg_ref 0 0 0 (2 ^ 64 - 1) :: replicate 8 (arg_value 0)) 1 0
     [mk_schedule_t 1 dummyAddr 1 1];
   IEpoch].

Lemma wire_roundtrip_witness :
  exists ws, SerializeForExec wire_bodies 4096 wire_prog = Ret (Some ws) wire_prog /\
    decode 1 10 (fun _ => false) (mret tt) ws =
    Ret (([1], [mk_flush_entry 0xffffffff81000020 0; mk_flush_entry 0xffffffff81000010 1]), wire_instrs) [].
Proof.
  destruct (wire_roundtrip 1 10 (fun _ => false) (mret tt) wire_bodies 4096 wire_prog) as (E1 & E2 & _).
  - reflexivity.
  - lia.
  - lia.
  - exact wire_header_ok.
  - reflexivity.
  - exact wire_calls_ok.
  - vm_compute. discriminate.
  - exists (prog_words wire_bodies wire_prog). split.
    + rewrite E1. vm_compute. reflexivity.
    + rewrite E2; vm_compute; [reflexivity|discriminate].
Defined.
