(* ===== verification/Executor.v ===== *)
(** * The executor's threads and epochs (executor/executor.cc)

    The main thread of the executor hands the calls of a program to worker
    threads.  A call of a later epoch is parked; when an epoch starts, the
    parked calls of that epoch are resumed and all ready workers are released
    at once.  The file models the main thread: [schedule_call],
    [resume_pending_calls], [start_epoch] and the loop of [execute_one] over
    the instructions of ExecWire.

    Workers run concurrently with it.  What the main thread can see of a
    worker is when its call is done, so the model is given the [fate] of every
    call: done within the wait of its epoch, done before its thread is looked
    at again, or blocked for good.  Arguments and results are in Copyin, coverage
    and output in Output. *)

From stdpp Require Import base list gmap sets strings.
From Stdlib Require Import ZArith Lia.
From S2P Require Import Prelude ExecWire.

Local Open Scope Z_scope.
Local Open Scope record_scope.

Definition kMaxThreads : Z := 4.
Definition kMaxFallbackThreads : Z := 3.
Definition kMaxPendingThreads : Z := 1.

(** ** State *)

Record thread_t := mk_thread {
  th_id : Z;
  created : bool;
  ready : bool;
  done_ : bool;
  start : bool;
  executing : bool;
  call_index : Z;
  epoch : Z;
  num_sched : Z;
  sched : list schedule_t;
  pending_ : bool
}.

Record thread_set_t := mk_thread_set {
  set_ : list thread_t;
  pended : list thread_t;
  blocked : Z;
  pending : Z
}.

(** [started] lists, per epoch, the calls released together; [prepared] the
    arguments of [HCALL_PREPARE]; [dropped] the calls that were given up. *)
Record executor := mk_executor {
  threads : list thread_set_t;
  global_epoch : Z;
  running : Z;
  next_call : Z;
  started : list (list Z);
  prepared : list (Z * Z);
  dropped : list Z
}.

#[export] Instance thread_eta : Eta thread_t := fun t =>
  mk_thread (th_id t) (created t) (ready t) (done_ t) (start t) (executing t) (call_index t) (epoch t)
    (num_sched t) (sched t) (pending_ t).
#[export] Instance thread_set_eta : Eta thread_set_t := fun s =>
  mk_thread_set (set_ s) (pended s) (blocked s) (pending s).
#[export] Instance executor_eta : Eta executor := fun x =>
  mk_executor (threads x) (global_epoch x) (running x) (next_call x) (started x) (prepared x) (dropped x).

(** Static storage is zeroed. *)
Definition zero_thread : thread_t := mk_thread 0 false false false false false 0 0 0 [] false.
Definition zero_thread_set : thread_set_t := mk_thread_set (replicate 3 zero_thread) [zero_thread] 0 0.
Definition zero_executor : executor := mk_executor (replicate 4 zero_thread_set) 0 0 0 [] [] [].

Inductive fate := in_time | late | never.

(** A thread is addressed by the number of its set and its index there. *)
Definition get_set (i : Z) : prog executor thread_set_t :=
  l ← gets threads; deref "threads[i]" (aget l i).
Definition upd_set (i : Z) (g : thread_set_t -> thread_set_t) : prog executor unit :=
  s ← get_set i; modify (fun x => x <| threads ::= fun l => aset l i (g s) |>).

Definition get_th (i j : Z) : prog executor thread_t :=
  s ← get_set i; deref "set[j]" (aget (set_ s) j).
Definition upd_th (i j : Z) (g : thread_t -> thread_t) : prog executor unit :=
  t ← get_th i j;
  upd_set i (fun s => s <| set_ ::= fun l => aset l j (g t) |>).

(** ** Operations *)

(** [get_thread]: the index of the thread in front. *)
Definition get_thread (i : Z) : prog executor Z :=
  s ← get_set i;
  if kMaxFallbackThreads <=? blocked s then exit_ "out of threads" else mret (blocked s).

Definition thread_create (i j : Z) : prog executor unit :=
  upd_th i j (fun t => t <| created := true |> <| th_id := i |> <| executing := false |>
                         <| ready := false |> <| done_ := true |> <| start := false |>).

Definition run_in_epoch_ (epoch global : Z) : bool := u32 epoch <=? u32 global.

Definition run_in_epoch (t : thread_t) : prog executor bool :=
  g ← gets global_epoch; mret (run_in_epoch_ (epoch t) g).

Definition handle_completion (i j : Z) : prog executor unit :=
  t ← get_th i j;
  if ready t || negb (done_ t) || negb (executing t) then failmsg "bad thread state in completion"
  else
    upd_th i j (fun t => t <| executing := false |>);;
    modify (fun x => x <| running ::= fun n => n - 1 |>);;
    r ← gets running;
    if r <? 0 then exit_ "negative running" else mret tt.

(** What [prepare_thread] stores in a thread. *)
Definition prepare_thread (ci e ns : Z) (s : list schedule_t) (t : thread_t) : thread_t :=
  t <| done_ := false |> <| executing := true |> <| call_index := ci |> <| epoch := i32 e |>
    <| num_sched := ns |> <| sched := s |>.

(** [false]: the call is dropped. *)
Definition pending_call (ci thread e ns : Z) (sc : list schedule_t) : prog executor bool :=
  s ← get_set thread;
  if pending s =? kMaxPendingThreads then mret false
  else
    t ← deref "pended[idx]" (aget (pended s) (pending s));
    upd_set thread (fun s => s <| pended ::= fun l => aset l (pending s)
                                    (prepare_thread ci e ns sc t <| pending_ := true |>) |>
                               <| pending ::= fun n => n + 1 |>);;
    mret true.

(** The fallback thread that takes over; [None] when there is none. *)
Definition unhand_worker_thread (i j : Z) : prog executor (option Z) :=
  t ← get_th i j;
  if done_ t then mret (Some j)
  else
    let id := th_id t in
    s ← get_set id;
    if blocked s =? kMaxFallbackThreads then mret None
    else
      let idx := blocked s + 1 in
      upd_set id (fun s => s <| blocked := idx |>);;
      t' ← get_th id idx;
      if created t' then failmsg "bad thread state in get_thread"
      else thread_create id idx;; mret (Some idx).

Definition drop_call (ci : Z) : prog executor unit :=
  modify (fun x => x <| dropped ::= fun l => l ++ [ci] |>).

Section fates.
Context (fates : Z -> fate).

(** A call that is late is done by the time its thread is looked at again. *)
Definition worker_finishes (t : thread_t) : thread_t :=
  match fates (call_index t) with
  | late => if executing t && negb (ready t) then t <| done_ := true |> else t
  | _ => t
  end.

Definition schedule_call (ci thread e ns : Z) (sc : list schedule_t) : prog executor unit :=
  g ← gets global_epoch;
  if negb (run_in_epoch_ e g) then
    ok ← pending_call ci thread e ns sc;
    if (ok : bool) then mret tt else drop_call ci
  else
    j ← get_thread thread;
    t ← get_th thread j;
    (if negb (created t) then thread_create thread j else upd_th thread j worker_finishes);;
    t ← get_th thread j;
    o ← (if executing t then
           if done_ t then handle_completion thread j;; mret (Some j)
           else unhand_worker_thread thread j
         else mret (Some j));
    match o with
    | None => drop_call ci
    | Some j =>
        t ← get_th thread j;
        if ready t || negb (done_ t) || executing t then failmsg "bad thread state in schedule"
        else
          upd_th thread j (fun t => prepare_thread ci e ns sc t <| ready := true |>);;
          modify (fun x => x <| running ::= fun n => n + 1 |>)
    end.

(** The first parked call of a set. *)
Definition find_pended (l : list thread_t) : option thread_t := find pending_ (take 1 l).

Definition resume_pending_calls : prog executor unit :=
  foreach [0; 1; 2; 3] (fun i =>
    s ← get_set i;
    if pending s =? 0 then mret tt
    else match find_pended (pended s) with
    | None => mret tt
    | Some t =>
        ok ← run_in_epoch t;
        if negb ok then mret tt
        else
          upd_set i (fun s => s <| pended ::= fun l => aset l 0 (t <| pending_ := false |>) |>);;
          schedule_call (call_index t) i (u64 (epoch t)) (num_sched t) (sched t)
    end).

(** The breakpoints and the threads that are about to run with some. *)
Fixpoint count_sched (is_ : list Z) (n c : Z) : prog executor (Z * Z) :=
  match is_ with
  | [] => mret (n, c)
  | i :: is_ =>
      j ← get_thread i;
      t ← get_th i j;
      ok ← run_in_epoch t;
      if negb (created t) || negb (ready t) || (num_sched t =? 0) || negb ok then count_sched is_ n c
      else count_sched is_ (n + num_sched t) (c + 1)
  end.

Definition prepare_schedule : prog executor unit :=
  '(num_schedpoints, num_cpus) ← count_sched [0; 1; 2; 3] 0 0;
  if num_cpus =? 0 then mret tt
  else modify (fun x => x <| prepared ::= fun l => l ++ [(num_schedpoints, num_cpus)] |>).

(** The first loop of [start_epoch]: the calls released. *)
Fixpoint release (is_ : list Z) : prog executor (list Z) :=
  match is_ with
  | [] => mret []
  | i :: is_ =>
      j ← get_thread i;
      t ← get_th i j;
      if created t && ready t then
        if start t || done_ t || negb (executing t) then failmsg "bad thread state in start_epoch"
        else
          upd_th i j (fun t => t <| start := true |>);;
          l ← release is_;
          mret (call_index t :: l)
      else release is_
  end.

(** A released worker resets [start] and [ready] and runs its call. *)
Definition worker_starts (t : thread_t) : thread_t :=
  if start t then t <| start := false |> <| ready := false |> else t.

(** The call is done by the end of the wait: one that is late only when it
    was started in an earlier epoch. *)
Definition done_by_now (t : thread_t) : bool :=
  match fates (call_index t) with
  | in_time => true
  | late => negb (start t)
  | never => false
  end.

(** The second loop: wait for each executing thread. *)
Definition wait_thread (i : Z) : prog executor unit :=
  j ← get_thread i;
  t ← get_th i j;
  if created t && executing t then
    let isdone := done_by_now t in
    upd_th i j (fun t => worker_starts t <| done_ := isdone |>);;
    ok ← run_in_epoch t;
    if isdone && ok then handle_completion i j else mret tt
  else mret tt.

Definition start_epoch : prog executor unit :=
  prepare_schedule;;
  l ← release [0; 1; 2; 3];
  modify (fun x => x <| started ::= fun s => s ++ [l] |>);;
  foreach [0; 1; 2; 3] wait_thread;;
  modify (fun x => x <| global_epoch ::= fun n => n + 1 |>).

Definition exec_instr (i : instr) : prog executor unit :=
  match i with
  | IEpoch => resume_pending_calls;; start_epoch
  | ICall _ _ _ thread e sc =>
      ci ← gets next_call;
      modify (fun x => x <| next_call := ci + 1 |>);;
      schedule_call ci thread e (alen sc) sc
  | ICopyin _ _ _ _ _ _ | ICopyout | ISetProps => mret tt
  end.

(** [prepare_kssb] creates the first worker threads. *)
Definition prepare_kssb (flag_turn_on_kssb : bool) : prog executor unit :=
  foreach (if flag_turn_on_kssb then [0; 1] else [0]) (fun i =>
    j ← get_thread i;
    t ← get_th i j;
    if negb (created t) then thread_create i j else mret tt).

(** The last wait, with the calls that are not blocked done. *)
Definition wait_unfinished : prog executor unit :=
  r ← gets running;
  if 0 <? r then
    foreach [0; 1; 2; 3] (fun i => foreach [0; 1; 2] (fun j =>
      t ← get_th i j;
      if negb (created t) then mret tt
      else
        upd_th i j worker_finishes;;
        t ← get_th i j;
        if executing t && done_ t then handle_completion i j else mret tt))
  else mret tt.

Definition execute_one (flag_turn_on_kssb : bool) (is_ : list instr) : prog executor unit :=
  prepare_kssb flag_turn_on_kssb;; foreach is_ exec_instr;; wait_unfinished.
End fates.
