(* ===== verification/ExecutorSpec.v ===== *)
(** * The executor runs the contenders together

    On the instructions of a threaded program whose calls finish in time, the
    executor releases every call alone and in order, except the two
    contenders, which it releases at the same moment. *)

From stdpp Require Import base list gmap sets strings.
From Stdlib Require Import ZArith Lia.
From S2P Require Import Prelude Hints Threading ThreadingSpec ExecWire ExecWireSpec Executor.

Local Open Scope Z_scope.
Local Open Scope record_scope.

(** ** The states such a program goes through

    Only the front threads of the first two sets are used, and the place for a
    parked call of the first. *)

Definition shape (t0 t1 pd : thread_t) (pn e r nc : Z) (st : list (list Z)) (pr : list (Z * Z)) : executor :=
  mk_executor [mk_thread_set [t0; zero_thread; zero_thread] [pd] 0 pn;
               mk_thread_set [t1; zero_thread; zero_thread] [zero_thread] 0 0;
               zero_thread_set; zero_thread_set] e r nc st pr [].

(** A thread with nothing to do, and one about to run a call. *)
Definition rests (t : thread_t) : Prop :=
  executing t = false /\ ready t = false /\ (created t = true -> done_ t = true /\ start t = false).

Definition armed (ci e ns : Z) (t : thread_t) : Prop :=
  created t = true /\ ready t = true /\ done_ t = false /\ start t = false /\ executing t = true /\
  call_index t = ci /\ epoch t = i32 e /\ num_sched t = ns.

(** Symbolic execution on states of known shape. *)
Ltac run := cbv -[run_in_epoch_ wraps wrapu Z.add app].

Section in_time.
Context (fates : Z -> fate) (Hfates : forall c, fates c = in_time).

Lemma schedule_first t0 t1 pd pn e r nc st pr ci ep ns sc :
  rests t0 -> run_in_epoch_ ep e = true ->
  exists t0', armed ci ep ns t0' /\
    schedule_call fates ci 0 ep ns sc (shape t0 t1 pd pn e r nc st pr) =
    Ret tt (shape t0' t1 pd pn e (r + 1) nc st pr).
Proof.
  intros (Hx & Hr & Hc) He. destruct t0 as [id cr rd dn sta ex c0 e0 n0 s0 p0]. cbn in *. subst.
  destruct cr.
  - destruct (Hc eq_refl) as [-> ->]. eexists. split; [|].
    2:{ run. rewrite He, Hfates. reflexivity. }
    done.
  - eexists. split; [|]. 2:{ run. rewrite He. reflexivity. } done.
Qed.

Lemma schedule_second t0 t1 pd pn e r nc st pr ci ep ns sc :
  rests t1 -> run_in_epoch_ ep e = true ->
  exists t1', armed ci ep ns t1' /\
    schedule_call fates ci 1 ep ns sc (shape t0 t1 pd pn e r nc st pr) =
    Ret tt (shape t0 t1' pd pn e (r + 1) nc st pr).
Proof.
  intros (Hx & Hr & Hc) He. destruct t1 as [id cr rd dn sta ex c0 e0 n0 s0 p0]. cbn in *. subst.
  destruct cr.
  - destruct (Hc eq_refl) as [-> ->]. eexists. split; [|].
    2:{ run. rewrite He, Hfates. reflexivity. }
    done.
  - eexists. split; [|]. 2:{ run. rewrite He. reflexivity. } done.
Qed.

(** The parked call: none, or one of a later epoch, or one resumed before. *)
Definition parked (ci ep ns : Z) (pd : thread_t) : Prop :=
  pending_ pd = true /\ call_index pd = ci /\ epoch pd = i32 ep /\ num_sched pd = ns.

Lemma park_first t0 t1 pd e r nc st pr ci ep ns sc :
  run_in_epoch_ ep e = false ->
  exists pd', parked ci ep ns pd' /\
    schedule_call fates ci 0 ep ns sc (shape t0 t1 pd 0 e r nc st pr) =
    Ret tt (shape t0 t1 pd' 1 e r nc st pr).
Proof.
  intros He. eexists. split; [|]. 2:{ run. rewrite He. reflexivity. } done.
Qed.

(** Nothing to resume. *)
Definition undue (e : Z) (pd : thread_t) (pn : Z) : Prop :=
  pn = 0 \/ pending_ pd = false \/ run_in_epoch_ (epoch pd) e = false.

Lemma resume_nothing t0 t1 pd pn e r nc st pr :
  0 <= pn <= 1 -> undue e pd pn ->
  resume_pending_calls fates (shape t0 t1 pd pn e r nc st pr) = Ret tt (shape t0 t1 pd pn e r nc st pr).
Proof.
  intros Hpn Hu. assert (pn = 0 \/ pn = 1) as [->| ->] by lia; [reflexivity|].
  destruct pd as [id cr rd dn sta ex c0 e0 n0 s0 p0]. destruct Hu as [?|[Hp|Hp]]; [lia| |]; cbn in Hp.
  - subst. reflexivity.
  - destruct p0; [|reflexivity]. run. by rewrite Hp.
Qed.

Lemma resume_first t0 t1 pd e r nc st pr ci ep ns :
  rests t0 -> parked ci ep ns pd -> run_in_epoch_ (i32 ep) e = true -> run_in_epoch_ (u64 (i32 ep)) e = true ->
  exists t0' pd', armed ci (u64 (i32 ep)) ns t0' /\ pending_ pd' = false /\
    resume_pending_calls fates (shape t0 t1 pd 1 e r nc st pr) =
    Ret tt (shape t0' t1 pd' 1 e (r + 1) nc st pr).
Proof.
  intros (Hx & Hr & Hc) (Hp & Hci & Hep & Hns) He He'.
  destruct t0 as [id cr rd dn sta ex c0 e0 n0 s0 p0], pd as [id' cr' rd' dn' sta' ex' c' e' n' s' p']. cbn in *. subst.
  destruct cr.
  - destruct (Hc eq_refl) as [-> ->]. eexists _, _. split; [|split].
    3:{ run. rewrite He, He', Hfates. reflexivity. }
    all: done.
  - eexists _, _. split; [|split]. 3:{ run. rewrite He, He'. reflexivity. } all: done.
Qed.

(** [HCALL_PREPARE] is made for the threads with breakpoints. *)
Definition prepare_of (ns : list Z) : list (Z * Z) :=
  match List.filter (fun n => negb (n =? 0)) ns with
  | [] => []
  | l => [(foldl Z.add 0 l, alen l)]
  end.

(** The thread in front of set [i]. *)
Definition front (x : executor) (i : Z) (t : thread_t) : Prop :=
  get_thread i x = Ret 0 x /\ get_th i 0 x = Ret t x.

Lemma count_skip x i t is_ n c :
  front x i t -> rests t \/ num_sched t = 0 -> count_sched (i :: is_) n c x = count_sched is_ n c x.
Proof.
  intros [H1 H2] Ht. cbn [count_sched]. rewrite (bind_run _ _ _ _ _ H1), (bind_run _ _ _ _ _ H2).
  unfold run_in_epoch. erewrite bind_run by reflexivity.
  destruct Ht as [(_ & -> & _)| ->]; [by rewrite orb_true_r|]. by rewrite Z.eqb_refl, orb_true_r.
Qed.

Lemma count_add x i t ci ep ns is_ n c :
  front x i t -> armed ci ep ns t -> ns <> 0 -> run_in_epoch_ (i32 ep) (global_epoch x) = true ->
  count_sched (i :: is_) n c x = count_sched is_ (n + ns) (c + 1) x.
Proof.
  intros [H1 H2] (Hc & Hr & _ & _ & _ & _ & He & Hn) Hns Hrun. cbn [count_sched].
  rewrite (bind_run _ _ _ _ _ H1), (bind_run _ _ _ _ _ H2).
  unfold run_in_epoch. erewrite bind_run by reflexivity. rewrite Hc, Hr, He, Hrun, Hn.
  destruct (Z.eqb_spec ns 0); [done|]. done.
Qed.

(** What a front thread adds to the count: nothing, or its breakpoints. *)
Definition adds (e : Z) (t : thread_t) (ns : list Z) : Prop :=
  (rests t /\ ns = []) \/
  (exists ci ep n, armed ci ep n t /\ run_in_epoch_ (i32 ep) e = true /\ ns = [n]).

Lemma count_thread_adds x i t is_ n c ns :
  front x i t -> adds (global_epoch x) t ns ->
  let l := List.filter (fun n => negb (n =? 0)) ns in
  count_sched (i :: is_) n c x = count_sched is_ (foldl Z.add n l) (c + alen l) x.
Proof.
  intros Hf [[Hr ->]|(ci & ep & m & Ha & He & ->)].
  - cbn. rewrite Z.add_0_r. eapply count_skip; eauto.
  - cbn. destruct (Z.eqb_spec m 0) as [->|Hm]; cbn.
    + rewrite Z.add_0_r. eapply count_skip; [done|]. right. apply Ha.
    + eapply count_add; eauto.
Qed.

Lemma prepare_adds t0 t1 pd pn e r nc st pr n0 n1 :
  adds e t0 n0 -> adds e t1 n1 ->
  prepare_schedule (shape t0 t1 pd pn e r nc st pr) =
  Ret tt (shape t0 t1 pd pn e r nc st (pr ++ prepare_of (n0 ++ n1))).
Proof.
  intros H0 H1. set (x := shape t0 t1 pd pn e r nc st pr).
  assert (Hz : forall ns, rests zero_thread \/ num_sched zero_thread = ns) by (left; done).
  unfold prepare_schedule. erewrite bind_run; cycle 1.
  { rewrite (count_thread_adds x 0 t0 _ _ _ n0) by done. rewrite (count_thread_adds x 1 t1 _ _ _ n1) by done.
    rewrite (count_skip x 2 zero_thread), (count_skip x 3 zero_thread) by done. reflexivity. }
  unfold prepare_of. rewrite List.filter_app. set (l0 := List.filter _ n0). set (l1 := List.filter _ n1).
  cbv beta iota. rewrite <- foldl_app, Z.add_0_l, <- alen_app.
  destruct (l0 ++ l1) as [|y l]; cbn [alen length].
  - rewrite app_nil_r. done.
  - rewrite alen_cons. destruct (Z.eqb_spec (1 + alen l) 0); [pose proof (alen_nonneg l); lia|]. done.
Qed.

Lemma armed_adds e ci ep ns t : armed ci ep ns t -> run_in_epoch_ (i32 ep) e = true -> adds e t [ns].
Proof. intros. right. eauto 7. Qed.

Lemma rests_adds e t : rests t -> adds e t [].
Proof. intros. by left. Qed.

(** An epoch with one call, or with one on each thread. *)
Lemma start_first t0 t1 pd pn e nc st pr ci ep ns :
  armed ci ep ns t0 -> rests t1 -> run_in_epoch_ (i32 ep) e = true ->
  exists t0', rests t0' /\
    start_epoch fates (shape t0 t1 pd pn e 1 nc st pr) =
    Ret tt (shape t0' t1 pd pn (e + 1) 0 nc (st ++ [[ci]]) (pr ++ prepare_of [ns])).
Proof.
  intros Ha Hr He. unfold start_epoch. setoid_rewrite (bind_run _ _ _ _ _ (prepare_adds t0 t1 pd pn e 1 nc st pr [ns] []
    (armed_adds _ _ _ _ _ Ha He) (rests_adds e _ Hr))).
  cbn [app]. generalize (pr ++ prepare_of [ns]). intros pr'.
  destruct Ha as (H1 & H2 & H3 & H4 & H5 & H6 & H7 & H8), Hr as (Hx & Hr & Hc).
  destruct t0 as [id cr rd dn sta ex c0 e0 n0 s0 p0], t1 as [id' cr' rd' dn' sta' ex' c' e' n' s' p']. cbn in *. subst.
  eexists. split; [|]. 2:{ destruct cr'; run; rewrite Hfates, He; reflexivity. } done.
Qed.

Lemma start_second t0 t1 pd pn e nc st pr ci ep ns :
  rests t0 -> armed ci ep ns t1 -> run_in_epoch_ (i32 ep) e = true ->
  exists t1', rests t1' /\
    start_epoch fates (shape t0 t1 pd pn e 1 nc st pr) =
    Ret tt (shape t0 t1' pd pn (e + 1) 0 nc (st ++ [[ci]]) (pr ++ prepare_of [ns])).
Proof.
  intros Hr Ha He. unfold start_epoch. setoid_rewrite (bind_run _ _ _ _ _ (prepare_adds t0 t1 pd pn e 1 nc st pr [] [ns]
    (rests_adds e _ Hr) (armed_adds _ _ _ _ _ Ha He))).
  cbn [app]. generalize (pr ++ prepare_of [ns]). intros pr'.
  destruct Ha as (H1 & H2 & H3 & H4 & H5 & H6 & H7 & H8), Hr as (Hx & Hr & Hc).
  destruct t1 as [id cr rd dn sta ex c0 e0 n0 s0 p0], t0 as [id' cr' rd' dn' sta' ex' c' e' n' s' p']. cbn in *. subst.
  eexists. split; [|]. 2:{ destruct cr'; run; rewrite Hfates, He; reflexivity. } done.
Qed.

Lemma start_both t0 t1 pd pn e nc st pr c0 e0 n0 c1 e1 n1 :
  armed c0 e0 n0 t0 -> armed c1 e1 n1 t1 ->
  run_in_epoch_ (i32 e0) e = true -> run_in_epoch_ (i32 e1) e = true ->
  exists t0' t1', rests t0' /\ rests t1' /\
    start_epoch fates (shape t0 t1 pd pn e 2 nc st pr) =
    Ret tt (shape t0' t1' pd pn (e + 1) 0 nc (st ++ [[c0; c1]]) (pr ++ prepare_of [n0; n1])).
Proof.
  intros Ha0 Ha1 He0 He1. unfold start_epoch.
  setoid_rewrite (bind_run _ _ _ _ _ (prepare_adds t0 t1 pd pn e 2 nc st pr [n0] [n1]
    (armed_adds _ _ _ _ _ Ha0 He0) (armed_adds _ _ _ _ _ Ha1 He1))).
  cbn [app]. generalize (pr ++ prepare_of [n0; n1]). intros pr'.
  destruct Ha0 as (H1 & H2 & H3 & H4 & H5 & H6 & H7 & H8), Ha1 as (G1 & G2 & G3 & G4 & G5 & G6 & G7 & G8).
  destruct t0 as [id cr rd dn sta ex c0' e0' n0' s0 p0], t1 as [id' cr' rd' dn' sta' ex' c' e' n' s' p']. cbn in *. subst.
  eexists _, _. split; [|split]. 3:{ run; rewrite Hfates, He0; change (2 + -1) with 1; cbv beta iota; rewrite Hfates, He1; reflexivity. } all: done.
Qed.

(** ** Blocks of instructions *)

Lemma foreach_app {W A} (l1 l2 : list A) (f : A -> prog W unit) w :
  foreach (l1 ++ l2) f w = (foreach l1 f ;; foreach l2 f) w.
Proof.
  revert w. induction l1 as [|x l1 IH]; intros w; [done|]. cbn [app foreach].
  unfold mbind, prog_bind. destruct (f x w) as [[] w'| | |]; done || apply IH.
Qed.

Lemma seq_ext {W} (m m' f g : prog W unit) w :
  m w = m' w -> (forall w', f w' = g w') -> (m;; f) w = (m';; g) w.
Proof. unfold mbind, prog_bind. intros -> H. destruct (m' w); done || apply H. Qed.

Lemma foreach_nothing l x :
  Forall (fun i => exec_instr fates i = mret tt) l -> foreach l (exec_instr fates) x = Ret tt x.
Proof. induction 1 as [|i l Hi _ IH]; [done|]. cbn [foreach]. rewrite Hi. exact IH. Qed.

Lemma body_run procid filter sched0 ci c bd ist x :
  foreach (body_instrs procid filter sched0 ci c bd ist) (exec_instr fates) x =
  (k ← gets next_call; modify (fun x => x <| next_call := k + 1 |>);;
   schedule_call fates k (Call_Thread c) (Call_Epoch c)
     (Z.min kMaxSchedule (alen (points_of sched0 ci)))
     (take (Z.to_nat kMaxSchedule) (point_read filter (Call_Thread c) <$> points_of sched0 ci))) x.
Proof.
  unfold body_instrs. rewrite foreach_app. erewrite bind_run; cycle 1.
  { apply foreach_nothing. apply Forall_fmap, Forall_true. intros [ad [|]]; done. }
  cbn [app foreach]. set (sc := take _ _).
  replace (Z.min kMaxSchedule (alen (points_of sched0 ci))) with (alen sc) by
    (unfold sc, alen; rewrite length_take, length_fmap; unfold kMaxSchedule; lia).
  unfold mbind at 1, prog_bind at 1. cbn [exec_instr].
  destruct ((k ← gets next_call; modify _;; schedule_call _ _ _ _ _ _) x) as [[] x'| | |]; try done.
  apply foreach_nothing. apply Forall_fmap, Forall_true. done.
Qed.

Lemma run_in_epoch_le ep e :
  0 <= ep < 2 ^ 31 -> 0 <= e < 2 ^ 31 -> run_in_epoch_ ep e = (ep <=? e).
Proof. intros H1 H2. unfold run_in_epoch_. by rewrite !wrapu_id by lia. Qed.

Lemma i32_id ep : 0 <= ep < 2 ^ 31 -> i32 ep = ep.
Proof. intros H. apply wraps_id; [lia|]. change (2 ^ (32 - 1)) with (2 ^ 31). lia. Qed.

(** ** The run of a threaded program *)

Context (a b n : Z) (Hab : 0 <= a < b) (Hbn : b < n) (Hn : n < 2 ^ 31) (ns : Z -> Z).

(** The state before call [k]. *)
Inductive before (k : Z) (st : list (list Z)) (pr : list (Z * Z)) : executor -> Prop :=
| before_first t0 t1 pd :
    0 <= k <= a -> rests t0 -> rests t1 -> before k st pr (shape t0 t1 pd 0 k 0 k st pr)
| before_ready t0 t1 pd :
    k = b -> b = a + 1 -> armed a (b - 1) (ns a) t0 -> rests t1 ->
    before k st pr (shape t0 t1 pd 0 (k - 1) 1 k st pr)
| before_parked t0 t1 pd :
    a < k <= b -> a + 1 < b -> parked a (b - 1) (ns a) pd -> rests t0 -> rests t1 ->
    before k st pr (shape t0 t1 pd 1 (k - 1) 0 k st pr)
| before_last t0 t1 pd pn :
    b < k -> 0 <= pn <= 1 -> pn = 0 \/ pending_ pd = false -> rests t0 -> rests t1 ->
    before k st pr (shape t0 t1 pd pn (k - 1) 0 k st pr).

(** The calls released at [k], and the breakpoints prepared for them. *)
Definition releases (k : Z) : list (list Z) := if k =? a then [] else if k =? b then [[a; b]] else [[k]].
Definition prepares (k : Z) : list (Z * Z) :=
  if k =? a then [] else if k =? b then prepare_of [ns a; ns b] else prepare_of [ns k].

(** One call and, unless it waits for the other contender, its epoch. *)
Definition block (k : Z) (sc : list schedule_t) : prog executor unit :=
  let c := threaded_call a b (Z.to_nat k) in
  (i ← gets next_call; modify (fun x => x <| next_call := i + 1 |>);;
   schedule_call fates i (Call_Thread c) (Call_Epoch c) (ns k) sc);;
  if k =? a then mret tt else exec_instr fates IEpoch.

(** The call and its place by comparing [k] with the contenders. *)
Ltac open_block k :=
  unfold block, threaded_call, releases, prepares; cbv zeta; rewrite Z2Nat.id by lia;
  destruct (Z.ltb_spec k a), (Z.eqb_spec k a), (Z.eqb_spec k b); try lia; subst; cbn [Call_Thread Call_Epoch].

Ltac epochs := rewrite ?(i32_id (b - 1)), ?wrapu_id, ?i32_id by lia; rewrite run_in_epoch_le by lia; lia.

Lemma block_first k sc st pr t0 t1 pd :
  0 <= k < a -> rests t0 -> rests t1 ->
  exists x', block k sc (shape t0 t1 pd 0 k 0 k st pr) = Ret tt x' /\
    before (k + 1) (st ++ releases k) (pr ++ prepares k) x'.
Proof.
  intros Hk H0 H1. open_block k.
  destruct (schedule_first t0 t1 pd 0 k 0 (k + 1) st pr k k (ns k) sc H0) as (t0' & Ha & E); [epochs|].
  erewrite bind_run by exact E. cbn [exec_instr].
  rewrite (bind_run _ _ _ _ _ (resume_nothing t0' t1 pd 0 k (0 + 1) (k + 1) st pr ltac:(lia) ltac:(by left))).
  destruct (start_first t0' t1 pd 0 k (k + 1) st pr k k (ns k)) as (t0'' & Hr & E'); [done..|epochs|].
  eexists. split; [exact E'|]. constructor; done || lia.
Qed.

Lemma block_former sc st pr t0 t1 pd :
  rests t0 -> rests t1 ->
  exists x', block a sc (shape t0 t1 pd 0 a 0 a st pr) = Ret tt x' /\
    before (a + 1) (st ++ releases a) (pr ++ prepares a) x'.
Proof.
  intros H0 H1. open_block a. rewrite !app_nil_r. destruct (Z.eq_dec b (a + 1)) as [Hb|Hb].
  - destruct (schedule_first t0 t1 pd 0 a 0 (a + 1) st pr a (b - 1) (ns a) sc H0) as (t0' & Ha & E); [epochs|].
    erewrite bind_run by exact E. eexists. split; [reflexivity|].
    replace (shape t0' t1 pd 0 a (0 + 1) (a + 1) st pr) with (shape t0' t1 pd 0 (a + 1 - 1) 1 (a + 1) st pr)
      by (f_equal; lia).
    by apply before_ready.
  - destruct (park_first t0 t1 pd a 0 (a + 1) st pr a (b - 1) (ns a) sc) as (pd' & Hp & E); [epochs|].
    erewrite bind_run by exact E. eexists. split; [reflexivity|].
    replace (shape t0 t1 pd' 1 a 0 (a + 1) st pr) with (shape t0 t1 pd' 1 (a + 1 - 1) 0 (a + 1) st pr)
      by (f_equal; lia).
    apply before_parked; done || lia.
Qed.

Lemma block_alone k sc st pr t0 t1 pd pn :
  a < k < n -> k <> b -> 0 <= pn <= 1 -> undue (k - 1) pd pn -> rests t0 -> rests t1 ->
  exists t1', rests t1' /\
    block k sc (shape t0 t1 pd pn (k - 1) 0 k st pr) =
    Ret tt (shape t0 t1' pd pn (k + 1 - 1) 0 (k + 1) (st ++ releases k) (pr ++ prepares k)).
Proof.
  intros Hk Hkb Hpn Hu H0 H1. open_block k.
  destruct (schedule_second t0 t1 pd pn (k - 1) 0 (k + 1) st pr k (k - 1) (ns k) sc H1) as (t1' & Ha & E); [epochs|].
  erewrite bind_run by exact E. cbn [exec_instr].
  rewrite (bind_run _ _ _ _ _ (resume_nothing t0 t1' pd pn (k - 1) (0 + 1) (k + 1) st pr Hpn Hu)).
  destruct (start_second t0 t1' pd pn (k - 1) (k + 1) st pr k (k - 1) (ns k)) as (t1'' & Hr & E'); [done..|epochs|].
  exists t1''. split; [done|]. replace (k + 1 - 1) with (k - 1 + 1) by lia. exact E'.
Qed.

Lemma block_race_ready sc st pr t0 t1 pd :
  b = a + 1 -> armed a (b - 1) (ns a) t0 -> rests t1 ->
  exists x', block b sc (shape t0 t1 pd 0 (b - 1) 1 b st pr) = Ret tt x' /\
    before (b + 1) (st ++ releases b) (pr ++ prepares b) x'.
Proof.
  intros Hb Ha0 H1.
  assert (E1 := schedule_second t0 t1 pd 0 (b - 1) 1 (b + 1) st pr b (b - 1) (ns b) sc H1).
  destruct E1 as (t1' & Ha & E); [epochs|].
  destruct (start_both t0 t1' pd 0 (b - 1) (b + 1) st pr a (b - 1) (ns a) b (b - 1) (ns b))
    as (t0'' & t1'' & Hr0 & Hr1 & E'); [done..|epochs|epochs|].
  unfold block, threaded_call, releases, prepares. cbv zeta. rewrite Z2Nat.id by lia.
  destruct (Z.ltb_spec b a), (Z.eqb_spec b a); [lia..|]. rewrite Z.eqb_refl. cbn [Call_Thread Call_Epoch].
  erewrite bind_run by exact E. cbn [exec_instr].
  rewrite (bind_run _ _ _ _ _ (resume_nothing t0 t1' pd 0 (b - 1) (1 + 1) (b + 1) st pr ltac:(lia) ltac:(by left))).
  eexists. split; [exact E'|]. replace (b - 1 + 1) with (b + 1 - 1) by lia.
  apply before_last; try done; lia || by left.
Qed.

Lemma block_race_parked sc st pr t0 t1 pd :
  a + 1 < b -> parked a (b - 1) (ns a) pd -> rests t0 -> rests t1 ->
  exists x', block b sc (shape t0 t1 pd 1 (b - 1) 0 b st pr) = Ret tt x' /\
    before (b + 1) (st ++ releases b) (pr ++ prepares b) x'.
Proof.
  intros Hb Hp H0 H1.
  destruct (schedule_second t0 t1 pd 1 (b - 1) 0 (b + 1) st pr b (b - 1) (ns b) sc H1) as (t1' & Ha & E); [epochs|].
  destruct (resume_first t0 t1' pd (b - 1) (0 + 1) (b + 1) st pr a (b - 1) (ns a)) as (t0' & pd' & Ha0 & Hpd & E0);
    [done..|epochs|epochs|].
  destruct (start_both t0' t1' pd' 1 (b - 1) (b + 1) st pr a _ (ns a) b (b - 1) (ns b) Ha0 Ha)
    as (t0'' & t1'' & Hr0 & Hr1 & E'); [epochs..|].
  unfold block, threaded_call, releases, prepares. cbv zeta. rewrite Z2Nat.id by lia.
  destruct (Z.ltb_spec b a), (Z.eqb_spec b a); [lia..|]. rewrite Z.eqb_refl. cbn [Call_Thread Call_Epoch].
  erewrite bind_run by exact E. cbn [exec_instr]. rewrite (bind_run _ _ _ _ _ E0).
  eexists. split; [exact E'|]. replace (b - 1 + 1) with (b + 1 - 1) by lia.
  apply before_last; try done; lia || by right.
Qed.

Lemma block_step k sc st pr x :
  k < n -> before k st pr x ->
  exists x', block k sc x = Ret tt x' /\ before (k + 1) (st ++ releases k) (pr ++ prepares k) x'.
Proof.
  intros Hk [t0 t1 pd Hr H0 H1|t0 t1 pd -> Hb Ha H1|t0 t1 pd Hr Hb Hp H0 H1|t0 t1 pd pn Hr Hpn Hu H0 H1].
  - destruct (Z.eq_dec k a) as [->|]; [by apply block_former|]. apply block_first; done || lia.
  - by apply block_race_ready.
  - destruct (Z.eq_dec k b) as [->|]; [by apply block_race_parked|].
    destruct (block_alone k sc st pr t0 t1 pd 1) as (t1' & H1' & E); try done; [lia..| |].
    { right. right. destruct Hp as (_ & _ & -> & _). epochs. }
    eexists. split; [exact E|]. apply before_parked; done || lia.
  - destruct (block_alone k sc st pr t0 t1 pd pn) as (t1' & H1' & E); try done; [lia..| |].
    { destruct Hu; [by left|]. by right; left. }
    eexists. split; [exact E|]. apply before_last; done || lia.
Qed.

(** Only the earlier contender leaves its epoch open. *)
Lemma ends_threaded k :
  0 <= k < n ->
  ends_epoch (threaded_call a b (Z.to_nat k)) (drop (S (Z.to_nat k)) (threaded_calls a b (Z.to_nat n))) = negb (k =? a).
Proof.
  intros Hk. unfold ends_epoch. f_equal. apply eq_true_iff_eq. rewrite existsb_exists, Z.eqb_eq. split.
  - intros (c & Hc & E). apply list_elem_of_In, list_elem_of_lookup in Hc as [i Hi].
    rewrite lookup_drop in Hi. unfold threaded_calls in Hi. rewrite list_lookup_fmap in Hi.
    apply fmap_Some in Hi as (j & [-> Hj]%lookup_seq & ->). apply Z.eqb_eq in E. revert E. unfold threaded_call.
    destruct (Z.ltb_spec (Z.of_nat (Z.to_nat k)) a), (Z.eqb_spec (Z.of_nat (Z.to_nat k)) a),
      (Z.ltb_spec (Z.of_nat (0 + (S (Z.to_nat k) + i))) a), (Z.eqb_spec (Z.of_nat (0 + (S (Z.to_nat k) + i))) a);
      cbn [Call_Epoch]; lia.
  - intros ->. exists (threaded_call a b (Z.to_nat b)). split.
    + apply list_elem_of_In, list_elem_of_lookup. exists (Z.to_nat b - S (Z.to_nat a))%nat.
      rewrite lookup_drop. unfold threaded_calls. rewrite list_lookup_fmap, lookup_seq_lt by lia. cbn. do 2 f_equal. lia.
    + unfold threaded_call. rewrite !Z2Nat.id by lia. rewrite Z.ltb_irrefl, Z.eqb_refl.
      destruct (Z.ltb_spec b a), (Z.eqb_spec b a); cbn [Call_Epoch]; lia.
Qed.

Lemma block_run procid filter sched0 k bd ist later x :
  0 <= k < n -> ns k = Z.min kMaxSchedule (alen (points_of sched0 k)) ->
  later = drop (S (Z.to_nat k)) (threaded_calls a b (Z.to_nat n)) ->
  let c := threaded_call a b (Z.to_nat k) in
  foreach (body_instrs procid filter sched0 k c bd ist ++ (if ends_epoch c later then [IEpoch] else []))
    (exec_instr fates) x =
  block k (take (Z.to_nat kMaxSchedule) (point_read filter (Call_Thread c) <$> points_of sched0 k)) x.
Proof.
  intros Hk Hns -> c. subst c. rewrite ends_threaded by done. rewrite foreach_app. unfold block. cbv zeta. rewrite Hns.
  apply seq_ext; [apply body_run|]. intros x'.
  destruct (k =? a); cbn [negb]; [done|]. cbn [foreach]. unfold mbind, prog_bind.
  destruct (exec_instr fates IEpoch x') as [[] ?| | |]; done.
Qed.

Lemma calls_run procid filter sched0 :
  (forall k, ns k = Z.min kMaxSchedule (alen (points_of sched0 k))) ->
  forall rest k ist st pr x,
  0 <= k -> k + alen rest = n -> rest.*1 = drop (Z.to_nat k) (threaded_calls a b (Z.to_nat n)) ->
  before k st pr x ->
  exists x', foreach (calls_instrs procid filter sched0 k rest ist) (exec_instr fates) x = Ret tt x' /\
    before n (st ++ (seqZ k (alen rest) ≫= releases)) (pr ++ (seqZ k (alen rest) ≫= prepares)) x'.
Proof.
  intros Hns. induction rest as [|[c bd] rest IH]; intros k ist st pr x Hk Hlen Hc Hx.
  { exists x. split; [done|]. change (alen []) with 0 in *. cbn. rewrite !app_nil_r. by replace n with k by lia. }
  rewrite alen_cons in Hlen. pose proof (alen_nonneg rest).
  assert (Hlk : threaded_calls a b (Z.to_nat n) !! Z.to_nat k = Some (threaded_call a b (Z.to_nat k))).
  { unfold threaded_calls. by rewrite list_lookup_fmap, lookup_seq_lt by lia. }
  rewrite (drop_S _ _ _ Hlk) in Hc. cbn [fmap list_fmap] in Hc. injection Hc as Hc Hrest. cbn in Hc. subst c.
  cbn [calls_instrs]. rewrite app_assoc, foreach_app.
  destruct (block_step k (take (Z.to_nat kMaxSchedule)
    (point_read filter (Call_Thread (threaded_call a b (Z.to_nat k))) <$> points_of sched0 k)) st pr x)
    as (x1 & E1 & Hx1); [lia|done|].
  rewrite <- (block_run procid filter sched0 k bd ist rest.*1) in E1 by (done || lia).
  rewrite (bind_run _ _ _ _ _ E1). rewrite alen_cons, (seqZ_cons k) by lia. cbn [mbind list_bind].
  rewrite !app_assoc. replace (Z.pred (1 + alen rest)) with (alen rest) by lia.
  apply IH; [lia..| |done]. rewrite Hrest. f_equal. lia.
Qed.
End in_time.

(** ** The order of release *)

(** Calls [k], ..., [k + m - 1], each alone. *)
Definition alone (k m : Z) : list (list Z) := (fun i => [i]) <$> seqZ k m.

(** Calls [a] and [b] together, the others alone and in order. *)
Definition contenders_together (a b n : Z) : list (list Z) :=
  alone 0 a ++ alone (a + 1) (b - a - 1) ++ [[a; b]] ++ alone (b + 1) (n - b - 1).

(** The breakpoints prepared for each of these. *)
Definition prepared_for (ns : Z -> Z) (l : list (list Z)) : list (Z * Z) := l ≫= (fun g => prepare_of (ns <$> g)).

Lemma seqZ_contenders a b n :
  0 <= a < b -> b < n ->
  seqZ 0 n = seqZ 0 a ++ [a] ++ seqZ (a + 1) (b - a - 1) ++ [b] ++ seqZ (b + 1) (n - b - 1).
Proof.
  intros Ha Hb. replace n with (a + (1 + ((b - a - 1) + (1 + (n - b - 1))))) at 1 by lia.
  rewrite !seqZ_app by lia. replace (0 + a) with a by lia.
  replace (a + 1 + (b - a - 1)) with b by lia. done.
Qed.

Lemma releases_contenders a b n : 0 <= a < b -> b < n -> seqZ 0 n ≫= releases a b = contenders_together a b n.
Proof.
  intros Ha Hb. assert (Halone : forall k m, (forall i, k <= i < k + m -> i <> a /\ i <> b) ->
    seqZ k m ≫= releases a b = alone k m).
  { intros k m Hi. unfold alone. assert (Forall (fun i => i <> a /\ i <> b) (seqZ k m)) as HF
      by (apply Forall_forall; intros i [? ?]%elem_of_seqZ; apply Hi; lia).
    induction HF as [|i l [H1 H2] _ IH]; [done|]. cbn [mbind list_bind fmap list_fmap]. 
    rewrite <- IH. unfold releases at 1. by destruct (Z.eqb_spec i a), (Z.eqb_spec i b). }
  rewrite (seqZ_contenders a b n) by done. rewrite !bind_app. unfold contenders_together.
  rewrite !Halone by lia. cbn. unfold releases. rewrite !Z.eqb_refl. by destruct (Z.eqb_spec b a); [lia|].
Qed.

Lemma prepares_contenders ns a b n :
  0 <= a < b -> seqZ 0 n ≫= prepares a b ns = prepared_for ns (seqZ 0 n ≫= releases a b).
Proof.
  intros Ha. induction (seqZ 0 n) as [|i l IH]; [done|]. cbn [mbind list_bind]. unfold prepared_for in *.
  rewrite bind_app. f_equal; [|exact IH]. unfold prepares, releases.
  destruct (i =? a), (i =? b); cbn; by rewrite ?app_nil_r.
Qed.

Lemma prepared_executor fates kssb is_ :
  exists t0 t1, rests t0 /\ rests t1 /\
    execute_one fates kssb is_ zero_executor =
    (foreach is_ (exec_instr fates);; wait_unfinished fates) (shape t0 t1 zero_thread 0 0 0 0 [] []).
Proof. destruct kssb; eexists _, _; (split; [|split; [|reflexivity]]); done. Qed.

Lemma execute_threaded_calls fates kssb procid filter sched0 bodies a b n :
  (forall c, fates c = in_time) -> 0 <= a < b -> b < n -> n < 2 ^ 31 -> alen bodies = n ->
  let ns := fun k => Z.min kMaxSchedule (alen (points_of sched0 k)) in
  exists x,
    execute_one fates kssb
      (calls_instrs procid filter sched0 0 (zip (threaded_calls a b (Z.to_nat n)) bodies) (∅, 0)) zero_executor =
    Ret tt x /\
    started x = contenders_together a b n /\ prepared x = prepared_for ns (contenders_together a b n) /\
    dropped x = [] /\ running x = 0 /\ next_call x = n.
Proof.
  intros Hf Ha Hb Hn Hlen ns.
  assert (Hl : length (threaded_calls a b (Z.to_nat n)) = length bodies).
  { unfold threaded_calls. rewrite length_fmap, length_seq. unfold alen in Hlen. lia. }
  set (rest := zip (threaded_calls a b (Z.to_nat n)) bodies).
  assert (Hrest : alen rest = n) by (unfold alen, rest in *; rewrite length_zip_with; lia).
  set (is_ := calls_instrs _ _ _ _ _ _). destruct (prepared_executor fates kssb is_) as (t0 & t1 & H0 & H1 & ->).
  destruct (calls_run fates Hf a b n Ha Hb Hn ns procid filter sched0 ltac:(done) rest 0 (∅, 0) [] []
    (shape t0 t1 zero_thread 0 0 0 0 [] [])) as (x & E & Hx); [lia|lia| |apply before_first; done || lia|].
  { unfold rest. rewrite fst_zip by lia. done. }
  fold is_ in E. rewrite (bind_run _ _ _ _ _ E). rewrite Hrest in Hx. cbn [app] in Hx.
  rewrite prepares_contenders, releases_contenders in Hx by done.
  destruct Hx; [lia..|]. eexists. by split; [reflexivity|].
Qed.

(** ** Properties *)

(** C21. From the fuzzer to the workers.  Take a program threaded for the
    contenders [a] < [b] whose calls have constant and result arguments only
    (no data, checksum or call property), at most nine per call, with at most
    1000 results, and whose flush vector and flush table have at most 32
    entries.  If it fits the buffer it is serialised, the executor decodes it, and
    when every call finishes in time executing it releases every call exactly
    once: the two contenders at the same moment, all others alone and in
    program order, [a] apart.  For each release with breakpoints the
    hypervisor is told their number and that of the threads that have some;
    no call is dropped or left running and no state check fails. *)
Theorem contenders_start_together (procid nsyscalls : Z) (disabled : Z -> bool) (props : prog (list Z) unit)
    (fates : Z -> fate) (kssb : bool) (bodies : list Body) (size : Z) (p : Prog) (a b n : Z) :
  (forall c, fates c = in_time) ->
  0 <= a < b -> b < n -> n < 2 ^ 31 -> Calls p = threaded_calls a b (Z.to_nat n) -> alen bodies = n ->
  sanitizeRazzer p = Ret None p -> nsyscalls < 2 ^ 64 - 5 ->
  header_ok p -> alen (table (Prog_FlushVector p)) <= kMaxVector ->
  calls_ok nsyscalls disabled (Prog_Schedule p) 0 (zip (Calls p) bodies) (∅, 0) ->
  (calls_index (zip (Calls p) bodies) (∅, 0)).2 <= execMaxCommands ->
  8 * alen (prog_words bodies p) <= size ->
  let ns := fun k => Z.min kMaxSchedule (alen (points_of (Prog_Schedule p) k)) in
  exists ws v is_ x,
    SerializeForExec bodies size p = Ret (Some ws) p /\
    decode procid nsyscalls disabled props ws = Ret (v, is_) [] /\
    execute_one fates kssb is_ zero_executor = Ret tt x /\
    started x = contenders_together a b n /\ prepared x = prepared_for ns (contenders_together a b n) /\
    dropped x = [] /\ running x = 0 /\ next_call x = n.
Proof.
  intros Hf Ha Hb Hn Hcs Hlen Hs Hsys Hh Ht Hok Hc Hsize ns.
  pose proof (alen_nonneg (prog_words bodies p)).
  assert (Hl : length bodies = length (Calls p)).
  { rewrite Hcs. unfold threaded_calls. rewrite length_fmap, length_seq. unfold alen in Hlen. lia. }
  destruct (execute_threaded_calls fates kssb procid (filter_read p) (Prog_Schedule p) bodies a b n Hf Ha Hb Hn Hlen)
    as (x & E & Hx). rewrite <- Hcs in E.
  eexists _, _, _, x. split; [|split; [by eapply decode_prog_words|by split]].
  rewrite (sanitize_then _ _ _ Hs). erewrite run_encoder_spec by (done || lia). by rewrite decide_True.
Qed.

(** Calls 1 and 3 of five race, with a breakpoint each. *)
Definition race_prog : Prog :=
  mk_prog [mk_call 0 0; mk_call 0 2; mk_call 1 1; mk_call 1 2; mk_call 1 3] true [1; 3]
    (mk_schedule [mk_point 1 0xffffffff81000010 0; mk_point 3 dummyAddr 1] [0; 1])
    (mk_flush_vector [] []) None.

Definition race_bodies : list Body := replicate 5 (mk_body 3 None [] [] []).

Lemma contenders_start_together_witness :
  exists ws v is_ x,
    SerializeForExec race_bodies 4096 race_prog = Ret (Some ws) race_prog /\
    decode 0 10 (fun _ => false) (mret tt) ws = Ret (v, is_) [] /\
    execute_one (fun _ => in_time) true is_ zero_executor = Ret tt x /\
    started x = [[0]; [2]; [1; 3]; [4]] /\ prepared x = [(2, 2)].
Proof.
  destruct (contenders_start_together 0 10 (fun _ => false) (mret tt) (fun _ => in_time) true
              race_bodies 4096 race_prog 1 3 5) as (ws & v & is_ & x & E1 & E2 & E3 & E4 & E5 & _).
  - done.
  - lia.
  - lia.
  - lia.
  - reflexivity.
  - reflexivity.
  - vm_compute. reflexivity.
  - lia.
  - split; decide_ok.
  - vm_compute. discriminate.
  - repeat (split; [split; decide_ok|]). exact I.
  - vm_compute. discriminate.
  - vm_compute. discriminate.
  - exists ws, v, is_, x. split_and!; [exact E1|exact E2|exact E3|rewrite E4; reflexivity|rewrite E5; reflexivity].
Defined.

(** Four calls on one thread that all block: the executor takes a fourth
    fallback thread where there are three, [unhand_worker_thread] testing the
    bound before it increments. *)
Example blocked_threads_overflow :
  execute_one (fun _ => never) false
    (concat ((fun e => [ICall 0 (2 ^ 64 - 1) [] 0 e []; IEpoch]) <$> seqZ 0 4)) zero_executor = UB "set[j]".
Proof. vm_compute. reflexivity. Qed.

(** Three are handled: their threads are replaced one after the other. *)
Example blocked_threads_replaced :
  match execute_one (fun _ => never) false
    (concat ((fun e => [ICall 0 (2 ^ 64 - 1) [] 0 e []; IEpoch]) <$> seqZ 0 3)) zero_executor with
  | Ret _ x => Some (started x, running x)
  | _ => None
  end = Some ([[0]; [1]; [2]], 3).
Proof. vm_compute. reflexivity. Qed.
