(* ===== verification/Defects.v ===== *)
(** * Edges of the hypercall interface

    Arguments the guest may pass that [hcall.c] does not guard against, as
    runs of the model. *)

From stdpp Require Import base list gmap strings.
From Stdlib Require Import ZArith Lia.
From S2P Require Import Prelude Machine Invariant Flat KvmDebug CpuState GuestMem Vmi Window ExecControl Breakpoint RunState VmiHint Kssb Hcall VcpuLoop System HwTable Reads Frames Accounting HcallSpec.

Local Open Scope Z_scope.
Local Open Scope record_scope.

(** Three vCPUs, the hook known; vCPU 1 runs and holds the big lock. *)
Definition edge_machine : machine (P := flat_platform) :=
  flat_machine 3 [] <| current_cpu := 1 |> <| iothread_locked := true |>
    <| vmi_info ::= set hook_addr (fun _ => 64) |>.

(** How a run ends. *)
Inductive verdict := returned | exited (msg : string) | undefined_behaviour (what : string) | no_fuel.

Definition ending {W A} (o : outcome W A) : verdict :=
  match o with
  | Ret _ _ => returned
  | Exit s => exited s
  | UB s => undefined_behaviour s
  | OutOfFuel => no_fuel
  end.

(** An order with its top bit set is a negative [int], passes the test against
    [orig_nr_bps] and indexes the entries from below. *)
Example negative_order_out_of_bounds :
  ending ((hcall_dispatch 1 HCALL_PREPARE 2 2 0;;
           hcall_dispatch 1 HCALL_INSTALL_BP 4096 (2 ^ 32 - 1) 0) edge_machine) =
  undefined_behaviour "sched.entries".
Proof. vm_compute. reflexivity. Qed.

(** A count of 2^31 points or more makes [orig_nr_bps], an [int], negative;
    the next installation ends QEMU. *)
Example huge_count_ends_qemu :
  ending ((hcall_dispatch 1 HCALL_PREPARE (2 ^ 31) 2 0;; hcall_dispatch 1 HCALL_INSTALL_BP 4096 0 0) edge_machine) =
  exited "sched.total > sched.orig_nr_bps".
Proof. vm_compute. reflexivity. Qed.

(** [n] points of vCPU 1, at the addresses given, all to be hit or all
    filtered out, then activation. *)
Definition set_up_alone (n f : Z) (address : Z -> Z) : M (P := flat_platform) Z :=
  hcall_dispatch 1 HCALL_PREPARE n 1 0;;
  foreach (seqZ 0 n) (fun o => hcall_dispatch 1 HCALL_INSTALL_BP (address o) o f;; mret tt);;
  hcall_dispatch 1 HCALL_ACTIVATE_BP 0 0 0.

(** With all 256 entries in use and none to be hit the focus is one past the
    last entry, which [qcsched_vmi_can_progress] reads. *)
Example full_table_out_of_bounds :
  ending ((set_up_alone 256 1 (fun o => 4096 + o);; qcsched_vmi_can_progress 1) edge_machine) =
  undefined_behaviour "sched.entries".
Proof. vm_compute. reflexivity. Qed.

Example almost_full_table_in_bounds :
  ending ((set_up_alone 255 1 (fun o => 4096 + o);; qcsched_vmi_can_progress 1) edge_machine) = returned.
Proof. vm_compute. reflexivity. Qed.

(** Two points of one vCPU at the same address: opening the window inserts
    the breakpoint twice, and the second insertion ends QEMU. *)
Example duplicate_address_ends_qemu :
  ending ((set_up_alone 2 0 (fun _ => 4096);; qcsched_window_expand_window 1) edge_machine) =
  exited "failed to insert a breakpiont at a scheduling point".
Proof. vm_compute. reflexivity. Qed.
