(* ===== verification/Setup.v ===== *)
(** * Setting up a schedule from inside the guest (executor/executor.cc)

    A worker of the executor runs on a vCPU of its own.  Before its call it
    installs its breakpoints and activates them, waiting for the other worker
    at the barrier of HCALL_ACTIVATE_BP; after the call it deactivates them,
    collects their footprints and clears them.  Every hypercall is handled by
    the hypervisor of Hcall, under the big lock; between two hypercalls the
    other vCPUs may make theirs.  A turn of a worker is one hypercall. *)

From stdpp Require Import base list gmap sets strings.
From Stdlib Require Import ZArith Lia.
From S2P Require Import Prelude Accesses Comms Hints Threading ExecWire Machine Invariant KvmDebug CpuState GuestMem Vmi Window ExecControl Breakpoint RunState VmiHint Kssb Hcall VcpuLoop System.

Local Open Scope Z_scope.
Local Open Scope record_scope.

(** The vCPU of a worker. *)
Definition lookup_available_cpu (id : Z) : Z := id + 1.

(** Where a worker is: in the loop over its breakpoints, in the loop that
    retries the activation, running its call, or past one of the hypercalls
    that follow.  [Finished] has the count and the flag [clear_schedule]
    read; the flag is not initialised when the footprints cannot be had. *)
Inductive stage :=
| Installing (rest : list schedule_t)
| Activating (attempt : Z)
| Running (res : Z)
| Deactivated
| Collected (ret : Z)
| Finished (count : Z) (retry : option Z).

(** [setup_schedule] and [clear_schedule] do nothing for a call without
    breakpoints. *)
Definition setup_schedule (num_sched : Z) (sched : list schedule_t) : option stage :=
  if num_sched =? 0 then None else Some (Installing sched).

(** [while (res == -EAGAIN && --attempt)] *)
Definition next_attempt (res attempt : Z) : stage :=
  if (res =? neg_errno EAGAIN) && negb (attempt - 1 =? 0) then Activating (attempt - 1) else Running res.

Section Setup.
Context {P : Platform} {I : Interference}.

(** [hypercall]: the result is what the hypervisor leaves in RAX.  The inline
    assembly never writes its output operand; the model takes it to be in RAX,
    where it has to be for the executor to see the result at all. *)
Definition hypercall (cpu cmd arg subarg subarg2 : Z) : M Z :=
  qcsched_handle_hcall cpu [cmd; arg; subarg; subarg2] ;;
  c ← get_cpu cpu; mret (rax (regs c)).

(** Where [clear_schedule] has its results: the addresses of [count], of the
    footprints and of [retry] in the worker. *)
Context (count_ptr footprint_ptr retry_ptr : Z -> Z).

(** A turn, with the stage it leads to and the result when it is one that
    [WARN_ON_NOT_NULL] looks at. *)
Definition worker_turn (cpu : Z) (st : stage) : M (stage * option Z) :=
  match st with
  | Installing (s :: rest) =>
      r ← hypercall cpu HCALL_INSTALL_BP (s_addr s) (s_order s) (s_filter s);
      mret (Installing rest, Some r)
  | Installing [] =>
      res ← hypercall cpu HCALL_ACTIVATE_BP 0 0 0; mret (next_attempt res 10, None)
  | Activating attempt =>
      res ← hypercall cpu HCALL_ACTIVATE_BP 0 0 0; mret (next_attempt res attempt, None)
  | Running _ =>
      r ← hypercall cpu HCALL_DEACTIVATE_BP 0 0 0; mret (Deactivated, Some r)
  | Deactivated =>
      r ← hypercall cpu HCALL_FOOTPRINT_BP (count_ptr cpu) (footprint_ptr cpu) (retry_ptr cpu);
      mret (Collected r, Some r)
  | Collected ret =>
      r ← hypercall cpu HCALL_CLEAR_BP 0 0 0;
      if ret =? 0 then
        count ← read_guest cpu (count_ptr cpu) 8;
        retry ← read_guest cpu (retry_ptr cpu) 8;
        mret (Finished count.2 (Some (if retry.2 =? 0 then 0 else 1)), Some r)
      else mret (Finished 0 None, Some r)
  | Finished _ _ => mret (st, None)
  end.

(** The workers that take part, by vCPU, and the warnings printed so far. *)
Record config := mk_config { cf_machine : machine; cf_stages : gmap Z stage; cf_warnings : list Z }.

Definition warn (r : option Z) : list Z := match r with Some r => if r =? 0 then [] else [r] | None => [] end.

Inductive turn : config -> config -> Prop :=
| take_turn cpu st st' r w w' sts warns :
    sts !! cpu = Some st -> worker_turn cpu st (on_thread cpu w) = Ret (st', r) w' ->
    turn (mk_config w sts warns) (mk_config w' (<[cpu := st']> sts) (warns ++ warn r)).

(** Turns in a given order. *)
Fixpoint run_turns (cpus : list Z) (c : config) : option config :=
  match cpus with
  | [] => Some c
  | cpu :: cpus =>
      match cf_stages c !! cpu with
      | None => None
      | Some st =>
          match worker_turn cpu st (on_thread cpu (cf_machine c)) with
          | Ret (st', r) w' => run_turns cpus (mk_config w' (<[cpu := st']> (cf_stages c)) (cf_warnings c ++ warn r))
          | _ => None
          end
      end
  end.

Lemma run_turns_reach cpus c c' : run_turns cpus c = Some c' -> rtc turn c c'.
Proof.
  revert c. induction cpus as [|cpu cpus IH]; intros [w sts warns] H; cbn in H; [by injection H as ->|].
  destruct (sts !! cpu) as [st|] eqn:Hst; [|done].
  destruct (worker_turn cpu st (on_thread cpu w)) as [[st' r] w'| | |] eqn:E; try done.
  eapply rtc_l; [by econstructor|]. by apply IH.
Qed.
End Setup.
