(* ===== verification/SetupSpec.v ===== *)
(** * The workers meet in the hypervisor

    Whatever the order in which the workers make their hypercalls, the
    schedule the hypervisor ends up with is the one the fuzzer made, it is
    activated only when every worker has installed its part, and no
    installation is refused. *)

From stdpp Require Import base list gmap sets strings.
From Stdlib Require Import ZArith Lia.
From S2P Require Import Prelude Accesses Comms Hints Threading ThreadingSpec ExecWire ExecWireSpec Machine Invariant Flat KvmDebug CpuState GuestMem Vmi Window ExecControl Breakpoint RunState VmiHint Kssb Hcall VcpuLoop System HwTable Reads Frames Accounting WindowSpec ExecSpec HcallSpec Setup.

Local Open Scope Z_scope.
Local Open Scope record_scope.

(** ** What an installation does to the schedule *)

Definition footprint_of (f : Z) : qcschedpoint_footprint :=
  if f =? 1 then footprint_missed else footprint_preserved.

Definition install_entry (cpu a o f : Z) (task : qcsched_vmi_task) (e : qcsched_entry) : qcsched_entry :=
  e <| schedpoint := mk_schedpoint a o (footprint_of f) |> <| e_cpu := cpu |> <| t := task |>.

(** [s'] is [s] with entry [o] filled; the window of [cpu] may have moved. *)
Definition installed_in (cpu a o f : Z) (s s' : qcsched) : Prop :=
  exists task e wins,
    aget (entries s) o = Some e /\
    s' = s <| entries ::= fun l => aset l o (install_entry cpu a o f task e) |> <| schedpoint_window := wins |>.

Section Install.
Context {P : Platform} {I : Interference} (L : list Z) (cpu : Z).

Lemma wlp_install a o f w :
  total (sched w) <= orig_nr_bps (sched w) -> 0 <= o < total (sched w) ->
  at_least (sched w) qcsched_cpu_ready cpu = false ->
  (forall e, aget (entries (sched w)) o = Some e -> qcsched_entry_used e = false) ->
  wlp (qcsched_install_breakpoint cpu a o f) (fun r w' =>
    r = 0 /\ exists s', installed_in cpu a o f (sched w) s' /\ w' = w <| sched := s' |>) w.
Proof.
  intros Htot Ho Hidle Hfree. apply wlp_bind, wlp_sched_, wlp_bind, wlp_ASSERT. intros _. unfold id.
  destruct (Z.eqb_spec (total (sched w)) 0); [lia|].
  destruct (Z.leb_spec (orig_nr_bps (sched w)) o); [lia|].
  apply wlp_bind, wlp_check_cpu_state. rewrite Hidle.
  destruct (Z.leb_spec (total (sched w)) o); [lia|].
  apply wlp_bind, wlp_get_entry. intros e He. rewrite (Hfree e He). cbv zeta.
  fold (footprint_of f). apply wlp_bind, wlp_upd_entry. intros e' He'. rewrite He in He'. injection He' as <-.
  apply wlp_bind, wlp_reads; [apply reads_vmi_task|]. intros task.
  apply wlp_bind, wlp_upd_entry. simpl. rewrite aget_aset_eq by by eapply aget_Some_range. intros e' [= <-].
  apply wlp_bind, wlp_get_window. simpl. intros x Hx. apply wlp_bind.
  case_match.
  - apply wlp_upd_window. simpl. intros x' _. apply wlp_ret. split; [done|]. eexists. split.
    + exists task, e, (aset (schedpoint_window (sched w)) cpu (x' <| w_from := o |> <| w_until := o |>)). split; [done|]. reflexivity.
    + destruct w as [s0]; destruct s0. unfold set. simpl. by rewrite aset_aset_eq.
  - apply wlp_ret, wlp_ret. split; [done|]. eexists. split.
    + exists task, e, (schedpoint_window (sched w)). split; [done|]. reflexivity.
    + destruct w as [s0]; destruct s0. unfold set. simpl. by rewrite aset_aset_eq.
Qed.
End Install.

(** ** A hypercall *)
Section Hypercall.
Context {P : Platform} {I : Interference} (L : list Z) (cpu : Z) (Hblk : config_trampoline = false).
Context `{!Small L} `{!StableInterference L} `{!MemLaws} (Hcpu : cpu ∈ L).

(** Taking and releasing the lock, the cookie and the registers do not
    concern the schedule. *)
Lemma wlp_hypercall cmd a1 a2 a3 (Q : Z -> machine -> Prop) w :
  outside L cpu w ->
  (forall w1, local_only w w1 -> inside L cpu w1 -> wlp (hcall_dispatch cpu cmd a1 a2 a3) Q w1) ->
  wlp (hypercall cpu cmd a1 a2 a3) (fun r w' => exists w2, Q r w2 /\ local_only w2 w') w.
Proof.
  intros Hw Hd. unfold hypercall, qcsched_handle_hcall. apply wlp_bind. do 4 (apply wlp_bind, wlp_ret).
  apply wlp_bind. eapply wlp_mono; [apply (wlp_conj _ (fun _ w1 => inside L cpu w1) (fun _ w1 => local_only w w1))|].
  { eapply (wlp_wp (fun _ => True)), wp_lock_iothread; [done|]. intros w1 Hw1. exact Hw1. }
  { apply wlp_lock_local. }
  intros [] w1 [Hw1 Hl1]. apply wlp_bind.
  eapply wlp_mono; [apply (wlp_conj _ (fun _ w2 => inside L cpu w2) (fun _ w2 => local_only w1 w2))|].
  { eapply wlp_wp, wp_mono; [by apply safe_qcsched_eat_cookie|]. by intros [] w2 [? _]. }
  { apply wlp_upd_cpu_local. }
  intros [] w2 [Hw2 Hl2]. apply wlp_bind. eapply wlp_mono; [apply (Hd w2); [by eapply local_only_trans|done]|].
  intros r w3 HQ. apply wlp_bind. eapply wlp_mono; [apply wlp_unlock_local|]. intros [] w4 Hl4.
  apply wlp_bind. unfold qcsched_jumped_into_trampoline. rewrite Hblk. apply wlp_ret. cbv iota.
  apply wlp_bind, wlp_upd_cpu. intros c Hc. apply wlp_upd_cpu. simpl. rewrite lookup_insert_eq. intros c' [= <-].
  apply wlp_bind, wlp_get_cpu. simpl. rewrite lookup_insert_eq. intros c' [= <-]. apply wlp_ret. simpl.
  exists w3. split; [done|]. eapply local_only_trans; [done|].
  eapply local_only_trans; apply local_only_cpus.
Qed.
End Hypercall.

(** ** The plan

    Entry [o] of the plan is the vCPU and the breakpoint of order [o]. *)

Definition plan_points (plan : list (Z * schedule_t)) (c : Z) : list schedule_t :=
  (filter (fun x => x.1 = c) plan).*2.

Record plan_ok (plan : list (Z * schedule_t)) (k : Z) : Prop := {
  po_few : 0 < alen plan < MAX_SCHEDPOINTS;
  po_entry : forall o c s, plan !! o = Some (c, s) -> s_order s = Z.of_nat o /\ s_addr s <> 0 /\ 1 <= c <= k;
  po_all : forall c, 1 <= c <= k -> plan_points plan c <> [];
  po_cpus : 1 <= k < MAX_CPUS
}.

(** Entry [o] of the schedule is as planned. *)
Definition planned (o c : Z) (p : schedule_t) (e : qcsched_entry) : Prop :=
  schedpoint e = mk_schedpoint (s_addr p) o (footprint_of (u32 (s_filter p))) /\ e_cpu e = c.

Definition remaining (st : option stage) : list schedule_t :=
  match st with Some (Installing l) => l | _ => [] end.

Definition arrived (st : option stage) : bool :=
  match st with Some (Installing _) | None => false | _ => true end.

(** The state of the vCPU at each stage. *)
Definition state_at (st : stage) : qcsched_cpu_state :=
  match st with
  | Installing _ => qcsched_cpu_idle
  | Running r => if r =? 0 then qcsched_cpu_activated else qcsched_cpu_ready
  | _ => qcsched_cpu_ready
  end.

(** Not past its call. *)
Definition setting_up (st : stage) : Prop :=
  match st with Installing _ | Activating _ => True | Running r => r = 0 \/ r = neg_errno EAGAIN | _ => False end.

Section Plan.
Context (plan : list (Z * schedule_t)) (k : Z) (Hplan : plan_ok plan k).

Lemma plan_point_elem c p : p ∈ plan_points plan c <-> exists o, plan !! o = Some (c, p).
Proof.
  unfold plan_points. rewrite list_elem_of_fmap. split.
  - intros ([c' p'] & -> & [Hc (o & Ho)%list_elem_of_lookup]%list_elem_of_filter). cbn in Hc. subst. by exists o.
  - intros [o Ho]. exists (c, p). split; [done|]. apply list_elem_of_filter. split; [done|].
    by eapply list_elem_of_lookup_2.
Qed.

Lemma plan_point_order c p : p ∈ plan_points plan c -> plan !! Z.to_nat (s_order p) = Some (c, p).
Proof.
  intros [o Ho]%plan_point_elem. destruct (po_entry _ _ Hplan _ _ _ Ho) as (-> & _). by rewrite Nat2Z.id.
Qed.

Lemma plan_points_nodup c : NoDup (plan_points plan c).
Proof.
  assert (NoDup plan) as Hnd.
  { apply NoDup_alt. intros i j [c' p] Hi Hj.
    apply (po_entry _ _ Hplan) in Hi as [Hi _], Hj as [Hj _]. lia. }
  apply NoDup_fmap_2_strong; [|by apply NoDup_filter].
  intros [c1 p1] [c2 p2] [E1 _]%list_elem_of_filter [E2 _]%list_elem_of_filter E. cbn in *. by subst.
Qed.

(** What the hypervisor knows while the workers are at [sts]. *)
Record consistent (s : qcsched) (sts : gmap Z stage) : Prop := {
  cs_total : total s = alen plan;
  cs_orig : orig_nr_bps s = alen plan;
  cs_cpus : nr_cpus s = k;
  cs_used : used s = false;
  cs_workers : forall c, is_Some (sts !! c) <-> 1 <= c <= k;
  cs_stage : forall c st, sts !! c = Some st -> setting_up st /\ aget (cpu_state s) c = Some (state_at st);
  cs_rest : forall c, remaining (sts !! c) `suffix_of` plan_points plan c;
  cs_entry : forall o c p, plan !! o = Some (c, p) -> exists e, aget (entries s) (Z.of_nat o) = Some e /\
    (p ∈ remaining (sts !! c) -> qcsched_entry_used e = false) /\
    (p ∉ remaining (sts !! c) -> planned (Z.of_nat o) c p e);
  cs_activated : activated s = true ->
    (forall c, 1 <= c <= k -> arrived (sts !! c) = true) /\ current s = first_preserved s;
  cs_running : forall c, sts !! c = Some (Running 0) -> activated s = true
}.

Lemma consistent_install s s' sts c p rest :
  consistent s sts -> sts !! c = Some (Installing (p :: rest)) ->
  installed_in c (s_addr p) (s_order p) (u32 (s_filter p)) s s' ->
  consistent s' (<[c := Installing rest]> sts).
Proof.
  intros [? ? ? ? Hw Hst Hrest Hent Hact Hrun] Hc (task & e0 & wins & He0 & ->).
  assert (Hlk : forall c', remaining (<[c := Installing rest]> sts !! c') =
    if decide (c' = c) then rest else remaining (sts !! c')).
  { intros c'. rewrite lookup_insert. case_decide; case_decide; done || congruence. }
  assert (Hsuf : p :: rest `suffix_of` plan_points plan c) by (specialize (Hrest c); by rewrite Hc in Hrest).
  assert (Hp : plan !! Z.to_nat (s_order p) = Some (c, p)).
  { apply plan_point_order. eapply elem_of_suffix; [|done]. by left. }
  assert (Hnd : NoDup (p :: rest)).
  { destruct Hsuf as [l0 Hl0]. pose proof (plan_points_nodup c) as Hnd. rewrite Hl0 in Hnd.
    by apply NoDup_app in Hnd as (_ & _ & ?). }
  apply NoDup_cons in Hnd as [Hnotin _].
  assert (Hoff : activated s = false).
  { destruct (activated s) eqn:E; [|done]. destruct (Hact eq_refl) as [Har _].
    specialize (Har c). rewrite Hc in Har. discriminate Har. apply Hw. by rewrite Hc. }
  split; try done.
  - intros c'. rewrite <- Hw, lookup_insert_is_Some'. split; [|by right].
    intros [->|?]; [by rewrite Hc|done].
  - intros c' st. rewrite lookup_insert. case_decide as Hd; [|apply Hst].
    intros [= <-]. subst c'. split; [done|]. simpl. by apply Hst in Hc as [_ ?].
  - intros c'. rewrite Hlk. case_decide; [subst; by eapply suffix_cons_l|apply Hrest].
  - intros o c' p' Ho. destruct (Hent o c' p' Ho) as (e & He & Hun & Hpl). simpl. rewrite Hlk, aget_aset.
    assert (Hop : s_order p' = Z.of_nat o) by by apply (po_entry _ _ Hplan) in Ho as [-> _].
    case_decide as Hd.
    + destruct Hd as [Heq Hr]. assert (c' = c /\ p' = p) as [-> ->].
      { rewrite Heq, Nat2Z.id, Ho in Hp. by injection Hp. }
      eexists. split; [done|]. rewrite decide_True by done. split; [done|]. intros _. unfold planned. simpl.
      by rewrite Heq.
    + exists e. split; [done|]. case_decide; [|done]. subst c'.
      assert (p' <> p) as Hne.
      { intros ->. apply Hd. rewrite Hop. split; [done|]. apply aget_Some_range in He. lia. }
      rewrite Hc in Hun, Hpl. cbn [remaining] in Hun, Hpl. rewrite elem_of_cons in Hun, Hpl. split; [tauto|].
      intros Hn. apply Hpl. tauto.
  - simpl. by rewrite Hoff.
  - intros c'. rewrite lookup_insert. case_decide; [done|]. simpl. apply Hrun.
Qed.

(** *** Activation *)

(** Every worker but [c] has arrived at the barrier. *)
Definition others_arrived (c : Z) (sts : gmap Z stage) : Prop :=
  forall c', 1 <= c' <= k -> c' <> c -> arrived (sts !! c') = true.

Lemma at_least_ready s sts c st :
  consistent s sts -> sts !! c = Some st -> at_least s qcsched_cpu_ready c = arrived (Some st).
Proof.
  intros Hs Hc. destruct (cs_stage _ _ Hs c st Hc) as [Hset Hst]. unfold at_least. rewrite Hst.
  destruct st as [l|n|r| | |]; try done. simpl. by destruct (r =? 0).
Qed.

Lemma at_least_activated s sts c st :
  consistent s sts -> sts !! c = Some st -> (forall r, st <> Running r) -> at_least s qcsched_cpu_activated c = false.
Proof.
  intros Hs Hc Hne. destruct (cs_stage _ _ Hs c st Hc) as [Hset Hst]. unfold at_least. rewrite Hst.
  destruct st as [l|n|r| | |]; try done. by destruct (Hne r).
Qed.

Lemma all_ready L s sts c st :
  (forall c', 1 <= c' <= k -> c' ∈ L) -> consistent s sts -> sts !! c = Some st ->
  all_at_least L (with_state c qcsched_cpu_ready s) qcsched_cpu_ready = true <-> others_arrived c sts.
Proof.
  intros HL Hs Hc. pose proof (cs_stage _ _ Hs c st Hc) as [_ Hcs].
  assert (Hat : forall c', at_least (with_state c qcsched_cpu_ready s) qcsched_cpu_ready c' =
    if decide (c' = c) then true else at_least s qcsched_cpu_ready c').
  { intros c'. unfold at_least, with_state. simpl. rewrite aget_aset. apply aget_Some_range in Hcs.
    destruct (decide (c' = c)) as [->|Hne]; [by rewrite decide_True|]. rewrite decide_False; [done|]. by intros [-> _]. }
  assert (Hpart : forall c', participant s c' = true <-> 1 <= c' <= k).
  { intros c'. unfold participant. rewrite (cs_cpus _ _ Hs). lia. }
  unfold all_at_least. rewrite forallb_forall. split.
  - intros H c' Hr Hne. specialize (H c' (proj1 (list_elem_of_In _ _) (HL c' Hr))).
    change (participant (with_state c qcsched_cpu_ready s) c') with (participant s c') in H.
    rewrite (proj2 (Hpart c') Hr) in H. simpl in H. rewrite Hat, decide_False in H by done.
    apply (cs_workers _ _ Hs) in Hr as [st' Hst']. rewrite (at_least_ready _ _ _ _ Hs Hst') in H. by rewrite Hst'.
  - intros H c' _. change (participant (with_state c qcsched_cpu_ready s) c') with (participant s c').
    destruct (participant s c') eqn:Hp; [|done]. simpl. rewrite Hat. case_decide as Hd; [done|].
    apply Hpart in Hp. specialize (H c' Hp Hd). apply (cs_workers _ _ Hs) in Hp as [st' Hst'].
    rewrite (at_least_ready _ _ _ _ Hs Hst'). by rewrite Hst' in H.
Qed.

Lemma all_filled s sts :
  consistent s sts -> alen (entries s) = MAX_SCHEDPOINTS ->
  (forall c, 1 <= c <= k -> remaining (sts !! c) = []) -> filled s = true.
Proof.
  intros Hs Hlen Hrest. unfold filled. rewrite (cs_total _ _ Hs). pose proof (po_few _ _ Hplan).
  apply andb_true_iff. split; [apply negb_true_iff, Z.eqb_neq; lia|].
  apply forallb_take_get. intros i e Hi He.
  destruct (lookup_lt_is_Some_2 plan (Z.to_nat i)) as [[c p] Hp]; [unfold alen in *; lia|].
  destruct (cs_entry _ _ Hs _ _ _ Hp) as (e' & He' & _ & Hpl). rewrite Z2Nat.id in He', Hpl by lia.
  rewrite He in He'. injection He' as <-. destruct (po_entry _ _ Hplan _ _ _ Hp) as (_ & Ha & Hc).
  rewrite (Hrest c Hc) in Hpl. destruct Hpl as [E _]; [apply not_elem_of_nil|].
  unfold qcsched_entry_used. rewrite E. simpl. apply negb_true_iff. by apply Z.eqb_neq.
Qed.

(** [s'] differs from [s] in the state of [c], the windows and the focus. *)
Lemma consistent_arrive s s' sts c st st' :
  consistent s sts -> sts !! c = Some st -> remaining (Some st) = [] -> setting_up st' -> arrived (Some st') = true ->
  entries s' = entries s -> total s' = total s -> orig_nr_bps s' = orig_nr_bps s -> nr_cpus s' = nr_cpus s ->
  used s' = used s -> cpu_state s' = aset (cpu_state s) c (state_at st') ->
  (activated s' = true -> others_arrived c sts /\ current s' = first_preserved s') ->
  (st' = Running 0 -> activated s' = true) -> (activated s = true -> activated s' = true) ->
  consistent s' (<[c := st']> sts).
Proof.
  intros Hs Hc Hrem Hset Harr He Ht Ho Hn Hu Hcs Hact Hrun Hmono.
  assert (Hlk : forall c', remaining (<[c := st']> sts !! c') = remaining (sts !! c')).
  { intros c'. rewrite lookup_insert. case_decide; [|done]. subst. rewrite Hc, Hrem. by destruct st'. }
  split.
  - by rewrite Ht, (cs_total _ _ Hs).
  - by rewrite Ho, (cs_orig _ _ Hs).
  - by rewrite Hn, (cs_cpus _ _ Hs).
  - by rewrite Hu, (cs_used _ _ Hs).
  - intros c'. rewrite <- (cs_workers _ _ Hs), lookup_insert_is_Some'. split; [|by right].
    intros [->|?]; [by rewrite Hc|done].
  - intros c' st0. rewrite lookup_insert, Hcs, aget_aset. destruct (cs_stage _ _ Hs c st Hc) as [_ Hr%aget_Some_range].
    case_decide as Hd.
    + intros [= <-]. subst c'. split; [done|]. by rewrite decide_True.
    + intros H0. destruct (cs_stage _ _ Hs _ _ H0). split; [done|]. rewrite decide_False; [done|]. intros [? _]. by apply Hd.
  - intros c'. rewrite Hlk. apply Hs.
  - intros o c' p Hp. rewrite Hlk, He. by apply Hs.
  - intros Ha. destruct (Hact Ha) as [Hoth Hcur]. split; [|done]. intros c' Hr. rewrite lookup_insert.
    case_decide as Hd; [done|]. apply Hoth; [done|]. intros ->. by apply Hd.
  - intros c'. rewrite lookup_insert. case_decide; [intros [= ->]; auto|]. intros Hc'. by apply Hmono, (cs_running _ _ Hs c').
Qed.
End Plan.

(** ** Turns *)
Section Turns.
Context {P : Platform} {I : Interference} (L : list Z) (Hblk : config_trampoline = false).
Context `{!Small L} `{!StableInterference L} `{!MemLaws} (ptr1 ptr2 ptr3 : Z -> Z).
Context (plan : list (Z * schedule_t)) (k : Z) (Hplan : plan_ok plan k) (HL : forall c, 1 <= c <= k -> c ∈ L).

Lemma wlp_hypercall_outside cpu cmd a1 a2 a3 w :
  cpu ∈ L -> hcall_args_ok [cmd; a1; a2; a3] -> outside L cpu w ->
  wlp (hypercall cpu cmd a1 a2 a3) (fun _ w' => outside L cpu w') w.
Proof.
  intros Hc Ha Hw. apply wlp_bind. eapply wlp_mono; [eapply wlp_wp, (osafe_handle_hcall L cpu Hc _ Ha w Hw)|].
  intros [] w1 [Hw1 _]. apply wlp_bind, wlp_get_cpu. intros. by apply wlp_ret.
Qed.

Lemma worker_in cpu st s sts : consistent plan k s sts -> sts !! cpu = Some st -> 1 <= cpu <= k /\ cpu ∈ L.
Proof. intros Hs Hst. assert (1 <= cpu <= k) by (apply (cs_workers _ _ _ _ Hs); by rewrite Hst). auto. Qed.

Lemma install_turn cpu p rest sts w :
  outside L cpu w -> consistent plan k (sched w) sts -> sts !! cpu = Some (Installing (p :: rest)) ->
  wlp (worker_turn ptr1 ptr2 ptr3 cpu (Installing (p :: rest))) (fun x w' =>
    outside L cpu w' /\ x = (Installing rest, Some 0) /\
    consistent plan k (sched w') (<[cpu := Installing rest]> sts)) w.
Proof.
  intros Hw Hs Hst. destruct (worker_in _ _ _ _ Hs Hst) as [Hk Hc].
  assert (Hp : p ∈ plan_points plan cpu).
  { pose proof (cs_rest _ _ _ _ Hs cpu) as Hsuf. rewrite Hst in Hsuf. eapply elem_of_suffix; [|done]. by left. }
  pose proof (plan_point_order plan k Hplan cpu p Hp) as Hlk. pose proof (po_few _ _ Hplan) as Hfew.
  assert (Ho : 0 <= s_order p < alen plan).
  { destruct (po_entry _ _ Hplan _ _ _ Hlk) as [-> _]. apply lookup_lt_Some in Hlk. unfold alen. lia. }
  assert (Hi : i32 (s_order p) = s_order p).
  { apply wraps_id; [lia|]. unfold MAX_SCHEDPOINTS in Hfew. change (2 ^ (32 - 1)) with 2147483648. lia. }
  apply wlp_bind. eapply wlp_mono; [apply wlp_conj; [apply (wlp_hypercall_outside cpu); [done| |done]|]|].
  { do 5 eexists. split; [done|]. split; [done|]. intros _. rewrite Hi. lia. }
  { apply (wlp_hypercall L cpu Hblk Hc _ _ _ _ (fun r w' => r = 0 /\
      consistent plan k (sched w') (<[cpu := Installing rest]> sts))); [done|].
    intros w1 (Hsch & _)%local_only_facts Hin.
    change (hcall_dispatch cpu HCALL_INSTALL_BP (s_addr p) (s_order p) (s_filter p))
      with (qcsched_install_breakpoint cpu (s_addr p) (i32 (s_order p)) (u32 (s_filter p))). rewrite Hi.
    rewrite <- Hsch in Hs. eapply wlp_mono; [apply wlp_install|].
    - rewrite (cs_total _ _ _ _ Hs), (cs_orig _ _ _ _ Hs). lia.
    - by rewrite (cs_total _ _ _ _ Hs).
    - by rewrite (at_least_ready _ _ _ _ _ _ Hs Hst).
    - intros e He. destruct (cs_entry _ _ _ _ Hs _ _ _ Hlk) as (e' & He' & Hun & _).
      rewrite Z2Nat.id, He in He' by lia. injection He' as <-. apply Hun. rewrite Hst. by left.
    - intros r w2 (-> & s' & Hins & ->). split; [done|]. simpl. by eapply consistent_install. }
  intros r w' [Hout (w2 & [-> Hcons] & Hl)]. apply wlp_ret. split; [done|]. split; [done|].
  by destruct (local_only_facts _ _ Hl) as [-> _].
Qed.

(** A call of HCALL_ACTIVATE_BP by a worker that has installed its part. *)
Definition activation_result (cpu attempt : Z) (sts : gmap Z stage) (r : Z) (w w' : machine) : Prop :=
  outside L cpu w' /\ consistent plan k (sched w') (<[cpu := next_attempt r attempt]> sts) /\
  ((others_arrived k cpu sts /\ r = 0 /\ armed cpu (hook_addr (vmi_info w)) w') \/
   (~ others_arrived k cpu sts /\ r = neg_errno EAGAIN)).

Lemma points_on_pos cpu s sts :
  consistent plan k s sts -> 1 <= cpu <= k -> remaining (sts !! cpu) = [] -> 0 < points_on cpu (total s) s.
Proof.
  intros Hs Hc Hrem. destruct (plan_points plan cpu) as [|p l] eqn:E; [by destruct (po_all _ _ Hplan cpu Hc)|].
  assert (p ∈ plan_points plan cpu) as [o Ho]%plan_point_elem by (rewrite E; by left).
  destruct (cs_entry _ _ _ _ Hs _ _ _ Ho) as (e & He & _ & Hpl). destruct Hpl as [_ Hcpu]; [rewrite Hrem; apply not_elem_of_nil|].
  unfold points_on, alen. assert (e ∈ filter (fun e => e_cpu e = cpu) (take (Z.to_nat (total s)) (entries s))) as Hin.
  { apply list_elem_of_filter. split; [done|]. apply list_elem_of_lookup. exists o.
    apply lookup_lt_Some in Ho. rewrite (cs_total _ _ _ _ Hs). unfold alen.
    rewrite lookup_take_lt by lia. unfold aget in He. destruct (Z.ltb_spec (Z.of_nat o) 0); [lia|].
    by rewrite Nat2Z.id in He. }
  destruct (filter _ _); [by apply not_elem_of_nil in Hin|]. simpl. lia.
Qed.

Lemma activate_sched cpu attempt st s s' sts r :
  consistent plan k s sts -> alen (entries s) = MAX_SCHEDPOINTS ->
  sts !! cpu = Some st -> remaining (Some st) = [] -> (forall r, st <> Running r) ->
  r = activate_code L cpu s ->
  s' = (if used s || at_least s qcsched_cpu_activated cpu then s
        else if r =? 0 then activated_sched cpu s else with_state cpu qcsched_cpu_ready s) ->
  consistent plan k s' (<[cpu := next_attempt r attempt]> sts) /\
  ((others_arrived k cpu sts /\ r = 0) \/ (~ others_arrived k cpu sts /\ r = neg_errno EAGAIN)).
Proof.
  intros Hs Hlen Hst Hrem Hne -> ->. destruct (worker_in _ _ _ _ Hs Hst) as [Hk Hc].
  unfold activate_code. rewrite (cs_used _ _ _ _ Hs), (at_least_activated _ _ _ _ _ _ Hs Hst Hne). cbn [orb].
  destruct (all_at_least L _ _) eqn:Hall; cbn [negb].
  - apply (all_ready _ _ _ _ _ _ _ HL Hs Hst) in Hall.
    rewrite (all_filled _ _ Hplan _ _ Hs Hlen); cycle 1.
    { intros c Hr. destruct (decide (c = cpu)) as [->|Hd]; [by rewrite Hst|].
      specialize (Hall c Hr Hd). by destruct (sts !! c) as [[]|]. }
    cbn [negb]. rewrite Z.eqb_refl. change (next_attempt 0 attempt) with (Running 0). split; [|by left].
    unfold activated_sched. destruct (Z.eqb_spec cpu 0); [lia|]. cbv zeta.
    unfold started. destruct (activated (with_state cpu qcsched_cpu_activated s)) eqn:Hact.
    + eapply (consistent_arrive _ _ _ _ _ _ _ _ Hs Hst Hrem); try done; [by left|].
      intros _. split; [done|]. simpl in Hact. by destruct (cs_activated _ _ _ _ Hs Hact).
    + eapply (consistent_arrive _ _ _ _ _ _ _ _ Hs Hst Hrem); try done. by left.
  - assert (~ others_arrived k cpu sts) as Hno.
    { intros Hoth. apply (all_ready _ _ _ _ _ _ _ HL Hs Hst) in Hoth. congruence. }
    rewrite neg_errno_nonzero by done. split; [|by right].
    assert (Hna : forall st', next_attempt (neg_errno EAGAIN) attempt = st' ->
      setting_up st' /\ arrived (Some st') = true /\ state_at st' = qcsched_cpu_ready /\ st' <> Running 0).
    { intros st' <-. unfold next_attempt. rewrite Z.eqb_refl. cbn [andb].
      destruct (negb _); [done|]. split; [by right|done]. }
    destruct (Hna _ eq_refl) as (H1 & H2 & H3 & H4).
    eapply (consistent_arrive _ _ _ _ _ _ _ _ Hs Hst Hrem); try done; [by simpl; rewrite H3|].
    simpl. intros Ha. destruct (cs_activated _ _ _ _ Hs Ha) as [Har _]. destruct Hno. intros c' Hr _. by apply Har.
Qed.

Lemma activate_turn cpu attempt st sts w :
  outside L cpu w -> consistent plan k (sched w) sts -> sts !! cpu = Some st ->
  remaining (Some st) = [] -> (forall r, st <> Running r) ->
  wlp (hypercall cpu HCALL_ACTIVATE_BP 0 0 0) (fun r w' => activation_result cpu attempt sts r w w') w.
Proof.
  intros Hw Hs Hst Hrem Hne. destruct (worker_in _ _ _ _ Hs Hst) as [Hk Hc].
  eapply wlp_mono; [apply wlp_conj; [apply (wlp_hypercall_outside cpu); [done| |done]|]|].
  { do 5 eexists. split; [done|]. by split. }
  { apply (wlp_hypercall L cpu Hblk Hc _ _ _ _ (fun r w' =>
      consistent plan k (sched w') (<[cpu := next_attempt r attempt]> sts) /\
      ((others_arrived k cpu sts /\ r = 0 /\ armed cpu (hook_addr (vmi_info w)) w') \/
       (~ others_arrived k cpu sts /\ r = neg_errno EAGAIN)))); [done|].
    intros w1 Hl Hin. destruct (local_only_facts _ _ Hl) as [Hsch _].
    assert (Hv : vmi_info w1 = vmi_info w) by (destruct Hl as (? & ? & ? & ->); done).
    change (hcall_dispatch cpu HCALL_ACTIVATE_BP 0 0 0) with (qcsched_activate_breakpoint cpu).
    rewrite <- Hsch in Hs. eapply wlp_mono; [by apply (wlp_activate L)|]. intros r w2 (Hr & Hs2 & Ha).
    destruct (activate_sched cpu attempt st (sched w1) (sched w2) sts r) as [H1 H2]; try done.
    { apply (len_entries _ (wf_sched _ _ Hin)). }
    split; [done|]. destruct H2 as [[H2 Hr0]|H2]; [left|by right]. split; [done|]. split; [done|].
    rewrite <- Hv. apply Ha; [done|lia|]. eapply points_on_pos; [done|done|]. by rewrite Hst. }
  intros r w' [Hout (w2 & [Hcons Hres] & Hl)]. destruct (local_only_facts _ _ Hl) as (Hs2 & _ & _ & Hhw & _).
  split; [done|]. rewrite Hs2. split; [done|]. destruct Hres as [(H1 & H2 & (h & Hh & Hah))|?]; [|by right].
  left. split; [done|]. split; [done|]. exists h. by rewrite Hhw.
Qed.

(** *** Reachable configurations *)

Definition in_call (st : stage) : Prop :=
  match st with Installing _ | Activating _ | Running _ => True | _ => False end.

(** The invariant of a configuration whose workers have not ended. *)
Definition set_up_so_far (c : config) : Prop :=
  wf L (cf_machine c) /\ iothread_locked (cf_machine c) = false /\
  consistent plan k (sched (cf_machine c)) (cf_stages c) /\ cf_warnings c = [].

(** What a turn of a worker that is setting up leads to. *)
Definition turn_result (cpu : Z) (st : stage) (sts : gmap Z stage) (w : machine) (x : stage * option Z) (w' : machine)
    : Prop :=
  outside L cpu w' /\ consistent plan k (sched w') (<[cpu := x.1]> sts) /\ warn x.2 = [] /\
  (remaining (Some st) = [] -> others_arrived k cpu sts -> x.1 = Running 0 /\ armed cpu (hook_addr (vmi_info w)) w') /\
  (x.1 = Running 0 -> others_arrived k cpu sts /\ armed cpu (hook_addr (vmi_info w)) w').

Lemma setting_up_turn cpu st sts w :
  outside L cpu w -> consistent plan k (sched w) sts -> sts !! cpu = Some st ->
  in_call st -> (forall r, st <> Running r) ->
  wlp (worker_turn ptr1 ptr2 ptr3 cpu st) (fun x w' => turn_result cpu st sts w x w') w.
Proof.
  intros Hw Hs Hst Hin Hne.
  assert (Hact : forall attempt, remaining (Some st) = [] ->
    wlp (res ← hypercall cpu HCALL_ACTIVATE_BP 0 0 0; mret (next_attempt res attempt, None))
      (fun x w' => turn_result cpu st sts w x w') w).
  { intros attempt Hrem. apply wlp_bind. eapply wlp_mono; [by apply (activate_turn cpu attempt st sts)|].
    intros r w' (Hout & Hc & Hres). apply wlp_ret. split; [done|]. split; [done|]. split; [done|].
    destruct Hres as [(Ho & -> & Ha)|[Hno ->]]; [by split|]. split; [by intros _ ?|]. cbn [fst].
    unfold next_attempt. rewrite Z.eqb_refl. by destruct (negb _). }
  destruct st as [[|p rest]|n|r| | |]; try done.
  - by apply Hact.
  - eapply wlp_mono; [by apply (install_turn cpu p rest sts)|]. intros x w' (Hout & -> & Hc).
    split; [done|]. split; [done|]. by split.
  - by apply Hact.
  - by destruct (Hne r).
Qed.

Lemma ended_stays cpu st w x w' :
  ~ in_call st -> worker_turn ptr1 ptr2 ptr3 cpu st w = Ret x w' -> ~ in_call x.1.
Proof.
  intros Hn E. assert (wlp (worker_turn ptr1 ptr2 ptr3 cpu st) (fun x _ => ~ in_call x.1) w) as Hw.
  { destruct st; try done; cbn [worker_turn]; try (by apply wlp_ret);
      apply wlp_bind, wlp_true; intros ? ?.
    - by apply wlp_ret.
    - destruct (_ =? _); [|by apply wlp_ret].
      apply wlp_bind, wlp_true. intros ? ?. apply wlp_bind, wlp_true. intros ? ?. by apply wlp_ret. }
  unfold wlp in Hw. by rewrite E in Hw.
Qed.

Definition some_ended (c : config) : Prop := exists cpu st, cf_stages c !! cpu = Some st /\ ~ in_call st.

Lemma ended_persists c c' : rtc (turn ptr1 ptr2 ptr3) c c' -> some_ended c -> some_ended c'.
Proof.
  induction 1 as [|c c1 c' Hstep _ IH]; [done|]. intros (cpu & st & Hst & Hn). apply IH.
  destruct Hstep as [cpu1 st1 st1' r w w' sts warns Hst1 E]. cbn [cf_stages] in *.
  destruct (decide (cpu1 = cpu)) as [->|Hne].
  - rewrite Hst in Hst1. injection Hst1 as <-. exists cpu, st1'. split; [apply lookup_insert_eq|].
    by eapply (ended_stays cpu st _ (st1', r)).
  - exists cpu, st. cbn [cf_stages]. by rewrite lookup_insert_ne.
Qed.

Lemma running_ends cpu r w x w' : worker_turn ptr1 ptr2 ptr3 cpu (Running r) w = Ret x w' -> ~ in_call x.1.
Proof.
  intros E. assert (wlp (worker_turn ptr1 ptr2 ptr3 cpu (Running r)) (fun x _ => ~ in_call x.1) w) as Hw.
  { apply wlp_bind, wlp_true. intros ? ?. apply wlp_ret. cbn. tauto. }
  unfold wlp in Hw. by rewrite E in Hw.
Qed.

Lemma wf_on_thread cpu w : wf L w -> iothread_locked w = false -> outside L cpu (on_thread cpu w).
Proof. apply outside_on_thread. Qed.

Lemma set_up_invariant c c' :
  rtc (turn ptr1 ptr2 ptr3) c c' -> set_up_so_far c -> ~ some_ended c' -> set_up_so_far c'.
Proof.
  induction 1 as [|c c1 c' Hstep Hr IH]; [done|]. intros (Hwf & Hl & Hs & Hw) Hend. apply IH; [|done].
  assert (Hc1 : ~ some_ended c1) by (intros H1; apply Hend; by eapply ended_persists).
  destruct Hstep as [cpu st st' r w w' sts warns Hst E]. cbn [cf_machine cf_stages cf_warnings] in *. subst warns.
  assert (Hst' : in_call st').
  { destruct st'; try done; destruct Hc1; eexists cpu, _; (split; [apply lookup_insert_eq|]); cbn; tauto. }
  assert (Hin : in_call st).
  { destruct (cs_stage _ _ _ _ Hs _ _ Hst) as [Hset _]. by destruct st. }
  assert (Hne : forall n, st <> Running n).
  { intros n ->. by apply running_ends in E. }
  pose proof (setting_up_turn cpu st sts _ (wf_on_thread cpu w Hwf Hl) Hs Hst Hin Hne) as Hp.
  unfold wlp in Hp. rewrite E in Hp. destruct Hp as (Hout & Hcons & Hwarn & _).
  split; [apply Hout|]. split; [apply Hout|]. split; [done|]. cbn in *. by rewrite Hwarn.
Qed.

(** *** The start *)

Definition starting (c : Z) : option stage := setup_schedule (alen (plan_points plan c)) (plan_points plan c).

(** No schedule is there, and the workers' vCPUs are idle. *)
Record unscheduled (s : qcsched) : Prop := {
  un_total : total s = 0;
  un_activated : activated s = false;
  un_entries : forall i e, aget (entries s) i = Some e -> qcsched_entry_used e = false;
  un_idle : forall c, 1 <= c <= k -> aget (cpu_state s) c = Some qcsched_cpu_idle
}.

Lemma starting_installs c : 1 <= c <= k -> starting c = Some (Installing (plan_points plan c)).
Proof.
  intros Hc. unfold starting, setup_schedule. pose proof (po_all _ _ Hplan c Hc).
  destruct (plan_points plan c) as [|p l]; [done|]. rewrite alen_cons. pose proof (alen_nonneg l).
  by destruct (Z.eqb_spec (1 + alen l) 0); [lia|].
Qed.

Lemma start_consistent s s' sts :
  sched_ok s -> unscheduled s -> (forall c, sts !! c = if decide (1 <= c <= k) then starting c else None) ->
  s' = s <| total := alen plan |> <| orig_nr_bps := alen plan |> <| nr_cpus := k |> <| used := false |> ->
  consistent plan k s' sts.
Proof.
  intros Hok [Ht Ha He Hi] Hsts ->. pose proof (po_few _ _ Hplan). split; try done; simpl.
  - intros c. rewrite Hsts. case_decide as Hd; [split; [done|]; intros _; rewrite starting_installs by done; by eexists|].
    split; [intros [? [=]]|done].
  - intros c st. rewrite Hsts. case_decide as Hd; [|done]. rewrite starting_installs by done.
    intros [= <-]. split; [done|]. by apply Hi.
  - intros c. rewrite Hsts. case_decide as Hd; [rewrite starting_installs by done; done|]. apply suffix_nil.
  - intros o c p Ho. destruct (po_entry _ _ Hplan _ _ _ Ho) as (_ & _ & Hc).
    destruct (aget_is_Some (entries s) (Z.of_nat o)) as [_ [e Hoe]].
    { rewrite (len_entries _ Hok). apply lookup_lt_Some in Ho. unfold alen in *. lia. }
    exists e. split; [done|]. split; [intros _; by eapply He|]. intros Hn. destruct Hn.
    rewrite Hsts, decide_True, starting_installs by done. apply plan_point_elem. by exists o.
  - by rewrite Ha.
  - intros c. rewrite Hsts. case_decide as Hd; [|done]. by rewrite starting_installs.
Qed.

Lemma wlp_prepare c0 w :
  c0 ∈ L -> outside L c0 w -> unscheduled (sched w) -> hook_addr (vmi_info w) <> 0 ->
  wlp (hypercall c0 HCALL_PREPARE (alen plan) k 0) (fun r w' => r = 0 /\ outside L c0 w' /\
    sched w' = sched w <| total := alen plan |> <| orig_nr_bps := alen plan |> <| nr_cpus := k |> <| used := false |> /\
    hook_addr (vmi_info w') = hook_addr (vmi_info w)) w.
Proof.
  intros Hc Hw [Ht _ _ _] Hh. pose proof (po_few _ _ Hplan) as Hfew. pose proof (po_cpus _ _ Hplan) as Hk.
  unfold MAX_SCHEDPOINTS, MAX_CPUS in *.
  eapply wlp_mono; [apply wlp_conj; [apply (wlp_hypercall_outside c0); [done| |done]|]|].
  { do 5 eexists. split; [done|]. split; [intros _; rewrite wrapu_id by lia; unfold MAX_SCHEDPOINTS; lia|done]. }
  { apply (wlp_hypercall L c0 Hblk Hc _ _ _ _ (fun r w' => r = 0 /\
      sched w' = sched w <| total := alen plan |> <| orig_nr_bps := alen plan |> <| nr_cpus := k |> <| used := false |> /\
      hook_addr (vmi_info w') = hook_addr (vmi_info w))); [done|].
    intros w1 (cs & kv & b & ->) Hin.
    change (hcall_dispatch c0 HCALL_PREPARE (alen plan) k 0) with (qcsched_prepare c0 (u32 (alen plan)) (u32 k)).
    rewrite !wrapu_id by lia. apply wlp_bind, wlp_sched_. simpl. rewrite Ht. apply wlp_bind, wlp_vmi_. simpl.
    destruct (Z.eqb_spec (hook_addr (vmi_info w)) 0); [done|]. unfold MAX_CPUS, MAX_SCHEDPOINTS.
    destruct (Z.leb_spec 8 k); [lia|]. destruct (Z.ltb_spec 256 (alen plan)); [lia|].
    apply wlp_bind, wlp_upd_sched, wlp_ret. simpl. rewrite wraps_id; [done|lia|].
    change (2 ^ (32 - 1)) with 2147483648. lia. }
  intros r w' [Hout (w2 & (-> & Hs & Hv) & cs & kv & b & ->)]. done.
Qed.

Lemma turn_no_ub cpu st sts w :
  outside L cpu w -> consistent plan k (sched w) sts -> sts !! cpu = Some st -> (forall r, st <> Running r) ->
  wp disciplined (worker_turn ptr1 ptr2 ptr3 cpu st) (fun _ _ => True) w.
Proof.
  intros Hw Hs Hst Hne. destruct (worker_in _ _ _ _ Hs Hst) as [Hk Hc].
  assert (Hh : forall A cmd a1 a2 a3 (f : Z -> A), hcall_args_ok [cmd; a1; a2; a3] ->
    wp disciplined (r ← hypercall cpu cmd a1 a2 a3; mret (f r)) (fun _ _ => True) w).
  { intros A cmd a1 a2 a3 f Hargs. apply wp_bind, wp_bind.
    eapply wp_mono; [apply (osafe_handle_hcall L cpu Hc _ Hargs w Hw)|]. intros [] w1 [Hw1 _].
    destruct (wf_cpus _ _ (out_wf _ _ _ Hw1) cpu Hc) as [x Hx]. unfold wp. cbn. unfold get_cpu, mbind, prog_bind, gets, deref, id.
    by rewrite Hx. }
  destruct (cs_stage _ _ _ _ Hs _ _ Hst) as [Hset _].
  destruct st as [[|p rest]|n|r| | |]; try done; cbn [worker_turn].
  - apply Hh. do 5 eexists. split; [done|]. by split.
  - apply Hh. do 5 eexists. split; [done|]. split; [done|]. intros _.
    assert (p ∈ plan_points plan cpu) as Hp.
    { pose proof (cs_rest _ _ _ _ Hs cpu) as Hsuf. rewrite Hst in Hsuf. eapply elem_of_suffix; [|done]. by left. }
    pose proof (plan_point_order plan k Hplan cpu p Hp) as Hlk. pose proof (po_few _ _ Hplan) as Hfew.
    destruct (po_entry _ _ Hplan _ _ _ Hlk) as [-> _]. apply lookup_lt_Some in Hlk. unfold alen, MAX_SCHEDPOINTS in *.
    rewrite wraps_id; [lia|lia|]. change (2 ^ (32 - 1)) with 2147483648. lia.
  - apply Hh. do 5 eexists. split; [done|]. by split.
  - by destruct (Hne r).
Qed.
End Turns.

(** ** The schedule of a race

    The contenders [a] and [b] run on threads 0 and 1. *)

Definition thread_of (a : Z) (pt : Point) : Z := if call pt =? a then 0 else 1.

Definition race_plan (filter : list Z) (a : Z) (s0 : Schedule) : list (Z * schedule_t) :=
  (fun pt => (lookup_available_cpu (thread_of a pt), point_read filter (thread_of a pt) pt)) <$> points s0.

(** The breakpoints of one contender, as the executor has read them. *)
Definition own_points (filter : list Z) (s0 : Schedule) (thread c : Z) : list schedule_t :=
  take (Z.to_nat kMaxSchedule) (point_read filter thread <$> points_of s0 c).

(** What a fuzzer's schedule has to be: at most 128 numbered breakpoints at
    addresses other than 0, each of them of one contender. *)
Record race_schedule (a b : Z) (s0 : Schedule) : Prop := {
  rs_ok : schedule_ok [a; b] s0;
  rs_differ : a <> b;
  rs_few : alen (points s0) <= kMaxSchedule;
  rs_addr : forall pt, pt ∈ points s0 -> Threading.addr pt <> 0
}.

Lemma race_points filter a b s0 c thread :
  race_schedule a b s0 -> (c = a /\ thread = 0 \/ c = b /\ thread = 1) ->
  plan_points (race_plan filter a s0) (lookup_available_cpu thread) = own_points filter s0 thread c.
Proof.
  intros [(_ & Hin & _) Hab Hfew _] Hc. unfold own_points. rewrite take_ge; cycle 1.
  { rewrite length_fmap. unfold points_of, Match. cbn [points]. pose proof (length_filter (fun p => call p = c) (points s0)).
    unfold alen, kMaxSchedule in *. lia. }
  unfold points_of, Match, race_plan, plan_points. cbn [points]. clear Hfew.
  induction (points s0) as [|pt ps IH]; [done|]. cbn [fmap list_fmap]. rewrite !filter_cons. cbn [fst].
  assert (Hiff : lookup_available_cpu (thread_of a pt) = lookup_available_cpu thread <-> call pt = c).
  { specialize (Hin pt ltac:(by left)). unfold lookup_available_cpu, thread_of.
    rewrite !elem_of_cons, elem_of_nil in Hin. destruct (Z.eqb_spec (call pt) a); destruct Hc as [[-> ->]|[-> ->]]; lia. }
  specialize (IH ltac:(intros pt' Hpt'; apply Hin; by right)).
  destruct (decide (call pt = c)) as [Hd|Hd].
  - rewrite decide_True by by apply Hiff. cbn [fmap list_fmap snd]. f_equal; [|exact IH]. f_equal.
    apply Hiff in Hd. unfold lookup_available_cpu in Hd. lia.
  - rewrite decide_False; [exact IH|]. by rewrite Hiff.
Qed.

Lemma race_plan_ok filter a b s0 : race_schedule a b s0 -> plan_ok (race_plan filter a s0) 2.
Proof.
  intros Hr. pose proof Hr as [(Hnum & Hin & Hall) Hab Hfew Haddr].
  assert (Hlen : alen (race_plan filter a s0) = alen (points s0)) by (unfold alen, race_plan; by rewrite length_fmap).
  assert (Hpts : forall c thread, c = a /\ thread = 0 \/ c = b /\ thread = 1 ->
    plan_points (race_plan filter a s0) (lookup_available_cpu thread) <> []).
  { intros c thread Hc. rewrite (race_points filter a b s0 c thread Hr Hc). unfold own_points.
    destruct (Hall c) as (pt & Hpt & Hcall); [rewrite !elem_of_cons; destruct Hc as [[-> _]|[-> _]]; auto|].
    assert (pt ∈ points_of s0 c) as Hp by (unfold points_of, Match; apply list_elem_of_filter; by split).
    destruct (points_of s0 c); [by apply not_elem_of_nil in Hp|done]. }
  split.
  - rewrite Hlen. unfold kMaxSchedule, MAX_SCHEDPOINTS in *. split; [|lia].
    destruct (Hall a) as (pt & Hpt & _); [by left|]. destruct (points s0); [by apply not_elem_of_nil in Hpt|].
    rewrite alen_cons. pose proof (alen_nonneg l). lia.
  - intros o c s (pt & [= -> ->] & Hpt)%list_lookup_fmap_Some. split; [|split].
    + unfold point_read. cbn [s_order]. assert ((Threading.order <$> points s0) !! o = Some (Threading.order pt)) as Ho
        by by rewrite list_lookup_fmap, Hpt.
      rewrite Hnum, list_lookup_fmap in Ho. apply lookup_lt_Some in Hpt as Hlt.
      rewrite lookup_seq_lt in Ho by done. by injection Ho as <-.
    + apply Haddr. by eapply list_elem_of_lookup_2.
    + unfold lookup_available_cpu, thread_of. destruct (_ =? _); lia.
  - intros c Hc. assert (c = 1 \/ c = 2) as [->| ->] by lia.
    + apply (Hpts a 0). by left.
    + apply (Hpts b 1). by right.
  - unfold MAX_CPUS. lia.
Qed.

(** The schedule of the fuzzer, in the hypervisor and active. *)
Definition set_up_as (filter : list Z) (a : Z) (s0 : Schedule) (s : qcsched) : Prop :=
  activated s = true /\ total s = alen (points s0) /\ current s = first_preserved s /\
  forall i pt, points s0 !! i = Some pt -> exists e, aget (entries s) (Z.of_nat i) = Some e /\
    planned (Z.of_nat i) (lookup_available_cpu (thread_of a pt)) (point_read filter (thread_of a pt) pt) e.

(** ** Properties *)

(** C22. The race is set up as the fuzzer planned it, whatever the order in
    which the workers make their hypercalls.  From a machine without a
    schedule, HCALL_PREPARE succeeds.  In every configuration the two workers
    can reach before one of them ends its call, no hypercall was refused and
    none that may follow is undefined; a worker that has left the barrier has
    done so with 0, or has given up after -EAGAIN.  If one has left it with 0,
    the hypervisor holds exactly the fuzzer's breakpoints, in their order, on
    the right vCPUs, skipping those that are filtered out, and the schedule is
    active and starts at the first of them.  A worker that has installed its
    breakpoints passes the barrier with its next turn exactly when the other
    has installed its own, and then its hook is armed. *)
Theorem race_is_set_up `{P : Platform} {I : Interference} (L : list Z) (ptr1 ptr2 ptr3 : Z -> Z) (filter : list Z)
    (a b c0 : Z) (s0 : Schedule) (w w0 : machine) (r0 : Z) (c : config) :
  config_trampoline = false -> Small L -> StableInterference L -> MemLaws -> c0 ∈ L -> 1 ∈ L -> 2 ∈ L ->
  race_schedule a b s0 -> outside L c0 w -> unscheduled 2 (sched w) -> hook_addr (vmi_info w) <> 0 ->
  hypercall c0 HCALL_PREPARE (alen (points s0)) 2 0 w = Ret r0 w0 ->
  rtc (turn ptr1 ptr2 ptr3)
    (mk_config w0 {[1 := Installing (own_points filter s0 0 a); 2 := Installing (own_points filter s0 1 b)]} []) c ->
  ~ some_ended c ->
  r0 = 0 /\ cf_warnings c = [] /\
  (forall cpu r, cf_stages c !! cpu = Some (Running r) -> r = 0 \/ r = neg_errno EAGAIN) /\
  (forall cpu, cf_stages c !! cpu = Some (Running 0) -> set_up_as filter a s0 (sched (cf_machine c))) /\
  (forall cpu st, cf_stages c !! cpu = Some st -> (forall r, st <> Running r) ->
     match worker_turn ptr1 ptr2 ptr3 cpu st (on_thread cpu (cf_machine c)) with
     | Ret (st', r) w' =>
         (remaining (Some st) = [] -> others_arrived 2 cpu (cf_stages c) -> st' = Running 0) /\
         (st' = Running 0 -> others_arrived 2 cpu (cf_stages c) /\ armed cpu (hook_addr (vmi_info (cf_machine c))) w')
     | Exit msg => disciplined msg
     | UB _ | OutOfFuel => False
     end).
Proof.
  intros Hblk HS HI HM Hc0 H1 H2 Hrace Hw Hun Hhook E Hr Hend.
  pose proof (race_plan_ok filter a b s0 Hrace) as Hplan. set (plan := race_plan filter a s0) in *.
  assert (Hlen : alen (points s0) = alen plan) by (unfold plan, race_plan, alen; by rewrite length_fmap).
  assert (HL : forall c, 1 <= c <= 2 -> c ∈ L) by (intros c' Hc'; assert (c' = 1 \/ c' = 2) as [->| ->] by lia; done).
  pose proof (wlp_prepare L Hblk plan 2 Hplan c0 w Hc0 Hw Hun Hhook) as Hprep. unfold wlp in Hprep.
  rewrite Hlen in E. rewrite E in Hprep. destruct Hprep as (-> & Hout & Hs0 & _).
  assert (Hinv : set_up_so_far L plan 2 c).
  { eapply set_up_invariant; [done..| |done]. split; [apply Hout|]. split; [apply Hout|]. split; [|done].
    cbn [cf_machine cf_stages]. apply (start_consistent plan 2 Hplan (sched w)); [apply (wf_sched _ _ (out_wf _ _ _ Hw))|done| |exact Hs0].
    intros c'. rewrite <- (race_points filter a b s0 a 0), <- (race_points filter a b s0 b 1) by (done || tauto).
    change (lookup_available_cpu 0) with 1. change (lookup_available_cpu 1) with 2. fold plan.
    case_decide as Hd.
    - rewrite (starting_installs plan 2) by done. assert (c' = 1 \/ c' = 2) as [->| ->] by lia; by simplify_map_eq.
    - rewrite lookup_insert_ne by lia. apply lookup_singleton_ne. lia. }
  destruct Hinv as (Hwf & Hl & Hs & Hwarn). split; [done|]. split; [done|]. split; [|split].
  - intros cpu r Hst. by destruct (cs_stage _ _ _ _ Hs _ _ Hst) as [? _].
  - intros cpu Hst. pose proof (cs_running _ _ _ _ Hs _ Hst) as Hact. destruct (cs_activated _ _ _ _ Hs Hact) as [Harr Hcur].
    split; [done|]. split; [by rewrite (cs_total _ _ _ _ Hs)|]. split; [done|]. intros i pt Hpt.
    assert (plan !! i = Some (lookup_available_cpu (thread_of a pt), point_read filter (thread_of a pt) pt)) as Hp
      by (unfold plan, race_plan; by rewrite list_lookup_fmap, Hpt).
    destruct (cs_entry _ _ _ _ Hs _ _ _ Hp) as (e & He & _ & Hpl). exists e. split; [done|]. apply Hpl.
    destruct (po_entry _ _ Hplan _ _ _ Hp) as (_ & _ & Hcr). specialize (Harr _ Hcr).
    destruct (cf_stages c !! lookup_available_cpu _) as [[]|]; try done; apply not_elem_of_nil.
  - intros cpu st Hst Hne. assert (Hin : in_call st).
    { destruct (cs_stage _ _ _ _ Hs _ _ Hst) as [Hset _]. by destruct st. }
    pose proof (outside_on_thread L (cf_machine c) cpu Hwf Hl) as Ho.
    pose proof (setting_up_turn L Hblk ptr1 ptr2 ptr3 plan 2 Hplan HL cpu st _ _ Ho Hs Hst Hin Hne) as Ht.
    pose proof (turn_no_ub L ptr1 ptr2 ptr3 plan 2 Hplan HL cpu st _ _ Ho Hs Hst Hne) as Hsafe.
    unfold wlp in Ht. unfold wp in Hsafe. destruct (worker_turn _ _ _ _ _ _) as [[st' r] w'| | |]; try done.
    destruct Ht as (_ & _ & _ & Hgo & Hback). split; [|done]. intros Hrem Hoth. by destruct (Hgo Hrem Hoth).
Qed.

(** Two contenders with one breakpoint each. *)
Definition race_sample : Schedule := mk_schedule [mk_point 1 4096 0; mk_point 3 8192 1] [].

Lemma race_sample_ok : race_schedule 1 3 race_sample.
Proof.
  split; [split; [done|split]|done|done|].
  - intros pt. cbn. set_solver.
  - intros c. cbn. rewrite !elem_of_cons, elem_of_nil. intros [->|[->|[]]];
    [exists (mk_point 1 4096 0)|exists (mk_point 3 8192 1)]; (split; [set_solver|reflexivity]).
  - intros pt. cbn. rewrite !elem_of_cons, elem_of_nil. by intros [->|[->|[]]].
Qed.

(** A fresh machine with three vCPUs whose guest has told where its hook is. *)
Definition hooked_machine : machine (P := flat_platform) :=
  flat_machine 3 [] <| vmi_info ::= set hook_addr (fun _ => 64) |>.

Lemma hooked_outside : outside [0; 1; 2] 0 hooked_machine.
Proof.
  destruct (init_wf (P := flat_platform) 3 ∅ (mk_flat_kvm [] ∅ ∅)) as [Hs Hv ? ? ? ? ?].
  split; [split|..]; try done. by destruct Hv; split.
Qed.

Lemma hooked_unscheduled : unscheduled 2 (sched hooked_machine).
Proof.
  split; try done.
  - intros i e. cbn. intros [-> _]%aget_replicate. done.
  - intros c Hc. assert (c = 1 \/ c = 2) as [->| ->] by lia; done.
Qed.

(** The workers take turns: both install, the first waits, the second passes
    the barrier, then the first. *)
Definition race_run : option (Z * config) :=
  match hypercall 0 HCALL_PREPARE 2 2 0 hooked_machine with
  | Ret r0 w0 =>
      c ← run_turns id id id [1; 2; 1; 2; 1]
            (mk_config w0 {[1 := Installing (own_points [] race_sample 0 1); 2 := Installing (own_points [] race_sample 1 3)]} []);
      Some (r0, c)
  | _ => None
  end.

Lemma race_is_set_up_witness :
  match race_run with
  | Some (r0, c) => r0 = 0 /\ cf_stages c !! 1 = Some (Running 0) /\ cf_stages c !! 2 = Some (Running 0) /\
      set_up_as [] 1 race_sample (sched (cf_machine c))
  | None => False
  end.
Proof.
  assert (Hgo : match race_run with
    | Some (_, c) => map_to_list (cf_stages c)
    | None => []
    end = [(2, Running 0); (1, Running 0)]) by (vm_compute; reflexivity).
  unfold race_run in *. destruct (hypercall 0 HCALL_PREPARE 2 2 0 hooked_machine) as [r0 w0| | |] eqn:E; try discriminate Hgo.
  destruct (run_turns id id id _ _) as [c|] eqn:Er; [|discriminate Hgo]. cbn [mbind option_bind] in *.
  assert (Hst : cf_stages c = {[1 := Running 0; 2 := Running 0]}).
  { rewrite <- (list_to_map_to_list (cf_stages c)), Hgo. reflexivity. }
  destruct (race_is_set_up [0; 1; 2] id id id [] 1 3 0 race_sample hooked_machine w0 r0 c) as (H0 & _ & _ & Hset & _).
  - reflexivity.
  - exact (vcpus_small 3 ltac:(lia)).
  - exact (flat_stable _).
  - exact flat_mem_laws.
  - set_solver.
  - set_solver.
  - set_solver.
  - exact race_sample_ok.
  - exact hooked_outside.
  - exact hooked_unscheduled.
  - discriminate.
  - exact E.
  - eapply run_turns_reach, Er.
  - intros (cpu & st & Hcpu & Hn). rewrite Hst in Hcpu. apply Hn.
    apply lookup_insert_Some in Hcpu as [[_ <-]|[_ [_ <-]%lookup_singleton_Some]]; exact I.
  - assert (H1 : cf_stages c !! 1 = Some (Running 0)) by (rewrite Hst; reflexivity).
    assert (H2 : cf_stages c !! 2 = Some (Running 0)) by (rewrite Hst; reflexivity).
    exact (conj H0 (conj H1 (conj H2 (Hset 1 H1)))).
Defined.
