(* ===== verification/StoreBuffer.v ===== *)
(** * The store-buffer runtimes: shared parts

    tools/SoftStoreBufferPass/include/runtime: [input_vector.h], the input
    that says how many stores to flush after an instruction, and
    [_decl_callback.h], the callbacks the instrumented program calls for each
    load, store and barrier.  The callbacks are the same for both memory
    models; what they call is the class [MemoryModel], implemented by Pso and
    Tso.  With [__DEBUG_SERIALIZE], which both runtimes define, a spinlock
    serialises the callbacks, so that the threads interleave call by call. *)

From stdpp Require Import base list gmap strings sorting.
From Stdlib Require Import ZArith Lia.
From S2P Require Import Prelude.

Local Open Scope Z_scope.
Local Open Scope record_scope.

(** ** Memory of the process *)

Definition read_byte (m : gmap Z Z) (a : Z) : Z := default 0 (m !! a) `mod` 256.

Fixpoint read_bytes (m : gmap Z Z) (n : nat) (a : Z) : list Z :=
  match n with
  | O => []
  | S n' => read_byte m a :: read_bytes m n' (a + 1)
  end.

Fixpoint write_bytes (a : Z) (l : list Z) (m : gmap Z Z) : gmap Z Z :=
  match l with
  | [] => m
  | b :: l' => write_bytes (a + 1) l' (<[a := b]> m)
  end.

(** [*addr] for a [uint64_t *]. *)
Definition read64 (m : gmap Z Z) (a : Z) : Z := le_value (read_bytes m 8 a).
Definition write64 (a v : Z) (m : gmap Z Z) : gmap Z Z := write_bytes a (le_bytes 8 v) m.

(** ** The input *)

Definition kMaxInputSize : Z := 32.
Definition kMaxBufferSize : Z := 16.

Record inputVector := mk_input { inputSize : Z; _vector : list Z; inputPos : Z }.

#[export] Instance eta_input : Eta inputVector := fun r => mk_input (inputSize r) (_vector r) (inputPos r).

(** The process: its memory, the global [input], and the buffer of every
    thread that has one. *)
Record runtime (B : Type) := mk_runtime { memory : gmap Z Z; input : inputVector; buffers : gmap Z B }.
Arguments mk_runtime {B} memory input buffers.
Arguments memory {B} r.
Arguments input {B} r.
Arguments buffers {B} r.

#[export] Instance eta_runtime {B} : Eta (runtime B) := fun r => mk_runtime (memory r) (input r) (buffers r).

(** Globals start zeroed. *)
Definition boot {B} (m : gmap Z Z) : runtime B :=
  mk_runtime m (mk_input 0 (replicate 32 0) 0) ∅.

(** [std::copy] into an array of 32 elements. *)
Definition feedInput {B} (vector : list Z) : prog (runtime B) unit :=
  if kMaxInputSize <? alen vector then ub "feedInput: _vector"
  else modify (fun w => w <| input ::= fun i =>
    i <| _vector := vector ++ drop (length vector) (_vector i) |> <| inputSize := alen vector |> |>).

Definition next {B} : prog (runtime B) Z :=
  i ← gets input;
  let pos := wrapu 32 (inputPos i) in
  (if inputSize i =? 0 then ub "next: division by zero" else mret tt) ;;
  modify (fun w => w <| input ::= fun i => i <| inputPos := wraps 32 (wrapu 64 (inputPos i + 1) `mod` inputSize i) |> |>) ;;
  deref "next: _vector" (aget (_vector i) pos).

(** ** The callbacks *)

(** What a memory model provides: [STORE_CALLBACK_IMPL],
    [LOAD_CALLBACK_IMPL] and [FLUSH_CALLBACK_IMPL], each run by a thread. *)
Class MemoryModel (B : Type) := {
  STORE_CALLBACK_IMPL : Z -> Z -> Z -> Z -> prog (runtime B) unit;
  LOAD_CALLBACK_IMPL : Z -> Z -> Z -> prog (runtime B) Z;
  FLUSH_CALLBACK_IMPL : Z -> prog (runtime B) unit
}.

Definition BIT_MASK (bits : Z) : Z :=
  if bits =? 64 then 0xffffffffffffffff else Z.shiftl 1 bits - 1.

Section Callbacks.
Context {B : Type} `{!MemoryModel B}.

(** [__ssb_<model>_store<bytes>] *)
Definition ssb_store (thread bytes addr val : Z) : prog (runtime B) unit :=
  let bits := bytes * 8 in
  STORE_CALLBACK_IMPL thread addr (Z.land (wrapu bits val) (BIT_MASK bits)) bytes.

(** [__ssb_<model>_load<bytes>] *)
Definition ssb_load (thread bytes addr : Z) : prog (runtime B) Z :=
  let bits := bytes * 8 in
  val ← LOAD_CALLBACK_IMPL thread addr bytes;
  mret (wrapu bits (Z.land (wrapu bits val) (BIT_MASK bits))).

Definition ssb_flush (thread : Z) : prog (runtime B) unit := FLUSH_CALLBACK_IMPL thread.

Definition ssb_feedinput (vector : list Z) : prog (runtime B) unit := feedInput vector.

(** A call of an instrumented program. *)
Inductive callback :=
| CStore (bytes addr val : Z)
| CLoad (bytes addr : Z)
| CFlush
| CFeed (vector : list Z).

(** A load yields the value loaded. *)
Definition call (thread : Z) (c : callback) : prog (runtime B) (option Z) :=
  match c with
  | CStore bytes addr val => ssb_store thread bytes addr val ;; mret None
  | CLoad bytes addr => val ← ssb_load thread bytes addr; mret (Some val)
  | CFlush => ssb_flush thread ;; mret None
  | CFeed vector => ssb_feedinput vector ;; mret None
  end.

(** The calls of all threads, in the order in which they take the lock. *)
Fixpoint run_calls (l : list (Z * callback)) : prog (runtime B) (list (option Z)) :=
  match l with
  | [] => mret []
  | (thread, c) :: l' => r ← call thread c; rs ← run_calls l'; mret (r :: rs)
  end.

Lemma run_calls_cons t c l w r w1 rs w2 :
  call t c w = Ret r w1 -> run_calls l w1 = Ret rs w2 -> run_calls ((t, c) :: l) w = Ret (r :: rs) w2.
Proof. intros H1 H2. cbn. unfold mbind, prog_bind. rewrite H1, H2. done. Qed.
End Callbacks.

(** ** Lemmas on memory *)

Lemma read_byte_range m a : 0 <= read_byte m a < 256.
Proof. apply Z.mod_pos_bound. lia. Qed.

Lemma length_read_bytes m n a : length (read_bytes m n a) = n.
Proof. revert a. induction n as [|n IH]; intros a; cbn; [done|]. by rewrite IH. Qed.

Lemma lookup_read_bytes m n a i : (i < n)%nat -> read_bytes m n a !! i = Some (read_byte m (a + Z.of_nat i)).
Proof.
  revert a i. induction n as [|n IH]; intros a i Hi; [lia|]. destruct i as [|i]; cbn; [by rewrite Z.add_0_r|].
  rewrite IH by lia. do 2 f_equal. lia.
Qed.

Lemma lookup_write_bytes l a m x :
  write_bytes a l m !! x = if decide (a <= x < a + alen l) then l !! Z.to_nat (x - a) else m !! x.
Proof.
  revert a m. induction l as [|b l IH]; intros a m; cbn [write_bytes].
  { case_decide; [|done]. unfold alen in *. cbn in *. lia. }
  rewrite IH, alen_cons. pose proof (alen_nonneg l). repeat case_decide; try lia.
  - replace (Z.to_nat (x - a)) with (S (Z.to_nat (x - (a + 1)))) by lia. done.
  - assert (x = a) as -> by lia. rewrite lookup_insert_eq, Z.sub_diag. done.
  - rewrite lookup_insert_ne by lia. done.
Qed.

Lemma read_byte_write l a m x :
  read_byte (write_bytes a l m) x =
  if decide (a <= x < a + alen l) then default 0 (l !! Z.to_nat (x - a)) `mod` 256 else read_byte m x.
Proof. unfold read_byte. rewrite lookup_write_bytes. by case_decide. Qed.

Lemma read_bytes_ext m m' n a :
  (forall x, a <= x < a + Z.of_nat n -> read_byte m x = read_byte m' x) -> read_bytes m n a = read_bytes m' n a.
Proof.
  intros H. apply list_eq. intros i. destruct (decide (i < n)%nat).
  - rewrite !lookup_read_bytes by done. f_equal. apply H. lia.
  - rewrite !lookup_ge_None_2; [done|rewrite length_read_bytes; lia..].
Qed.

Lemma le_value_mod_bytes l : le_value ((fun b => b `mod` 256) <$> l) = le_value l.
Proof. induction l as [|b l IH]; cbn; [done|]. by rewrite Z.mod_mod, IH by lia. Qed.

Lemma read64_write64 a v m : 0 <= v < 2 ^ 64 -> read64 (write64 a v m) a = v.
Proof.
  intros Hv. unfold read64, write64. rewrite <- le_value_mod_bytes.
  transitivity (le_value ((fun b => b `mod` 256) <$> le_bytes 8 v)).
  - f_equal. apply list_eq. intros i. rewrite !list_lookup_fmap. destruct (decide (i < 8)%nat) as [Hi|Hi].
    + rewrite lookup_read_bytes, read_byte_write by done. rewrite decide_True by (unfold alen; rewrite length_le_bytes; lia).
      replace (Z.to_nat (a + Z.of_nat i - a)) with i by lia.
      destruct (lookup_lt_is_Some_2 (le_bytes 8 v) i) as [b ->]; [by rewrite length_le_bytes|]. cbn. by rewrite Z.mod_mod by lia.
    + rewrite !lookup_ge_None_2; [done|rewrite ?length_read_bytes, ?length_le_bytes; lia..].
  - rewrite le_value_mod_bytes, le_value_bytes. apply Z.mod_small. done.
Qed.

Lemma read64_write64_ne a b v m : a `mod` 8 = 0 -> b `mod` 8 = 0 -> a <> b -> read64 (write64 a v m) b = read64 m b.
Proof.
  intros Ha Hb Hne. unfold read64, write64. f_equal. apply read_bytes_ext. intros x Hx.
  rewrite read_byte_write, decide_False; [done|]. unfold alen. rewrite length_le_bytes.
  pose proof (Z.div_mod a 8). pose proof (Z.div_mod b 8). lia.
Qed.

Lemma read64_range m a : 0 <= read64 m a < 2 ^ 64.
Proof. pose proof (le_value_range (read_bytes m 8 a)) as H. unfold alen in H. by rewrite length_read_bytes in H. Qed.

(** ** The input stays in its array *)

Record input_ok (i : inputVector) : Prop := {
  in_vector : alen (_vector i) = kMaxInputSize;
  in_size : 0 <= inputSize i <= kMaxInputSize;
  in_pos : 0 <= inputPos i < kMaxInputSize
}.

Lemma wp_feedInput {B} E vector (w : runtime B) (Q : unit -> runtime B -> Prop) :
  alen vector <= kMaxInputSize -> input_ok (input w) ->
  (forall i, input_ok i -> Q tt (w <| input := i |>)) -> wp E (feedInput vector) Q w.
Proof.
  intros Hl [Hv Hs Hp] H. unfold feedInput. rewrite (proj2 (Z.ltb_ge _ _)) by done. apply wp_modify.
  apply (H (input w <| _vector := vector ++ drop (length vector) (_vector (input w)) |> <| inputSize := alen vector |>)).
  split; cbn; [|by split; [apply alen_nonneg|]|done]. unfold alen in *. rewrite length_app, length_drop. lia.
Qed.

Lemma wp_next {B} E (w : runtime B) (Q : Z -> runtime B -> Prop) :
  0 < inputSize (input w) -> input_ok (input w) ->
  (forall n i, input_ok i -> Q n (w <| input := i |>)) -> wp E next Q w.
Proof.
  intros Hpos [Hv Hs Hp] H. unfold next. unfold kMaxInputSize in *. repeat wp_step; [lia|].
  rewrite wrapu_id by lia. apply wp_deref. destruct (proj2 (aget_is_Some (_vector (input w)) (inputPos (input w)))) as [n Hn]; [lia|].
  exists n. split; [done|].
  apply (H n (input w <| inputPos := wraps 32 (wrapu 64 (inputPos (input w) + 1) `mod` inputSize (input w)) |>)).
  split; cbn; [done..|]. rewrite wrapu_id by lia. pose proof (Z.mod_pos_bound (inputPos (input w) + 1) (inputSize (input w)) ltac:(lia)).
  rewrite wraps_id; unfold kMaxInputSize; lia.
Qed.
