(* ===== verification/Pso.v ===== *)
(** * The store buffer of partial store order (runtime/PSOCallbacks.cpp)

    A thread has a queue of pending stores for every address.  The file models
    the class [storebuffer] and shows that the runtime implements the
    operational model of partial store order for aligned 8-byte accesses. *)

From stdpp Require Import base list gmap strings sorting.
From Stdlib Require Import ZArith Lia.
From S2P Require Import Prelude StoreBuffer.

Local Open Scope Z_scope.
Local Open Scope record_scope.

Record storebuffer := mk_storebuffer { bufferSize : Z; _storebuffer : gmap Z (list Z) }.

#[export] Instance pso_eta_storebuffer : Eta storebuffer := fun r => mk_storebuffer (bufferSize r) (_storebuffer r).

(** [thread_local storebuffer buffer], zeroed before its constructor runs. *)
Definition buffer (thread : Z) (w : runtime storebuffer) : storebuffer :=
  default (mk_storebuffer 0 ∅) (buffers w !! thread).

Definition set_buffer (thread : Z) (f : storebuffer -> storebuffer) (w : runtime storebuffer) : runtime storebuffer :=
  w <| buffers ::= fun bs => <[thread := f (buffer thread w)]> bs |>.

(** [_storebuffer[addr]]: looking an address up creates its queue. *)
Definition queue (thread addr : Z) : prog (runtime storebuffer) (list Z) :=
  modify (set_buffer thread (fun b => b <| _storebuffer ::= fun m => <[addr := default [] (m !! addr)]> m |>)) ;;
  gets (fun w => default [] (_storebuffer (buffer thread w) !! addr)).

Definition set_queue (thread addr : Z) (q : list Z) : prog (runtime storebuffer) unit :=
  modify (set_buffer thread (fun b => b <| _storebuffer ::= fun m => <[addr := q]> m |>)).

Definition write_word (addr val : Z) : prog (runtime storebuffer) unit :=
  modify (fun w => w <| memory ::= write64 addr val |>).

(** A [std::map] is visited in the order of its keys. *)
Definition entry_le (e1 e2 : Z * list Z) : Prop := e1.1 <= e2.1.
#[export] Instance entry_le_dec e1 e2 : Decision (entry_le e1 e2).
Proof. unfold entry_le. apply _. Defined.

Definition in_order (m : gmap Z (list Z)) : list (Z * list Z) := merge_sort entry_le (map_to_list m).

Definition flushAll (thread : Z) : prog (runtime storebuffer) unit :=
  b ← gets (buffer thread);
  foreach (in_order (_storebuffer b)) (fun entry => foreach entry.2 (write_word entry.1)) ;;
  modify (set_buffer thread (fun _ => mk_storebuffer 0 ∅)).

(** One round of the loop of [flush]. *)
Definition flush_one (thread addr n i : Z) : prog (runtime storebuffer) (Z + unit) :=
  if i <? n then
    q ← queue thread addr;
    match q with
    | [] => mret (inr tt)
    | val :: q' => write_word addr val ;; set_queue thread addr q' ;; mret (inl (i + 1))
    end
  else mret (inr tt).

Definition flush (thread addr n : Z) : prog (runtime storebuffer) unit :=
  q ← queue thread addr;
  match q with
  | [] => mret tt
  | _ => loop (S (S (length q))) (flush_one thread addr n) 0
  end.

Definition flushAfterInsn (thread addr : Z) : prog (runtime storebuffer) unit :=
  b ← gets (buffer thread);
  i ← gets input;
  if kMaxBufferSize <=? bufferSize b then flushAll thread
  else if 0 <? inputSize i then n ← next; flush thread addr (wraps 32 n)
  else mret tt.

Definition retrieve (thread addr : Z) : prog (runtime storebuffer) Z :=
  q ← queue thread addr;
  val ← match last q with
        | None => gets (fun w => read64 (memory w) addr)
        | Some val => mret val
        end;
  flushAfterInsn thread addr ;;
  mret val.

Definition store (thread addr val : Z) : prog (runtime storebuffer) unit :=
  q ← queue thread addr;
  set_queue thread addr (q ++ [val]) ;;
  modify (set_buffer thread (fun b => b <| bufferSize ::= fun n => wraps 32 (n + 1) |>)) ;;
  flushAfterInsn thread addr.

#[export] Instance pso : MemoryModel storebuffer := {
  STORE_CALLBACK_IMPL thread addr val size := store thread addr val;
  LOAD_CALLBACK_IMPL thread addr size := retrieve thread addr;
  FLUSH_CALLBACK_IMPL thread := flushAll thread
}.

(** ** The model of partial store order

    A memory of words, and for every thread and address a queue of stores.  A
    load takes the newest store of its own thread, or else the memory; any
    queue may at any time write its oldest store to memory; a barrier waits for
    the thread's queues to be empty. *)

Record pso_state := mk_pso { p_mem : Z -> Z; p_queue : Z -> Z -> list Z }.

Inductive label :=
| LStore (thread addr val : Z)
| LLoad (thread addr val : Z)
| LBarrier (thread : Z).

Inductive pso_step : pso_state -> option label -> pso_state -> Prop :=
| pso_store s t a v :
    pso_step s (Some (LStore t a v)) (mk_pso (p_mem s) (upd (p_queue s) t (upd (p_queue s t) a (p_queue s t a ++ [v]))))
| pso_load s t a :
    pso_step s (Some (LLoad t a (default (p_mem s a) (last (p_queue s t a))))) s
| pso_drain s t a v q :
    p_queue s t a = v :: q ->
    pso_step s None (mk_pso (upd (p_mem s) a v) (upd (p_queue s) t (upd (p_queue s t) a q)))
| pso_barrier s t :
    (forall a, p_queue s t a = []) -> pso_step s (Some (LBarrier t)) s.

(** A run with its visible labels. *)
Inductive pso_run : pso_state -> list label -> pso_state -> Prop :=
| run_nil s : pso_run s [] s
| run_silent s1 s2 s3 tr : pso_step s1 None s2 -> pso_run s2 tr s3 -> pso_run s1 tr s3
| run_visible s1 s2 s3 l tr : pso_step s1 (Some l) s2 -> pso_run s2 tr s3 -> pso_run s1 (l :: tr) s3.

(** What a run of the callbacks shows. *)
Definition shows (t : Z) (c : callback) (r : option Z) : list label :=
  match c with
  | CStore _ a v => [LStore t a v]
  | CLoad _ a => match r with Some v => [LLoad t a v] | None => [] end
  | CFlush => [LBarrier t]
  | CFeed _ => []
  end.

Definition trace (l : list (Z * callback)) (rs : list (option Z)) : list label :=
  concat (zip_with (fun tc r => shows tc.1 tc.2 r) l rs).

(** Aligned 8-byte accesses, and inputs that fit their array. *)
Definition word_call (c : callback) : Prop :=
  match c with
  | CStore bytes a v => bytes = 8 /\ a `mod` 8 = 0 /\ 0 <= v < 2 ^ 64
  | CLoad bytes a => bytes = 8 /\ a `mod` 8 = 0
  | CFlush => True
  | CFeed vector => alen vector <= kMaxInputSize
  end.
#[export] Instance word_call_dec c : Decision (word_call c).
Proof. destruct c; apply _. Defined.

Definition pso_start (m : gmap Z Z) : pso_state := mk_pso (read64 m) (fun _ _ => []).

(** ** The simulation *)

Definition pending (w : runtime storebuffer) (t a : Z) : list Z := default [] (_storebuffer (buffer t w) !! a).

(** [tracks]: the model's memory and queues are those of the runtime, the
    buffers hold words of aligned addresses, and the input is in its array. *)
Record tracks (w : runtime storebuffer) (s : pso_state) : Prop := {
  tr_mem : forall a, a `mod` 8 = 0 -> read64 (memory w) a = p_mem s a;
  tr_queue : forall t a, pending w t a = p_queue s t a;
  tr_aligned : forall t a q, _storebuffer (buffer t w) !! a = Some q -> a `mod` 8 = 0 /\ Forall (fun v => 0 <= v < 2 ^ 64) q;
  tr_input : input_ok (input w)
}.

(** Between two callbacks every counter is below the limit. *)
Definition roomy (w : runtime storebuffer) : Prop := forall t, 0 <= bufferSize (buffer t w) < kMaxBufferSize.

Definition drains : relation pso_state := rtc (fun s s' => pso_step s None s').

Definition with_queue (s : pso_state) (t a : Z) (q : list Z) : pso_state :=
  mk_pso (p_mem s) (upd (p_queue s) t (upd (p_queue s t) a q)).

Definition same_sizes (w w' : runtime storebuffer) : Prop :=
  forall t, bufferSize (buffer t w') = bufferSize (buffer t w).

Lemma pso_buffer_set t t' f w : buffer t' (set_buffer t f w) = if decide (t' = t) then f (buffer t w) else buffer t' w.
Proof.
  unfold buffer at 1. cbn. case_decide as E; [subst; by rewrite lookup_insert_eq|]. by rewrite lookup_insert_ne.
Qed.

Lemma pso_drains_run s s' tr s'' : drains s s' -> pso_run s' tr s'' -> pso_run s tr s''.
Proof. induction 1; [done|]. intros. eapply run_silent; [done|]. auto. Qed.

(** *** The steps of the runtime *)

Section Steps.
Variable E : string -> Prop.

Lemma wp_set_queue t a q w s (Q : unit -> _ -> Prop) :
  tracks w s -> a `mod` 8 = 0 -> Forall (fun v => 0 <= v < 2 ^ 64) q ->
  (forall w', tracks w' (with_queue s t a q) -> same_sizes w w' -> Q tt w') ->
  wp E (set_queue t a q) Q w.
Proof.
  intros [Hm Hq Ha Hi] Hal Hr HQ. apply wp_modify. apply HQ.
  - split; [done| | |done].
    + intros t' a'. unfold pending. rewrite pso_buffer_set. cbn. unfold upd. case_decide; [|apply Hq]. subst. cbn.
      case_decide; [subst; by rewrite lookup_insert_eq|]. rewrite lookup_insert_ne by done. apply Hq.
    + intros t' a' q'. rewrite pso_buffer_set. case_decide; [|apply Ha]. subst. cbn.
      intros [[<- <-]|[_ H]]%lookup_insert_Some; [done|]. by eapply Ha.
  - intros t'. rewrite pso_buffer_set. by case_decide; subst.
Qed.

Lemma wp_queue t a w s (Q : list Z -> _ -> Prop) :
  tracks w s -> a `mod` 8 = 0 ->
  (forall w', tracks w' s -> same_sizes w w' -> Q (p_queue s t a) w') ->
  wp E (queue t a) Q w.
Proof.
  intros Htr Hal HQ. pose proof Htr as [Hm Hq Ha Hi]. unfold queue. repeat wp_step.
  match goal with |- Q _ ?w1 => set (w' := w1) end.
  assert (Hp : forall t' a', pending w' t' a' = pending w t' a').
  { intros t' a'. unfold pending, w'. rewrite pso_buffer_set. case_decide; [|done]. subst. cbn.
    destruct (decide (a' = a)) as [->|]; [by rewrite lookup_insert_eq|]. by rewrite lookup_insert_ne. }
  change (Q (pending w' t a) w'). rewrite Hp, Hq. apply HQ.
  - split; [done|by intros; rewrite Hp| |done]. intros t' a' q'. unfold w'. rewrite pso_buffer_set.
    case_decide; [|apply Ha]. subst. cbn. intros [[<- <-]|[_ H]]%lookup_insert_Some; [|by eapply Ha].
    split; [done|]. destruct (_ !! a) as [q'|] eqn:Hq'; [|done]. by eapply Ha.
  - intros t'. unfold w'. rewrite pso_buffer_set. by case_decide; subst.
Qed.

Lemma wp_write a v w s (Q : unit -> _ -> Prop) :
  tracks w s -> a `mod` 8 = 0 -> 0 <= v < 2 ^ 64 ->
  (forall w', tracks w' (mk_pso (upd (p_mem s) a v) (p_queue s)) -> same_sizes w w' -> Q tt w') ->
  wp E (write_word a v) Q w.
Proof.
  intros [Hm Hq Ha Hi] Hal Hr HQ. apply wp_modify. apply HQ; [|done]. split; [|done..]. intros a' Ha'.
  change (read64 (write64 a v (memory w)) a' = upd (p_mem s) a v a').
  destruct (decide (a' = a)) as [->|Hne]; [by rewrite upd_eq, read64_write64|].
  rewrite upd_ne, read64_write64_ne by done. by apply Hm.
Qed.

(** The queue of an address, from the model's side. *)
Lemma tracks_words w s t a : tracks w s -> Forall (fun v => 0 <= v < 2 ^ 64) (p_queue s t a).
Proof.
  intros [_ Hq Ha _]. rewrite <- Hq. unfold pending. destruct (_ !! a) as [q|] eqn:H; [|done]. by eapply Ha.
Qed.

Lemma wp_flush t a n w s (Q : unit -> _ -> Prop) :
  tracks w s -> a `mod` 8 = 0 ->
  (forall w' s', drains s s' -> tracks w' s' -> same_sizes w w' -> Q tt w') ->
  wp E (flush t a n) Q w.
Proof.
  intros Htr Hal HQ. unfold flush. wp_step. eapply wp_queue; [done..|]. intros w1 H1 Hs1.
  destruct (p_queue s t a) as [|v0 q0] eqn:Hq; [wp_step; by eapply HQ|].
  eapply (wp_loop E (fun _ w' => exists s', drains s s' /\ tracks w' s' /\ same_sizes w w') (fun _ w' => length (pending w' t a))).
  - exists s. by split.
  - rewrite (tr_queue _ _ H1), Hq. cbn. lia.
  - intros i w2 (s2 & Hd & H2 & Hs2). unfold flush_one. wp_step; [|wp_step; by eapply HQ].
    wp_step. eapply wp_queue; [done..|]. intros w3 H3 Hs3. pose proof (tracks_words w3 s2 t a H3) as Hw.
    destruct (p_queue s2 t a) as [|v q] eqn:Hq2; [wp_step; eapply HQ; [done..|]; intros t'; by rewrite Hs3, Hs2|].
    apply Forall_cons in Hw as [Hv Hw]. wp_step. eapply wp_write; [done..|]. intros w4 H4 Hs4.
    wp_step. eapply wp_set_queue; [done..|]. intros w5 H5 Hs5. wp_step. split.
    + eexists. split; [|split; [exact H5|intros t'; by rewrite Hs5, Hs4, Hs3, Hs2]].
      eapply rtc_r; [done|]. by eapply (pso_drain s2 t a v q).
    + rewrite (tr_queue _ _ H5), (tr_queue _ _ H2), Hq2. cbn. rewrite !upd_eq. cbn. lia.
Qed.

(** [flushAll] writes everything before it clears the buffer: on the way the
    memory is that of the model, and the model's queues of the thread are what
    is still to be written. *)
Definition mem_tracks (m : gmap Z Z) (s : pso_state) : Prop := forall a, a `mod` 8 = 0 -> read64 m a = p_mem s a.

Lemma wp_write_queue t a q w s (Q : unit -> _ -> Prop) :
  mem_tracks (memory w) s -> a `mod` 8 = 0 -> Forall (fun v => 0 <= v < 2 ^ 64) q -> p_queue s t a = q ->
  (forall m s', drains s s' -> mem_tracks m s' -> p_queue s' t a = [] ->
     (forall t' a', t' <> t \/ a' <> a -> p_queue s' t' a' = p_queue s t' a') -> Q tt (w <| memory := m |>)) ->
  wp E (foreach q (write_word a)) Q w.
Proof.
  intros Hm Hal Hr. revert s w Hm. induction Hr as [|v q Hv Hr IH]; intros s w Hm Hq HQ; cbn [foreach].
  { wp_step. destruct w as [m i b]. by eapply (HQ m s). }
  wp_step. unfold write_word at 1. wp_step.
  apply (IH (with_queue (mk_pso (upd (p_mem s) a v) (p_queue s)) t a q)).
  - intros a' Ha'. change (read64 (write64 a v (memory w)) a' = upd (p_mem s) a v a').
    destruct (decide (a' = a)) as [->|Hne]; [by rewrite upd_eq, read64_write64|].
    rewrite upd_ne, read64_write64_ne by done. by apply Hm.
  - cbn. by rewrite !upd_eq.
  - intros m s' Hd Hm' He Ho. apply (HQ m s'); [|done..|].
    + eapply rtc_l; [by eapply (pso_drain s t a v q)|]. done.
    + intros t' a' Hne. rewrite Ho by done. cbn. unfold upd. repeat case_decide; naive_solver.
Qed.

Lemma wp_pso_write_all t l w s (Q : unit -> _ -> Prop) :
  NoDup l.*1 -> Forall (fun e => e.1 `mod` 8 = 0 /\ Forall (fun v => 0 <= v < 2 ^ 64) e.2) l ->
  mem_tracks (memory w) s -> (forall e, e ∈ l -> p_queue s t e.1 = e.2) ->
  (forall m s', drains s s' -> mem_tracks m s' -> (forall e, e ∈ l -> p_queue s' t e.1 = []) ->
     (forall t' a', t' <> t \/ a' ∉ l.*1 -> p_queue s' t' a' = p_queue s t' a') -> Q tt (w <| memory := m |>)) ->
  wp E (foreach l (fun e => foreach e.2 (write_word e.1))) Q w.
Proof.
  intros Hnd Hf. revert s w Hnd. induction Hf as [|[a q] l [Hal Hr] Hf IH]; intros s w Hnd Hm Hl HQ; cbn [foreach].
  { wp_step. destruct w as [m i b]. eapply (HQ m s); [done..| |done]. intros e []%not_elem_of_nil. }
  apply NoDup_cons in Hnd as [Hna Hnd]. wp_step.
  eapply (wp_write_queue t a q); [done..|exact (Hl (a, q) ltac:(by left))|]. intros m s1 Hd1 Hm1 He1 Ho1.
  eapply (IH s1); [done..| |].
  - intros e He. rewrite Ho1; [apply Hl; by right|]. right. intros Heq. apply Hna. change (a ∈ l.*1). rewrite <- Heq. by apply list_elem_of_fmap_2.
  - intros m' s' Hd' Hm' He' Ho'. apply (HQ m' s').
    + by etrans.
    + done.
    + intros e [->|He]%elem_of_cons; [|by apply He']. cbn. rewrite Ho' by by right. done.
    + intros t' a' Hne. rewrite fmap_cons, not_elem_of_cons in Hne. rewrite Ho', Ho1 by naive_solver. done.
Qed.

Lemma in_order_elem m a q : (a, q) ∈ in_order m <-> m !! a = Some q.
Proof. unfold in_order. rewrite merge_sort_Permutation. apply elem_of_map_to_list. Qed.

Lemma in_order_NoDup m : NoDup (in_order m).*1.
Proof. unfold in_order. rewrite merge_sort_Permutation. apply NoDup_fst_map_to_list. Qed.

Lemma wp_flushAll t w s (Q : unit -> _ -> Prop) :
  tracks w s ->
  (forall w' s', drains s s' -> tracks w' s' -> (forall a, p_queue s' t a = []) ->
     (forall t', bufferSize (buffer t' w') = if decide (t' = t) then 0 else bufferSize (buffer t' w)) -> Q tt w') ->
  wp E (flushAll t) Q w.
Proof.
  intros [Hm Hq Ha Hi] HQ. unfold flushAll. do 3 wp_step.
  eapply (wp_pso_write_all t _ w s); [apply in_order_NoDup| |done| |].
  - apply Forall_forall. intros [a q] He%in_order_elem. by eapply Ha.
  - intros [a q] He%in_order_elem. cbn. rewrite <- Hq. unfold pending. by rewrite He.
  - intros m s' Hd Hm' He Ho. wp_step. assert (Hnil : forall a, p_queue s' t a = []).
    { intros a. destruct (_storebuffer (buffer t w) !! a) as [q|] eqn:Hlk; [apply (He (a, q)), in_order_elem, Hlk|].
      rewrite Ho, <- Hq; [unfold pending; by rewrite Hlk|]. right.
      intros ([a' q] & -> & He')%list_elem_of_fmap. apply in_order_elem in He'. cbn in Hlk. congruence. }
    eapply (HQ _ s'); [done| |done|].
    + split; [done| | |done].
      * intros t' a. unfold pending. rewrite pso_buffer_set. case_decide; [subst; by rewrite Hnil|]. rewrite Ho by by left. apply Hq.
      * intros t' a q. rewrite pso_buffer_set. case_decide; [done|]. apply Ha.
    + intros t'. rewrite pso_buffer_set. by case_decide.
Qed.

(** After an instruction: the model has drained some queues, and the counters
    are below the limit again. *)
Lemma wp_pso_flushAfterInsn t a w s (Q : unit -> _ -> Prop) :
  tracks w s -> a `mod` 8 = 0 ->
  (forall t', 0 <= bufferSize (buffer t' w) /\ (t' <> t -> bufferSize (buffer t' w) < kMaxBufferSize)) ->
  (forall w' s', drains s s' -> tracks w' s' -> roomy w' -> Q tt w') ->
  wp E (flushAfterInsn t a) Q w.
Proof.
  intros Htr Hal Hsz HQ. unfold flushAfterInsn. do 4 wp_step. wp_step.
  - apply (wp_flushAll t w s); [done|]. intros w' s' Hd H' _ Hs'. apply (HQ w' s'); [done..|].
    intros t'. rewrite Hs'. specialize (Hsz t'). case_decide; [done|]. by destruct Hsz; auto.
  - assert (Hroom : roomy w).
    { intros t'. destruct (Hsz t') as [? Hne]. split; [done|]. destruct (decide (t' = t)) as [->|]; [done|by apply Hne]. }
    wp_step; [|wp_step; by eapply HQ]. wp_step. apply wp_next; [done|apply Htr|]. intros n i Hi.
    eapply (wp_flush t a _ _ s); [|done|].
    + destruct Htr. by split.
    + intros w' s' Hd H' Hs'. apply (HQ w' s'); [done..|]. intros t'. rewrite Hs'. apply Hroom.
Qed.

Lemma wp_retrieve t a w s (Q : Z -> _ -> Prop) :
  tracks w s -> roomy w -> a `mod` 8 = 0 ->
  (forall w' s', drains s s' -> tracks w' s' -> roomy w' -> Q (default (p_mem s a) (last (p_queue s t a))) w') ->
  wp E (retrieve t a) Q w.
Proof.
  intros Htr Hroom Hal HQ. unfold retrieve. wp_step. eapply wp_queue; [done..|]. intros w1 H1 Hs1. wp_step.
  assert (Hsz : forall t', 0 <= bufferSize (buffer t' w1) /\ (t' <> t -> bufferSize (buffer t' w1) < kMaxBufferSize)).
  { intros t'. rewrite Hs1. by destruct (Hroom t'). }
  destruct (last _) as [v|]; do 2 wp_step; (eapply (wp_pso_flushAfterInsn t a w1 s); [done..|]);
    intros w2 s2 Hd H2 Hr2; wp_step.
  - by apply (HQ w2 s2).
  - rewrite (tr_mem _ _ H1) by done. by apply (HQ w2 s2).
Qed.

Lemma wp_pso_store t a v w s (Q : unit -> _ -> Prop) :
  tracks w s -> roomy w -> a `mod` 8 = 0 -> 0 <= v < 2 ^ 64 ->
  (forall w' s', drains (with_queue s t a (p_queue s t a ++ [v])) s' -> tracks w' s' -> roomy w' -> Q tt w') ->
  wp E (store t a v) Q w.
Proof.
  intros Htr Hroom Hal Hv HQ. unfold store. wp_step. eapply wp_queue; [done..|]. intros w1 H1 Hs1. wp_step.
  assert (Forall (fun v => 0 <= v < 2 ^ 64) (p_queue s t a ++ [v])).
  { apply Forall_app. split; [by eapply tracks_words|by apply Forall_singleton]. }
  eapply wp_set_queue; [done..|].
  intros w2 H2 Hs2. do 2 wp_step. eapply (wp_pso_flushAfterInsn t a); [|done| |exact HQ].
  - destruct H2 as [Hm Hq Ha Hi]. split; [done| | |done].
    + intros t' a'. rewrite <- Hq. unfold pending. rewrite pso_buffer_set. by case_decide; subst.
    + intros t' a' q. rewrite pso_buffer_set. case_decide; [subst; apply Ha|apply Ha].
  - intros t'. rewrite pso_buffer_set. specialize (Hroom t'). unfold kMaxBufferSize in *. case_decide.
    + subst. cbn. rewrite Hs2, Hs1. rewrite wraps_id by lia. lia.
    + rewrite Hs2, Hs1. lia.
Qed.
End Steps.

(** ** Properties *)

Lemma wrapu_mask8 v : 0 <= v < 2 ^ 64 -> Z.land (wrapu (8 * 8) v) (BIT_MASK (8 * 8)) = v.
Proof.
  intros Hv. change (8 * 8) with 64. rewrite wrapu_id by done. change (BIT_MASK 64) with (Z.ones 64).
  rewrite Z.land_ones by lia. by apply Z.mod_small.
Qed.

(** One callback is one step of the model, with drains before or after it. *)
Lemma wp_pso_call t c w s :
  tracks w s -> roomy w -> word_call c ->
  wp no_exit (call t c) (fun r w' => exists s', pso_run s (shows t c r) s' /\ tracks w' s' /\ roomy w') w.
Proof.
  intros Htr Hroom Hc. destruct c as [bytes a v|bytes a| |vector]; cbn [call word_call shows] in *.
  - destruct Hc as (-> & Ha & Hv). wp_step. unfold ssb_store. rewrite wrapu_mask8 by done.
    apply (wp_pso_store _ t a v w s); [done..|]. intros w' s' Hd H' Hr'. wp_step. exists s'. split; [|done].
    eapply run_visible; [apply pso_store|]. eapply pso_drains_run; [exact Hd|constructor].
  - destruct Hc as (-> & Ha). wp_step. unfold ssb_load. wp_step.
    apply (wp_retrieve _ t a w s); [done..|]. intros w' s' Hd H' Hr'. do 2 wp_step. exists s'. split; [|done].
    assert (0 <= default (p_mem s a) (last (p_queue s t a)) < 2 ^ 64).
    { pose proof (tracks_words w s t a Htr) as Hw. destruct (last (p_queue s t a)) as [v|] eqn:Hl; cbn [default].
      - apply last_Some in Hl as [q Hl]. rewrite Hl, Forall_app, Forall_singleton in Hw. apply Hw.
      - rewrite <- (tr_mem _ _ Htr) by done. apply read64_range. }
    rewrite wrapu_mask8 by done. change (8 * 8) with 64. rewrite wrapu_id by done.
    eapply run_visible; [apply pso_load|]. eapply pso_drains_run; [exact Hd|constructor].
  - wp_step. apply (wp_flushAll _ t w s); [done|]. intros w' s' Hd H' He Hs'. wp_step. exists s'. split; [|split; [done|]].
    + eapply pso_drains_run; [done|]. eapply run_visible; [by apply pso_barrier|constructor].
    + intros t'. rewrite Hs'. case_decide; [done|]. apply Hroom.
  - wp_step. apply wp_feedInput; [done|apply Htr|]. intros i Hi. wp_step. exists s. split; [constructor|].
    split; [|done]. destruct Htr. by split.
Qed.

Lemma pso_run_app s1 s2 s3 tr1 tr2 : pso_run s1 tr1 s2 -> pso_run s2 tr2 s3 -> pso_run s1 (tr1 ++ tr2) s3.
Proof. induction 1; intros; [done|eapply run_silent; eauto|eapply run_visible; eauto]. Qed.

Lemma wp_run_calls l w s :
  tracks w s -> roomy w -> Forall word_call l.*2 ->
  wp no_exit (run_calls l) (fun rs w' => exists s', pso_run s (trace l rs) s' /\ tracks w' s' /\ roomy w') w.
Proof.
  revert w s. induction l as [|[t c] l IH]; intros w s Htr Hroom Hl; cbn [run_calls].
  - wp_step. exists s. split; [constructor|done].
  - apply Forall_cons in Hl as [Hc Hl]. wp_step. eapply wp_mono; [by apply wp_pso_call|].
    intros r w1 (s1 & Hrun1 & H1 & Hr1). wp_step. eapply wp_mono; [by eapply IH|].
    intros rs w2 (s2 & Hrun2 & H2 & Hr2). wp_step. exists s2. split; [by eapply pso_run_app|done].
Qed.

Lemma tracks_boot m : tracks (boot m) (pso_start m) /\ roomy (boot m).
Proof. split; [split|]; done. Qed.

(** C23. The runtime implements partial store order: whatever the order in which
    the threads call it and whatever input of at most 32 elements it is fed,
    calls with aligned 8-byte accesses all return, without undefined behaviour, and the stores, the
    values loaded and the barriers are a run of the operational model of
    partial store order from the same memory.  After the last call the model's
    memory is that of the process, its queues are the pending stores, and every
    thread has counted fewer than 16 stores since its last full flush. *)
Theorem pso_runtime_refines_model (m : gmap Z Z) (l : list (Z * callback)) :
  Forall word_call l.*2 ->
  exists rs w s, run_calls l (boot m) = Ret rs w /\
    pso_run (pso_start m) (trace l rs) s /\
    (forall a, a `mod` 8 = 0 -> read64 (memory w) a = p_mem s a) /\
    (forall t a, pending w t a = p_queue s t a) /\
    (forall t, 0 <= bufferSize (buffer t w) < kMaxBufferSize).
Proof.
  intros Hl. destruct (tracks_boot m) as [Ht Hr].
  destruct (wp_outcome_total _ _ _ (wp_run_calls l _ _ Ht Hr Hl)) as (rs & w & Hrun & s & Hs & [Hm Hq _ _] & Hroom).
  by exists rs, w, s.
Qed.

(** Store buffering: thread 1 writes x and reads y, thread 2 writes y and reads
    x, and both read 0. *)
Definition sb_calls : list (Z * callback) :=
  [(1, CStore 8 64 1); (2, CStore 8 128 1); (1, CLoad 8 128); (2, CLoad 8 64); (1, CFlush); (2, CFlush); (1, CLoad 8 128)].

Lemma pso_runtime_refines_model_witness :
  match run_calls sb_calls (boot ∅) with
  | Ret rs w => rs = [None; None; Some 0; Some 0; None; None; Some 1] /\
      exists s, pso_run (pso_start ∅) (trace sb_calls rs) s /\ p_mem s 64 = 1
  | _ => False
  end.
Proof.
  destruct (pso_runtime_refines_model ∅ sb_calls) as (rs & w & s & Hrun & Hs & Hm & _).
  { by repeat constructor. }
  rewrite Hrun. assert (match run_calls sb_calls (boot ∅) with Ret rs w => (rs, read64 (memory w) 64) | _ => ([], 0) end =
    ([None; None; Some 0; Some 0; None; None; Some 1], 1)) as Hv by (vm_compute; reflexivity).
  rewrite Hrun in Hv. injection Hv as -> Hv. split; [reflexivity|]. exists s. split; [exact Hs|].
  rewrite <- Hm by reflexivity. exact Hv.
Defined.

(** ** Edges of the runtime *)

(** A store of one byte writes eight: the neighbour at 65 is lost. *)
Example narrow_store_clobbers :
  match run_calls [(1, CStore 1 65 7); (1, CFlush); (1, CStore 1 64 1); (1, CFlush); (1, CLoad 1 65)] (boot ∅) with
  | Ret rs _ => last rs = Some (Some 0)
  | _ => False
  end.
Proof. vm_compute. reflexivity. Qed.

(** An input of more than 32 elements is copied past the array. *)
Example long_input_out_of_bounds :
  run_calls [(1, CFeed (replicate 33 0))] (boot (B := storebuffer) ∅) = UB "feedInput: _vector".
Proof. reflexivity. Qed.

(** The position is not reset by a new input: the first number taken from the
    input [1] is a leftover of the one before, so that the store stays pending. *)
Example stale_input :
  match run_calls [(1, CFeed [0; 0; 0]); (1, CLoad 8 0); (1, CFeed [1]); (1, CStore 8 64 5); (2, CLoad 8 64)] (boot ∅) with
  | Ret rs _ => last rs = Some (Some 0)
  | _ => False
  end.
Proof. vm_compute. reflexivity. Qed.
