(* ===== verification/Tso.v ===== *)
(** * The store buffer of total store order (runtime/TSOCallbacks.cpp)

    A thread has one queue of pending stores, and the bytes its loads are
    forwarded from.  The file models the class [storebuffer] and shows in
    which runs the runtime implements the operational model of total store
    order; the examples at the end are runs outside of them. *)

From stdpp Require Import base list gmap strings.
From Stdlib Require Import ZArith Lia.
From S2P Require Import Prelude StoreBuffer.

Local Open Scope Z_scope.
Local Open Scope record_scope.

Record Entry := mk_Entry { value : Z; size : Z }.

Record storebuffer := mk_storebuffer {
  _storebuffer_last_entry : gmap Z Z;
  _storebuffer_indexed : list (Z * Entry);
  bufferSize : Z
}.

#[export] Instance tso_eta_storebuffer : Eta storebuffer :=
  fun r => mk_storebuffer (_storebuffer_last_entry r) (_storebuffer_indexed r) (bufferSize r).

(** [thread_local storebuffer buffer], zeroed before its constructor runs. *)
Definition buffer (thread : Z) (w : runtime storebuffer) : storebuffer :=
  default (mk_storebuffer ∅ [] 0) (buffers w !! thread).

Definition set_buffer (thread : Z) (f : storebuffer -> storebuffer) (w : runtime storebuffer) : runtime storebuffer :=
  w <| buffers ::= fun bs => <[thread := f (buffer thread w)]> bs |>.

(** The values are cast to [char] on the way. *)
Definition flushEntry (addr : Z) (entry : Entry) : prog (runtime storebuffer) unit :=
  let narrow n := modify (fun w => w <| memory ::=
    write_bytes addr (le_bytes n (wrapu (8 * Z.of_nat n) (wraps 8 (value entry)))) |>) in
  if size entry =? 1 then narrow 1%nat
  else if size entry =? 2 then narrow 2%nat
  else if size entry =? 4 then narrow 4%nat
  else if size entry =? 8 then modify (fun w => w <| memory ::= write64 addr (value entry) |>)
  else mret tt.

(** [erase] of the bytes of an entry. *)
Fixpoint erase_bytes (base : Z) (n : nat) (m : gmap Z Z) : gmap Z Z :=
  match n with
  | O => m
  | S n' => erase_bytes (base + 1) n' (delete base m)
  end.

Definition flush_one (thread n i : Z) : prog (runtime storebuffer) (Z + unit) :=
  b ← gets (buffer thread);
  match _storebuffer_indexed b with
  | (addr, entry) :: rest =>
      if i <? n then
        modify (set_buffer thread (fun b => b <| _storebuffer_last_entry ::= erase_bytes addr (Z.to_nat (size entry)) |>)) ;;
        flushEntry addr entry ;;
        modify (set_buffer thread (fun b => b <| _storebuffer_indexed ::= tail |>)) ;;
        mret (inl (i + 1))
      else mret (inr tt)
  | [] => mret (inr tt)
  end.

Definition flushEntries (thread n : Z) : prog (runtime storebuffer) unit :=
  b ← gets (buffer thread);
  loop (S (length (_storebuffer_indexed b))) (flush_one thread n) 0.

Definition flushAllEntries (thread : Z) : prog (runtime storebuffer) unit :=
  b ← gets (buffer thread);
  foreach (_storebuffer_indexed b) (fun e => flushEntry e.1 e.2) ;;
  modify (set_buffer thread (fun b => b <| _storebuffer_last_entry := ∅ |> <| bufferSize := 0 |>)).

Definition flushAfterInsn (thread : Z) : prog (runtime storebuffer) unit :=
  b ← gets (buffer thread);
  i ← gets input;
  if kMaxBufferSize <=? bufferSize b then flushAllEntries thread
  else if 0 <? inputSize i then n ← next; flushEntries thread (wraps 32 n)
  else mret tt.

(** A byte from the buffer, or else from memory. *)
Definition forwarded (w : runtime storebuffer) (b : storebuffer) (addr : Z) : Z :=
  match _storebuffer_last_entry b !! addr with
  | None => read_byte (memory w) addr
  | Some v => v
  end.

(** The bytes of [val] above [size] are not initialised; the callbacks mask
    them, and the model leaves them 0. *)
Definition retrieve (thread addr size : Z) : prog (runtime storebuffer) Z :=
  val ← gets (fun w => le_value (forwarded w (buffer thread w) <$> seqZ addr size));
  flushAfterInsn thread ;;
  mret val.

Definition store (thread addr val size : Z) : prog (runtime storebuffer) unit :=
  modify (set_buffer thread (fun b => b
    <| _storebuffer_last_entry ::= write_bytes addr (le_bytes (Z.to_nat size) val) |>
    <| _storebuffer_indexed ::= fun l => l ++ [(addr, mk_Entry val size)] |>
    <| bufferSize ::= fun n => wraps 32 (n + 1) |>)) ;;
  flushAfterInsn thread.

#[export] Instance tso : MemoryModel storebuffer := {
  STORE_CALLBACK_IMPL := store;
  LOAD_CALLBACK_IMPL := retrieve;
  FLUSH_CALLBACK_IMPL := flushAllEntries
}.

(** ** The model of total store order

    A memory of bytes, and for every thread one queue of stores.  A load takes
    each byte from the newest store of its own thread that covers it, or else
    from memory; a queue may at any time write its oldest store to memory; a
    barrier waits for the thread's queue to be empty. *)

Record tso_state := mk_tso { t_mem : Z -> Z; t_queue : Z -> list (Z * list Z) }.

Definition covers (e : Z * list Z) (x : Z) : option Z :=
  if decide (e.1 <= x < e.1 + alen e.2) then e.2 !! Z.to_nat (x - e.1) else None.

(** The newest byte for [x] in a queue, oldest store first. *)
Fixpoint newest (q : list (Z * list Z)) (x : Z) : option Z :=
  match q with
  | [] => None
  | e :: q' => match newest q' x with Some b => Some b | None => covers e x end
  end.

Definition written (f : Z -> Z) (e : Z * list Z) (x : Z) : Z := default (f x) (covers e x).

Inductive label :=
| LStore (thread bytes addr val : Z)
| LLoad (thread bytes addr val : Z)
| LBarrier (thread : Z).

Definition seen (s : tso_state) (t n a : Z) : Z :=
  le_value ((fun x => default (t_mem s x) (newest (t_queue s t) x)) <$> seqZ a n).

Inductive tso_step : tso_state -> option label -> tso_state -> Prop :=
| tso_store s t n a v :
    tso_step s (Some (LStore t n a v)) (mk_tso (t_mem s) (upd (t_queue s) t (t_queue s t ++ [(a, le_bytes (Z.to_nat n) v)])))
| tso_load s t n a : tso_step s (Some (LLoad t n a (seen s t n a))) s
| tso_drain s t e q :
    t_queue s t = e :: q -> tso_step s None (mk_tso (written (t_mem s) e) (upd (t_queue s) t q))
| tso_barrier s t : t_queue s t = [] -> tso_step s (Some (LBarrier t)) s.

Inductive tso_run : tso_state -> list label -> tso_state -> Prop :=
| run_nil s : tso_run s [] s
| run_silent s1 s2 s3 tr : tso_step s1 None s2 -> tso_run s2 tr s3 -> tso_run s1 tr s3
| run_visible s1 s2 s3 l tr : tso_step s1 (Some l) s2 -> tso_run s2 tr s3 -> tso_run s1 (l :: tr) s3.

Definition shows (t : Z) (c : callback) (r : option Z) : list label :=
  match c with
  | CStore n a v => [LStore t n a v]
  | CLoad n a => match r with Some v => [LLoad t n a v] | None => [] end
  | CFlush => [LBarrier t]
  | CFeed _ => []
  end.

Definition trace (l : list (Z * callback)) (rs : list (option Z)) : list label :=
  concat (zip_with (fun tc r => shows tc.1 tc.2 r) l rs).

Definition tso_start (m : gmap Z Z) : tso_state := mk_tso (read_byte m) (fun _ => []).

(** ** The runs that are right

    [flushAllEntries] leaves the queue as it was, so a thread that has flushed
    pending stores is spent.  [flushEntry] keeps a store of less than eight
    bytes only when its low byte, sign-extended, is the value.  And
    [flushEntries] forgets the bytes of the store it flushes even if a younger
    one has written them, so no byte may be pending twice. *)
Definition spent (b : storebuffer) : Prop := _storebuffer_last_entry b = ∅ /\ _storebuffer_indexed b <> [].

Definition kept (n v : Z) : Prop := n = 8 \/ wrapu (8 * n) (wraps 8 v) = v.

Definition width (n : Z) : Prop := n = 1 \/ n = 2 \/ n = 4 \/ n = 8.

Definition fine (w : runtime storebuffer) (t : Z) (c : callback) : Prop :=
  let b := buffer t w in
  match c with
  | CStore n a v => width n /\ 0 <= v < 2 ^ (8 * n) /\ kept n v /\ ~ spent b /\
      Forall (fun x => _storebuffer_last_entry b !! x = None) (seqZ a n)
  | CLoad n a => width n /\ ~ spent b
  | CFlush => ~ spent b
  | CFeed vector => alen vector <= kMaxInputSize
  end.
#[export] Instance fine_dec w t c : Decision (fine w t c).
Proof. destruct c; cbn; unfold width, kept, spent; apply _. Defined.

Fixpoint fine_run (l : list (Z * callback)) (w : runtime storebuffer) : Prop :=
  match l with
  | [] => True
  | (t, c) :: l' => fine w t c /\ match call t c w with Ret _ w' => fine_run l' w' | _ => True end
  end.

#[export] Instance fine_run_dec l w : Decision (fine_run l w).
Proof.
  revert w. induction l as [|[t c] l IH]; intros w; [left; exact I|]. cbn [fine_run].
  apply and_dec; [apply _|]. destruct (call t c w); [apply IH|left; exact I..].
Defined.

(** ** The simulation *)

Definition bytes_of (ae : Z * Entry) : Z * list Z := (ae.1, le_bytes (Z.to_nat (size ae.2)) (value ae.2)).

Definition good (ae : Z * Entry) : Prop :=
  width (size ae.2) /\ 0 <= value ae.2 < 2 ^ (8 * size ae.2) /\ kept (size ae.2) (value ae.2).

(** No byte is in two stores of a queue. *)
Fixpoint separate (q : list (Z * list Z)) : Prop :=
  match q with
  | [] => True
  | e :: q' => (forall x, is_Some (covers e x) -> newest q' x = None) /\ separate q'
  end.

(** A live buffer holds the model's queue; that of a spent one is empty. *)
Record live (b : storebuffer) (q : list (Z * list Z)) : Prop := {
  lv_queue : q = bytes_of <$> _storebuffer_indexed b;
  lv_last : forall x, _storebuffer_last_entry b !! x = newest q x;
  lv_separate : separate q;
  lv_good : Forall good (_storebuffer_indexed b)
}.

Record tracks (w : runtime storebuffer) (s : tso_state) : Prop := {
  tr_mem : forall x, read_byte (memory w) x = t_mem s x;
  tr_buffer : forall t, live (buffer t w) (t_queue s t) \/ spent (buffer t w) /\ t_queue s t = [];
  tr_input : input_ok (input w)
}.

Definition roomy (w : runtime storebuffer) : Prop := forall t, 0 <= bufferSize (buffer t w) < kMaxBufferSize.

Definition drains : relation tso_state := rtc (fun s s' => tso_step s None s').

Lemma tso_buffer_set t t' f w : buffer t' (set_buffer t f w) = if decide (t' = t) then f (buffer t w) else buffer t' w.
Proof.
  unfold buffer at 1. cbn. case_decide as E; [subst; by rewrite lookup_insert_eq|]. by rewrite lookup_insert_ne.
Qed.

Lemma buffer_memory t m w : buffer t (w <| memory := m |>) = buffer t w.
Proof. done. Qed.

Lemma tso_drains_run s s' tr s'' : drains s s' -> tso_run s' tr s'' -> tso_run s tr s''.
Proof. induction 1; [done|]. intros. eapply run_silent; [done|]. auto. Qed.

(** *** Queues of bytes *)

Lemma covers_is_Some e x : is_Some (covers e x) <-> e.1 <= x < e.1 + alen e.2.
Proof.
  unfold covers. case_decide; [|split; [by intros []|done]]. split; [done|]. intros _. apply lookup_lt_is_Some.
  unfold alen in *. lia.
Qed.

Lemma newest_snoc q e x : newest (q ++ [e]) x = match covers e x with Some b => Some b | None => newest q x end.
Proof.
  induction q as [|e' q IH]; cbn; [by destruct (covers e x)|]. rewrite IH. by destruct (covers e x).
Qed.

Lemma separate_snoc q e :
  separate q -> (forall x, is_Some (covers e x) -> newest q x = None) -> separate (q ++ [e]).
Proof.
  induction q as [|e' q IH]; cbn; [done|]. intros [He Hs] Hn. split.
  - intros x Hx. rewrite newest_snoc. destruct (covers e x) eqn:Hc; [|by apply He].
    specialize (Hn x ltac:(by rewrite Hc)). rewrite (He x Hx) in Hn. destruct Hx as [? Hx]. congruence.
  - apply IH; [done|]. intros x Hx. specialize (Hn x Hx). by destruct (newest q x).
Qed.

Lemma lookup_write_newest a l m x :
  write_bytes a l m !! x = match covers (a, l) x with Some b => Some b | None => m !! x end.
Proof.
  rewrite lookup_write_bytes. unfold covers. cbn [fst snd]. case_decide as Hd; [|done].
  destruct (lookup_lt_is_Some_2 l (Z.to_nat (x - a))) as [b ->]; [unfold alen in *; lia|done].
Qed.

Lemma lookup_erase base n m x :
  erase_bytes base n m !! x = if decide (base <= x < base + Z.of_nat n) then None else m !! x.
Proof.
  revert base m. induction n as [|n IH]; intros base m; cbn [erase_bytes]; [by rewrite decide_False by lia|].
  rewrite IH. repeat case_decide; try lia; [done|..].
  - assert (x = base) as -> by lia. apply lookup_delete_eq.
  - by rewrite lookup_delete_ne by lia.
Qed.

Lemma width_pos n : width n -> 0 < n.
Proof. unfold width. lia. Qed.

Lemma alen_bytes_of ae : width (size ae.2) -> alen (bytes_of ae).2 = size ae.2.
Proof. intros H%width_pos. unfold alen, bytes_of. cbn. rewrite length_le_bytes. lia. Qed.

(** A live buffer is not spent. *)
Lemma live_not_spent b q : live b q -> ~ spent b.
Proof.
  intros [-> Hl _ Hg] [He Hi]. destruct (_storebuffer_indexed b) as [|ae l]; [done|].
  apply Forall_cons in Hg as [[Hw _] _]. specialize (Hl ae.1). rewrite He, lookup_empty in Hl. cbn in Hl.
  destruct (newest _ _); [done|]. symmetry in Hl. apply eq_None_not_Some in Hl. apply Hl, covers_is_Some.
  rewrite alen_bytes_of by done. apply width_pos in Hw. cbn. lia.
Qed.

Lemma tracks_live w s t : tracks w s -> ~ spent (buffer t w) -> live (buffer t w) (t_queue s t).
Proof. intros H Hn. by destruct (tr_buffer _ _ H t) as [?|[? _]]. Qed.

(** Storing appends to the queue. *)
Lemma live_store b q a n v m :
  live b q -> good (a, mk_Entry v n) -> Forall (fun x => _storebuffer_last_entry b !! x = None) (seqZ a n) ->
  live (b <| _storebuffer_last_entry ::= write_bytes a (le_bytes (Z.to_nat n) v) |>
          <| _storebuffer_indexed ::= fun l => l ++ [(a, mk_Entry v n)] |> <| bufferSize := m |>)
       (q ++ [(a, le_bytes (Z.to_nat n) v)]).
Proof.
  intros [Hq Hl Hs Hg] Hgood Hf. split; cbn.
  - by rewrite fmap_app, Hq.
  - intros x. by rewrite lookup_write_newest, newest_snoc, Hl.
  - apply separate_snoc; [done|]. intros x Hx%covers_is_Some. rewrite <- Hl. rewrite Forall_forall in Hf. apply Hf.
    rewrite elem_of_seqZ. destruct Hgood as [Hw _]. apply (alen_bytes_of (a, mk_Entry v n)) in Hw. cbn in *. lia.
  - apply Forall_app. split; [done|]. by apply Forall_singleton.
Qed.

(** Flushing the oldest store. *)
Lemma live_flush b ae l q :
  live b q -> _storebuffer_indexed b = ae :: l ->
  exists q', q = bytes_of ae :: q' /\ good ae /\
    live (b <| _storebuffer_last_entry ::= erase_bytes ae.1 (Z.to_nat (size ae.2)) |> <| _storebuffer_indexed ::= tail |>) q'.
Proof.
  intros [-> Hl Hs Hg] Hi. rewrite Hi in *. apply Forall_cons in Hg as [Hgood Hg]. cbn in Hs. destruct Hs as [Hd Hs].
  exists (bytes_of <$> l). split; [done|]. split; [done|]. split; cbn; rewrite ?Hi; try done.
  intros x. rewrite lookup_erase. pose proof (covers_is_Some (bytes_of ae) x) as Hc.
  rewrite alen_bytes_of in Hc by apply Hgood. pose proof (width_pos _ (proj1 Hgood)). cbn in Hc.
  specialize (Hl x). cbn in Hl. case_decide as Hd'.
  - symmetry. apply Hd, Hc. lia.
  - rewrite Hl. destruct (newest _ x); [done|]. apply eq_None_not_Some. rewrite Hc. lia.
Qed.

(** *** The steps of the runtime *)

Lemma le_bytes_byte n v i b : le_bytes n v !! i = Some b -> 0 <= b < 256.
Proof.
  revert v i. induction n as [|n IH]; intros v i; [done|]. destruct i; cbn; [|apply IH].
  intros [= <-]. apply Z.mod_pos_bound. lia.
Qed.

Lemma read_byte_le a n v m x : read_byte (write_bytes a (le_bytes n v) m) x = written (read_byte m) (a, le_bytes n v) x.
Proof.
  unfold written. unfold read_byte at 1. rewrite lookup_write_newest. destruct (covers _ x) as [b|] eqn:Hc; [|done].
  cbn. unfold covers in Hc. case_decide; [|done]. apply Z.mod_small. by eapply le_bytes_byte.
Qed.

Section Steps.
Variable E : string -> Prop.

Lemma wp_flushEntry ae w (Q : unit -> _ -> Prop) :
  good ae ->
  (forall m, (forall x, read_byte m x = written (read_byte (memory w)) (bytes_of ae) x) -> Q tt (w <| memory := m |>)) ->
  wp E (flushEntry ae.1 ae.2) Q w.
Proof.
  intros (Hw & _ & Hk) HQ. destruct ae as [a [v n]]. cbn [fst snd size value] in *. unfold flushEntry. cbn [size value].
  assert (Hsub : n <> 8 -> le_bytes (Z.to_nat n) (wrapu (8 * n) (wraps 8 v)) = le_bytes (Z.to_nat n) v).
  { destruct Hk as [->| ->]; [done|done]. }
  destruct Hw as [->|[->|[->| ->]]]; cbn [Z.eqb Pos.eqb]; wp_step;
    (eapply (HQ (write_bytes a _ (memory w))); intros x; rewrite read_byte_le; unfold bytes_of; cbn [fst snd size value]).
  1-3: exact (f_equal (fun l => written _ (a, l) x) (Hsub ltac:(lia))).
  done.
Qed.

Lemma wp_flushEntries t n w s (Q : unit -> _ -> Prop) :
  tracks w s -> ~ spent (buffer t w) ->
  (forall w' s', drains s s' -> tracks w' s' -> (forall t', bufferSize (buffer t' w') = bufferSize (buffer t' w)) -> Q tt w') ->
  wp E (flushEntries t n) Q w.
Proof.
  intros Htr Hn HQ. unfold flushEntries. do 2 wp_step.
  eapply (wp_loop E (fun _ w' => exists s', drains s s' /\ tracks w' s' /\ ~ spent (buffer t w') /\
      forall t', bufferSize (buffer t' w') = bufferSize (buffer t' w))
    (fun _ w' => length (_storebuffer_indexed (buffer t w')))); [by exists s|lia|].
  intros i w1 (s1 & Hd & H1 & Hn1 & Hs1). unfold flush_one. do 2 wp_step.
  destruct (_storebuffer_indexed (buffer t w1)) as [|[a e] l] eqn:Hi; [wp_step; by eapply HQ|].
  wp_step; [|wp_step; by eapply HQ]. do 3 wp_step.
  destruct (live_flush _ _ _ _ (tracks_live _ _ _ H1 Hn1) Hi) as (q' & Hq & Hgood & Hlive).
  apply (wp_flushEntry (a, e)); [done|]. intros m Hm. do 3 wp_step.
  match goal with |- context [tracks ?w2 _] => set (w' := w2) end.
  assert (Hbuf : forall t', buffer t' w' = if decide (t' = t) then
    buffer t w1 <| _storebuffer_last_entry ::= erase_bytes a (Z.to_nat (size e)) |> <| _storebuffer_indexed ::= tail |> else buffer t' w1).
  { intros t'. unfold w'. rewrite tso_buffer_set, !buffer_memory, !tso_buffer_set. by repeat case_decide. }
  split.
  - eexists. split; [|split; [split|split]].
    + eapply rtc_r; [exact Hd|]. by eapply (tso_drain s1 t).
    + intros x. cbn [t_mem]. change (memory w') with m. rewrite Hm. unfold written. by rewrite <- (tr_mem _ _ H1).
    + intros t'. rewrite Hbuf. cbn [t_queue]. unfold upd. case_decide; [by left|]. apply H1.
    + apply H1.
    + rewrite Hbuf, decide_True by done. by eapply live_not_spent.
    + intros t'. rewrite Hbuf, <- Hs1. by case_decide; subst.
  - rewrite Hbuf, decide_True by done. cbn. rewrite Hi. cbn. lia.
Qed.

(** [flushAllEntries] writes every pending store, oldest first. *)
Lemma wp_tso_write_all t l w s (Q : unit -> _ -> Prop) :
  Forall good l -> (forall x, read_byte (memory w) x = t_mem s x) -> t_queue s t = bytes_of <$> l ->
  (forall m s', drains s s' -> (forall x, read_byte m x = t_mem s' x) -> t_queue s' t = [] ->
     (forall t', t' <> t -> t_queue s' t' = t_queue s t') -> Q tt (w <| memory := m |>)) ->
  wp E (foreach l (fun e => flushEntry e.1 e.2)) Q w.
Proof.
  intros Hg. revert s w. induction Hg as [|ae l Hgood Hg IH]; intros s w Hm Hq HQ; cbn [foreach].
  { wp_step. destruct w as [m i b]. by eapply (HQ m s). }
  wp_step. apply wp_flushEntry; [done|]. intros m Hm'.
  apply (IH (mk_tso (written (t_mem s) (bytes_of ae)) (upd (t_queue s) t (bytes_of <$> l)))).
  - intros x. change (read_byte m x = written (t_mem s) (bytes_of ae) x). rewrite Hm'. unfold written. by rewrite Hm.
  - cbn. by rewrite upd_eq.
  - intros m' s' Hd Hm2 He Ho. apply (HQ m' s'); [|done..|].
    + eapply rtc_l; [by eapply (tso_drain s t)|]. done.
    + intros t' Hne. rewrite Ho by done. cbn. by rewrite upd_ne.
Qed.

Lemma wp_flushAllEntries t w s (Q : unit -> _ -> Prop) :
  tracks w s -> ~ spent (buffer t w) ->
  (forall w' s', drains s s' -> tracks w' s' -> t_queue s' t = [] ->
     (forall t', bufferSize (buffer t' w') = if decide (t' = t) then 0 else bufferSize (buffer t' w)) -> Q tt w') ->
  wp E (flushAllEntries t) Q w.
Proof.
  intros Htr Hn HQ. pose proof (tracks_live _ _ _ Htr Hn) as Hl. unfold flushAllEntries. do 3 wp_step.
  apply (wp_tso_write_all t _ w s); [apply Hl|apply Htr|apply Hl|]. intros m s' Hd Hm He Ho. wp_step.
  apply (HQ _ s'); [done| |done|].
  - split; [done| |apply Htr]. intros t'. rewrite tso_buffer_set. case_decide; [subst|rewrite Ho by done; apply Htr].
    rewrite buffer_memory, He. cbn.
    destruct (_storebuffer_indexed (buffer t w)) as [|ae l] eqn:Hi; [left|right].
    + split; cbn; rewrite ?Hi; done.
    + split; [|done]. split; cbn; [done|]. by rewrite Hi.
  - intros t'. rewrite tso_buffer_set. by case_decide.
Qed.

Lemma wp_tso_flushAfterInsn t w s (Q : unit -> _ -> Prop) :
  tracks w s -> ~ spent (buffer t w) ->
  (forall t', 0 <= bufferSize (buffer t' w) /\ (t' <> t -> bufferSize (buffer t' w) < kMaxBufferSize)) ->
  (forall w' s', drains s s' -> tracks w' s' -> roomy w' -> Q tt w') ->
  wp E (flushAfterInsn t) Q w.
Proof.
  intros Htr Hn Hsz HQ. unfold flushAfterInsn. do 4 wp_step. wp_step.
  - apply (wp_flushAllEntries t w s); [done..|]. intros w' s' Hd H' _ Hs'. apply (HQ w' s'); [done..|].
    intros t'. rewrite Hs'. specialize (Hsz t'). case_decide; [done|]. by destruct Hsz; auto.
  - assert (Hroom : roomy w).
    { intros t'. destruct (Hsz t') as [? Hne]. split; [done|]. destruct (decide (t' = t)) as [->|]; [done|by apply Hne]. }
    wp_step; [|wp_step; by eapply HQ]. wp_step. apply wp_next; [done|apply Htr|]. intros n i Hi.
    eapply (wp_flushEntries t _ _ s); [|done|].
    + destruct Htr. by split.
    + intros w' s' Hd H' Hs'. apply (HQ w' s'); [done..|]. intros t'. rewrite Hs'. apply Hroom.
Qed.
End Steps.

(** ** Properties *)

Lemma wrapu_mask n v : width n -> 0 <= v < 2 ^ (8 * n) -> Z.land (wrapu (n * 8) v) (BIT_MASK (n * 8)) = v.
Proof.
  intros Hw Hv. replace (n * 8) with (8 * n) by lia. rewrite wrapu_id by done.
  assert (BIT_MASK (8 * n) = Z.ones (8 * n)) as -> by (by destruct Hw as [->|[->|[->| ->]]]).
  rewrite Z.land_ones by (apply width_pos in Hw; lia). by apply Z.mod_small.
Qed.

Lemma seen_range s t n a : width n -> 0 <= seen s t n a < 2 ^ (8 * n).
Proof.
  intros Hw%width_pos. unfold seen. match goal with |- 0 <= le_value ?l < _ => pose proof (le_value_range l) as H end.
  unfold alen in H. rewrite length_fmap, length_seqZ, Z2Nat.id in H by lia. done.
Qed.

(** A load sees what the model's load sees. *)
Lemma forwarded_seen w s t n a :
  tracks w s -> ~ spent (buffer t w) -> le_value (forwarded w (buffer t w) <$> seqZ a n) = seen s t n a.
Proof.
  intros Htr Hn. unfold seen. f_equal. apply list_fmap_ext. intros _ x _. unfold forwarded.
  rewrite (lv_last _ _ (tracks_live _ _ _ Htr Hn)). destruct (newest _ x); [done|]. apply Htr.
Qed.

Lemma roomy_sizes w t : roomy w ->
  forall t', 0 <= bufferSize (buffer t' w) /\ (t' <> t -> bufferSize (buffer t' w) < kMaxBufferSize).
Proof. intros Hr t'. by destruct (Hr t'). Qed.

Lemma wp_tso_store t n a v w s (Q : unit -> _ -> Prop) :
  tracks w s -> roomy w -> fine w t (CStore n a v) ->
  (forall w' s', drains (mk_tso (t_mem s) (upd (t_queue s) t (t_queue s t ++ [(a, le_bytes (Z.to_nat n) v)]))) s' ->
     tracks w' s' -> roomy w' -> Q tt w') ->
  wp no_exit (store t a v n) Q w.
Proof.
  intros Htr Hroom (Hw & Hv & Hk & Hn & Hf) HQ. unfold store. do 2 wp_step.
  pose proof (live_store _ _ a n v (wraps 32 (bufferSize (buffer t w) + 1)) (tracks_live _ _ _ Htr Hn) ltac:(done) Hf) as Hl.
  eapply wp_tso_flushAfterInsn; [| | |exact HQ].
  - split; [apply Htr| |apply Htr]. intros t'. rewrite tso_buffer_set. cbn [t_queue]. unfold upd.
    case_decide; [by left|apply Htr].
  - rewrite tso_buffer_set, decide_True by done. eapply live_not_spent, Hl.
  - intros t'. rewrite tso_buffer_set. specialize (Hroom t'). unfold kMaxBufferSize in *. case_decide; [|lia].
    subst. cbn. rewrite wraps_id by lia. lia.
Qed.

Lemma wp_tso_call t c w s :
  tracks w s -> roomy w -> fine w t c ->
  wp no_exit (call t c) (fun r w' => exists s', tso_run s (shows t c r) s' /\ tracks w' s' /\ roomy w') w.
Proof.
  intros Htr Hroom Hc. destruct c as [n a v|n a| |vector]; cbn [call shows].
  - pose proof Hc as (Hw & Hv & _). wp_step. unfold ssb_store. rewrite wrapu_mask by done.
    apply (wp_tso_store t n a v w s); [done..|]. intros w' s' Hd H' Hr'. wp_step. exists s'. split; [|done].
    eapply run_visible; [apply tso_store|]. eapply tso_drains_run; [exact Hd|constructor].
  - destruct Hc as (Hw & Hn). wp_step. unfold ssb_load. wp_step. cbn [LOAD_CALLBACK_IMPL tso]. unfold retrieve.
    replace (n * 8 / 8) with n by (by rewrite Z.div_mul). do 3 wp_step.
    apply (wp_tso_flushAfterInsn _ t w s); [done..|by apply roomy_sizes|]. intros w' s' Hd H' Hr'. do 3 wp_step.
    exists s'. split; [|done]. rewrite (forwarded_seen w s) by done.
    pose proof (seen_range s t n a Hw) as Hv. rewrite wrapu_mask by done. rewrite wrapu_id by (by replace (n * 8) with (8 * n) by lia).
    eapply run_visible; [apply tso_load|]. eapply tso_drains_run; [exact Hd|constructor].
  - wp_step. apply (wp_flushAllEntries _ t w s); [done..|]. intros w' s' Hd H' He Hs'. wp_step.
    exists s'. split; [|split; [done|]].
    + eapply tso_drains_run; [done|]. eapply run_visible; [by apply tso_barrier|constructor].
    + intros t'. rewrite Hs'. case_decide; [done|]. apply Hroom.
  - wp_step. apply wp_feedInput; [done|apply Htr|]. intros i Hi. wp_step. exists s. split; [constructor|].
    split; [|done]. destruct Htr. by split.
Qed.

Lemma tso_run_app s1 s2 s3 tr1 tr2 : tso_run s1 tr1 s2 -> tso_run s2 tr2 s3 -> tso_run s1 (tr1 ++ tr2) s3.
Proof. induction 1; intros; [done|eapply run_silent; eauto|eapply run_visible; eauto]. Qed.

Lemma run_calls_tracks l w s :
  tracks w s -> roomy w -> fine_run l w ->
  exists rs w' s', run_calls l w = Ret rs w' /\ tso_run s (trace l rs) s' /\ tracks w' s' /\ roomy w'.
Proof.
  revert w s. induction l as [|[t c] l IH]; intros w s Htr Hroom Hl.
  - exists [], w, s. split; [done|]. split; [constructor|done].
  - destruct Hl as [Hc Hl]. pose proof (wp_tso_call t c w s Htr Hroom Hc) as Hcall.
    apply wp_outcome_total in Hcall as (r & w1 & Hr & s1 & Hrun1 & H1 & Hr1). rewrite Hr in Hl.
    destruct (IH w1 s1 H1 Hr1 Hl) as (rs & w2 & s2 & Hrs & Hrun2 & H2 & Hr2).
    exists (r :: rs), w2, s2. split; [by eapply run_calls_cons|]. split; [by eapply tso_run_app|done].
Qed.

(** C24. The runtime implements total store order in the runs that avoid its
    four defects: no thread is used after it has flushed pending stores as a
    whole, no byte is pending twice in a thread, a store of less than eight
    bytes has a value its low byte determines, and no input has more than 32
    elements.  All calls of such a run, with accesses of 1, 2, 4 or 8 bytes,
    return, without undefined behaviour, whatever the order of the threads and
    the values of the input; the stores, the values loaded and the barriers are a run of
    the operational model of total store order from the same memory; and the
    memory at the end is the model's. *)
Theorem tso_runtime_refines_model (m : gmap Z Z) (l : list (Z * callback)) :
  fine_run l (boot m) ->
  exists rs w s, run_calls l (boot m) = Ret rs w /\
    tso_run (tso_start m) (trace l rs) s /\
    (forall x, read_byte (memory w) x = t_mem s x) /\
    (forall t, t_queue s t = [] \/ t_queue s t = bytes_of <$> _storebuffer_indexed (buffer t w)) /\
    (forall t, 0 <= bufferSize (buffer t w) < kMaxBufferSize).
Proof.
  intros Hl. destruct (run_calls_tracks l (boot m) (tso_start m)) as (rs & w & s & Hrun & Hs & [Hm Hb _] & Hroom); [|done..|].
  { split; [done| |done]. intros t. left. by split. }
  exists rs, w, s. split; [done|]. split; [done|]. split; [done|]. split; [|done].
  intros t. destruct (Hb t) as [[Hq _ _ _]|[_ Hq]]; [by right|by left].
Qed.

(** Message passing with a data word of 8 bytes and a flag of one; the input
    flushes a store after each call of thread 1, and thread 2 sees both in
    order. *)
Definition mp_calls : list (Z * callback) :=
  [(1, CFeed [0; 1; 0; 1]); (1, CStore 8 64 0x1234); (1, CStore 1 128 1); (2, CLoad 1 128); (2, CLoad 8 64);
   (1, CLoad 1 128); (1, CFlush); (2, CLoad 1 128)].

Lemma tso_runtime_refines_model_witness :
  match run_calls mp_calls (boot ∅) with
  | Ret rs w => rs = [None; None; None; Some 0; Some 0x1234; Some 1; None; Some 1] /\
      exists s, tso_run (tso_start ∅) (trace mp_calls rs) s /\ t_mem s 128 = 1
  | _ => False
  end.
Proof.
  destruct (tso_runtime_refines_model ∅ mp_calls) as (rs & w & s & Hrun & Hs & Hm & _).
  { apply (bool_decide_unpack _). vm_compute. exact I. }
  rewrite Hrun. assert (match run_calls mp_calls (boot ∅) with Ret rs w => (rs, read_byte (memory w) 128) | _ => ([], 0) end =
    ([None; None; None; Some 0; Some 0x1234; Some 1; None; Some 1], 1)) as Hv by (vm_compute; reflexivity).
  rewrite Hrun in Hv. injection Hv as -> Hv. split; [reflexivity|]. exists s. split; [exact Hs|].
  rewrite <- Hm. exact Hv.
Defined.

(** ** Edges of the runtime *)

(** A store that was flushed as part of the whole buffer is written again by
    the next flush, over a younger store of another thread. *)
Example flushed_store_comes_back :
  match run_calls [(1, CStore 8 64 1); (1, CFlush); (2, CStore 8 64 2); (2, CFlush); (1, CLoad 8 64); (1, CFlush); (1, CLoad 8 64)]
          (boot ∅) with
  | Ret rs _ => rs = [None; None; None; None; Some 2; None; Some 1]
  | _ => False
  end.
Proof. vm_compute. reflexivity. Qed.

(** A store of two bytes reaches memory as its low byte. *)
Example narrow_store_truncated :
  match run_calls [(1, CStore 2 64 0x1234); (1, CLoad 2 64); (1, CFlush); (1, CLoad 2 64)] (boot ∅) with
  | Ret rs _ => rs = [None; Some 0x1234; None; Some 0x34]
  | _ => False
  end.
Proof. vm_compute. reflexivity. Qed.

(** With two stores to a word pending, flushing the first makes the thread read
    its older value. *)
Example own_store_forgotten :
  match run_calls [(1, CStore 8 64 1); (1, CStore 8 64 2); (1, CFeed [1]); (1, CLoad 8 64); (1, CLoad 8 64)] (boot ∅) with
  | Ret rs _ => rs = [None; None; None; Some 2; Some 1]
  | _ => False
  end.
Proof. vm_compute. reflexivity. Qed.
