(* ===== verification/Exclusive.v ===== *)
(** * Exclusive sections (cpus-common.c)

    [start_exclusive] stops all vCPUs, [cpu_exec_start] and [cpu_exec_end]
    surround the execution of a vCPU.  They synchronise by the counter
    [pending_cpus] and the flags [running], which are read without a lock, by
    [qemu_cpu_list_lock] and by two condition variables.

    The file models them as a state machine with a program counter per vCPU
    thread.  A step is one access to [pending_cpus] or [running] outside of the
    lock, the taking of the lock, or what a thread does under the lock up to
    its next access to a variable that is read without it; memory is
    sequentially consistent, as the full barriers between the accesses make
    it.  The theorems: a vCPU in an exclusive section is the only one that
    runs, and no wake-up is lost. *)

From stdpp Require Import base list gmap.
From Stdlib Require Import ZArith Lia.
From S2P Require Import Prelude.

Local Open Scope Z_scope.
Local Open Scope record_scope.

(** Where a thread is.  [..Asleep] is inside [qemu_cond_wait], [..Awake] after
    it was woken and before it has the lock again. *)
Inductive pc :=
| Outside
(* cpu_exec_start *)
| StartRead | StartLock | StartCheck | StartIdle | StartAsleep | StartAwake
| Executing
(* cpu_exec_end *)
| EndRead | EndLock | EndCheck
(* start_exclusive *)
| ExclLock | ExclIdle | ExclAsleep | ExclAwake
| ExclSet | ExclScan (other_cpus : list Z) (running_cpus : Z)
| ExclCount | CountAsleep | CountAwake
| InExclusive
(* end_exclusive *)
| FinishLock | FinishSet.

#[export] Instance pc_eq_dec : EqDecision pc.
Proof. solve_decision. Defined.

Record vcpu := mk_vcpu { at_ : pc; running : bool; has_waiter : bool; in_exclusive_context : bool }.

#[export] Instance eta_vcpu : Eta vcpu :=
  fun r => mk_vcpu (at_ r) (running r) (has_waiter r) (in_exclusive_context r).

Record cpus_common := mk_cpus { pending_cpus : Z; qemu_cpu_list_lock : option Z; vcpu_of : Z -> vcpu }.

#[export] Instance eta_cpus : Eta cpus_common :=
  fun r => mk_cpus (pending_cpus r) (qemu_cpu_list_lock r) (vcpu_of r).

(** What a thread does next: call one of the four functions, go on in the one
    it is in, or wake up from [qemu_cond_wait] without a signal. *)
Inductive move := Go | CpuExecStart | CpuExecEnd | StartExclusive | EndExclusive | WakeUp.

#[export] Instance move_eq_dec : EqDecision move.
Proof. solve_decision. Defined.

Definition qemu_init_cpu_list : cpus_common := mk_cpus 0 None (fun _ => mk_vcpu Outside false false false).

Definition upd_vcpu (t : Z) (f : vcpu -> vcpu) (s : cpus_common) : cpus_common :=
  s <| vcpu_of ::= fun v => upd v t (f (v t)) |>.

Definition goto (t : Z) (l : pc) : cpus_common -> cpus_common := upd_vcpu t (fun v => v <| at_ := l |>).

(** [qemu_mutex_lock] of a lock that is free, [qemu_mutex_unlock]. *)
Definition take_lock (t : Z) (l : pc) (s : cpus_common) : option cpus_common :=
  match qemu_cpu_list_lock s with
  | None => Some (goto t l (s <| qemu_cpu_list_lock := Some t |>))
  | Some _ => None
  end.

Definition unlock (s : cpus_common) : cpus_common := s <| qemu_cpu_list_lock := None |>.

(** [qemu_cond_broadcast(&exclusive_resume)] *)
Definition resume (l : pc) : pc :=
  match l with StartAsleep => StartAwake | ExclAsleep => ExclAwake | _ => l end.

(** [qemu_cond_signal(&exclusive_cond)]; at most one thread waits for it. *)
Definition signalled (l : pc) : pc :=
  match l with CountAsleep => CountAwake | _ => l end.

Definition wake (f : pc -> pc) (s : cpus_common) : cpus_common :=
  s <| vcpu_of ::= fun v t => v t <| at_ ::= f |> |>.

Section Steps.
(** The list of CPUs. *)
Context (cpus : list Z).

Definition cpu_exec_start (t : Z) (s : cpus_common) : option cpus_common :=
  let me := vcpu_of s t in
  match at_ me with
  | StartRead => Some (goto t (if pending_cpus s =? 0 then Executing else StartLock) s)
  | StartLock => take_lock t StartCheck s
  | StartCheck =>
      if has_waiter me then Some (goto t Executing (unlock s))
      else Some (goto t StartIdle (upd_vcpu t (fun v => v <| running := false |>) s))
  | StartIdle =>
      if pending_cpus s =? 0 then Some (goto t Executing (unlock (upd_vcpu t (fun v => v <| running := true |>) s)))
      else Some (goto t StartAsleep (unlock s))
  | StartAwake => take_lock t StartIdle s
  | _ => None
  end.

Definition cpu_exec_end (t : Z) (s : cpus_common) : option cpus_common :=
  let me := vcpu_of s t in
  match at_ me with
  | EndRead => Some (goto t (if pending_cpus s =? 0 then Outside else EndLock) s)
  | EndLock => take_lock t EndCheck s
  | EndCheck =>
      if has_waiter me then
        let s := upd_vcpu t (fun v => v <| has_waiter := false |>) s <| pending_cpus ::= Z.pred |> in
        Some (goto t Outside (unlock (if pending_cpus s =? 1 then wake signalled s else s)))
      else Some (goto t Outside (unlock s))
  | _ => None
  end.

Definition start_exclusive (t : Z) (s : cpus_common) : option cpus_common :=
  match at_ (vcpu_of s t) with
  | ExclLock => take_lock t ExclIdle s
  | ExclIdle => if pending_cpus s =? 0 then Some (goto t ExclSet s) else Some (goto t ExclAsleep (unlock s))
  | ExclAwake => take_lock t ExclIdle s
  | ExclSet => Some (goto t (ExclScan cpus 0) (s <| pending_cpus := 1 |>))
  | ExclScan (other_cpu :: rest) n =>
      if running (vcpu_of s other_cpu) then
        Some (goto t (ExclScan rest (n + 1)) (upd_vcpu other_cpu (fun v => v <| has_waiter := true |>) s))
      else Some (goto t (ExclScan rest n) s)
  | ExclScan [] n => Some (goto t ExclCount (s <| pending_cpus := n + 1 |>))
  | ExclCount =>
      if 1 <? pending_cpus s then Some (goto t CountAsleep (unlock s))
      else Some (goto t InExclusive (upd_vcpu t (fun v => v <| in_exclusive_context := true |>) (unlock s)))
  | CountAwake => take_lock t ExclCount s
  | _ => None
  end.

Definition end_exclusive (t : Z) (s : cpus_common) : option cpus_common :=
  match at_ (vcpu_of s t) with
  | FinishLock => take_lock t FinishSet s
  | FinishSet => Some (goto t Outside (unlock (wake resume (s <| pending_cpus := 0 |>))))
  | _ => None
  end.

Definition first_some {A} (x y : option A) : option A := match x with Some _ => x | None => y end.

(** A move of thread [t], where it is possible. *)
Definition step (t : Z) (m : move) (s : cpus_common) : option cpus_common :=
  if negb (bool_decide (t ∈ cpus)) then None else
  match m, at_ (vcpu_of s t) with
  | CpuExecStart, Outside => Some (goto t StartRead (upd_vcpu t (fun v => v <| running := true |>) s))
  | CpuExecEnd, Executing => Some (goto t EndRead (upd_vcpu t (fun v => v <| running := false |>) s))
  | StartExclusive, Outside => Some (goto t ExclLock s)
  | EndExclusive, InExclusive => Some (goto t FinishLock (upd_vcpu t (fun v => v <| in_exclusive_context := false |>) s))
  | WakeUp, StartAsleep => Some (goto t StartAwake s)
  | WakeUp, ExclAsleep => Some (goto t ExclAwake s)
  | WakeUp, CountAsleep => Some (goto t CountAwake s)
  | Go, _ => first_some (cpu_exec_start t s) (first_some (cpu_exec_end t s)
               (first_some (start_exclusive t s) (end_exclusive t s)))
  | _, _ => None
  end.

Inductive reachable : cpus_common -> Prop :=
| reach_init : reachable qemu_init_cpu_list
| reach_step s t m s' : reachable s -> step t m s = Some s' -> reachable s'.

(** Moves in a given order. *)
Fixpoint moves (l : list (Z * move)) (s : cpus_common) : option cpus_common :=
  match l with
  | [] => Some s
  | (t, m) :: l' => match step t m s with Some s' => moves l' s' | None => None end
  end.

Lemma moves_reachable l s s' : reachable s -> moves l s = Some s' -> reachable s'.
Proof.
  revert s. induction l as [|[t m] l IH]; intros s Hs H; cbn in H; [by injection H as <-|].
  destruct (step t m s) as [s1|] eqn:E; [|done]. eapply IH; [by eapply reach_step|done].
Qed.
End Steps.

(** ** The invariant *)

Lemma filter_ext_in {A} (P Q : A -> Prop) `{!forall x, Decision (P x)} `{!forall x, Decision (Q x)} (l : list A) :
  (forall x, x ∈ l -> P x <-> Q x) -> filter P l = filter Q l.
Proof.
  induction l as [|x l IH]; intros Hl; [done|]. rewrite !filter_cons, IH by (intros y Hy; apply Hl; by right).
  pose proof (Hl x ltac:(by left)). repeat case_decide; naive_solver.
Qed.

Definition holds (l : pc) : bool :=
  match l with
  | StartCheck | StartIdle | EndCheck | ExclIdle | ExclSet | ExclScan _ _ | ExclCount | FinishSet => true
  | _ => false
  end.

(** [running] is a function of where the thread is. *)
Definition runs (l : pc) : bool :=
  match l with StartRead | StartLock | StartCheck | Executing => true | _ => false end.

(** From setting [pending_cpus] to resetting it a thread owns the section. *)
Definition owns (l : pc) : bool :=
  match l with
  | ExclScan _ _ | ExclCount | CountAsleep | CountAwake | InExclusive | FinishLock | FinishSet => true
  | _ => false
  end.

(** The owner has waited for the others. *)
Definition entered (l : pc) : bool :=
  match l with InExclusive | FinishLock | FinishSet => true | _ => false end.

(** A vCPU that is waited for is on its way to [cpu_exec_end]. *)
Definition due (l : pc) : bool :=
  match l with
  | StartRead | StartLock | StartCheck | Executing | EndRead | EndLock | EndCheck => true
  | _ => false
  end.

Definition scanning (l : pc) : bool := match l with ExclScan _ _ => true | _ => false end.

(** The vCPUs the owner has yet to look at. *)
Definition unseen (l : pc) : list Z := match l with ExclScan rest _ => rest | _ => [] end.

Section Invariant.
Context (cpus : list Z) (Hcpus : NoDup cpus).

Implicit Types (s : cpus_common) (t u o : Z) (l : pc).

Notation pc_of s t := (at_ (vcpu_of s t)).

Definition waiters s : Z := alen (filter (fun u => has_waiter (vcpu_of s u) = true) cpus).

Record owned s o : Prop := {
  ow_pending : pending_cpus s = match pc_of s o with ExclScan _ _ => 1 | _ => 1 + waiters s end;
  ow_scan : forall rest n, pc_of s o = ExclScan rest n -> n = waiters s /\ NoDup rest /\
    forall u, u ∈ rest -> u ∈ cpus /\ has_waiter (vcpu_of s u) = false;
  ow_executing : forall u, pc_of s u = Executing -> u ∉ unseen (pc_of s o) -> has_waiter (vcpu_of s u) = true;
  ow_entered : entered (pc_of s o) = true -> waiters s = 0
}.

Definition unowned s : Prop := pending_cpus s = 0 /\ forall u, has_waiter (vcpu_of s u) = false.

Record inv s : Prop := {
  in_lock : forall u, holds (pc_of s u) = true <-> qemu_cpu_list_lock s = Some u;
  in_running : forall u, running (vcpu_of s u) = runs (pc_of s u);
  in_owner : (exists o, (forall u, owns (pc_of s u) = true <-> u = o) /\ owned s o) \/
             (forall u, owns (pc_of s u) = false) /\ unowned s;
  in_set : forall u, pc_of s u = ExclSet -> pending_cpus s = 0;
  in_due : forall u, has_waiter (vcpu_of s u) = true -> due (pc_of s u) = true;
  in_context : forall u, in_exclusive_context (vcpu_of s u) = bool_decide (pc_of s u = InExclusive);
  in_outside : forall u, u ∉ cpus -> pc_of s u = Outside;
  in_resume : forall u, pc_of s u = StartAsleep \/ pc_of s u = ExclAsleep -> pending_cpus s <> 0;
  in_count : forall u, pc_of s u = CountAsleep -> 1 < pending_cpus s
}.

Lemma waiters_ext s s' :
  (forall u, has_waiter (vcpu_of s' u) = has_waiter (vcpu_of s u)) -> waiters s' = waiters s.
Proof. intros H. unfold waiters. f_equal. apply list_filter_iff. intros u. by rewrite H. Qed.

Lemma waiters_zero s : waiters s = 0 <-> forall u, u ∈ cpus -> has_waiter (vcpu_of s u) = false.
Proof.
  unfold waiters. split.
  - intros H u Hu. apply not_true_iff_false. intros Hw.
    assert (u ∈ filter (fun u => has_waiter (vcpu_of s u) = true) cpus) as He by by apply list_elem_of_filter.
    destruct (filter _ cpus); [by apply not_elem_of_nil in He|]. rewrite alen_cons in H. pose proof (alen_nonneg l). lia.
  - intros H. destruct (filter _ cpus) as [|u l] eqn:E; [done|].
    assert (u ∈ filter (fun u => has_waiter (vcpu_of s u) = true) cpus) as He by (rewrite E; by left).
    apply list_elem_of_filter in He as [Hw Hu]. rewrite (H u Hu) in Hw. done.
Qed.

Lemma some_waiter s : 0 < waiters s -> exists u, u ∈ cpus /\ has_waiter (vcpu_of s u) = true.
Proof.
  unfold waiters. destruct (filter _ cpus) as [|u l] eqn:E; [done|]. intros _. exists u.
  assert (u ∈ filter (fun u => has_waiter (vcpu_of s u) = true) cpus) as He by (rewrite E; by left).
  by apply list_elem_of_filter in He as [? ?].
Qed.

Lemma waiters_nonneg s : 0 <= waiters s.
Proof. apply alen_nonneg. Qed.

(** Marking a vCPU, or clearing its mark, changes the number by one. *)
Lemma waiters_mark s s' t :
  t ∈ cpus -> has_waiter (vcpu_of s t) = false -> has_waiter (vcpu_of s' t) = true ->
  (forall u, u <> t -> has_waiter (vcpu_of s' u) = has_waiter (vcpu_of s u)) -> waiters s' = waiters s + 1.
Proof.
  intros Ht H0 H1 Ho. unfold waiters. clear -Ht Hcpus H0 H1 Ho. induction Hcpus as [|u l Hu Hnd IH]; [by apply not_elem_of_nil in Ht|].
  rewrite !filter_cons. destruct (decide (u = t)) as [->|Hne].
  - rewrite H0, H1. rewrite decide_True, decide_False by done. rewrite alen_cons.
    assert (filter (fun u => has_waiter (vcpu_of s' u) = true) l = filter (fun u => has_waiter (vcpu_of s u) = true) l) as ->; [|lia].
    apply filter_ext_in. intros u Hin. rewrite Ho; [done|]. intros ->. done.
  - apply elem_of_cons in Ht as [?|Ht]; [by subst|]. rewrite Ho by done. case_decide; rewrite ?alen_cons; rewrite IH by done; lia.
Qed.

(** A thread that owns nothing sees no mark while [pending_cpus] is 0. *)
Lemma pending_zero s : inv s -> pending_cpus s = 0 -> (forall u, owns (pc_of s u) = false) /\ unowned s.
Proof.
  intros Hi H0. destruct (in_owner _ Hi) as [(o & Ho & Hod)|]; [|done]. exfalso.
  pose proof (waiters_nonneg s). pose proof (ow_pending _ _ Hod). destruct (pc_of s o); lia.
Qed.

(** A move that changes only the thread itself, not its mark and not
    [pending_cpus]. *)
Lemma inv_local s s' t v' :
  let l := pc_of s t in let l' := at_ v' in
  inv s -> t ∈ cpus -> pending_cpus s' = pending_cpus s ->
  (forall u, vcpu_of s' u = if decide (u = t) then v' else vcpu_of s u) ->
  has_waiter v' = has_waiter (vcpu_of s t) -> running v' = runs l' ->
  in_exclusive_context v' = bool_decide (l' = InExclusive) ->
  (qemu_cpu_list_lock s' = qemu_cpu_list_lock s /\ holds l' = holds l \/
   qemu_cpu_list_lock s = None /\ qemu_cpu_list_lock s' = Some t /\ holds l' = true \/
   holds l = true /\ qemu_cpu_list_lock s' = None /\ holds l' = false) ->
  owns l' = owns l -> scanning l = false -> scanning l' = false ->
  (entered l' = true -> entered l = true \/ pending_cpus s <= 1) ->
  (l' = Executing -> pending_cpus s = 0 \/ has_waiter v' = true) ->
  (l' = ExclSet -> pending_cpus s = 0) ->
  (has_waiter v' = true -> due l' = true) ->
  (l' = StartAsleep \/ l' = ExclAsleep -> pending_cpus s <> 0) ->
  (l' = CountAsleep -> 1 < pending_cpus s) ->
  inv s'.
Proof.
  intros l l' Hi Ht Hp Hv Hw Hrun Hctx Hlk Hown Hsc Hsc' Hent Hex Hset Hdue Hslp Hcnt.
  assert (Hhw : forall u, has_waiter (vcpu_of s' u) = has_waiter (vcpu_of s u)) by (intros u; rewrite Hv; destruct (decide (u = t)) as [Eu|Eu]; [by rewrite Eu|done]).
  assert (Hwt : waiters s' = waiters s) by by apply waiters_ext.
  pose proof Hi as [H1 H2 H3 H4 H5 H6 H7 H8 H9]. split.
  - intros u. rewrite Hv. pose proof (H1 u) as Hu. pose proof (H1 t) as Ht'. fold l in Ht'.
    destruct Hlk as [[-> Hh]|[(Hn & -> & Hh)|(Hh & -> & Hh')]]; destruct (decide (u = t)); try subst u.
    + fold l'. by rewrite Hh.
    + done.
    + fold l'. by rewrite Hh.
    + rewrite Hu, Hn. naive_solver.
    + fold l'. by rewrite Hh'.
    + rewrite Hu. apply Ht' in Hh as ->. naive_solver.
  - intros u. rewrite Hv. by destruct (decide (u = t)).
  - assert (Ho' : forall u, owns (pc_of s' u) = owns (pc_of s u)) by (intros u; rewrite Hv; destruct (decide (u = t)) as [Eu|Eu]; [by rewrite Eu|done]).
    destruct H3 as [(o & Ho & Hod)|[Ho [Hp0 Hm]]]; [left; exists o|right].
    + split; [intros u; rewrite Ho'; apply Ho|]. destruct Hod as [Oa Ob Oc Od].
      assert (Hun : unseen (pc_of s' o) = unseen (pc_of s o)).
      { rewrite Hv. destruct (decide (o = t)); [|done]. subst o. fold l l'. by destruct l, l'. }
      split.
      * rewrite Hp, Oa, Hwt, Hv. destruct (decide (o = t)); [|done]. subst o. fold l l'. by destruct l, l'.
      * intros rest n Hpc. rewrite Hv in Hpc. destruct (decide (o = t)); [fold l' in Hpc; by rewrite Hpc in Hsc'|].
        rewrite Hwt. destruct (Ob _ _ Hpc) as (? & ? & Hr). split; [done|]. split; [done|]. intros u Hu. rewrite Hhw. by apply Hr.
      * intros u. rewrite Hun, Hhw. intros Hpc. rewrite Hv in Hpc. destruct (decide (u = t)); [|by apply Oc]. subst u. intros _.
        rewrite <- Hw. destruct (Hex Hpc) as [H0|]; [|done]. rewrite Oa in H0. pose proof (waiters_nonneg s).
        destruct (pc_of s o); lia.
      * rewrite Hwt, Hv. destruct (decide (o = t)); [|done]. subst o. intros Hent'. destruct (Hent Hent') as [|Hle]; [by apply Od|].
        fold l in Oa. rewrite Oa in Hle. pose proof (waiters_nonneg s). destruct l; try done; lia.
    + split; [intros u; by rewrite Ho'|]. split; [by rewrite Hp|]. intros u. by rewrite Hhw.
  - intros u. rewrite Hp, Hv. destruct (decide (u = t)); [done|apply H4].
  - intros u. rewrite Hv. destruct (decide (u = t)); [done|apply H5].
  - intros u. rewrite Hv. destruct (decide (u = t)); [done|apply H6].
  - intros u Hu. rewrite Hv, decide_False by naive_solver. by apply H7.
  - intros u. rewrite Hp, Hv. destruct (decide (u = t)); [done|apply H8].
  - intros u. rewrite Hp, Hv. destruct (decide (u = t)); [done|apply H9].
Qed.

(** A step of the owner while it has the lock, before it has waited. *)
Lemma inv_owner_step s s' t l' :
  inv s -> holds (pc_of s t) = true -> owns l' = true -> holds l' = true -> entered l' = false ->
  qemu_cpu_list_lock s' = qemu_cpu_list_lock s -> runs (pc_of s t) = false -> t ∈ cpus ->
  (forall u, u <> t -> owns (pc_of s u) = false) ->
  (forall u, pc_of s' u = if decide (u = t) then l' else pc_of s u) ->
  (forall u, running (vcpu_of s' u) = running (vcpu_of s u)) ->
  (forall u, in_exclusive_context (vcpu_of s' u) = in_exclusive_context (vcpu_of s u)) ->
  pending_cpus s' <> 0 -> (forall u, has_waiter (vcpu_of s' u) = true -> due (pc_of s' u) = true) ->
  owned s' t -> inv s'.
Proof.
  intros Hi Hh Hown Hh' Hent Hlk Hrun Ht Hoth Hpc Hr Hc Hp Hdue Hod. pose proof Hi as [H1 H2 H3 H4 H5 H6 H7 H8 H9]. split.
  - intros u. rewrite Hpc, Hlk. destruct (decide (u = t)); [subst u; rewrite Hh'; by rewrite <- H1|apply H1].
  - intros u. rewrite Hr, H2, Hpc. destruct (decide (u = t)); [subst u|done]. rewrite Hrun. by destruct l'.
  - left. exists t. split; [|done]. intros u. rewrite Hpc. destruct (decide (u = t)); [by subst u|]. rewrite Hoth by done. naive_solver.
  - intros u. rewrite Hpc. destruct (decide (u = t)); [intros ->; done|]. intros Hs. assert (holds (pc_of s u) = true) as Hu by by rewrite Hs.
    apply H1 in Hu, Hh. congruence.
  - done.
  - intros u. rewrite Hc, H6, Hpc. destruct (decide (u = t)); [subst u|done].
    apply bool_decide_ext. split; intros E; [by rewrite E in Hh|by subst l'].
  - intros u Hu. rewrite Hpc, decide_False by (intros ->; done). by apply H7.
  - done.
  - intros u. rewrite Hpc. destruct (decide (u = t)); [intros ->; done|]. intros Hs. specialize (Hoth u ltac:(done)). by rewrite Hs in Hoth.
Qed.

(** What a signal does to the others. *)
Definition tame (f : pc -> pc) : Prop := forall l,
  f l = l \/ l = StartAsleep /\ f l = StartAwake \/ l = ExclAsleep /\ f l = ExclAwake \/ l = CountAsleep /\ f l = CountAwake.

Lemma tame_props f l : tame f ->
  holds (f l) = holds l /\ runs (f l) = runs l /\ owns (f l) = owns l /\ due (f l) = due l /\ unseen (f l) = unseen l /\
  entered (f l) = entered l /\ (f l = Executing <-> l = Executing) /\ (f l = InExclusive <-> l = InExclusive) /\
  (f l = Outside <-> l = Outside).
Proof. intros H. destruct (H l) as [->|[[-> ->]|[[-> ->]|[-> ->]]]]; done. Qed.

(** The last step of a function that gives the lock back and wakes others. *)
Lemma inv_release s s' t f :
  inv s -> holds (pc_of s t) = true -> runs (pc_of s' t) = running (vcpu_of s' t) ->
  qemu_cpu_list_lock s' = None -> t ∈ cpus -> tame f ->
  (forall u, pc_of s' u = if decide (u = t) then Outside else f (pc_of s u)) ->
  (forall u, u <> t -> running (vcpu_of s' u) = running (vcpu_of s u)) ->
  (forall u, in_exclusive_context (vcpu_of s' u) = in_exclusive_context (vcpu_of s u)) ->
  (forall u, has_waiter (vcpu_of s' u) = true -> u <> t /\ has_waiter (vcpu_of s u) = true) ->
  (forall u, pc_of s' u = StartAsleep \/ pc_of s' u = ExclAsleep -> pending_cpus s' <> 0) ->
  (forall u, pc_of s' u = CountAsleep -> 1 < pending_cpus s') ->
  (exists o, (forall u, owns (pc_of s' u) = true <-> u = o) /\ owned s' o) \/ (forall u, owns (pc_of s' u) = false) /\ unowned s' ->
  inv s'.
Proof.
  intros Hi Hh Hrun Hlk Ht Hf Hpc Hr Hc Hw Hres Hcnt Hown. pose proof Hi as [H1 H2 H3 H4 H5 H6 H7 H8 H9].
  assert (Hf' := fun u => tame_props f (pc_of s u) Hf).
  assert (Hno : forall u, u <> t -> holds (pc_of s u) = false).
  { intros u Hu. apply not_true_iff_false. intros Hhu. apply H1 in Hhu, Hh. congruence. }
  split; try done.
  - intros u. rewrite Hpc, Hlk. destruct (decide (u = t)); [done|]. destruct (Hf' u) as [-> _]. by rewrite Hno.
  - intros u. destruct (decide (u = t)); [by subst u|]. rewrite Hr, H2, Hpc, decide_False by done. by destruct (Hf' u) as (_ & -> & _).
  - intros u. rewrite Hpc. destruct (decide (u = t)); [done|]. intros Hs. specialize (Hno u ltac:(done)).
    destruct (Hf' u) as [Hh' _]. rewrite Hs, Hno in Hh'. done.
  - intros u Hu. destruct (Hw u Hu) as [Hne Hu']. rewrite Hpc, decide_False by done.
    destruct (Hf' u) as (_ & _ & _ & -> & _). by apply H5.
  - intros u. rewrite Hc, H6, Hpc. destruct (decide (u = t)).
    + subst u. apply bool_decide_ext. split; [|done]. intros E. by rewrite E in Hh.
    + apply bool_decide_ext. destruct (Hf' u) as (_ & _ & _ & _ & _ & _ & _ & He & _). by rewrite He.
  - intros u Hu. rewrite Hpc, decide_False by (intros ->; done). destruct (Hf' u) as (_ & _ & _ & _ & _ & _ & _ & _ & He). by apply He, H7.
Qed.

Lemma tame_id : tame id.
Proof. intros l. by left. Qed.
Lemma tame_resume : tame resume.
Proof. intros l. destruct l; cbn; tauto. Qed.
Lemma tame_signalled : tame signalled.
Proof. intros l. destruct l; cbn; tauto. Qed.

(** *** Every move keeps the invariant *)

Lemma goto_vcpu t l s u : vcpu_of (goto t l s) u = if decide (u = t) then vcpu_of s t <| at_ := l |> else vcpu_of s u.
Proof. done. Qed.

Lemma unlock_vcpu s u : vcpu_of (unlock s) u = vcpu_of s u.
Proof. done. Qed.

Lemma upd_vcpu_of t f s u : vcpu_of (upd_vcpu t f s) u = if decide (u = t) then f (vcpu_of s t) else vcpu_of s u.
Proof. done. Qed.

(** A move of [t] to [l'] after which [running] and the context are as they
    were. *)
Lemma inv_goto s s' t l' lk :
  let l := pc_of s t in
  inv s -> t ∈ cpus -> (forall u, vcpu_of s' u = if decide (u = t) then vcpu_of s t <| at_ := l' |> else vcpu_of s u) ->
  pending_cpus s' = pending_cpus s -> qemu_cpu_list_lock s' = lk ->
  runs l' = runs l -> l <> InExclusive -> l' <> InExclusive ->
  (lk = qemu_cpu_list_lock s /\ holds l' = holds l \/
   qemu_cpu_list_lock s = None /\ lk = Some t /\ holds l' = true \/
   holds l = true /\ lk = None /\ holds l' = false) ->
  owns l' = owns l -> scanning l = false -> scanning l' = false ->
  (entered l' = true -> entered l = true) ->
  (l' = Executing -> pending_cpus s = 0 \/ has_waiter (vcpu_of s t) = true) ->
  (l' = ExclSet -> pending_cpus s = 0) ->
  (has_waiter (vcpu_of s t) = true -> due l' = true) ->
  (l' = StartAsleep \/ l' = ExclAsleep -> pending_cpus s <> 0) ->
  (l' = CountAsleep -> 1 < pending_cpus s) ->
  inv s'.
Proof.
  intros l Hi Ht Hv Hp <- Hrun Hl Hl' Hlk. intros. eapply (inv_local s _ t _ Hi Ht Hp Hv); try done; cbn.
  - by rewrite Hrun, (in_running _ Hi).
  - rewrite (in_context _ Hi). fold l. by rewrite !bool_decide_eq_false_2.
  - intros Hent. left. auto.
Qed.

(** Views of the state after a move. *)
Ltac view :=
  intros; rewrite ?goto_vcpu, ?unlock_vcpu, ?upd_vcpu_of, ?unlock_vcpu;
  repeat match goal with |- context [decide (?a = ?b)] => destruct (decide (a = b)); try subst end; try done.

Lemma inv_take_lock s s' t l' :
  let l := pc_of s t in
  inv s -> t ∈ cpus -> take_lock t l' s = Some s' -> runs l' = runs l -> l <> InExclusive -> l' <> InExclusive ->
  holds l' = true -> owns l' = owns l -> scanning l = false -> scanning l' = false ->
  (entered l' = true -> entered l = true) -> l' <> Executing -> l' <> ExclSet -> (due l = true -> due l' = true) -> inv s'.
Proof.
  intros l Hi Ht Hl. unfold take_lock in Hl. destruct (qemu_cpu_list_lock s) eqn:Hlk; [done|]. injection Hl as <-. intros.
  eapply (inv_goto s _ t l'); try done.
  - auto.
  - intros Hw. by apply (in_due _ Hi) in Hw; auto.
  - intros [->| ->]; done.
  - intros ->. done.
Qed.

(** The side conditions of a move. *)
Ltac side E := rewrite ?E; try done; try solve [intros; simplify_eq/=; tauto || lia || auto];
  try solve [intros [?|?]; simplify_eq/=; done || lia].

Ltac marked :=
  match goal with
  | Hm : has_waiter (set _ _ _) = true, Hd : _ -> due _ = true |- _ => cbn in Hm; rewrite ?Hm in *; by apply Hd in Hm || congruence
  end.

Lemma inv_cpu_exec_start s s' t : inv s -> t ∈ cpus -> cpu_exec_start t s = Some s' -> inv s'.
Proof.
  intros Hi Ht H. unfold cpu_exec_start in H. pose proof (in_due _ Hi t) as Hd. pose proof (in_context _ Hi t) as Hc.
  destruct (pc_of s t) eqn:E; try done.
  - injection H as <-. destruct (Z.eqb_spec (pending_cpus s) 0).
    + eapply (inv_goto s _ t Executing); side E.
    + eapply (inv_goto s _ t StartLock); side E.
  - eapply inv_take_lock in H; side E.
  - destruct (has_waiter (vcpu_of s t)) eqn:Hw; injection H as <-.
    + eapply (inv_goto s _ t Executing); side E.
    + eapply (inv_local s _ t (vcpu_of s t <| running := false |> <| at_ := StartIdle |>)); side E; try view; try marked.
  - destruct (Z.eqb_spec (pending_cpus s) 0); injection H as <-.
    + eapply (inv_local s _ t (vcpu_of s t <| running := true |> <| at_ := Executing |>)); side E; try view; try marked.
    + eapply (inv_goto s _ t StartAsleep); side E.
  - eapply inv_take_lock in H; side E.
Qed.

Lemma inv_call s s' t m : m <> Go -> inv s -> t ∈ cpus -> step cpus t m s = Some s' -> inv s'.
Proof.
  intros Hm Hi Ht H. unfold step in H. rewrite bool_decide_eq_true_2 in H by done. cbn [negb] in H.
  pose proof (in_due _ Hi t) as Hd. pose proof (in_context _ Hi t) as Hc.
  destruct m, (pc_of s t) eqn:E; try done; injection H as <-.
  - eapply (inv_local s _ t (vcpu_of s t <| running := true |> <| at_ := StartRead |>)); side E; try view; try marked.
  - eapply (inv_local s _ t (vcpu_of s t <| running := false |> <| at_ := EndRead |>)); side E; try view; try marked.
  - eapply (inv_goto s _ t ExclLock); side E.
  - eapply (inv_local s _ t (vcpu_of s t <| in_exclusive_context := false |> <| at_ := FinishLock |>)); side E; try view; try marked.
    cbn. by rewrite (in_running _ Hi), E.
  - eapply (inv_goto s _ t StartAwake); side E.
  - eapply (inv_goto s _ t ExclAwake); side E.
  - eapply (inv_goto s _ t CountAwake); side E.
Qed.

(** A marked vCPU outside of the scan is counted. *)
Lemma marked_owned s t : inv s -> has_waiter (vcpu_of s t) = true -> holds (pc_of s t) = true -> owns (pc_of s t) = false ->
  exists o, (forall u, owns (pc_of s u) = true <-> u = o) /\ o <> t /\ owned s o /\ scanning (pc_of s o) = false /\
    pending_cpus s = 1 + waiters s.
Proof.
  intros Hi Hw Hh Hn. destruct (in_owner _ Hi) as [(o & Ho & Hod)|[_ [_ Hm]]]; [|by rewrite Hm in Hw].
  assert (o <> t) by (intros ->; rewrite (proj2 (Ho t) eq_refl) in Hn; done).
  assert (scanning (pc_of s o) = false).
  { destruct (pc_of s o) eqn:E; try done. assert (holds (pc_of s o) = true) as Hh' by by rewrite E.
    apply (in_lock _ Hi) in Hh, Hh'. congruence. }
  exists o. do 4 (split; [done|]). rewrite (ow_pending _ _ Hod). by destruct (pc_of s o).
Qed.

Lemma inv_unmark s s' t f :
  inv s -> t ∈ cpus -> pc_of s t = EndCheck -> has_waiter (vcpu_of s t) = true ->
  f = (if pending_cpus s =? 2 then signalled else id) ->
  (forall u, vcpu_of s' u = if decide (u = t) then vcpu_of s t <| has_waiter := false |> <| at_ := Outside |> else vcpu_of s u <| at_ ::= f |>) ->
  pending_cpus s' = pending_cpus s - 1 -> qemu_cpu_list_lock s' = None -> inv s'.
Proof.
  intros Hi Ht E Hw -> Hv Hp Hlk. set (f := if pending_cpus s =? 2 then signalled else id) in *.
  assert (Hf : tame f) by (unfold f; destruct (_ =? _); [apply tame_signalled|apply tame_id]).
  destruct (marked_owned s t Hi Hw) as (o & Ho & Hot & Hod & Hsc & Hpend); [by rewrite E..|].
  assert (Hwt : waiters s = waiters s' + 1).
  { apply (waiters_mark s' s t); [done| |done|]; [by rewrite Hv, decide_True|]. intros u Hu. by rewrite Hv, decide_False. }
  pose proof (waiters_nonneg s'). assert (Hf' := fun u => tame_props f (pc_of s u) Hf).
  assert (Hpc : forall u, pc_of s' u = if decide (u = t) then Outside else f (pc_of s u)) by (intros u; rewrite Hv; by destruct (decide _)).
  eapply (inv_release s s' t f Hi); try done.
  - by rewrite E.
  - rewrite Hv, decide_True by done. cbn. by rewrite (in_running _ Hi), E.
  - intros u Hu. by rewrite Hv, decide_False.
  - intros u. rewrite Hv. destruct (decide (u = t)); [by subst u|done].
  - intros u. rewrite Hv. by destruct (decide (u = t)).
  - intros u _. lia.
  - intros u. rewrite Hpc. destruct (decide (u = t)); [done|]. unfold f. destruct (Z.eqb_spec (pending_cpus s) 2) as [|Hne]; [|lia].
    by destruct (pc_of s u).
  - left. exists o. split.
    + intros u. rewrite Hpc. destruct (decide (u = t)); [subst u; naive_solver|]. by destruct (Hf' u) as (_ & _ & -> & _).
    + destruct Hod as [Oa Ob Oc Od]. assert (Hof : scanning (f (pc_of s o)) = false) by (destruct (Hf (pc_of s o)) as [->|[[_ ->]|[[_ ->]|[_ ->]]]]; done).
      split.
      * rewrite Hpc, decide_False, Hp by done. destruct (f (pc_of s o)); done || lia.
      * intros rest n. rewrite Hpc, decide_False by done. intros Hsn. by rewrite Hsn in Hof.
      * intros u. rewrite !Hpc, (decide_False (P := o = t)) by done. rewrite Hv. destruct (decide (u = t)); [done|].
        destruct (Hf' u) as (_ & _ & _ & _ & _ & _ & -> & _), (Hf' o) as (_ & _ & _ & _ & -> & _). apply Oc.
      * rewrite Hpc, decide_False by done. destruct (Hf' o) as (_ & _ & _ & _ & _ & -> & _). intros He. specialize (Od He). lia.
Qed.

Lemma inv_cpu_exec_end s s' t : inv s -> t ∈ cpus -> cpu_exec_end t s = Some s' -> inv s'.
Proof.
  intros Hi Ht H. unfold cpu_exec_end in H. pose proof (in_due _ Hi t) as Hd. destruct (pc_of s t) eqn:E; try done.
  - injection H as <-. destruct (Z.eqb_spec (pending_cpus s) 0) as [Hz|].
    + eapply (inv_goto s _ t Outside); side E. intros Hw. destruct (pending_zero s Hi Hz) as [_ [_ Hm]]. by rewrite Hm in Hw.
    + eapply (inv_goto s _ t EndLock); side E.
  - eapply inv_take_lock in H; side E.
  - destruct (has_waiter (vcpu_of s t)) eqn:Hw; injection H as <-; [|eapply (inv_goto s _ t Outside); side E; congruence].
    eapply (inv_unmark s _ t _ Hi Ht E Hw eq_refl).
    + intros u. cbn [pending_cpus]. rewrite goto_vcpu, !unlock_vcpu.
      replace (_ =? 1) with (pending_cpus s =? 2) by (cbn; apply Bool.eq_iff_eq_true; rewrite !Z.eqb_eq; lia).
      destruct (pending_cpus s =? 2); cbn; unfold upd; rewrite ?(decide_True (P := t = t)) by done; destruct (decide (u = t)); try done.
      by destruct (vcpu_of s u).
    + cbn. by destruct (_ =? 1).
    + done.
Qed.

Lemma inv_scan_begins s s' t :
  inv s -> t ∈ cpus -> pc_of s t = ExclSet ->
  (forall u, vcpu_of s' u = if decide (u = t) then vcpu_of s t <| at_ := ExclScan cpus 0 |> else vcpu_of s u) ->
  pending_cpus s' = 1 -> qemu_cpu_list_lock s' = qemu_cpu_list_lock s -> inv s'.
Proof.
  intros Hi Ht E Hv Hp Hlk. destruct (pending_zero s Hi (in_set _ Hi t E)) as [Hno [_ Hm]].
  assert (Hhw : forall u, has_waiter (vcpu_of s' u) = false) by (intros u; rewrite Hv; destruct (decide _); apply Hm).
  assert (Hw0 : waiters s' = 0) by by apply waiters_zero.
  assert (Hpc : forall u, pc_of s' u = if decide (u = t) then ExclScan cpus 0 else pc_of s u) by (intros u; rewrite Hv; by destruct (decide _)).
  eapply (inv_owner_step s s' t (ExclScan cpus 0) Hi); rewrite ?E; try done.
  - intros u. rewrite Hv. destruct (decide (u = t)); [by subst u|done].
  - intros u. rewrite Hv. destruct (decide (u = t)); [by subst u|done].
  - by rewrite Hp.
  - intros u Hu. by rewrite Hhw in Hu.
  - split; rewrite ?Hw0; rewrite ?(Hpc t), ?(decide_True (P := t = t)) by done; try done.
    + intros rest n [= <- <-]. auto.
    + intros u Hu Hnin. apply (in_outside _ Hi) in Hnin. rewrite Hpc in Hu. destruct (decide (u = t)); [done|congruence].
Qed.

Lemma scan_unmarked s t o rest n : inv s -> pc_of s t = ExclScan (o :: rest) n -> has_waiter (vcpu_of s o) = false.
Proof.
  intros Hi E. destruct (in_owner _ Hi) as [(o' & Ho & Hod)|[Hno _]]; [|specialize (Hno t); by rewrite E in Hno].
  assert (o' = t) as -> by (symmetry; apply Ho; by rewrite E). destruct (ow_scan _ _ Hod _ _ E) as (_ & _ & Hin).
  apply Hin. by left.
Qed.

Lemma inv_scan_marks s s' t o rest n :
  inv s -> t ∈ cpus -> pc_of s t = ExclScan (o :: rest) n ->
  let b := running (vcpu_of s o) in
  let l' := ExclScan rest (if b then n + 1 else n) in
  (forall u, pc_of s' u = if decide (u = t) then l' else pc_of s u) ->
  (forall u, has_waiter (vcpu_of s' u) = if decide (u = o) then b else has_waiter (vcpu_of s u)) ->
  (forall u, running (vcpu_of s' u) = running (vcpu_of s u)) ->
  (forall u, in_exclusive_context (vcpu_of s' u) = in_exclusive_context (vcpu_of s u)) ->
  pending_cpus s' = pending_cpus s -> qemu_cpu_list_lock s' = qemu_cpu_list_lock s -> inv s'.
Proof.
  intros Hi Ht E b l' Hpc Hw Hr Hc Hp Hlk.
  destruct (in_owner _ Hi) as [(o' & Ho & Hod)|[Hno _]]; [|specialize (Hno t); by rewrite E in Hno].
  assert (o' = t) as -> by (symmetry; apply Ho; by rewrite E). destruct Hod as [Oa Ob Oc Od]. rewrite E in *.
  destruct (Ob _ _ eq_refl) as (-> & Hnd & Hin). apply NoDup_cons in Hnd as [Hoin Hnd].
  destruct (Hin o ltac:(by left)) as [Hocpu Howait].
  assert (Hwt : waiters s' = if b then waiters s + 1 else waiters s).
  { destruct b eqn:Hb.
    - apply (waiters_mark s s' o); [done..|by rewrite Hw, decide_True|]. intros u Hu. by rewrite Hw, decide_False.
    - apply waiters_ext. intros u. rewrite Hw. destruct (decide (u = o)); [by subst u|done]. }
  assert (Hown : forall u, u <> t -> owns (pc_of s u) = false).
  { intros u Hu. apply not_true_iff_false. intros Hou. by apply Ho in Hou. }
  eapply (inv_owner_step s s' t l' Hi); rewrite ?E; try done.
  - by rewrite Hp, Oa.
  - intros u. rewrite Hw, Hpc. destruct (decide (u = o)) as [->|].
    + unfold b. rewrite (in_running _ Hi). destruct (decide (o = t)) as [->|]; [by rewrite E|]. by destruct (pc_of s o).
    + intros Hu. apply (in_due _ Hi) in Hu. destruct (decide (u = t)); [subst u; by rewrite E in Hu|done].
  - split; rewrite ?(Hpc t), ?(decide_True (P := t = t)) by done; cbn [entered l'].
    + by rewrite Hp, Oa.
    + intros r k [= <- <-]. rewrite Hwt. split; [by destruct b|]. split; [done|]. intros u Hu.
      destruct (Hin u ltac:(by right)) as [? ?]. split; [done|]. rewrite Hw, decide_False; [done|]. intros ->. done.
    + intros u. rewrite Hpc, Hw. destruct (decide (u = t)); [done|]. intros Hu Hnin. cbn [unseen] in Hnin.
      destruct (decide (u = o)) as [->|]; [unfold b; by rewrite (in_running _ Hi), Hu|].
      apply Oc; [done|]. cbn. by apply not_elem_of_cons.
    + done.
Qed.

Lemma inv_scan_ends s s' t n :
  inv s -> t ∈ cpus -> pc_of s t = ExclScan [] n ->
  (forall u, vcpu_of s' u = if decide (u = t) then vcpu_of s t <| at_ := ExclCount |> else vcpu_of s u) ->
  pending_cpus s' = n + 1 -> qemu_cpu_list_lock s' = qemu_cpu_list_lock s -> inv s'.
Proof.
  intros Hi Ht E Hv Hp Hlk.
  destruct (in_owner _ Hi) as [(o' & Ho & Hod)|[Hno _]]; [|specialize (Hno t); by rewrite E in Hno].
  assert (o' = t) as -> by (symmetry; apply Ho; by rewrite E). destruct Hod as [Oa Ob Oc Od]. rewrite E in *.
  destruct (Ob _ _ eq_refl) as (-> & _).
  assert (Hhw : forall u, has_waiter (vcpu_of s' u) = has_waiter (vcpu_of s u)) by (intros u; rewrite Hv; destruct (decide (u = t)); [by subst u|done]).
  assert (Hwt : waiters s' = waiters s) by by apply waiters_ext. pose proof (waiters_nonneg s).
  assert (Hpc : forall u, pc_of s' u = if decide (u = t) then ExclCount else pc_of s u) by (intros u; rewrite Hv; by destruct (decide _)).
  eapply (inv_owner_step s s' t ExclCount Hi); rewrite ?E; try done.
  - intros u Hu. apply not_true_iff_false. intros Hou. by apply Ho in Hou.
  - intros u. rewrite Hv. destruct (decide (u = t)); [by subst u|done].
  - intros u. rewrite Hv. destruct (decide (u = t)); [by subst u|done].
  - lia.
  - intros u. rewrite Hhw, Hpc. intros Hu. apply (in_due _ Hi) in Hu. destruct (decide (u = t)); [subst u; by rewrite E in Hu|done].
  - split; rewrite ?(Hpc t), ?(decide_True (P := t = t)) by done; try done.
    + rewrite Hwt. lia.
    + intros u. rewrite Hpc, Hhw. destruct (decide (u = t)); [done|]. intros Hu _. apply Oc; [done|]. apply not_elem_of_nil.
Qed.

Lemma inv_start_exclusive s s' t : inv s -> t ∈ cpus -> start_exclusive cpus t s = Some s' -> inv s'.
Proof.
  intros Hi Ht H. unfold start_exclusive in H. pose proof (in_due _ Hi t) as Hd. pose proof (in_context _ Hi t) as Hc.
  destruct (pc_of s t) as [| | | | | | | | | | | | | | | |[|o rest] n| | | | | |] eqn:E; try done.
  - eapply inv_take_lock in H; side E.
  - destruct (Z.eqb_spec (pending_cpus s) 0); injection H as <-.
    + eapply (inv_goto s _ t ExclSet); side E.
    + eapply (inv_goto s _ t ExclAsleep); side E.
  - eapply inv_take_lock in H; side E.
  - injection H as <-. by eapply (inv_scan_begins s _ t).
  - injection H as <-. by eapply (inv_scan_ends s _ t n).
  - pose proof (scan_unmarked _ _ _ _ _ Hi E). eapply (inv_scan_marks s s' t o rest n Hi Ht E); destruct (running (vcpu_of s o)) eqn:Hr; injection H as <-; try done;
      intros u; rewrite ?goto_vcpu, ?upd_vcpu_of; repeat match goal with |- context [decide (?a = ?b)] => destruct (decide (a = b)); subst end; try done.
  - destruct (Z.ltb_spec 1 (pending_cpus s)); injection H as <-.
    + eapply (inv_goto s _ t CountAsleep); side E.
    + eapply (inv_local s _ t (vcpu_of s t <| in_exclusive_context := true |> <| at_ := InExclusive |>)); side E; try view; try marked.
      cbn. by rewrite (in_running _ Hi), E.
  - eapply inv_take_lock in H; side E.
Qed.

Lemma inv_end_exclusive s s' t : inv s -> t ∈ cpus -> end_exclusive t s = Some s' -> inv s'.
Proof.
  intros Hi Ht H. unfold end_exclusive in H. pose proof (in_due _ Hi t) as Hd. destruct (pc_of s t) eqn:E; try done.
  - eapply inv_take_lock in H; side E.
  - injection H as <-.
    destruct (in_owner _ Hi) as [(o & Ho & Hod)|[Hno _]]; [|specialize (Hno t); by rewrite E in Hno].
    assert (o = t) as -> by (symmetry; apply Ho; by rewrite E).
    pose proof (proj1 (waiters_zero s) (ow_entered _ _ Hod ltac:(by rewrite E))) as Hz.
    assert (Hw : forall u, has_waiter (vcpu_of s u) = false).
    { intros u. destruct (decide (u ∈ cpus)) as [|Hout]; [by apply Hz|]. apply not_true_iff_false. intros Hu.
      apply (in_due _ Hi) in Hu. by rewrite (in_outside _ Hi) in Hu. }
    match goal with |- inv ?x => set (s' := x) end.
    assert (Hv : forall u, vcpu_of s' u = vcpu_of s u <| at_ := if decide (u = t) then Outside else resume (pc_of s u) |>).
    { intros u. unfold s'. rewrite goto_vcpu. by destruct (decide (u = t)); [subst u|]. }
    assert (Hown : forall u, u <> t -> owns (pc_of s u) = false) by (intros u Hu; apply not_true_iff_false; by rewrite Ho).
    eapply (inv_release s s' t resume Hi); rewrite ?E; try done; try apply tame_resume; try (intros u; rewrite Hv; cbn; try done).
    + rewrite Hv, decide_True by done. cbn. by rewrite (in_running _ Hi), E.
    + by rewrite Hw.
    + destruct (decide (u = t)); [by intros []|]. destruct (pc_of s u); by intros [].
    + destruct (decide (u = t)); [done|]. specialize (Hown u ltac:(done)). by destruct (pc_of s u).
    + right. split; [|split; [done|]]; intros u; rewrite Hv; cbn; [|apply Hw].
      destruct (decide (u = t)); [done|]. specialize (Hown u ltac:(done)). by destruct (pc_of s u).
Qed.

Lemma inv_step s s' t m : inv s -> step cpus t m s = Some s' -> inv s'.
Proof.
  intros Hi H. destruct (decide (t ∈ cpus)) as [Ht|Ht]; [|unfold step in H; by rewrite bool_decide_eq_false_2 in H].
  destruct (decide (m = Go)) as [->|]; [|by eapply inv_call]. unfold step in H.
  rewrite bool_decide_eq_true_2 in H by done. cbn [negb] in H. unfold first_some in H.
  destruct (cpu_exec_start t s) eqn:E1; [eapply inv_cpu_exec_start; [done..|congruence]|].
  destruct (cpu_exec_end t s) eqn:E2; [eapply inv_cpu_exec_end; [done..|congruence]|].
  destruct (start_exclusive cpus t s) eqn:E3; [eapply inv_start_exclusive; [done..|congruence]|].
  by eapply inv_end_exclusive.
Qed.

Lemma inv_init : inv qemu_init_cpu_list.
Proof. split; try done; [by right|by intros u [?|?]]. Qed.

Lemma inv_reachable s : reachable cpus s -> inv s.
Proof. induction 1; [apply inv_init|by eapply inv_step]. Qed.
End Invariant.

(** ** Properties *)

(** C14. Exclusive sections exclude: in every reachable state a vCPU in an
    exclusive section is the only one in such a section, and no vCPU executes
    between [cpu_exec_start] and [cpu_exec_end]; [pending_cpus] is 1, and it is
    0 exactly when no thread is between its start and its end of an exclusive
    section.  The flag [in_exclusive_context] tells who is in one, and the lock
    is held by at most one thread. *)
Theorem exclusive_runs_alone (cpus : list Z) (s : cpus_common) (t u : Z) :
  NoDup cpus -> reachable cpus s ->
  (at_ (vcpu_of s t) = InExclusive ->
     pending_cpus s = 1 /\ at_ (vcpu_of s u) <> Executing /\ (at_ (vcpu_of s u) = InExclusive -> u = t)) /\
  (pending_cpus s = 0 <-> forall o, owns (at_ (vcpu_of s o)) = false) /\
  in_exclusive_context (vcpu_of s t) = bool_decide (at_ (vcpu_of s t) = InExclusive) /\
  (holds (at_ (vcpu_of s t)) = true -> holds (at_ (vcpu_of s u)) = true -> t = u).
Proof.
  intros Hnd Hr. pose proof (inv_reachable cpus Hnd s Hr) as Hi. split; [|split; [|split]].
  - intros Ht. destruct (in_owner _ _ Hi) as [(o & Ho & Hod)|[Hno _]]; [|specialize (Hno t); by rewrite Ht in Hno].
    assert (o = t) as -> by (symmetry; apply Ho; by rewrite Ht).
    pose proof (ow_entered _ _ _ Hod ltac:(by rewrite Ht)) as Hz. pose proof (ow_pending _ _ _ Hod) as Hp. rewrite Ht, Hz in Hp.
    split; [done|]. split; [|intros Hu; apply Ho; by rewrite Hu].
    intros Hu. pose proof (ow_executing _ _ _ Hod u Hu) as Hw. rewrite Ht in Hw. specialize (Hw (not_elem_of_nil u)).
    destruct (decide (u ∈ cpus)) as [Hin|Hout]; [|by rewrite (in_outside _ _ Hi u Hout) in Hu].
    by rewrite (proj1 (waiters_zero cpus s) Hz u Hin) in Hw.
  - split; [intros H0; by apply (pending_zero cpus)|]. intros Hno.
    destruct (in_owner _ _ Hi) as [(o & Ho & _)|[_ [Hp _]]]; [|done]. specialize (Hno o). by rewrite (proj2 (Ho o) eq_refl) in Hno.
  - apply (in_context _ _ Hi).
  - intros H1 H2. apply (in_lock _ _ Hi) in H1, H2. congruence.
Qed.

(** One vCPU starts to execute, another asks for an exclusive section and has to
    wait, the first leaves and signals, the second enters; a third that comes
    to execute is put to sleep. *)
Definition exclusive_moves : list (Z * move) :=
  [(0, CpuExecStart); (0, Go); (1, StartExclusive); (1, Go); (1, Go); (1, Go); (1, Go); (1, Go); (1, Go); (1, Go); (1, Go);
   (0, CpuExecEnd); (0, Go); (0, Go); (0, Go); (1, Go); (1, Go);
   (2, CpuExecStart); (2, Go); (2, Go); (2, Go); (2, Go)].

Lemma exclusive_runs_alone_witness :
  match moves [0; 1; 2] exclusive_moves qemu_init_cpu_list with
  | Some s => at_ (vcpu_of s 1) = InExclusive /\ at_ (vcpu_of s 2) = StartAsleep /\
      pending_cpus s = 1 /\ at_ (vcpu_of s 2) <> Executing
  | None => False
  end.
Proof.
  assert (H : match moves [0; 1; 2] exclusive_moves qemu_init_cpu_list with
    | Some s => (at_ (vcpu_of s 1), at_ (vcpu_of s 2)) | None => (Outside, Outside) end = (InExclusive, StartAsleep)) by (vm_compute; reflexivity).
  destruct (moves [0; 1; 2] exclusive_moves qemu_init_cpu_list) as [s|] eqn:E; [|discriminate H]. injection H as H1 H2.
  destruct (exclusive_runs_alone [0; 1; 2] s 1 2) as [Hx _].
  - apply (bool_decide_unpack _). vm_compute. exact I.
  - eapply moves_reachable, E. apply reach_init.
  - destruct (Hx H1) as (Hp & He & _). exact (conj H1 (conj H2 (conj Hp He))).
Defined.

(** Where a thread waits for its client: the guest that runs, or the work of
    the exclusive section. *)
Definition at_client (l : pc) : bool :=
  match l with Outside | Executing | InExclusive => true | _ => false end.

Lemma holder_goes cpus s t : t ∈ cpus -> holds (at_ (vcpu_of s t)) = true -> is_Some (step cpus t Go s).
Proof.
  intros Ht Hh. unfold step. rewrite bool_decide_eq_true_2 by done. unfold cpu_exec_start, cpu_exec_end, start_exclusive, end_exclusive.
  destruct (at_ (vcpu_of s t)) as [| | | | | | | | | | | | | | | |[|o rest] n| | | | | |] eqn:E; try done; cbn;
    repeat match goal with |- context [if ?b then _ else _] => destruct b end; by eexists.
Qed.

(** A thread inside a function that does not sleep goes on when the lock is free. *)
Lemma awake_goes cpus s t :
  t ∈ cpus -> qemu_cpu_list_lock s = None -> at_client (at_ (vcpu_of s t)) = false ->
  at_ (vcpu_of s t) <> StartAsleep -> at_ (vcpu_of s t) <> ExclAsleep -> at_ (vcpu_of s t) <> CountAsleep ->
  is_Some (step cpus t Go s).
Proof.
  intros Ht Hl Hc H1 H2 H3. unfold step. rewrite bool_decide_eq_true_2 by done.
  unfold cpu_exec_start, cpu_exec_end, start_exclusive, end_exclusive, take_lock. rewrite Hl.
  destruct (at_ (vcpu_of s t)) as [| | | | | | | | | | | | | | | |[|o rest] n| | | | | |] eqn:E; try done; cbn;
    repeat match goal with |- context [if ?b then _ else _] => destruct b end; by eexists.
Qed.

(** Whoever sleeps in the wait for the others has some to wait for. *)
Lemma counted_waiter cpus (Hnd : NoDup cpus) s u :
  inv cpus s -> at_ (vcpu_of s u) = CountAsleep -> exists v, v ∈ cpus /\ has_waiter (vcpu_of s v) = true.
Proof.
  intros Hi Hu. pose proof (in_count _ _ Hi u Hu) as Hp.
  destruct (in_owner _ _ Hi) as [(o & Ho & Hod)|[_ [H0 _]]]; [|lia].
  assert (o = u) as -> by (symmetry; apply Ho; by rewrite Hu). pose proof (ow_pending _ _ _ Hod) as Hp'. rewrite Hu in Hp'.
  apply some_waiter. lia.
Qed.

Lemma progress cpus s t :
  NoDup cpus -> inv cpus s -> at_client (at_ (vcpu_of s t)) = false ->
  (exists u, is_Some (step cpus u Go s)) \/
  (exists u, at_ (vcpu_of s u) = Executing /\ has_waiter (vcpu_of s u) = true) \/
  (exists u, at_ (vcpu_of s u) = InExclusive).
Proof.
  intros Hnd Hi Hc.
  assert (Hin : forall u, at_ (vcpu_of s u) <> Outside -> u ∈ cpus).
  { intros u Hu. destruct (decide (u ∈ cpus)) as [|Hout]; [done|]. by apply (in_outside _ _ Hi) in Hout. }
  destruct (qemu_cpu_list_lock s) as [h|] eqn:Hl.
  { left. exists h. apply (in_lock _ _ Hi) in Hl. apply holder_goes; [|done]. apply Hin. intros E. by rewrite E in Hl. }
  assert (Hgo : forall u, at_client (at_ (vcpu_of s u)) = false -> at_ (vcpu_of s u) <> StartAsleep ->
    at_ (vcpu_of s u) <> ExclAsleep -> at_ (vcpu_of s u) <> CountAsleep -> exists u, is_Some (step cpus u Go s)).
  { intros u Hu ? ? ?. exists u. apply awake_goes; try done. apply Hin. intros E. by rewrite E in Hu. }
  assert (Hcount : forall u, at_ (vcpu_of s u) = CountAsleep -> (exists u, is_Some (step cpus u Go s)) \/
    exists u, at_ (vcpu_of s u) = Executing /\ has_waiter (vcpu_of s u) = true).
  { intros u Hu. destruct (counted_waiter cpus Hnd s u Hi Hu) as (v & Hv & Hw).
    pose proof (in_due _ _ Hi v Hw) as Hd. destruct (decide (at_ (vcpu_of s v) = Executing)); [right; by exists v|left].
    by apply (Hgo v); destruct (at_ (vcpu_of s v)). }
  assert (Hslp : pending_cpus s <> 0 -> (exists u, is_Some (step cpus u Go s)) \/
    (exists u, at_ (vcpu_of s u) = Executing /\ has_waiter (vcpu_of s u) = true) \/ (exists u, at_ (vcpu_of s u) = InExclusive)).
  { intros Hp. destruct (in_owner _ _ Hi) as [(o & Ho & _)|[_ [H0 _]]]; [|done]. pose proof (proj2 (Ho o) eq_refl) as Hoo.
    destruct (decide (at_ (vcpu_of s o) = InExclusive)); [right; right; by exists o|].
    destruct (decide (at_ (vcpu_of s o) = CountAsleep)) as [E|]; [destruct (Hcount o E); auto|].
    left. by apply (Hgo o); destruct (at_ (vcpu_of s o)). }
  destruct (decide (at_ (vcpu_of s t) = CountAsleep)) as [E|]; [destruct (Hcount t E); auto|].
  destruct (decide (at_ (vcpu_of s t) = StartAsleep)) as [E|]; [apply Hslp, (in_resume _ _ Hi t); auto|].
  destruct (decide (at_ (vcpu_of s t) = ExclAsleep)) as [E|]; [apply Hslp, (in_resume _ _ Hi t); auto|].
  left. by apply (Hgo t).
Qed.

(** C15. No wake-up is lost: in every reachable state a thread that sleeps waits
    for something that has yet to happen.  If it sleeps on [exclusive_resume]
    there is an exclusive section, if on [exclusive_cond] there are vCPUs to
    wait for; and when some thread is inside one of the four functions, then
    some thread can go on without a spurious wake-up, or a vCPU that was told
    to leave the guest is still in it, or a thread is inside an exclusive
    section. *)
Theorem no_lost_wakeup (cpus : list Z) (s : cpus_common) (t : Z) :
  NoDup cpus -> reachable cpus s ->
  (at_ (vcpu_of s t) = StartAsleep \/ at_ (vcpu_of s t) = ExclAsleep -> exists o, owns (at_ (vcpu_of s o)) = true) /\
  (at_ (vcpu_of s t) = CountAsleep -> exists u, u <> t /\ has_waiter (vcpu_of s u) = true) /\
  (at_client (at_ (vcpu_of s t)) = false ->
     (exists u, is_Some (step cpus u Go s)) \/
     (exists u, at_ (vcpu_of s u) = Executing /\ has_waiter (vcpu_of s u) = true) \/
     (exists u, at_ (vcpu_of s u) = InExclusive)).
Proof.
  intros Hnd Hr. pose proof (inv_reachable cpus Hnd s Hr) as Hi. split; [|split].
  - intros Hs%(in_resume _ _ Hi). destruct (in_owner _ _ Hi) as [(o & Ho & _)|[_ [H0 _]]]; [|done]. exists o. by apply Ho.
  - intros Hs. destruct (counted_waiter cpus Hnd s t Hi Hs) as (v & Hv & Hw). exists v. split; [|done]. intros ->.
    apply (in_due _ _ Hi) in Hw. by rewrite Hs in Hw.
  - by apply progress.
Qed.

(** The run above with the exclusive section over: the third vCPU was woken. *)
Lemma no_lost_wakeup_witness :
  match moves [0; 1; 2] (exclusive_moves ++ [(1, EndExclusive); (1, Go); (1, Go)]) qemu_init_cpu_list with
  | Some s => at_ (vcpu_of s 2) = StartAwake /\
      ((exists u, is_Some (step [0; 1; 2] u Go s)) \/
       (exists u, at_ (vcpu_of s u) = Executing /\ has_waiter (vcpu_of s u) = true) \/
       (exists u, at_ (vcpu_of s u) = InExclusive))
  | None => False
  end.
Proof.
  assert (H : match moves [0; 1; 2] (exclusive_moves ++ [(1, EndExclusive); (1, Go); (1, Go)]) qemu_init_cpu_list with
    | Some s => at_ (vcpu_of s 2) | None => Outside end = StartAwake) by (vm_compute; reflexivity).
  destruct (moves _ _ _) as [s|] eqn:E; [|discriminate H]. split; [exact H|]. destruct (no_lost_wakeup [0; 1; 2] s 2) as (_ & _ & Hp); [..|apply Hp; rewrite H; reflexivity].
  - apply (bool_decide_unpack _). vm_compute. exact I.
  - eapply moves_reachable, E. apply reach_init.
Defined.
