(* ===== verification/TurnSpec.v ===== *)
(** * The turn passes on in the order of the schedule

    What [handle_breakpoint_schedpoint] does when a vCPU reaches the first
    scheduling point of its window: the point is marked as hit, the focus of
    the schedule moves beyond it, and the vCPU goes on when the next point is
    its own; otherwise its task is suspended and the suspended tasks of the
    others are told to wake up. *)

From stdpp Require Import base list gmap strings.
From Stdlib Require Import ZArith Lia.
From S2P Require Import Prelude Machine Invariant Flat KvmDebug CpuState GuestMem Vmi Window ExecControl Breakpoint RunState VmiHint Kssb Hcall VcpuLoop System HwTable Reads Frames Accounting WindowSpec ExecSpec HcallSpec.

Local Open Scope Z_scope.
Local Open Scope record_scope.

(** ** What moving a window leaves alone *)

(** What a search looks at. *)
Definition point_view (e : qcsched_entry) : Z * Z * Z * qcschedpoint_footprint :=
  (entry_shape e, footprint (schedpoint e)).

Section Turn.
Context {P : Platform} {I : Interference}.

Record still (w w' : machine) : Prop := {
  st_current : current (sched w') = current (sched w);
  st_total : total (sched w') = total (sched w);
  st_activated : activated (sched w') = activated (sched w);
  st_state : cpu_state (sched w') = cpu_state (sched w);
  st_points : forall j, point_view <$> aget (entries (sched w')) j = point_view <$> aget (entries (sched w)) j;
  st_infos : infos w' = infos w;
  st_list : cpu_list w' = cpu_list w;
  st_vmi : vmi_info w' = vmi_info w;
  st_self : current_cpu w' = current_cpu w
}.

Lemma still_refl w : still w w.
Proof. by split. Qed.

Lemma still_trans w1 w2 w3 : still w1 w2 -> still w2 w3 -> still w1 w3.
Proof. intros [] []. split; congruence. Qed.

Lemma still_hw_only w w' : hw_only w w' -> still w w'.
Proof. intros (h & k & ->). by split. Qed.

Lemma still_window f w : still w (w <| sched ::= set schedpoint_window f |>).
Proof. by split. Qed.

Lemma still_entry w i e e' :
  aget (entries (sched w)) i = Some e -> point_view e' = point_view e ->
  still w (w <| sched ::= set entries (fun l => aset l i e') |>).
Proof.
  intros He Hv. split; try done. intros j. simpl. rewrite aget_aset. case_decide as Hd; [|done].
  destruct Hd as [<- _]. by rewrite He; simpl; rewrite Hv.
Qed.

Lemma still_get w w' j e :
  still w w' -> aget (entries (sched w')) j = Some e ->
  exists e0, aget (entries (sched w)) j = Some e0 /\ point_view e0 = point_view e.
Proof.
  intros Hs He. pose proof (st_points _ _ Hs j) as Hj. rewrite He in Hj. simpl in Hj. symmetry in Hj.
  apply fmap_Some in Hj as (e0 & ? & ?). eauto.
Qed.

Context (cpu : Z).

(** The bounds of the vCPU's window. *)
Definition bounds (w : machine) : option (Z * Z * Z) :=
  (fun x => (w_from x, w_until x, w_cpu x)) <$> aget (schedpoint_window (sched w)) cpu.

Definition beyond (lo : Z) (w : machine) : Prop :=
  exists x, aget (schedpoint_window (sched w)) cpu = Some x /\ lo <= w_from x <= w_until x.

(** Every point of the vCPU is at the index of its order. *)
Definition numbered_points (w : machine) : Prop :=
  forall j e, aget (entries (sched w)) j = Some e -> e_cpu e = cpu -> order (schedpoint e) = j.

Lemma numbered_still w w' : still w w' -> numbered_points w -> numbered_points w'.
Proof.
  intros Hs Hn j e He Hc. destruct (still_get _ _ _ _ Hs He) as (e0 & He0 & Hv).
  unfold point_view, entry_shape in Hv. injection Hv as Ho Hc0 _ _. rewrite <- Ho. apply (Hn j e0 He0). congruence.
Qed.

(** *** Searches *)

Lemma wlp_lookup_first c from (Q : option Z -> machine -> Prop) w :
  from <> END_OF_SCHEDPOINT_WINDOW ->
  (forall r, first_from (sched w) from (fun _ e => entry_on_cpu c e && negb (entry_missed e)) r -> Q r w) ->
  wlp (lookup_entry_by_order c from) Q w.
Proof.
  intros Hf HQ. unfold lookup_entry_by_order. rewrite (proj2 (Z.eqb_neq _ _)) by done.
  by apply wlp_find_entry_first.
Qed.

(** What a search for a point of the vCPU finds is at the index of its order. *)
Lemma wlp_lookup_own from (Q : option Z -> machine -> Prop) w :
  (forall r, match r with
             | Some j => from <= j < total (sched w) /\
                         exists e, aget (entries (sched w)) j = Some e /\ e_cpu e = cpu
             | None => True
             end -> Q r w) ->
  wlp (lookup_entry_by_order (Some cpu) from) Q w.
Proof.
  intros HQ. destruct (decide (from = END_OF_SCHEDPOINT_WINDOW)) as [->|Hf].
  - unfold lookup_entry_by_order. rewrite Z.eqb_refl. by apply wlp_ret, HQ.
  - apply wlp_lookup_first; [done|]. intros [j|] Hr; apply HQ; [|done].
    destruct Hr as (_ & Hj & e & He & Hm). bool_to_prop. simpl in *. bool_to_prop. eauto.
Qed.

Lemma wlp_entry_order j e (Q : Z -> machine -> Prop) w :
  aget (entries (sched w)) j = Some e -> Q (order (schedpoint e)) w -> wlp (entry_order j) Q w.
Proof.
  intros He HQ. apply wlp_bind, wlp_get_entry. intros e' He'. rewrite He in He'. injection He' as <-. by apply wlp_ret.
Qed.

(** *** Expanding *)

Lemma wlp_activate_still i w :
  current_cpu w = cpu ->
  wlp (qcsched_window_activate_entry cpu cpu i) (fun _ w' => still w w' /\ bounds w' = bounds w) w.
Proof.
  intros Hs. apply wlp_bind, wlp_get_window. intros x Hx. apply wlp_bind, wlp_ASSERT. intros _.
  apply wlp_bind, wlp_get_entry. intros e He. destruct (_ =? _); [apply wlp_ret; split; [apply still_refl|done]|].
  destruct (installed _); [apply wlp_ret; split; [apply still_refl|done]|].
  apply wlp_bind. eapply wlp_mono; [by apply wlp_kvm_insert_hw_only|]. intros err w1 (h & k & ->).
  apply wlp_bind, wlp_ASSERT. intros _. apply wlp_bind, wlp_upd_entry. intros e1 He1. simpl in He1.
  apply wlp_upd_window. intros x1 Hx1. simpl in Hx1. split.
  - eapply still_trans; [|apply still_window]. eapply still_trans; [|eapply still_entry; [simpl; exact He1|done]].
    apply still_hw_only. by exists h, k.
  - unfold bounds. simpl. rewrite aget_aset_eq by by eapply aget_Some_range. by rewrite Hx1.
Qed.

Lemma bounds_beyond lo w w' : bounds w' = bounds w -> beyond lo w -> beyond lo w'.
Proof.
  unfold bounds. intros Hb (x & Hx & Hlo). rewrite Hx in Hb. simpl in Hb. apply fmap_Some in Hb as (x' & Hx' & Heq).
  injection Heq as Hf Hu _. exists x'. split; [done|]. by rewrite <- Hf, <- Hu.
Qed.

Lemma wlp_expand_1 lo w :
  current_cpu w = cpu -> numbered_points w -> total (sched w) <= MAX_SCHEDPOINTS -> beyond lo w ->
  wlp (qcsched_window_expand_window_1 cpu cpu) (fun _ w' => still w w' /\ beyond lo w') w.
Proof.
  intros Hs Hn Ht Hb. pose proof Hb as (x0 & Hx0 & Hlo0). apply wlp_bind, wlp_get_window. intros x Hx.
  rewrite Hx in Hx0. injection Hx0 as <-. apply wlp_bind, wlp_lookup_own.
  intros [i|] Hi; [|apply wlp_ret; split; [apply still_refl|done]]. destruct Hi as (Hir & e & He & Hc).
  apply wlp_bind. eapply wlp_entry_order; [done|]. rewrite (Hn i e He Hc). apply wlp_bind.
  apply (wlp_mono _ (fun _ w' => still w w' /\ current_cpu w' = cpu /\ exists y,
    aget (schedpoint_window (sched w')) cpu = Some y /\ lo <= w_from y <= i)).
  { destruct (schedpoint_window_empty x).
    - apply wlp_upd_window. intros y Hy. split; [apply still_window|]. split; [done|].
      eexists. split; [simpl; apply aget_aset_eq; by eapply aget_Some_range|]. simpl. lia.
    - apply wlp_ret. split; [apply still_refl|]. split; [done|]. exists x. split; [done|]. lia. }
  intros [] w1 (Hst1 & Hs1 & y & Hy & Hyr). apply wlp_bind. eapply wlp_mono; [by apply wlp_activate_still|].
  intros [] w2 [Hst2 Hb2]. pose proof (still_trans _ _ _ Hst1 Hst2) as Hst. pose proof (numbered_still _ _ Hst Hn) as Hn2.
  apply wlp_bind, wlp_bind, wlp_get_entry. intros e2 He2. apply wlp_ret.
  assert (order (schedpoint e2) = i) as ->.
  { destruct (still_get _ _ _ _ Hst He2) as (e0 & He0 & Hv). rewrite He in He0. injection He0 as <-.
    unfold point_view, entry_shape in Hv. injection Hv as Ho _ _ _. rewrite <- Ho. by apply Hn. }
  unfold bounds in Hb2. rewrite Hy in Hb2. simpl in Hb2. apply fmap_Some in Hb2 as (z & Hz & Heq).
  injection Heq as Hzf _ _.
  apply wlp_bind, wlp_lookup_own. intros [j|] Hj.
  - destruct Hj as (Hjr & e' & He' & Hc'). apply wlp_bind. eapply wlp_entry_order; [done|]. rewrite (Hn2 j e' He' Hc').
    apply wlp_upd_window. intros z' Hz'. rewrite Hz in Hz'. injection Hz' as <-. split; [eapply still_trans; [exact Hst|apply still_window]|].
    eexists. split; [simpl; apply aget_aset_eq; by eapply aget_Some_range|]. simpl. lia.
  - apply wlp_upd_window. intros z' Hz'. rewrite Hz in Hz'. injection Hz' as <-. split; [eapply still_trans; [exact Hst|apply still_window]|].
    eexists. split; [simpl; apply aget_aset_eq; by eapply aget_Some_range|]. simpl. unfold END_OF_SCHEDPOINT_WINDOW. lia.
Qed.

Lemma wlp_expand lo w :
  current_cpu w = cpu -> numbered_points w -> total (sched w) <= MAX_SCHEDPOINTS -> beyond lo w ->
  wlp (qcsched_window_expand_window cpu) (fun _ w' => still w w' /\ beyond lo w') w.
Proof.
  intros Hs Hn Ht Hb. apply (wlp_for_loop (fun _ w' => still w w' /\ beyond lo w')); [split; [apply still_refl|done]|].
  intros i w1 [Hst Hb1]. apply wlp_bind, wlp_get_window. intros x Hx. apply wlp_ret.
  destruct (_ && _); [|done]. eapply wlp_mono; [apply (wlp_expand_1 lo)|].
  - by rewrite (st_self _ _ Hst).
  - by eapply numbered_still.
  - by rewrite (st_total _ _ Hst).
  - done.
  - intros [] w2 [Hst2 Hb2]. split; [by eapply still_trans|done].
Qed.

(** *** Shrinking *)

Lemma wlp_deactivate_still o e w :
  current_cpu w = cpu -> aget (entries (sched w)) o = Some e -> e_cpu e = cpu ->
  wlp (qcsched_window_deactivate_entry cpu cpu o) (fun _ w' => still w w' /\ bounds w' = bounds w) w.
Proof.
  intros Hs He Hc. unfold qcsched_window_deactivate_entry.
  apply wlp_bind, wlp_get_window. intros x Hx. apply wlp_bind, wlp_get_entry.
  intros e0 He0. rewrite He in He0. injection He0 as <-.
  apply wlp_bind, wlp_ASSERT. intros _. destruct (negb _); [apply wlp_ret; split; [apply still_refl|done]|].
  apply wlp_bind, wlp_ASSERT. intros _. rewrite Hc, Z.eqb_refl. simpl. unfold qcsched_window_deactivate_entry_local.
  apply wlp_bind, wlp_gets, wlp_bind, wlp_ASSERT. intros _.
  apply wlp_bind, wlp_get_entry. intros e0 He0. rewrite He in He0. injection He0 as <-.
  apply wlp_bind. eapply wlp_mono; [by apply wlp_kvm_remove_hw_only|].
  intros err w1 (hw & k & ->). apply wlp_bind, wlp_ASSERT. intros _.
  apply wlp_bind, wlp_upd_entry. intros e0 He0. simpl in He0. apply wlp_upd_window. intros x1 Hx1. simpl in Hx1. split.
  - eapply still_trans; [|apply still_window]. eapply still_trans; [|eapply still_entry; [simpl; exact He0|done]].
    apply still_hw_only. by exists hw, k.
  - unfold bounds. simpl. rewrite aget_aset_eq by by eapply aget_Some_range. by rewrite Hx1.
Qed.

(** Taking the first point out of the window. *)
Lemma wlp_shrink_first i e x w :
  current_cpu w = cpu -> cpu ∈ cpu_list w -> numbered_points w -> total (sched w) <= MAX_SCHEDPOINTS ->
  aget (schedpoint_window (sched w)) cpu = Some x -> w_from x = i -> w_cpu x = cpu ->
  aget (entries (sched w)) i = Some e -> e_cpu e = cpu -> i < total (sched w) ->
  wlp (do_shrink_entry cpu cpu i) (fun _ w' => still w w' /\ beyond (i + 1) w') w.
Proof.
  intros Hs Hin Hn Ht Hx Hf Hwc He Hc Hi. pose proof (Hn i e He Hc) as Ho.
  apply wlp_bind, wlp_get_entry. intros e0 He0. rewrite He in He0. injection He0 as <-. apply wlp_bind.
  apply (wlp_mono _ (fun _ w' => still w w' /\ bounds w' = bounds w)).
  { destruct (installed _); [by eapply wlp_deactivate_still|apply wlp_ret; split; [apply still_refl|done]]. }
  intros [] w1 [Hst Hb]. pose proof (numbered_still _ _ Hst Hn) as Hn1. apply wlp_bind, wlp_bind, wlp_get_entry. intros e1 He1. apply wlp_ret.
  assert (order (schedpoint e1) = i) as ->.
  { destruct (still_get _ _ _ _ Hst He1) as (e0 & He0 & Hv). rewrite He in He0. injection He0 as <-.
    unfold point_view, entry_shape in Hv. injection Hv as Ho' _ _ _. congruence. }
  apply wlp_bind, wlp_get_window. intros x1 Hx1. unfold bounds in Hb. rewrite Hx1, Hx in Hb. injection Hb as Hf1 Hu1 Hc1.
  rewrite (proj2 (Z.ltb_ge _ _)) by lia. apply wlp_bind, wlp_bind, wlp_gets, wlp_ret.
  rewrite decide_True by (rewrite Hc1, Hwc, (st_list _ _ Hst); done). rewrite Hc1, Hwc.
  apply wlp_bind, wlp_lookup_own. intros r Hr.
  apply wlp_bind. apply (wlp_mono _ (fun from w' => w' = w1 /\ i + 1 <= from)).
  { destruct r as [j|]; [|apply wlp_ret; split; [done|unfold END_OF_SCHEDPOINT_WINDOW; lia]].
    destruct Hr as (Hj & e' & He' & Hc'). eapply wlp_entry_order; [done|]. rewrite (Hn1 j e' He' Hc'). split; [done|lia]. }
  intros from w2 (-> & Hfrom). apply wlp_bind, wlp_upd_window. intros y Hy. rewrite Hx1 in Hy. injection Hy as <-.
  apply wlp_bind, wlp_get_window. intros y Hy. simpl in Hy. rewrite aget_aset_eq in Hy by by eapply aget_Some_range. injection Hy as <-.
  simpl. destruct (Z.ltb_spec (w_until x1) from).
  - apply wlp_upd_window. intros y Hy. simpl in Hy. rewrite aget_aset_eq in Hy by by eapply aget_Some_range. injection Hy as <-.
    split; [eapply still_trans; [exact Hst|]; eapply still_trans; apply still_window|].
    eexists. split; [simpl; rewrite aset_aset_eq; apply aget_aset_eq; by eapply aget_Some_range|]. simpl. lia.
  - apply wlp_ret. split; [eapply still_trans; [exact Hst|apply still_window]|].
    eexists. split; [simpl; apply aget_aset_eq; by eapply aget_Some_range|]. simpl. lia.
Qed.

Lemma first_from_here i e r s found :
  first_from s i found r -> aget (entries s) i = Some e -> i < total s -> found i e = true -> r = Some i.
Proof.
  intros [Hno Hr] He Hi Hf. destruct r as [j|].
  - destruct Hr as (Hj & _). destruct (decide (j = i)) as [->|]; [done|].
    rewrite (Hno i e) in Hf; [done|simpl; lia|done].
  - rewrite (Hno i e) in Hf; [done|simpl; lia|done].
Qed.

Lemma wlp_shrink_window i e x w :
  current_cpu w = cpu -> cpu ∈ cpu_list w -> numbered_points w -> total (sched w) <= MAX_SCHEDPOINTS ->
  aget (schedpoint_window (sched w)) cpu = Some x -> w_from x = i -> w_cpu x = cpu -> w_activated x <> 0 ->
  aget (entries (sched w)) i = Some e -> e_cpu e = cpu -> i < total (sched w) -> entry_missed e = false ->
  wlp (qcsched_window_shrink_window cpu) (fun _ w' => still w w' /\ beyond (i + 1) w') w.
Proof.
  intros Hs Hin Hn Ht Hx Hf Hwc Ha He Hc Hi Hm.
  apply (wlp_for_loop (fun k w' => k = 0 /\ w' = w \/ k = 1 /\ still w w' /\ beyond (i + 1) w')); [by left|].
  intros k w1 [[-> ->]|[-> Hd]]; apply wlp_bind, wlp_get_window; intros y Hy; apply wlp_ret; [|done].
  rewrite Hx in Hy. injection Hy as <-. unfold schedpoint_window_empty. rewrite (proj2 (Z.eqb_neq _ _)) by done. simpl.
  apply wlp_bind, wlp_get_window. intros y Hy. rewrite Hx in Hy. injection Hy as <-. rewrite Hf.
  apply wlp_bind, wlp_lookup_first; [unfold END_OF_SCHEDPOINT_WINDOW; lia|]. intros r Hr.
  apply (first_from_here i e) in Hr as ->; [|done|done|by simpl; rewrite Hc, Z.eqb_refl, Hm].
  apply wlp_bind, wlp_get_window. intros y Hy. rewrite Hx in Hy. injection Hy as <-.
  apply wlp_bind, wlp_get_entry. intros e0 He0. rewrite He in He0. injection He0 as <-.
  apply wlp_bind, wlp_ASSERT. intros _. rewrite (Hn i e He Hc), Hf, Z.ltb_irrefl. apply wlp_bind, wlp_ret.
  eapply wlp_mono; [by eapply wlp_shrink_first|]. intros [] w2 Hd. right. done.
Qed.

(** *** The first point of the window is hit *)

Lemma wlp_address_here i e x w (Q : option Z -> machine -> Prop) :
  aget (schedpoint_window (sched w)) cpu = Some x -> w_from x = i -> aget (entries (sched w)) i = Some e ->
  e_cpu e = cpu -> i < total (sched w) -> total (sched w) <= MAX_SCHEDPOINTS -> Q (Some i) w ->
  wlp (lookup_entry_by_address cpu (addr (schedpoint e))) Q w.
Proof.
  intros Hx Hf He Hc Hi Ht HQ. apply wlp_bind, wlp_get_window. intros y Hy. rewrite Hx in Hy. injection Hy as <-.
  rewrite Hf, (proj2 (Z.eqb_neq _ _)) by (unfold END_OF_SCHEDPOINT_WINDOW; lia). apply wlp_find_entry_first. intros r Hr.
  apply (first_from_here i e) in Hr as ->; [done|done|done|]. by simpl; rewrite Hc, !Z.eqb_refl.
Qed.

Lemma wlp_prune_here i e x c w :
  cpus w !! cpu = Some c -> rip (regs c) = addr (schedpoint e) ->
  aget (schedpoint_window (sched w)) cpu = Some x -> w_from x = i -> aget (entries (sched w)) i = Some e ->
  e_cpu e = cpu -> i < total (sched w) -> total (sched w) <= MAX_SCHEDPOINTS -> entry_missed e = false ->
  order (schedpoint e) = i ->
  wlp (qcsched_window_prune_missed_schedpoint cpu) (fun _ w' => w' = w) w.
Proof.
  intros Hcpu Hr Hx Hf He Hc Hi Ht Hm Ho. unfold qcsched_window_prune_missed_schedpoint.
  apply wlp_bind, wlp_bind, wlp_get_cpu. intros c' Hc'. rewrite Hcpu in Hc'. injection Hc' as <-. apply wlp_ret. rewrite Hr.
  apply wlp_bind. eapply wlp_address_here; [done..|]. apply wlp_bind, wlp_get_window. intros y Hy. rewrite Hx in Hy. injection Hy as <-.
  rewrite Hf. apply wlp_bind, wlp_lookup_first; [unfold END_OF_SCHEDPOINT_WINDOW; lia|]. intros r Hfr.
  apply (first_from_here i e) in Hfr as ->; [|done|done|by simpl; rewrite Hc, Z.eqb_refl, Hm].
  apply wlp_bind. eapply wlp_entry_order; [done|]. apply wlp_bind, wlp_get_window. intros y Hy. rewrite Hx in Hy. injection Hy as <-.
  apply wlp_bind, wlp_ASSERT. intros _. rewrite Z.eqb_refl. by apply wlp_ret.
Qed.

(** All points of the schedule are numbered. *)
Definition numbered_all (w : machine) : Prop :=
  forall j e, j < total (sched w) -> aget (entries (sched w)) j = Some e -> order (schedpoint e) = j.

Lemma numbered_all_still w w' : still w w' -> numbered_all w -> numbered_all w'.
Proof.
  intros Hs Hn j e Hj He. destruct (still_get _ _ _ _ Hs He) as (e0 & He0 & Hv). rewrite (st_total _ _ Hs) in Hj.
  unfold point_view, entry_shape in Hv. injection Hv as Ho _ _ _. rewrite <- Ho. by apply Hn.
Qed.

(** The next point after [i] is there and belongs to another vCPU. *)
Definition next_is_foreign (w : machine) (i : Z) : Prop :=
  exists j e, first_from (sched w) (i + 1) (fun _ e => negb (entry_missed e)) (Some j) /\
    aget (entries (sched w)) j = Some e /\ e_cpu e <> cpu.

Lemma wlp_next_valid c i w (Q : Z -> machine -> Prop) :
  numbered_all w -> i < total (sched w) -> total (sched w) <= MAX_SCHEDPOINTS ->
  (forall r, first_from (sched w) (i + 1) (fun _ e => entry_on_cpu c e && negb (entry_missed e)) r ->
     Q (default (total (sched w)) r) w) ->
  wlp (next_valid_order_of c i) Q w.
Proof.
  intros Hn Hi Ht HQ. apply wlp_bind, wlp_lookup_first; [unfold END_OF_SCHEDPOINT_WINDOW; lia|]. intros r Hr.
  specialize (HQ r Hr). destruct r as [j|]; [|by apply wlp_sched_]. destruct Hr as (_ & Hj & e & He & _).
  eapply wlp_entry_order; [done|]. rewrite (Hn j e) by (done || lia). done.
Qed.

Lemma first_from_unique s start found r r' : first_from s start found r -> first_from s start found r' -> r = r'.
Proof.
  intros [Hno Hr] [Hno' Hr']. destruct r as [i|], r' as [j|]; [| | |done]; simpl in *.
  - destruct Hr as (Hi & e & He & Hf), Hr' as (Hj & e' & He' & Hf'). f_equal.
    destruct (Z.lt_trichotomy i j) as [Hl|[?|Hl]]; [|done|].
    + by rewrite (Hno' i e) in Hf by (done || lia).
    + by rewrite (Hno j e') in Hf' by (done || lia).
  - destruct Hr as (Hi & e & He & Hf). by rewrite (Hno' i e) in Hf by (done || lia).
  - destruct Hr' as (Hj & e' & He' & Hf'). by rewrite (Hno j e') in Hf' by (done || lia).
Qed.

Lemma wlp_consecutive i w (Q : bool -> machine -> Prop) :
  numbered_all w -> i < total (sched w) -> total (sched w) <= MAX_SCHEDPOINTS ->
  (forall b, (b = false <-> next_is_foreign w i) -> Q b w) ->
  wlp (qcsched_window_consecutive_schedpoint cpu i) Q w.
Proof.
  intros Hn Hi Ht HQ. apply wlp_bind, wlp_next_valid; [done..|]. intros r Hr. apply wlp_bind, wlp_sched_.
  destruct r as [j|]; cbn [default from_option id].
  2:{ rewrite Z.eqb_refl. apply wlp_ret, HQ. split; [done|]. intros (j & e & Hf & _).
      by pose proof (first_from_unique _ _ _ _ _ Hr Hf). }
  pose proof Hr as (_ & Hj & e & He & Hm). rewrite (proj2 (Z.eqb_neq _ _)) by lia. simpl in Hm.
  apply wlp_bind, wlp_lookup_first; [unfold END_OF_SCHEDPOINT_WINDOW; lia|]. intros r' Hr'.
  apply (first_from_here j e) in Hr' as ->; [|done|lia|done].
  apply wlp_bind, wlp_get_entry. intros e' He'. rewrite He in He'. injection He' as <-. apply wlp_ret, HQ.
  rewrite Z.eqb_neq. split; [intros Hne; by exists j, e|].
  intros (j' & e' & Hf & He' & Hc). pose proof (first_from_unique _ _ _ _ _ Hr Hf) as [= <-]. congruence.
Qed.

(** [w'] is [w] but for the focus, the windows and what is installed. *)
Definition focus_moved (w w' : machine) : Prop :=
  still (w <| sched ::= set current (fun _ => current (sched w')) |>) w'.

Lemma focus_moved_still w1 w2 w3 : still w1 w2 -> focus_moved w2 w3 -> focus_moved w1 w3.
Proof. intros [] []. split; simpl in *; congruence. Qed.

Lemma wlp_forward_focus st w :
  wlp (forward_focus cpu st) (fun _ w' => focus_moved w w' /\ current (sched w') = current (sched w) + st) w.
Proof.
  apply wlp_bind, wlp_sched_, wlp_bind, wlp_get_entry. intros e He. apply wlp_upd_sched.
  split; [|done]. by split.
Qed.

Lemma wlp_keep_going i w :
  numbered_points w -> beyond (i + 1) w -> i < total (sched w) ->
  wlp (qcsched_keep_this_cpu_going cpu) (fun _ w' => focus_moved w w' /\ i < current (sched w') <= total (sched w) /\
    (current (sched w') = total (sched w) \/
     exists e, aget (entries (sched w)) (current (sched w')) = Some e /\ e_cpu e = cpu)) w.
Proof.
  intros Hn (x & Hx & Hlo) Hi. apply wlp_bind, wlp_get_window. intros y Hy. rewrite Hx in Hy. injection Hy as <-.
  apply wlp_bind, wlp_lookup_own. intros [j|] Hr.
  - destruct Hr as (Hj & e & He & Hc). apply wlp_bind, wlp_bind. eapply wlp_entry_order; [done|]. apply wlp_bind, wlp_sched_, wlp_ret.
    eapply wlp_mono; [apply wlp_forward_focus|]. intros [] w' [Hm Hcur]. rewrite (Hn j e He Hc) in Hcur.
    assert (current (sched w') = j) as -> by lia. split; [done|]. split; [lia|]. right. eauto.
  - apply wlp_bind, wlp_bind, wlp_sched_, wlp_ret. eapply wlp_mono; [apply wlp_forward_focus|]. intros [] w' [Hm Hcur].
    simpl in Hcur. split; [done|]. split; [lia|]. left. lia.
Qed.

(** *** Giving up the turn *)

(** The first other vCPU whose breakpoints are activated. *)
Definition next_activated (w : machine) : option Z :=
  head (filter (fun c => c <> cpu /\ aget (cpu_state (sched w)) c = Some qcsched_cpu_activated) (cpu_list w)).

Lemma wlp_first_activated l w (Q : option Z -> machine -> Prop) :
  Q (head (filter (fun c => c <> cpu /\ aget (cpu_state (sched w)) c = Some qcsched_cpu_activated) l)) w ->
  wlp (first_activated cpu l) Q w.
Proof.
  induction l as [|c l IH]; intros HQ; cbn [first_activated]; [by apply wlp_ret|]. rewrite filter_cons in HQ.
  destruct (Z.eqb_spec c cpu) as [->|Hne]; simpl.
  - apply IH. rewrite decide_False in HQ by naive_solver. done.
  - apply wlp_bind, wlp_get_cpu_state. intros st Hst. case_bool_decide as Hb.
    + rewrite decide_True in HQ by (split; [done|congruence]). by apply wlp_ret.
    + apply IH. rewrite decide_False in HQ; [done|]. intros [_ Ha]. congruence.
Qed.

(** *** Contended locks *)

(** [c] holds or waits for the lock [l]. *)
Definition wants (w : machine) (c : Z) (l : qcsched_vmi_lock) : Prop :=
  exists li, aget (lock_info (vmi_info w)) c = Some li /\ l ∈ take (Z.to_nat (li_count li)) (acquired li).

(** Both want one lock, neither only tries it, and one of them exclusively. *)
Definition contend (w : machine) (c c' : Z) : Prop :=
  exists l l', wants w c l /\ wants w c' l' /\ lockdep_addr l = lockdep_addr l' /\
    trylock l = 0 /\ trylock l' = 0 /\ (read l = 0 \/ read l' = 0).

(** The vCPU of the first point after the focus that was not missed, or the
    next activated one after the last point. *)
Definition next_vcpu (w : machine) (c : Z) : Prop :=
  exists r, first_from (sched w) (current (sched w) + 1) (fun _ e => negb (entry_missed e)) r /\
    match r with
    | Some j => e_cpu <$> aget (entries (sched w)) j = Some c /\ c ∈ cpu_list w
    | None => next_activated w = Some c
    end.

(** The next vCPU could not go on: this one has a lock it wants. *)
Definition lock_contended (w : machine) : Prop :=
  aget (cpu_state (sched w)) cpu = Some qcsched_cpu_activated /\
  exists c, next_vcpu w c /\ c <> cpu /\ contend w cpu c.

Lemma lock_contending_spec l l' :
  lock_contending l l' = true <->
  lockdep_addr l = lockdep_addr l' /\ trylock l = 0 /\ trylock l' = 0 /\ (read l = 0 \/ read l' = 0).
Proof.
  unfold lock_contending.
  destruct (Z.eqb_spec (lockdep_addr l) (lockdep_addr l')), (Z.eqb_spec (trylock l) 0), (Z.eqb_spec (trylock l') 0),
    (Z.eqb_spec (read l) 0), (Z.eqb_spec (read l') 0); simpl; intuition congruence.
Qed.

Lemma lock_infos_contend w c c' li li' :
  aget (lock_info (vmi_info w)) c = Some li -> aget (lock_info (vmi_info w)) c' = Some li' ->
  vmi_lock_info_contending li li' = true <-> contend w c c'.
Proof.
  intros H H'. unfold vmi_lock_info_contending. rewrite existsb_exists. setoid_rewrite existsb_exists. split.
  - intros (l & Hl & l' & Hl' & (Ha & Ht & Ht' & Hr)%lock_contending_spec). exists l, l'.
    split; [exists li; by rewrite list_elem_of_In|]. split; [exists li'; by rewrite list_elem_of_In|]. done.
  - intros (l & l' & (? & H1 & Hl) & (? & H2 & Hl') & Hc). rewrite H in H1. rewrite H' in H2. simplify_eq.
    exists l. rewrite <- list_elem_of_In. split; [done|]. exists l'. rewrite <- list_elem_of_In.
    split; [done|]. by apply lock_contending_spec.
Qed.

(** The search for the next vCPU. *)
Lemma wlp_get_next_cpu w r (Q : option Z -> machine -> Prop) :
  first_from (sched w) (current (sched w) + 1) (fun _ e => negb (entry_missed e)) r ->
  (forall o, (forall c, o = Some c <-> next_vcpu w c) -> Q o w) ->
  wlp (get_next_cpu cpu r) Q w.
Proof.
  intros Hr HQ. destruct r as [j|]; cbn [get_next_cpu].
  - apply wlp_bind, wlp_get_entry. intros e He. apply wlp_bind, wlp_gets, wlp_ret, HQ. intros c.
    split.
    + case_decide; [|done]. intros [= <-]. exists (Some j). by rewrite He.
    + intros (r & Hr' & Hc). pose proof (first_from_unique _ _ _ _ _ Hr Hr') as <-. destruct Hc as [Hc Hl].
      rewrite He in Hc. injection Hc as <-. by rewrite decide_True.
  - apply wlp_bind, wlp_gets, wlp_first_activated, HQ. intros c. split; [intros Hc; by exists None|].
    intros (r & Hr' & Hc). by pose proof (first_from_unique _ _ _ _ _ Hr Hr') as <-.
Qed.

Lemma is_activated_state s c :
  at_least s qcsched_cpu_activated c = true -> at_least s qcsched_cpu_deactivated c = false ->
  aget (cpu_state s) c = Some qcsched_cpu_activated.
Proof. unfold at_least. destruct (aget (cpu_state s) c) as [[]|]; by vm_compute. Qed.

Lemma activated_at_least s c :
  aget (cpu_state s) c = Some qcsched_cpu_activated ->
  at_least s qcsched_cpu_activated c = true /\ at_least s qcsched_cpu_deactivated c = false.
Proof. unfold at_least. by intros ->. Qed.

Lemma wlp_lock_contending w (Q : bool -> machine -> Prop) :
  0 <= current (sched w) < MAX_SCHEDPOINTS ->
  (forall b, (b = true <-> lock_contended w) -> Q b w) ->
  wlp (qcsched_window_lock_contending cpu) Q w.
Proof.
  intros Hcur HQ. apply wlp_bind, wlp_sched_, wlp_bind, wlp_lookup_first; [unfold END_OF_SCHEDPOINT_WINDOW; lia|].
  intros r Hr. apply wlp_bind, wlp_check_cpu_state.
  destruct (at_least (sched w) qcsched_cpu_activated cpu) eqn:Ha; simpl.
  2:{ apply wlp_ret, HQ. split; [done|]. intros [[Ha' _]%activated_at_least _]. congruence. }
  apply wlp_bind, wlp_check_cpu_state. destruct (at_least (sched w) qcsched_cpu_deactivated cpu) eqn:Hd.
  { apply wlp_ret, HQ. split; [done|]. intros [[_ Hd']%activated_at_least _]. congruence. }
  pose proof (is_activated_state _ _ Ha Hd) as Hact.
  apply wlp_bind, (wlp_get_next_cpu w r); [done|]. intros o Ho. destruct o as [c|].
  2:{ apply wlp_ret, HQ. split; [done|]. intros (_ & c & Hc%Ho & _). done. }
  destruct (Z.eqb_spec c cpu) as [->|Hne].
  { apply wlp_ret, HQ. split; [done|]. intros (_ & c' & Hc%Ho & Hne & _). congruence. }
  unfold qcsched_vmi_lock_contending. rewrite (proj2 (Z.eqb_neq _ _)) by done.
  apply wlp_bind, wlp_get_lock_info. intros li Hli. apply wlp_bind, wlp_get_lock_info. intros li' Hli'.
  apply wlp_ret, HQ. rewrite (lock_infos_contend w cpu c li li') by done. split.
  - intros Hc. split; [done|]. exists c. split; [by apply Ho|done].
  - intros (_ & c' & Hc%Ho & _ & Hco). by injection Hc as <-.
Qed.

(** It depends on the tasks' locks, on who is activated and on which points
    were missed. *)
Lemma first_unmissed_view s s' start r :
  total s' = total s ->
  (forall j, (fun e => (e_cpu e, entry_missed e)) <$> aget (entries s') j = (fun e => (e_cpu e, entry_missed e)) <$> aget (entries s) j) ->
  first_from s start (fun _ e => negb (entry_missed e)) r -> first_from s' start (fun _ e => negb (entry_missed e)) r.
Proof.
  intros Ht Hv [Hno Hr].
  assert (Hsame : forall j e, aget (entries s') j = Some e -> exists e0, aget (entries s) j = Some e0 /\ entry_missed e0 = entry_missed e).
  { intros j e He. specialize (Hv j). rewrite He in Hv. symmetry in Hv. apply fmap_Some in Hv as (e0 & He0 & [= _ Hm]). eauto. }
  split.
  - intros j e Hj He. rewrite Ht in Hj. destruct (Hsame j e He) as (e0 & He0 & <-). by apply (Hno j).
  - destruct r as [j|]; [|done]. destruct Hr as (Hj & e & He & Hf). split; [lia|].
    pose proof (Hv j) as Hvj. rewrite He in Hvj. apply fmap_Some in Hvj as (e' & He' & [= _ Hm]). exists e'. by rewrite <- Hm.
Qed.

Lemma lock_contended_view w w' :
  total (sched w') = total (sched w) -> current (sched w') = current (sched w) -> cpu_state (sched w') = cpu_state (sched w) ->
  cpu_list w' = cpu_list w -> vmi_info w' = vmi_info w ->
  (forall j, (fun e => (e_cpu e, entry_missed e)) <$> aget (entries (sched w')) j =
             (fun e => (e_cpu e, entry_missed e)) <$> aget (entries (sched w)) j) ->
  lock_contended w -> lock_contended w'.
Proof.
  intros Ht Hc Hst Hl Hvmi Hv (Hact & c & (r & Hr & Hn) & Hne & Hco). split; [by rewrite Hst|].
  exists c. split; [|split; [done|unfold contend, wants in *; by rewrite Hvmi]]. exists r. rewrite Hc.
  split; [by eapply first_unmissed_view|]. destruct r as [j|].
  - rewrite Hl. destruct Hn as [Hn ?]. split; [|done]. pose proof (Hv j) as Hvj.
    apply fmap_Some in Hn as (e & He & ->). rewrite He in Hvj. apply fmap_Some in Hvj as (e' & He' & [= Hec _]).
    rewrite He'. simpl. congruence.
  - unfold next_activated. by rewrite Hst, Hl.
Qed.

Lemma wlp_hand_over i w :
  numbered_all w -> i < total (sched w) -> total (sched w) <= MAX_SCHEDPOINTS ->
  wlp (hand_over_baton_from cpu i) (fun _ w' => focus_moved w w' /\ exists r,
    first_from (sched w) (i + 1) (fun _ e => entry_on_cpu (next_activated w) e && negb (entry_missed e)) r /\
    current (sched w') = default (total (sched w)) r) w.
Proof.
  intros Hn Hi Ht. apply wlp_bind, wlp_bind, wlp_gets, wlp_first_activated, wlp_bind, wlp_next_valid; [done..|].
  intros r Hr. apply wlp_bind, wlp_sched_. eapply wlp_mono; [apply wlp_forward_focus|]. intros [] w' [Hm Hc].
  split; [done|]. exists r. split; [done|]. lia.
Qed.

Context (Hblk : config_trampoline = false).

Definition suspended (i : qcsched_exec_info) : qcsched_exec_info :=
  i <| blocker := mk_blocker true false |> <| timerid := timer_armed 1 |>.

Lemma wlp_kidnap info w :
  aget (infos w) cpu = Some info ->
  wlp (kidnap_task cpu) (fun _ w' => w' = w <| infos :=
    if (current (sched w) =? total (sched w)) || negb (activated (sched w)) then infos w else aset (infos w) cpu (suspended info) |>) w.
Proof.
  intros Hi. pose proof (aget_Some_range _ _ _ Hi) as Hr. apply wlp_bind. eapply wlp_task_kidnapped; [done..|].
  apply wlp_bind, wlp_reads; [apply reads_running_context|]. intros ok. apply wlp_bind, wlp_ASSERT. intros _.
  apply wlp_bind, wlp_sched_. cbn [id]. destruct (_ || _); [apply wlp_ret; by destruct w|].
  apply wlp_bind, wlp_ASSERT. intros _. rewrite Hblk. apply wlp_bind, wlp_upd_exec. intros i' Hi'. rewrite Hi in Hi'. injection Hi' as <-.
  apply wlp_bind, wlp_get_exec. intros i' _. apply wlp_bind, wlp_ASSERT. intros _. apply wlp_upd_exec. simpl.
  rewrite aget_aset_eq by done. intros i1 [= <-].
  rewrite <- (aset_aset_eq (infos w) cpu (info <| blocker := mk_blocker true false |>)). done.
Qed.

Definition woken (i : qcsched_exec_info) : qcsched_exec_info :=
  if blocked (blocker i) then i <| blocker ::= set waking_up (fun _ => true) |> else i.

Lemma woken_woken i : woken (woken i) = woken i.
Proof. unfold woken. destruct (blocked (blocker i)) eqn:E; simpl; by rewrite E. Qed.

Lemma wlp_wake_list l w :
  wlp (foreach l (fun c => kidnapped ← task_kidnapped c;
         if negb kidnapped || (c =? cpu) then mret tt else wake_cpu_up cpu c))
    (fun _ w' => exists ins, w' = w <| infos := ins |> /\ forall c, aget ins c =
       if decide (c ∈ l /\ c <> cpu) then woken <$> aget (infos w) c else aget (infos w) c) w.
Proof.
  revert w. induction l as [|c l IH]; intros w; cbn [foreach].
  { apply wlp_ret. exists (infos w). split; [by destruct w|]. intros c. rewrite decide_False; [done|]. by intros [[]%not_elem_of_nil _]. }
  apply wlp_bind. apply (wlp_mono _ (fun _ w' => exists ins, w' = w <| infos := ins |> /\
    forall c', aget ins c' = if decide (c' = c /\ c <> cpu) then woken <$> aget (infos w) c' else aget (infos w) c')).
  - unfold task_kidnapped, wake_cpu_up. rewrite Hblk. apply wlp_bind, wlp_bind, wlp_get_exec. intros i Hi. apply wlp_ret.
    destruct (blocked (blocker i)) eqn:Hb; simpl; [destruct (Z.eqb_spec c cpu) as [->|Hne]|].
    + apply wlp_ret. exists (infos w). split; [by destruct w|]. intros c'. rewrite decide_False; [done|]. naive_solver.
    + apply wlp_upd_exec. intros i' Hi'. rewrite Hi in Hi'. injection Hi' as <-. eexists. split; [done|]. intros c'. rewrite aget_aset.
      pose proof (aget_Some_range _ _ _ Hi). destruct (decide (c' = c)) as [->|Hcc].
      * rewrite !decide_True by done. rewrite Hi. simpl. unfold woken. by rewrite Hb.
      * rewrite !decide_False by naive_solver. done.
    + apply wlp_ret. exists (infos w). split; [by destruct w|]. intros c'. case_decide as Hd; [|done]. destruct Hd as [-> _].
      rewrite Hi. simpl. unfold woken. by rewrite Hb.
  - intros [] w1 (is1 & -> & H1). eapply wlp_mono; [apply IH|]. intros [] w2 (is2 & -> & H2). exists is2. split; [done|].
    intros c'. rewrite H2. simpl. rewrite H1. destruct (decide (c' ∈ l /\ c' <> cpu)) as [Hd|Hd].
    + rewrite (decide_True (P := c' ∈ c :: l /\ _)) by (split; [by right; apply Hd|apply Hd]).
      destruct (decide (c' = c /\ c <> cpu)); [|done]. destruct (aget (infos w) c'); [|done]. simpl. by rewrite woken_woken.
    + destruct (decide (c' = c /\ c <> cpu)) as [Hd1|Hd1], (decide (c' ∈ c :: l /\ c' <> cpu)) as [Hd2|Hd2]; try done;
        exfalso; rewrite elem_of_cons in Hd2; naive_solver.
Qed.

(** The result of giving up the turn after point [i]. *)
Definition gave_up (i : Z) (w w' : machine) : Prop :=
  (exists r, first_from (sched w) (i + 1) (fun _ e => entry_on_cpu (next_activated w) e && negb (entry_missed e)) r /\
     current (sched w') = default (total (sched w)) r) /\
  (current (sched w') <> total (sched w) -> activated (sched w) = true ->
     aget (infos w') cpu = suspended <$> aget (infos w) cpu) /\
  (forall c, c ∈ cpu_list w -> c <> cpu -> aget (infos w') c = woken <$> aget (infos w) c).

Lemma wlp_yield i info w :
  numbered_all w -> i < total (sched w) -> total (sched w) <= MAX_SCHEDPOINTS -> aget (infos w) cpu = Some info ->
  wlp (qcsched_yield_turn_from cpu i) (fun _ w' => gave_up i w w' /\
    (forall j, point_view <$> aget (entries (sched w')) j = point_view <$> aget (entries (sched w)) j)) w.
Proof.
  intros Hn Hi Ht Hinfo. apply wlp_bind. eapply wlp_mono; [by apply wlp_hand_over|]. intros [] w1 (Hm & r & Hr & Hc).
  pose proof (st_infos _ _ Hm) as Hi1. pose proof (st_total _ _ Hm) as Ht1. pose proof (st_activated _ _ Hm) as Ha1.
  pose proof (st_list _ _ Hm) as Hl1. pose proof (st_points _ _ Hm) as Hp1. simpl in *.
  apply wlp_bind. eapply wlp_mono; [apply (wlp_kidnap info); by rewrite Hi1|]. intros [] w2 ->.
  apply wlp_bind, wlp_gets. eapply wlp_mono; [apply wlp_wake_list|]. intros [] w3 (ins & -> & Hins). simpl in *.
  split; [|done]. split; [|split].
  - by exists r.
  - intros Hne Hact. simpl. rewrite Hins, decide_False by naive_solver. simpl in Hne.
    rewrite (proj2 (Z.eqb_neq _ _)), Ha1, Hact by (by rewrite Ht1). simpl.
    rewrite aget_aset_eq by (rewrite Hi1; by eapply aget_Some_range). by rewrite Hinfo.
  - intros c Hcl Hne. rewrite Hins, decide_True by (by rewrite Hl1). simpl. destruct (_ || _); [by rewrite Hi1|].
    by rewrite aget_aset_ne, Hi1.
Qed.

(** *** The handler *)

(** Searches beyond [start] depend only on what they look at there. *)
Lemma first_from_view s s' start c r :
  total s' = total s ->
  (forall j, start <= j -> point_view <$> aget (entries s') j = point_view <$> aget (entries s) j) ->
  first_from s' start (fun _ e => entry_on_cpu c e && negb (entry_missed e)) r ->
  first_from s start (fun _ e => entry_on_cpu c e && negb (entry_missed e)) r.
Proof.
  intros Ht Hv [Hno Hr]. assert (Hsame : forall j e, start <= j -> aget (entries s) j = Some e -> exists e',
    aget (entries s') j = Some e' /\ entry_on_cpu c e' = entry_on_cpu c e /\ entry_missed e' = entry_missed e).
  { intros j e Hj He. specialize (Hv j Hj). rewrite He in Hv. apply fmap_Some in Hv as (e' & He' & Heq).
    unfold point_view, entry_shape in Heq. injection Heq as _ Hc _ Hf. exists e'. split; [done|].
    unfold entry_on_cpu, entry_missed. by rewrite Hc, Hf. }
  split.
  - intros j e Hj He. rewrite <- Ht in Hj. destruct (Hsame j e ltac:(lia) He) as (e' & He' & <- & <-). by apply (Hno j).
  - destruct r as [j|]; [|done]. destruct Hr as (Hj & e' & He' & Hf). split; [lia|].
    pose proof (Hv j ltac:(lia)) as Hvj. rewrite He' in Hvj. symmetry in Hvj. apply fmap_Some in Hvj as (e & He & _).
    exists e. split; [done|]. destruct (Hsame j e ltac:(lia) He) as (e'' & He'' & <- & <-). by rewrite He' in He''; injection He'' as <-.
Qed.

Definition hit_point (e : qcsched_entry) : qcsched_entry := e <| schedpoint ::= set footprint (fun _ => footprint_hit) |>.

(** The points after the handler: the one that was hit is marked. *)
Definition only_hit (i : Z) (e : qcsched_entry) (w w' : machine) : Prop :=
  forall j, point_view <$> aget (entries (sched w')) j =
    if decide (j = i) then Some (point_view (hit_point e)) else point_view <$> aget (entries (sched w)) j.

(** The vCPU goes on: nobody's task is touched, and the focus is on a later
    point of its own or at the end. *)
Definition went_on (w w' : machine) : Prop :=
  infos w' = infos w /\ (current (sched w') = total (sched w) \/
    exists e, aget (entries (sched w)) (current (sched w')) = Some e /\ e_cpu e = cpu).

(** The vCPU goes on exactly when the next one could not, or the next point is
    its own or there is none. *)
Definition turn_passed (i : Z) (w w' : machine) : Prop :=
  ((lock_contended w \/ ~ next_is_foreign w i) /\ went_on w w') \/
  (~ lock_contended w /\ next_is_foreign w i /\ gave_up i w w').

Record at_first_point (w : machine) (i : Z) (e : qcsched_entry) (info : qcsched_exec_info) : Prop := {
  af_range : 0 <= i < total (sched w);
  af_entry : aget (entries (sched w)) i = Some e;
  af_cpu : e_cpu e = cpu;
  af_pending : footprint (schedpoint e) = footprint_preserved;
  af_window : exists x, aget (schedpoint_window (sched w)) cpu = Some x /\ w_from x = i /\ w_cpu x = cpu /\ w_activated x <> 0;
  af_rip : exists c, cpus w !! cpu = Some c /\ rip (regs c) = addr (schedpoint e);
  af_info : aget (infos w) cpu = Some info /\ blocked (blocker info) = false
}.

Definition same_views (w w' : machine) : Prop :=
  forall j, point_view <$> aget (entries (sched w')) j = point_view <$> aget (entries (sched w)) j.

Lemma next_is_foreign_view w w' i :
  total (sched w') = total (sched w) ->
  (forall j, i + 1 <= j -> point_view <$> aget (entries (sched w')) j = point_view <$> aget (entries (sched w)) j) ->
  next_is_foreign w' i -> next_is_foreign w i.
Proof.
  intros Ht Hv (j & e' & Hf & He' & Hc). exists j. pose proof Hf as (_ & Hj & _).
  pose proof (Hv j ltac:(lia)) as Hvj. rewrite He' in Hvj. symmetry in Hvj. apply fmap_Some in Hvj as (e & He & Heq).
  exists e. split; [|split; [done|]].
  - by apply (first_from_view (sched w) (sched w') (i + 1) None).
  - unfold point_view, entry_shape in Heq. injection Heq as _ Hc' _ _. congruence.
Qed.

Lemma gave_up_view w w1 w' i :
  total (sched w1) = total (sched w) -> activated (sched w1) = activated (sched w) -> cpu_state (sched w1) = cpu_state (sched w) ->
  infos w1 = infos w -> cpu_list w1 = cpu_list w ->
  (forall j, i + 1 <= j -> point_view <$> aget (entries (sched w1)) j = point_view <$> aget (entries (sched w)) j) ->
  gave_up i w1 w' -> gave_up i w w'.
Proof.
  intros Ht Ha Hst Hi Hl Hv ((r & Hr & Hc) & Hsus & Hwak).
  assert (Hnext : next_activated w1 = next_activated w) by (unfold next_activated; by rewrite Hst, Hl).
  rewrite Hnext in Hr. split; [|split].
  - exists r. split; [|by rewrite <- Ht]. by eapply first_from_view.
  - by rewrite <- Ht, <- Ha, <- Hi.
  - intros c Hcl. rewrite <- Hi. apply Hwak. by rewrite Hl.
Qed.

Lemma point_view_turn (e e' : qcsched_entry) :
  point_view e' = point_view e -> (e_cpu e', entry_missed e') = (e_cpu e, entry_missed e).
Proof. unfold point_view, entry_shape, entry_missed. intros [= _ -> _ ->]. done. Qed.

Lemma turn_views w w' :
  same_views w w' -> forall j, (fun e => (e_cpu e, entry_missed e)) <$> aget (entries (sched w')) j =
             (fun e => (e_cpu e, entry_missed e)) <$> aget (entries (sched w)) j.
Proof.
  intros Hv j. specialize (Hv j). destruct (aget (entries (sched w')) j) as [e'|], (aget (entries (sched w)) j) as [e|];
    simpl in *; try done. f_equal. apply point_view_turn. congruence.
Qed.

Lemma still_sym w w' : still w w' -> still w' w.
Proof. intros []. by split. Qed.

Lemma still_lock_contended w w' : still w w' -> lock_contended w -> lock_contended w'.
Proof. intros []. apply lock_contended_view; try done. by apply turn_views. Qed.

Lemma still_keeps w w' i :
  still w w' -> lock_contended w' \/ ~ next_is_foreign w' i -> lock_contended w \/ ~ next_is_foreign w i.
Proof.
  intros Hs [Hl|Hf]; [left; eapply still_lock_contended; [by apply still_sym|done]|right].
  intros Hf'. apply Hf. eapply next_is_foreign_view; [| |exact Hf']; [symmetry; apply Hs|].
  intros j _. symmetry. apply (st_points _ _ Hs).
Qed.

(** The rest of the handler, after the footprint is left. *)
Definition after_hit (i : Z) : M unit :=
  qcsched_window_shrink_window cpu ;;
  contending ← qcsched_window_lock_contending cpu;
  keep ← (if (contending : bool) then mret true else qcsched_window_consecutive_schedpoint cpu i);
  if (keep : bool) then
    qcsched_window_expand_window cpu ;;
    qcsched_keep_this_cpu_going cpu
  else qcsched_yield_turn_from cpu i.

Lemma wlp_after_hit w i e x info :
  current_cpu w = cpu -> cpu ∈ cpu_list w -> total (sched w) <= MAX_SCHEDPOINTS -> numbered_points w -> numbered_all w ->
  aget (schedpoint_window (sched w)) cpu = Some x -> w_from x = i -> w_cpu x = cpu -> w_activated x <> 0 ->
  aget (entries (sched w)) i = Some e -> e_cpu e = cpu -> i < total (sched w) -> entry_missed e = false ->
  aget (infos w) cpu = Some info ->
  0 <= current (sched w) < MAX_SCHEDPOINTS ->
  wlp (after_hit i) (fun _ w' => same_views w w' /\ i < current (sched w') <= total (sched w) /\
    turn_passed i w w') w.
Proof.
  intros Hs Hin Ht Hn Hna Hx Hfrom Hwc Ha He Hc Hi Hm Hinfo Hcurr.
  apply wlp_bind. eapply wlp_mono; [by eapply wlp_shrink_window|]. intros [] w1 [Hst Hb].
  pose proof (st_total _ _ Hst) as Ht1. pose proof (st_points _ _ Hst) as Hv1.
  apply wlp_bind, wlp_lock_contending; [by rewrite (st_current _ _ Hst)|]. intros contending Hcont.
  apply wlp_bind. apply (wlp_mono _ (fun b w' => w' = w1 /\ if b : bool then lock_contended w1 \/ ~ next_is_foreign w1 i
    else ~ lock_contended w1 /\ next_is_foreign w1 i)).
  { destruct contending; [apply wlp_ret; split; [done|left; by apply Hcont]|].
    apply wlp_consecutive; [by eapply numbered_all_still|lia..|]. intros b Hb'. split; [done|]. destruct b.
    - right. intros Hf%Hb'. done.
    - split; [intros Hl%Hcont; done|by apply Hb']. }
  intros keep w2 [-> Hkeep]. destruct keep.
  - apply wlp_bind. eapply wlp_mono; [apply (wlp_expand (i + 1)); [by rewrite (st_self _ _ Hst)|by eapply numbered_still|lia|done]|].
    intros [] w2 [Hst2 Hb2]. pose proof (still_trans _ _ _ Hst Hst2) as Hst02. pose proof (st_total _ _ Hst02) as Ht2.
    eapply wlp_mono; [apply (wlp_keep_going i); [by eapply numbered_still|done|lia]|].
    intros [] w3 (Hm3 & Hcur & Hown). pose proof (focus_moved_still _ _ _ Hst02 Hm3) as Hm03.
    split; [intros j; apply (st_points _ _ Hm03)|]. split; [lia|]. left.
    split; [exact (still_keeps _ _ i Hst Hkeep)|]. split; [apply (st_infos _ _ Hm03)|].
    destruct Hown as [->|(e' & He' & Hc')]; [by left|right]. destruct (still_get _ _ _ _ Hst02 He') as (e0 & He0 & Hv).
    exists e0. split; [done|]. unfold point_view, entry_shape in Hv. injection Hv as _ Hcc _ _. congruence.
  - eapply wlp_mono; [eapply (wlp_yield i info); [by eapply numbered_all_still|lia|lia|by rewrite (st_infos _ _ Hst)]|].
    intros [] w3 [Hg Hv3]. split; [intros j; by rewrite Hv3, Hv1|].
    assert (i < current (sched w3) <= total (sched w)).
    { destruct Hg as ((r & Hr & ->) & _). destruct r as [j|]; simpl; [destruct Hr as (_ & ? & _)|]; lia. }
    split; [done|]. right. destruct Hkeep as [Hnl Hnf]. split; [|split].
    + intros Hl. apply Hnl. by eapply still_lock_contended.
    + eapply next_is_foreign_view; [exact Ht1|intros j _; apply Hv1|done].
    + eapply gave_up_view; [exact Ht1|apply Hst..|intros j _; apply Hv1|done].
Qed.

(** The machine after point [i] is marked. *)
Definition marked (i : Z) (e : qcsched_entry) (w : machine) : machine :=
  w <| sched ::= set entries (fun l => aset l i (hit_point e)) |>.

Lemma marked_views i e w :
  aget (entries (sched w)) i = Some e -> only_hit i e w (marked i e w).
Proof.
  intros He j. pose proof (aget_Some_range _ _ _ He). simpl. rewrite aget_aset.
  destruct (decide (j = i)) as [->|Hne]; [by rewrite decide_True|]. rewrite decide_False by naive_solver. done.
Qed.

Lemma marked_shape i e w j e' :
  aget (entries (sched w)) i = Some e -> aget (entries (sched (marked i e w))) j = Some e' ->
  exists e0, aget (entries (sched w)) j = Some e0 /\ entry_shape e0 = entry_shape e'.
Proof.
  intros He He'. pose proof (marked_views i e w He j) as Hv. rewrite He' in Hv. destruct (decide (j = i)) as [->|].
  - exists e. split; [done|]. apply (inj Some), (f_equal fst) in Hv. by symmetry.
  - symmetry in Hv. apply fmap_Some in Hv as (e0 & He0 & Heq). exists e0. split; [done|]. by apply (f_equal fst) in Heq.
Qed.

(** What happens after the mark, seen from before it. *)
Lemma after_mark w w' i e :
  aget (entries (sched w)) i = Some e -> footprint (schedpoint e) = footprint_preserved ->
  same_views (marked i e w) w' /\ i < current (sched w') <= total (sched w) /\
    turn_passed i (marked i e w) w' ->
  only_hit i e w w' /\ i < current (sched w') <= total (sched w) /\ turn_passed i w w'.
Proof.
  intros He Hf (Hsame & Hcur & Hout). pose proof (marked_views i e w He) as Hv.
  split; [intros j; rewrite Hsame; apply Hv|]. split; [done|].
  assert (Hv' : forall j, i + 1 <= j -> point_view <$> aget (entries (sched (marked i e w))) j = point_view <$> aget (entries (sched w)) j).
  { intros j Hj. rewrite Hv. by rewrite decide_False by lia. }
  assert (Hl : lock_contended w <-> lock_contended (marked i e w)).
  { assert (Hmv : forall j, (fun e => (e_cpu e, entry_missed e)) <$> aget (entries (sched (marked i e w))) j =
      (fun e => (e_cpu e, entry_missed e)) <$> aget (entries (sched w)) j).
    { intros j. simpl. rewrite aget_aset. case_decide as Hd; [|done]. destruct Hd as [<- _]. rewrite He. simpl.
      unfold entry_missed. by rewrite Hf. }
    split; apply lock_contended_view; try done. }
  assert (Hfor : next_is_foreign w i <-> next_is_foreign (marked i e w) i).
  { split; apply next_is_foreign_view; try done. intros j Hj. symmetry. by apply Hv'. }
  unfold turn_passed. rewrite Hl, Hfor.
  destruct Hout as [[Hk [Hin Hown]]|(Hnl & Hnf & Hg)]; [left|right].
  - split; [done|]. split; [done|]. destruct Hown as [|(e' & He' & Hc')]; [by left|right].
    destruct (marked_shape _ _ _ _ _ He He') as (e0 & He0 & Heq). exists e0. split; [done|].
    unfold entry_shape in Heq. injection Heq as _ ? _. congruence.
  - split; [done|]. split; [done|]. by apply (gave_up_view w (marked i e w)).
Qed.

Lemma wlp_marked_after_hit w i e info :
  current_cpu w = cpu -> cpu ∈ cpu_list w -> total (sched w) <= MAX_SCHEDPOINTS -> numbered_points w -> numbered_all w ->
  0 <= current (sched w) < MAX_SCHEDPOINTS ->
  at_first_point w i e info ->
  wlp (after_hit i) (fun _ w' => only_hit i e w w' /\ i < current (sched w') <= total (sched w) /\
    turn_passed i w w') (marked i e w).
Proof.
  intros Hs Hin Ht Hn Hna Hcurr [Hr He Hc Hf (x & Hx & Hfrom & Hwc & Ha) _ [Hinfo Hb]].
  eapply wlp_mono; [eapply (wlp_after_hit (marked i e w) i (hit_point e) x info); try done|].
  - intros j e' He' Hc'. destruct (marked_shape _ _ _ _ _ He He') as (e0 & He0 & Heq). unfold entry_shape in Heq.
    injection Heq as Ho' Hc0 _. rewrite <- Ho'. apply (Hn j e0 He0). congruence.
  - intros j e' Hj He'. destruct (marked_shape _ _ _ _ _ He He') as (e0 & He0 & Heq). unfold entry_shape in Heq.
    injection Heq as Ho' _ _. rewrite <- Ho'. by apply (Hna j e0).
  - simpl. apply aget_aset_eq. by eapply aget_Some_range.
  - simpl. lia.
  - intros [] w' Hafter. by apply after_mark.
Qed.

Lemma wlp_handle_schedpoint w i e info :
  current_cpu w = cpu -> cpu ∈ cpu_list w -> total (sched w) <= MAX_SCHEDPOINTS -> numbered_points w -> numbered_all w ->
  0 <= current (sched w) < MAX_SCHEDPOINTS ->
  at_first_point w i e info ->
  wlp (handle_breakpoint_schedpoint cpu) (fun _ w' => only_hit i e w w' /\ i < current (sched w') <= total (sched w) /\
    turn_passed i w w') w.
Proof.
  intros Hs Hin Ht Hn Hna Hcurr Hat. pose proof Hat as [Hr He Hc Hf (x & Hx & Hfrom & Hwc & Ha) (c & Hcpu & Hrip) [Hinfo Hb]].
  pose proof (Hn i e He Hc) as Ho.
  assert (Hmiss : entry_missed e = false) by (unfold entry_missed; by rewrite Hf).
  assert (HRIP : forall Q : Z -> machine -> Prop, Q (addr (schedpoint e)) w -> wlp (RIP cpu) Q w).
  { intros Q HQ. apply wlp_bind, wlp_get_cpu. intros c' Hc'. rewrite Hcpu in Hc'. injection Hc' as <-. apply wlp_ret. by rewrite Hrip. }
  apply wlp_bind. eapply wlp_task_kidnapped; [done..|]. rewrite Hb.
  apply wlp_bind, wlp_bind, HRIP, wlp_bind. eapply wlp_address_here; [done..|lia|done|].
  apply wlp_bind. eapply wlp_entry_order; [done|]. apply wlp_bind, wlp_get_window. intros y Hy. rewrite Hx in Hy. injection Hy as <-.
  apply wlp_ret. rewrite Ho, Hfrom, Z.ltb_irrefl.
  apply wlp_bind, HRIP, wlp_bind. eapply wlp_address_here; [done..|lia|done|]. apply wlp_bind, wlp_ret, wlp_bind.
  eapply wlp_entry_order; [done|]. rewrite Ho. apply wlp_bind. eapply wlp_mono; [eapply wlp_prune_here; [done..|lia|done|done|done]|].
  intros [] w0 ->. apply wlp_bind, wlp_bind, wlp_get_window. intros y Hy. rewrite Hx in Hy. injection Hy as <-. rewrite Hfrom.
  eapply wlp_mono; [eapply wlp_leave_footprint_at; [done..|lia]|]. intros [] w1 Hw1.
  assert (w1 = marked i e w) as -> by (rewrite Hw1; by destruct (_ =? QCSCHED_DUMMY_BREAKPOINT)). clear Hw1.
  by eapply wlp_marked_after_hit.
Qed.
End Turn.

(** ** Properties *)

(** The vCPU stops at the first point of its window, which is pending and
    installed, its task is not suspended, and every point of the schedule
    belongs to a worker. *)
Record stops_in_turn `{P : Platform} (cpu : Z) (w : machine) (i : Z) (e : qcsched_entry) (info : qcsched_exec_info) : Prop := {
  sp_entry : aget (entries (sched w)) i = Some e;
  sp_range : 0 <= i < total (sched w);
  sp_cpu : e_cpu e = cpu;
  sp_pending : footprint (schedpoint e) = footprint_preserved;
  sp_installed : installed (breakpoint e) = true;
  sp_from : w_from <$> aget (schedpoint_window (sched w)) cpu = Some i;
  sp_rip : (fun c => rip (regs c)) <$> cpus w !! cpu = Some (addr (schedpoint e));
  sp_info : aget (infos w) cpu = Some info;
  sp_running : blocked (blocker info) = false;
  sp_workers : forall j e', j < total (sched w) -> aget (entries (sched w)) j = Some e' -> e_cpu e' <> 0
}.


(** On the machine of [flat_running_machine] vCPU 1 stops at point 0 while the
    task of vCPU 2 is suspended: the focus moves to point 1, the task of vCPU 1
    is suspended and that of vCPU 2 is told to wake up. *)
Definition ready_info : qcsched_exec_info := mk_exec_info zero_trampoline (mk_blocker false false) false timer_disarmed.

Definition in_turn_machine : machine (P := flat_platform) :=
  flat_running_machine <| iothread_locked := true |> <| infos ::= fun l => aset l 1 ready_info |>.

Lemma in_turn_inside : inside [0; 1; 2] 1 in_turn_machine.
Proof. destruct flat_running_inside as [[] ? ?]. split; [split|..]; done. Qed.

Lemma in_turn_accounted : accounted [0; 1; 2] in_turn_machine.
Proof. by apply (acc_same [0; 1; 2] flat_running_machine); [..|apply flat_running_accounted]. Qed.

Lemma in_turn_workers j e' :
  j < total (sched in_turn_machine) -> aget (entries (sched in_turn_machine)) j = Some e' -> e_cpu e' <> 0.
Proof.
  change (total (sched in_turn_machine)) with 2. intros Hj He'. pose proof (aget_Some_range _ _ _ He').
  assert (j = 0 \/ j = 1) as [->| ->] by lia.
  - change (Some (flat_point 4096 0 1 true) = Some e') in He'. by injection He' as <-.
  - change (Some (flat_point 8192 1 2 false) = Some e') in He'. by injection He' as <-.
Qed.

Lemma in_turn_stops : stops_in_turn 1 in_turn_machine 0 (flat_point 4096 0 1 true) ready_info.
Proof. split; try reflexivity; [split; reflexivity || done|apply in_turn_workers]. Qed.

