(* ===== verification/Encoding.v ===== *)
(** * The text of a program (prog/encoding.go, pkg/interleaving/ssb.go)

    A program is kept in the corpus as text.  To syzkaller's format, one call
    per line, the fuzzer adds the thread and the epoch at the end of a call's
    line, a comment line per scheduling point and one for the flush vector.
    The file models the writing and the parsing of these additions.  The name,
    arguments and properties of a call are not modelled.

    Text is a list of ASCII bytes.  The parser's position in the current line
    is the rest of the line. *)

From stdpp Require Import base list gmap sets strings.
From Stdlib Require Import ZArith Lia.
From S2P Require Import Prelude Accesses Comms Hints Threading.

Local Open Scope Z_scope.
Local Open Scope record_scope.

(** The bytes of a literal. *)
Fixpoint lit (s : string) : list Z :=
  match s with
  | EmptyString => []
  | String c s => Z.of_N (Ascii.N_of_ascii c) :: lit s
  end.

(** ** Numbers: package fmt and strconv *)

(** The digits of [k] in base 10 or 16, most significant first. *)
Fixpoint digits (base : Z) (fuel : nat) (k : Z) : list Z :=
  match fuel with
  | O => []
  | S fuel => if k <? base then [hex_digit k]
              else digits base fuel (k / base) ++ [hex_digit (k `mod` base)]
  end.

(** [0x%x] and [%d] of a number of at most 64 bits, the sign after the [0x]. *)
Definition fmt_num (base : Z) (fuel : nat) (k : Z) : list Z :=
  if k <? 0 then lit "-" ++ digits base fuel (- k) else digits base fuel k.
Definition fmt_0x (k : Z) : list Z := lit "0x" ++ fmt_num 16 16 k.
Definition fmt_d (k : Z) : list Z := fmt_num 10 20 k.

Definition lower (c : Z) : Z := Z.lor c 32.

Definition digit_value (c : Z) : option Z :=
  if (48 <=? c) && (c <=? 57) then Some (c - 48)
  else if (97 <=? lower c) && (lower c <=? 122) then Some (lower c - 97 + 10)
  else None.

(** The loop of [strconv.ParseUint(s, 0, 64)]; underscores are skipped.
    [None] is an error, of syntax or of range. *)
Fixpoint parse_base (base n : Z) (s : list Z) : option Z :=
  match s with
  | [] => Some n
  | c :: s =>
      if c =? 95 then parse_base base n s
      else
        d ← digit_value c;
        if base <=? d then None
        else if 2 ^ 64 <=? n * base + d then None
        else parse_base base (n * base + d) s
  end.

(** [underscoreOK]: an underscore stands between digits, the base prefix
    counting as one. *)
Inductive char_kind := seen_begin | seen_digit | seen_underscore | seen_other.

Fixpoint underscore_loop (hex : bool) (i : char_kind) (s : list Z) : bool :=
  match s with
  | [] => match i with seen_underscore => false | _ => true end
  | c :: s =>
      if ((48 <=? c) && (c <=? 57)) || (hex && (97 <=? lower c) && (lower c <=? 102))
      then underscore_loop hex seen_digit s
      else if c =? 95 then
        match i with seen_digit => underscore_loop hex seen_underscore s | _ => false end
      else match i with seen_underscore => false | _ => underscore_loop hex seen_other s end
  end.

Definition underscoreOK (s : list Z) : bool :=
  let s := match s with c :: s' => if (c =? 45) || (c =? 43) then s' else s | [] => s end in
  match s with
  | c0 :: c :: s' =>
      if (c0 =? 48) && bool_decide (lower c ∈ [98; 111; 120])
      then underscore_loop (lower c =? 120) seen_digit s'
      else underscore_loop false seen_begin s
  | _ => underscore_loop false seen_begin s
  end.

(** [strconv.ParseUint(s, 0, 64)]: the base is that of the prefix. *)
Definition ParseUint (s : list Z) : option Z :=
  v ← match s with
      | [] => None
      | c0 :: s0 =>
          if negb (c0 =? 48) then parse_base 10 0 s
          else match s0 with
          | c :: d :: s' =>
              if lower c =? 98 then parse_base 2 0 (d :: s')
              else if lower c =? 111 then parse_base 8 0 (d :: s')
              else if lower c =? 120 then parse_base 16 0 (d :: s')
              else parse_base 8 0 s0
          | _ => parse_base 8 0 s0
          end
      end;
  if bool_decide (95 ∈ s) && negb (underscoreOK s) then None else Some v.

(** ** Text: packages strings, bytes and regexp *)

Definition HasPrefix (s prefix : list Z) : bool := bool_decide (take (length prefix) s = prefix).

Fixpoint TrimLeft (s : list Z) : list Z :=
  match s with
  | c :: s' => if isspace c then TrimLeft s' else s
  | [] => []
  end.
Definition TrimSpace (s : list Z) : list Z := rev (TrimLeft (rev (TrimLeft s))).

(** [strings.Split(s, ", ")]. *)
Fixpoint separate_loop (word s : list Z) : list (list Z) :=
  match s with
  | [] => [word]
  | c :: s' =>
      match s' with
      | d :: s'' => if (c =? 44) && (d =? 32) then word :: separate_loop [] s''
                    else separate_loop (word ++ [c]) s'
      | [] => separate_loop (word ++ [c]) s'
      end
  end.
Definition Split (s : list Z) : list (list Z) := separate_loop [] s.

(** [re.FindAll] for an expression [op cls* cl], with neither bracket in the
    class: [m] is the match in progress. *)
Fixpoint find_loop (op cl : Z) (cls : Z -> bool) (m : option (list Z)) (s : list Z) : list (list Z) :=
  match s with
  | [] => []
  | c :: s =>
      if c =? op then find_loop op cl cls (Some [op]) s
      else match m with
      | None => find_loop op cl cls None s
      | Some w =>
          if c =? cl then (w ++ [cl]) :: find_loop op cl cls None s
          else if cls c then find_loop op cl cls (Some (w ++ [c])) s
          else find_loop op cl cls None s
      end
  end.
Definition FindAll (op cl : Z) (cls : Z -> bool) (s : list Z) : list (list Z) :=
  find_loop op cl cls None s.

(** The classes [[0-9a-fx\s]] and [[0-9a-fx{}\s]]. *)
Definition entry_class (c : Z) : bool :=
  ((48 <=? c) && (c <=? 57)) || ((97 <=? c) && (c <=? 102)) || (c =? 120) ||
  bool_decide (c ∈ [9; 10; 12; 13; 32]).
Definition array_class (c : Z) : bool := entry_class c || (c =? 123) || (c =? 125).

(** [s[1 : len(s)-1]]. *)
Definition unbracket (s : list Z) : list Z := removelast (tail s).

(** ** Writing *)

(** The end of a call's line. *)
Definition serialize_concurrency (c : Call) : list Z :=
  lit " <" ++ fmt_0x (Call_Thread c) ++ lit ", " ++ fmt_0x (Call_Epoch c) ++ lit ">" ++ [newline].

Definition serialize_point (p : Prog) (pnt : Point) : list Z :=
  lit "#-- " ++ fmt_0x (CallIndex (call pnt) p) ++ lit ", " ++ fmt_0x (addr pnt) ++ lit ", " ++
  fmt_0x (order pnt) ++ [newline].
Definition serialize_schedule (p : Prog) : list Z := points (Prog_Schedule p) ≫= serialize_point p.

(** Words with a blank between two of them. *)
Fixpoint joined (ws : list (list Z)) : list Z :=
  match ws with
  | [] => []
  | [w] => w
  | w :: ws => w ++ lit " " ++ joined ws
  end.

Definition tableEntry_String (e : tableEntry) : list Z :=
  lit "{" ++ fmt_0x (inst e) ++ lit " " ++ fmt_d (value e) ++ lit "}".

Definition FlushVector_String (vec : FlushVector) : list Z :=
  lit "{" ++ (lit "[" ++ joined (tableEntry_String <$> table vec) ++ lit "]") ++ lit " " ++
  (lit "[" ++ joined (fmt_d <$> vector vec) ++ lit "]") ++ lit "}".

Definition serialize_flushVector (p : Prog) : list Z :=
  lit "# flush vector: " ++ FlushVector_String (Prog_FlushVector p).

(** ** The parser *)

(** The text not yet read, the rest of the current line, whether an error has
    been recorded, the pending comment, and the program under construction. *)
Record parser := mk_parser {
  p_data : list Z;
  p_s : list Z;
  p_e : bool;
  p_comment : list Z;
  prg : Prog;
  Comments : list (list Z)
}.

#[export] Instance parser_eta : Eta parser := fun p =>
  mk_parser (p_data p) (p_s p) (p_e p) (p_comment p) (prg p) (Comments p).

Definition failf (_ : string) : prog parser unit := modify (fun p => p <| p_e := true |>).

(** The bytes before the first newline, and those after it if there is one. *)
Fixpoint first_line (data : list Z) : list Z * list Z :=
  match data with
  | [] => ([], [])
  | c :: data => if c =? newline then ([], data)
                 else let '(l, rest) := first_line data in (c :: l, rest)
  end.

Definition Scan : prog parser bool :=
  p ← gets id;
  if p_e p || bool_decide (p_data p = []) then mret false
  else
    let '(l, rest) := first_line (p_data p) in
    modify (fun p => p <| p_s := l |> <| p_data := rest |>);;
    mret true.

Definition EOF : prog parser bool := gets (fun p => bool_decide (p_s p = [])).

Definition Char : prog parser Z :=
  p ← gets id;
  if p_e p then mret 0
  else match p_s p with
  | [] => failf "unexpected eof";; mret 0
  | c :: _ => mret c
  end.

Fixpoint skip_ws (s : list Z) : list Z :=
  match s with
  | c :: s' => if (c =? 32) || (c =? 9) then skip_ws s' else s
  | [] => []
  end.
Definition SkipWs : prog parser unit := modify (fun p => p <| p_s ::= skip_ws |>).

Definition Parse (ch : Z) : prog parser unit :=
  p ← gets id;
  if p_e p then mret tt
  else match p_s p with
  | [] => failf "want a character, got EOF"
  | c :: s => if negb (c =? ch) then failf "want another character"
              else modify (fun p => p <| p_s := s |>);; SkipWs
  end.

Definition ident_char (c : Z) : bool :=
  ((97 <=? c) && (c <=? 122)) || ((65 <=? c) && (c <=? 90)) || ((48 <=? c) && (c <=? 57)) ||
  (c =? 95) || (c =? 36).
Fixpoint span_ident (s : list Z) : list Z * list Z :=
  match s with
  | c :: s' => if ident_char c then let '(w, rest) := span_ident s' in (c :: w, rest) else ([], s)
  | [] => ([], [])
  end.

Definition Ident : prog parser (list Z) :=
  p ← gets id;
  let '(w, rest) := span_ident (p_s p) in
  if bool_decide (w = []) then failf "failed to parse identifier";; mret []
  else modify (fun p => p <| p_s := rest |>);; SkipWs;; mret w.

(** [None] is an error of [strconv.ParseUint]. *)
Definition parseConcurrencyInfo : prog parser (option (Z * Z)) :=
  val ← Ident;
  match ParseUint val with
  | None => mret None
  | Some thread =>
      Parse 44;;
      val ← Ident;
      match ParseUint val with
      | None => mret None
      | Some epoch => mret (Some (thread, epoch))
      end
  end.

(** The end of a call's line, in [parseProg]: [c] was made with thread and
    epoch 0. *)
Definition parse_concurrency (c : Call) : prog parser (option Call) :=
  eof ← EOF;
  if eof : bool then mret (Some c)
  else
    ch ← Char;
    if negb (ch =? 60) then mret (Some c)
    else
      Parse 60;;
      info ← parseConcurrencyInfo;
      match info with
      | None => mret None
      | Some (thread, epoch) =>
          Parse 62;;
          SkipWs;;
          mret (Some (c <| Call_Thread := thread |> <| Call_Epoch := epoch |>))
      end.

(** The pending comment becomes one of the program's. *)
Definition keep_comment : prog parser unit :=
  p ← gets id;
  if bool_decide (p_comment p = []) then mret tt
  else modify (fun p => p <| Comments ::= fun l => l ++ [p_comment p] |>).

(** [parseProg] on the lines after the calls; the result says whether all of
    the text was read, [false] at a call's line. *)
Fixpoint comment_lines (fuel : nat) : prog parser bool :=
  match fuel with
  | O => fun _ => OutOfFuel
  | S fuel =>
      more ← Scan;
      if negb more then keep_comment;; mret true
      else
        eof ← EOF;
        if eof : bool then
          keep_comment;;
          modify (fun p => p <| p_comment := [] |>);;
          comment_lines fuel
        else
          ch ← Char;
          if ch =? 35 then
            keep_comment;;
            modify (fun p => p <| p_comment := TrimSpace (tail (p_s p)) |>);;
            comment_lines fuel
          else mret false
  end.

(** ** From comments to schedules and flush vectors *)

Definition parse_point (comment : list Z) : prog parser (string + Point) :=
  match mapM ParseUint (Split (drop 3 comment)) with
  | None => mret (inl "strconv.ParseUint")
  | Some [a0; a1; a2] =>
      cs ← gets (fun p => Calls (prg p));
      if alen cs <? wraps 64 a0 then mret (inl "wrong call index")
      else match aget cs (wraps 64 a0) with
      | Some _ => mret (inr (mk_point (wraps 64 a0) a1 a2))
      | None => panic "index out of range"
      end
  | Some _ => mret (inl "wrong fields count of schedule")
  end.

Fixpoint points_loop (ps : list Point) (new comments : list (list Z))
    : prog parser (string + (list Point * list (list Z))) :=
  match comments with
  | [] => mret (inr (ps, new))
  | comment :: comments =>
      if HasPrefix comment (lit "-- ") then
        r ← parse_point comment;
        match r with
        | inl e => mret (inl e)
        | inr pnt => points_loop (ps ++ [pnt]) new comments
        end
      else points_loop ps (new ++ [comment]) comments
  end.

(** The functions below return an error, if any. *)
Definition parseSchedule : prog parser (option string) :=
  comments ← gets Comments;
  r ← points_loop [] [] comments;
  match r with
  | inl e => mret (Some e)
  | inr (ps, new) =>
      modify (fun p => p <| prg ::= set Prog_Schedule (fun _ => mk_schedule ps []) |>
                         <| Comments := new |>);;
      mret None
  end.

(** The calls with points, in program order. *)
Definition scheduled_calls (p : Prog) : list Z :=
  filter (fun ci => Schedule_Len (Match (Prog_Schedule p) ci) <> 0) (seqZ 0 (alen (Calls p))).

Definition inspectThreaded : prog parser (option string) :=
  p ← gets prg;
  if Schedule_Len (Prog_Schedule p) =? 0 then
    modify (set prg (set Threaded (fun _ => false)));; mret None
  else
    modify (set prg (set Contender_Calls (fun cs => cs ++ scheduled_calls p)));;
    p ← gets prg;
    if negb (alen (Contender_Calls p) =? 2) then mret (Some "wrong number of calls")
    else modify (set prg (set Threaded (fun _ => true)));; mret None.

Definition parse_entry (entry : list Z) : prog parser (option string) :=
  match bytes_Fields (unbracket entry) with
  | [tok0; tok1] =>
      match ParseUint tok0, ParseUint tok1 with
      | Some a, Some val =>
          modify (set prg (set Prog_FlushVector (fun v => AddTableEntry v a (wraps 64 val))));;
          mret None
      | _, _ => mret (Some "failed to parse a number")
      end
  | _ => mret (Some "invalid table entry")
  end.

Definition parse_element (tok : list Z) : prog parser (option string) :=
  match ParseUint tok with
  | Some v => modify (set prg (set Prog_FlushVector (fun vec => AddVectorEntry vec (u32 v))));;
              mret None
  | None => mret (Some "failed to parse a number")
  end.

(** A loop that returns the first error. *)
Fixpoint until_error {A} (l : list A) (body : A -> prog parser (option string))
    : prog parser (option string) :=
  match l with
  | [] => mret None
  | x :: l =>
      e ← body x;
      match e with
      | Some e => mret (Some e)
      | None => until_error l body
      end
  end.

Definition parseFlushTable (rawTable : list Z) : prog parser (option string) :=
  until_error (FindAll 123 125 entry_class rawTable) parse_entry.

Definition parseFlushVectorVector (rawVector : list Z) : prog parser (option string) :=
  until_error (bytes_Fields (unbracket rawVector)) parse_element.

Definition flush_comment (comment : list Z) : prog parser (option string) :=
  match FindAll 91 93 array_class (drop (length (lit "flush vector:")) comment) with
  | [arr0; arr1] =>
      e ← parseFlushTable arr0;
      match e with
      | Some e => mret (Some e)
      | None => parseFlushVectorVector arr1
      end
  | _ => mret (Some "invalid flush vector")
  end.

(** The first comment with the prefix is parsed. *)
Fixpoint flush_loop (comments : list (list Z)) : prog parser (option string) :=
  match comments with
  | [] => mret None
  | comment :: comments =>
      if HasPrefix comment (lit "flush vector:") then flush_comment comment
      else flush_loop comments
  end.

Definition parseFlushVector : prog parser (option string) :=
  comments ← gets Comments;
  e ← flush_loop comments;
  match e with
  | Some e => mret (Some e)
  | None =>
      p ← gets prg;
      mret (if negb (FlushVector_Valid (Prog_FlushVector p))
            then Some "flush vector is not valid" else None)
  end.

(** An operation on the program under construction. *)
Definition on_prg {A} (m : prog Prog A) : prog parser A := fun p =>
  match m (prg p) with
  | Ret a q => Ret a (p <| prg := q |>)
  | Exit s => Exit s
  | UB s => UB s
  | OutOfFuel => OutOfFuel
  end.

Definition postProcess : prog parser (option string) :=
  until_error [parseSchedule; inspectThreaded; parseFlushVector; on_prg sanitizeRazzer] id.

(** The lines after the calls, read and processed; [fuel] bounds the number of
    lines.  [None]: there is another call's line first. *)
Definition parse_tail (fuel : nat) : prog parser (option (option string)) :=
  all ← comment_lines fuel;
  if all : bool then e ← postProcess; mret (Some e) else mret None.
