(* ===== verification/EncodingSpec.v ===== *)
(** * The text of a program reads back

    What Encoding writes of a stored program is parsed to the same thread and
    epoch of each call, the same schedule, contenders and flush vector; and
    what [Threading] makes can be stored. *)

From stdpp Require Import base list gmap sets strings.
From Stdlib Require Import ZArith Lia.
From S2P Require Import Prelude Accesses Comms Hints Threading ThreadingSpec Encoding.

Local Open Scope Z_scope.
Local Open Scope record_scope.

(** ** Numbers read back *)

(** The bytes of printed numbers. *)
Definition numeric (c : Z) : Prop := 48 <= c <= 57 \/ 97 <= c <= 102 \/ c = 120.

Lemma hex_digit_numeric d : 0 <= d < 16 -> numeric (hex_digit d) /\ hex_digit d <> 120.
Proof. intros Hd. unfold numeric, hex_digit. destruct (Z.ltb_spec d 10); lia. Qed.

Lemma digit_value_hex d : 0 <= d < 16 -> digit_value (hex_digit d) = Some d.
Proof.
  intros Hd. assert (Hin : d ∈ seqZ 0 16) by (apply elem_of_seqZ; lia). revert Hin.
  change (seqZ 0 16) with [0; 1; 2; 3; 4; 5; 6; 7; 8; 9; 10; 11; 12; 13; 14; 15].
  rewrite !elem_of_cons, elem_of_nil. naive_solver.
Qed.

Lemma parse_base_app base n a b :
  parse_base base n (a ++ b) = parse_base base n a ≫= fun m => parse_base base m b.
Proof.
  revert n. induction a as [|c a IH]; intros n; [done|]. cbn [app parse_base].
  destruct (c =? 95); [done|]. destruct (digit_value c); [|done]. cbn.
  destruct (base <=? _); [done|]. by destruct (2 ^ 64 <=? _).
Qed.

Lemma parse_base_digit base n d :
  0 <= d < base -> base <= 16 -> n * base + d < 2 ^ 64 ->
  parse_base base n [hex_digit d] = Some (n * base + d).
Proof.
  intros Hd Hb Hn. cbn [parse_base]. destruct (hex_digit_numeric d) as [Hnum _]; [lia|].
  destruct (Z.eqb_spec (hex_digit d) 95); [unfold numeric in Hnum; lia|].
  rewrite digit_value_hex by lia. cbn.
  destruct (Z.leb_spec base d); [lia|]. by destruct (Z.leb_spec (2 ^ 64) (n * base + d)); [lia|].
Qed.

Lemma digits_spec base fuel k :
  2 <= base <= 16 -> 0 <= k < base ^ Z.of_nat fuel -> k < 2 ^ 64 -> (0 < fuel)%nat ->
  parse_base base 0 (digits base fuel k) = Some k /\ Forall numeric (digits base fuel k) /\
  exists c s, digits base fuel k = c :: s /\ (c = 48 -> k = 0).
Proof.
  intros Hb. revert k. induction fuel as [|fuel IH]; intros k Hk H64 Hf; [lia|]. cbn [digits].
  destruct (Z.ltb_spec k base).
  { destruct (hex_digit_numeric k) as [Hn _]; [lia|].
    rewrite parse_base_digit by lia. split_and!; [done|by constructor|].
    eexists _, []. split; [done|]. unfold hex_digit. destruct (Z.ltb_spec k 10); lia. }
  pose proof (Z.mod_pos_bound k base ltac:(lia)). pose proof (Z.div_mod k base ltac:(lia)).
  assert (1 <= k / base) by (apply Z.div_le_lower_bound; lia).
  destruct (IH (k / base)) as (Hp & Hn & c & s & Es & Hz).
  { split; [lia|]. apply Z.div_lt_upper_bound; [lia|].
    rewrite Nat2Z.inj_succ, Z.pow_succ_r in Hk by lia. lia. }
  { apply Z.div_lt_upper_bound; [lia|]. nia. }
  { destruct fuel; [|lia]. rewrite Z.pow_1_r in Hk. lia. }
  split_and!.
  - rewrite parse_base_app, Hp. cbn [mbind option_bind]. rewrite parse_base_digit by nia. f_equal. lia.
  - apply Forall_app. split; [done|]. constructor; [|done]. apply hex_digit_numeric. lia.
  - rewrite Es. eexists c, _. split; [done|]. intros Hc. specialize (Hz Hc). lia.
Qed.

Lemma numeric_no_underscore w : Forall numeric w -> bool_decide (95 ∈ w) = false.
Proof.
  intros Hw. apply bool_decide_eq_false_2. intros Hin. rewrite Forall_forall in Hw.
  specialize (Hw _ Hin). unfold numeric in Hw. lia.
Qed.

Lemma fmt_0x_spec k :
  0 <= k < 2 ^ 64 ->
  ParseUint (fmt_0x k) = Some k /\ Forall numeric (fmt_0x k) /\ fmt_0x k <> [].
Proof.
  intros Hk. unfold fmt_0x, fmt_num. destruct (Z.ltb_spec k 0); [lia|].
  destruct (digits_spec 16 16 k) as (Hp & Hn & c & s & Es & _); [lia..|].
  assert (Hall : Forall numeric (lit "0x" ++ digits 16 16 k)).
  { apply Forall_app. split; [|done]. repeat constructor; unfold numeric; cbn; lia. }
  split_and!; [|done|done]. unfold ParseUint. rewrite (numeric_no_underscore _ Hall).
  rewrite Es in *. cbn -[parse_base]. by rewrite Hp.
Qed.

Lemma fmt_d_spec k :
  0 <= k < 2 ^ 64 ->
  ParseUint (fmt_d k) = Some k /\ Forall numeric (fmt_d k) /\ fmt_d k <> [].
Proof.
  intros Hk. unfold fmt_d, fmt_num. destruct (Z.ltb_spec k 0); [lia|].
  destruct (decide (k = 0)) as [->|H0].
  { split_and!; [done| |done]. repeat constructor; unfold numeric; cbn; lia. }
  destruct (digits_spec 10 20 k) as (Hp & Hn & c & s & Es & Hc); [lia..|].
  split_and!; [|done|by rewrite Es]. unfold ParseUint. rewrite (numeric_no_underscore _ Hn), Es.
  destruct (Z.eqb_spec c 48) as [E|_]; [by specialize (Hc E)|]. cbn [negb].
  rewrite Es in Hp. by rewrite Hp.
Qed.

(** ** Text read back *)

Lemma numeric_nospace c : numeric c -> isspace c = false.
Proof.
  unfold numeric, isspace. intros Hc.
  rewrite orb_false_iff, andb_false_iff, Z.eqb_neq, !Z.leb_gt. lia.
Qed.

Lemma numeric_entry c : numeric c -> entry_class c = true.
Proof.
  unfold numeric, entry_class. intros Hc.
  rewrite !orb_true_iff, !andb_true_iff, Z.eqb_eq, !Z.leb_le. lia.
Qed.

Lemma numeric_ident c : numeric c -> ident_char c = true.
Proof.
  unfold numeric, ident_char. intros Hc.
  rewrite !orb_true_iff, !andb_true_iff, !Z.eqb_eq, !Z.leb_le. lia.
Qed.

Lemma split_word acc w s :
  Forall numeric w -> separate_loop acc (w ++ lit ", " ++ s) = (acc ++ w) :: separate_loop [] s.
Proof.
  intros Hw. revert acc. induction Hw as [|c w Hc Hw IH]; intros acc.
  - cbn. by rewrite app_nil_r.
  - specialize (IH (acc ++ [c])). rewrite <- app_assoc in IH. cbn [app] in *. rewrite <- IH.
    cbn [separate_loop]. destruct (w ++ lit ", " ++ s) as [|d t]; [done|].
    destruct (Z.eqb_spec c 44); [unfold numeric in Hc; lia|done].
Qed.

Lemma split_end acc w : Forall numeric w -> separate_loop acc w = [acc ++ w].
Proof.
  intros Hw. revert acc. induction Hw as [|c w Hc Hw IH]; intros acc.
  - cbn. by rewrite app_nil_r.
  - specialize (IH (acc ++ [c])). rewrite <- app_assoc in IH. cbn [app] in IH. rewrite <- IH.
    cbn [separate_loop]. destruct w as [|d t]; [done|].
    destruct (Z.eqb_spec c 44); [unfold numeric in Hc; lia|done].
Qed.

Lemma fields_blank acc w s :
  Forall numeric w -> acc ++ w <> [] ->
  fields_loop acc (w ++ 32 :: s) = (acc ++ w) :: fields_loop [] s.
Proof.
  intros Hw. revert acc. induction Hw as [|c w Hc Hw IH]; intros acc Hne; cbn [app fields_loop].
  - rewrite app_nil_r in *. cbn. by rewrite bool_decide_eq_false_2.
  - rewrite numeric_nospace, IH by (done || by destruct acc). by rewrite <- app_assoc.
Qed.

Lemma fields_end acc w : Forall numeric w -> acc ++ w <> [] -> fields_loop acc w = [acc ++ w].
Proof.
  intros Hw. revert acc. induction Hw as [|c w Hc Hw IH]; intros acc Hne; cbn [fields_loop].
  - rewrite app_nil_r in *. by rewrite bool_decide_eq_false_2.
  - rewrite numeric_nospace, IH by (done || by destruct acc). by rewrite <- app_assoc.
Qed.

Lemma fields_joined ws :
  Forall (fun w => Forall numeric w /\ w <> []) ws -> bytes_Fields (joined ws) = ws.
Proof.
  unfold bytes_Fields. induction 1 as [|w ws [Hw Hne] Hws IH]; [done|]. cbn [joined].
  destruct ws as [|w' ws']; [by rewrite fields_end|].
  change (w ++ lit " " ++ ?x) with (w ++ 32 :: x). by rewrite fields_blank, IH by done.
Qed.

Lemma find_class op cl cls acc w s :
  Forall (fun c => cls c = true /\ c <> op /\ c <> cl) w ->
  find_loop op cl cls (Some acc) (w ++ s) = find_loop op cl cls (Some (acc ++ w)) s.
Proof.
  intros Hw. revert acc. induction Hw as [|c w (Hc & Ho & Hl) Hw IH]; intros acc.
  - by rewrite app_nil_r.
  - cbn [app find_loop]. apply Z.eqb_neq in Ho as ->, Hl as ->. rewrite Hc, IH. by rewrite <- app_assoc.
Qed.

(** A bracketed text of the class is found. *)
Lemma find_bracketed op cl cls w s :
  op <> cl -> Forall (fun c => cls c = true /\ c <> op /\ c <> cl) w ->
  FindAll op cl cls (op :: w ++ cl :: s) = (op :: w ++ [cl]) :: FindAll op cl cls s.
Proof.
  intros Hne Hw. unfold FindAll. cbn [find_loop]. rewrite Z.eqb_refl, find_class by done.
  cbn [app find_loop]. destruct (Z.eqb_spec cl op); [by subst|]. by rewrite Z.eqb_refl.
Qed.

Lemma find_skip op cl cls c s : c <> op -> FindAll op cl cls (c :: s) = FindAll op cl cls s.
Proof. intros Hne. unfold FindAll. cbn [find_loop]. by apply Z.eqb_neq in Hne as ->. Qed.

Lemma unbracket_bracketed op cl w : unbracket (op :: w ++ [cl]) = w.
Proof. unfold unbracket. cbn [tail]. by rewrite removelast_last. Qed.

Lemma first_line_app w s : Forall (fun c => c <> newline) w -> first_line (w ++ newline :: s) = (w, s).
Proof.
  induction 1 as [|c w Hc Hw IH]; [done|]. cbn [app first_line]. apply Z.eqb_neq in Hc as ->. by rewrite IH.
Qed.

Lemma first_line_end w : Forall (fun c => c <> newline) w -> first_line w = (w, []).
Proof.
  induction 1 as [|c w Hc Hw IH]; [done|]. cbn [first_line]. apply Z.eqb_neq in Hc as ->. by rewrite IH.
Qed.

Lemma trim_id s c t m d :
  s = c :: t -> s = m ++ [d] -> isspace c = false -> isspace d = false -> TrimSpace s = s.
Proof.
  intros E1 E2 Hc Hd. unfold TrimSpace. rewrite E1 at 1. cbn [TrimLeft]. rewrite Hc, <- E1, E2.
  rewrite rev_app_distr. cbn [rev app TrimLeft]. rewrite Hd. cbn [rev]. by rewrite rev_involutive.
Qed.

(** ** The flush vector read back *)

Definition stored_entry (e : tableEntry) : Prop := 0 <= inst e < 2 ^ 64 /\ 0 <= value e < 2 ^ 63.

Definition entry_body (e : tableEntry) : list Z := fmt_0x (inst e) ++ 32 :: fmt_d (value e).

Lemma entry_string e : tableEntry_String e = 123 :: entry_body e ++ [125].
Proof. unfold tableEntry_String, entry_body. cbn [lit app]. by rewrite <- app_assoc. Qed.

Lemma entry_body_class e :
  stored_entry e -> Forall (fun c => numeric c \/ c = 32) (entry_body e).
Proof.
  intros [Hi Hv]. destruct (fmt_0x_spec (inst e)) as (_ & Hn & _); [lia|].
  destruct (fmt_d_spec (value e)) as (_ & Hm & _); [lia|].
  apply Forall_app. split; [eapply Forall_impl; [exact Hn|auto]|].
  constructor; [auto|]. eapply Forall_impl; [exact Hm|auto].
Qed.

Lemma body_char c : numeric c \/ c = 32 -> entry_class c = true /\ c <> 123 /\ c <> 125 /\ c <> 91 /\ c <> 93 /\ c <> newline.
Proof.
  intros [Hc| ->]; [|by split_and!]. split; [by apply numeric_entry|].
  unfold numeric in Hc. unfold newline. lia.
Qed.

(** The bytes of a table or a vector. *)
Definition array_char (c : Z) : Prop := numeric c \/ c = 32 \/ c = 123 \/ c = 125.

Lemma array_char_spec c : array_char c -> array_class c = true /\ c <> 91 /\ c <> 93 /\ c <> newline.
Proof.
  unfold array_char, array_class. intros [Hc|[->|[->| ->]]]; [|by split_and!..].
  rewrite numeric_entry by done. split; [done|]. unfold numeric in Hc. unfold newline. lia.
Qed.

Lemma joined_chars ws : Forall (Forall array_char) ws -> Forall array_char (joined ws).
Proof.
  induction 1 as [|w ws Hw Hws IH]; [constructor|]. cbn [joined]. destruct ws; [done|].
  apply Forall_app. split; [done|]. constructor; [unfold array_char; auto|done].
Qed.

Lemma table_chars t : Forall stored_entry t -> Forall array_char (joined (tableEntry_String <$> t)).
Proof.
  intros Ht. apply joined_chars, Forall_fmap. eapply Forall_impl; [exact Ht|]. intros e He.
  unfold compose. rewrite entry_string. constructor; [unfold array_char; auto|].
  apply Forall_app. split; [|constructor; [unfold array_char; auto|done]].
  eapply Forall_impl; [by apply entry_body_class|]. unfold array_char. naive_solver.
Qed.

Lemma vector_chars v :
  Forall (fun k => 0 <= k < 2 ^ 32) v -> Forall array_char (joined (fmt_d <$> v)).
Proof.
  intros Hv. apply joined_chars, Forall_fmap. eapply Forall_impl; [exact Hv|]. intros k Hk.
  destruct (fmt_d_spec k) as (_ & Hn & _); [cbv beta in Hk; lia|].
  eapply Forall_impl; [exact Hn|]. unfold array_char. auto.
Qed.

Lemma find_entries t :
  Forall stored_entry t ->
  FindAll 123 125 entry_class (91 :: joined (tableEntry_String <$> t) ++ [93]) = tableEntry_String <$> t.
Proof.
  intros Ht. rewrite find_skip by done. induction Ht as [|e t He Ht IH]; [done|].
  assert (Hb : Forall (fun c => entry_class c = true /\ c <> 123 /\ c <> 125) (entry_body e)).
  { eapply Forall_impl; [by apply entry_body_class|]. intros c Hc%body_char. naive_solver. }
  rewrite fmap_cons. cbn [joined]. rewrite entry_string. destruct t as [|e' t'].
  - cbn [fmap list_fmap app]. rewrite <- app_assoc. cbn [app]. by rewrite find_bracketed.
  - rewrite fmap_cons in *. rewrite <- fmap_cons in *. cbn [lit app]. rewrite <- !app_assoc.
    cbn [app]. rewrite find_bracketed, find_skip by done. by rewrite <- IH at 2.
Qed.

Lemma parse_entry_run e st :
  stored_entry e ->
  parse_entry (tableEntry_String e) st =
  Ret None (set prg (set Prog_FlushVector (set table (fun t => t ++ [e]))) st).
Proof.
  intros [Hi Hv]. destruct (fmt_0x_spec (inst e)) as (Hp & Hn & Hne); [lia|].
  destruct (fmt_d_spec (value e)) as (Hq & Hm & Hme); [lia|].
  unfold parse_entry. rewrite entry_string, unbracket_bracketed.
  change (entry_body e) with (joined [fmt_0x (inst e); fmt_d (value e)]).
  rewrite fields_joined by (do 2 (constructor; [done|]); constructor). rewrite Hp, Hq.
  erewrite bind_run by reflexivity. rewrite wraps_id by lia.
  unfold AddTableEntry. by destruct e.
Qed.

Lemma parse_element_run v st :
  0 <= v < 2 ^ 32 ->
  parse_element (fmt_d v) st =
  Ret None (set prg (set Prog_FlushVector (set vector (fun t => t ++ [v]))) st).
Proof.
  intros Hv. destruct (fmt_d_spec v) as (Hq & _); [lia|]. unfold parse_element. rewrite Hq.
  erewrite bind_run by reflexivity. by rewrite wrapu_id.
Qed.

(** The loop over the printed elements of a list adds them all. *)
Lemma until_error_adds {A} (show : A -> list Z) (body : list Z -> prog parser (option string))
    (add : list A -> parser -> parser) (ok : A -> Prop) :
  (forall x st, ok x -> body (show x) st = Ret None (add [x] st)) ->
  (forall st, add [] st = st) -> (forall l k st, add k (add l st) = add (l ++ k) st) ->
  forall l st, Forall ok l -> until_error (show <$> l) body st = Ret None (add l st).
Proof.
  intros Hb H0 Ha l st Hl. revert st. induction Hl as [|x l Hx Hl IH]; intros st.
  - by rewrite H0.
  - rewrite fmap_cons. cbn [until_error]. rewrite (bind_run _ _ _ _ _ (Hb x st Hx)).
    by rewrite IH, Ha.
Qed.

Lemma parseFlushTable_run t st :
  Forall stored_entry t ->
  parseFlushTable (91 :: joined (tableEntry_String <$> t) ++ [93]) st =
  Ret None (set prg (set Prog_FlushVector (set table (fun t' => t' ++ t))) st).
Proof.
  intros Ht. unfold parseFlushTable. rewrite find_entries by done.
  apply (until_error_adds tableEntry_String parse_entry
    (fun t => set prg (set Prog_FlushVector (set table (fun t' => t' ++ t)))) stored_entry); [..|done].
  - intros e st' He. by apply parse_entry_run.
  - intros [? ? ? ? [? ? ? ? [] ?] ?]. unfold set. cbn. by rewrite app_nil_r.
  - intros l k [? ? ? ? [? ? ? ? [] ?] ?]. unfold set. cbn. by rewrite app_assoc.
Qed.

Lemma parseFlushVectorVector_run v st :
  Forall (fun k => 0 <= k < 2 ^ 32) v ->
  parseFlushVectorVector (91 :: joined (fmt_d <$> v) ++ [93]) st =
  Ret None (set prg (set Prog_FlushVector (set vector (fun v' => v' ++ v))) st).
Proof.
  intros Hv. unfold parseFlushVectorVector. rewrite unbracket_bracketed, fields_joined.
  2:{ apply Forall_fmap. eapply Forall_impl; [exact Hv|]. intros k Hk.
      destruct (fmt_d_spec k) as (_ & Hn & Hne); [cbv beta in Hk; lia|]. done. }
  apply (until_error_adds fmt_d parse_element
    (fun v => set prg (set Prog_FlushVector (set vector (fun v' => v' ++ v))))
    (fun k => 0 <= k < 2 ^ 32)); [..|done].
  - intros e st' He. by apply parse_element_run.
  - intros [? ? ? ? [? ? ? ? [] ?] ?]. unfold set. cbn. by rewrite app_nil_r.
  - intros l k [? ? ? ? [? ? ? ? [] ?] ?]. unfold set. cbn. by rewrite app_assoc.
Qed.

Definition vector_ok (vec : FlushVector) : Prop :=
  Forall stored_entry (table vec) /\ Forall (fun k => 0 <= k < 2 ^ 32) (vector vec) /\
  FlushVector_Valid vec = true.

(** The comment of the flush vector, without the [#] and the blank. *)
Definition flush_text (vec : FlushVector) : list Z := lit "flush vector: " ++ FlushVector_String vec.

Lemma flush_comment_run vec st :
  vector_ok vec -> Prog_FlushVector (prg st) = mk_flush_vector [] [] ->
  flush_comment (flush_text vec) st = Ret None (set prg (set Prog_FlushVector (fun _ => vec)) st).
Proof.
  intros (Ht & Hv & _) H0. unfold flush_comment.
  replace (drop _ (flush_text vec)) with
    (32 :: 123 :: 91 :: joined (tableEntry_String <$> table vec) ++ 93 ::
     (32 :: 91 :: joined (fmt_d <$> vector vec) ++ [93; 125])).
  2:{ unfold flush_text, FlushVector_String. cbn [lit length app drop]. by rewrite <- !app_assoc. }
  assert (Hc : forall l, Forall array_char l ->
             Forall (fun c => array_class c = true /\ c <> 91 /\ c <> 93) l).
  { intros l Hl. eapply Forall_impl; [exact Hl|]. intros c Hc%array_char_spec. naive_solver. }
  rewrite !find_skip, find_bracketed, find_skip, find_bracketed by eauto using table_chars, vector_chars.
  cbn [FindAll find_loop Z.eqb Pos.eqb].
  rewrite (bind_run _ _ _ _ _ (parseFlushTable_run _ _ Ht)), parseFlushVectorVector_run by done.
  destruct st as [? ? ? ? [? ? ? ? fv ?] ?], vec. cbn in H0. subst fv. done.
Qed.

(** ** The schedule read back *)

Definition point_ok (p : Prog) (pnt : Point) : Prop :=
  is_Some (aget (Calls p) (call pnt)) /\ 0 <= addr pnt < 2 ^ 64 /\ 0 <= order pnt < 2 ^ 64.

(** The comment of a point, without the [#]. *)
Definition point_text (pnt : Point) : list Z :=
  lit "-- " ++ fmt_0x (call pnt) ++ lit ", " ++ fmt_0x (addr pnt) ++ lit ", " ++ fmt_0x (order pnt).

Lemma serialize_point_text p pnt :
  point_ok p pnt -> serialize_point p pnt = 35 :: point_text pnt ++ [newline].
Proof.
  intros (Hc & _). unfold serialize_point, point_text, CallIndex. rewrite bool_decide_eq_true_2 by done.
  change (lit "#-- ") with (35 :: lit "-- "). by rewrite <- app_comm_cons, <- !app_assoc.
Qed.

Lemma parse_point_run p st pnt :
  Calls (prg st) = Calls p -> alen (Calls p) < 2 ^ 63 -> point_ok p pnt ->
  parse_point (point_text pnt) st = Ret (inr pnt) st.
Proof.
  intros Hcs Hlen (Hc & Ha & Ho). assert (Hr := proj1 (aget_is_Some _ _) Hc).
  destruct (fmt_0x_spec (call pnt)) as (Hp0 & Hn0 & _); [lia|].
  destruct (fmt_0x_spec (addr pnt)) as (Hp1 & Hn1 & _); [lia|].
  destruct (fmt_0x_spec (order pnt)) as (Hp2 & Hn2 & _); [lia|].
  unfold parse_point, point_text, Split. change (drop 3 (lit "-- " ++ ?x)) with x.
  rewrite !split_word, split_end by done. cbn [app mapM]. rewrite Hp0. cbn [mbind option_bind].
  rewrite Hp1. cbn [mbind option_bind]. rewrite Hp2. cbn [mbind option_bind mret option_ret].
  erewrite bind_run by reflexivity. rewrite wraps_id, Hcs by lia.
  destruct (Z.ltb_spec (alen (Calls p)) (call pnt)); [lia|].
  destruct Hc as [c ->]. by destruct pnt.
Qed.

Lemma points_loop_run p st pts ps new text :
  Calls (prg st) = Calls p -> alen (Calls p) < 2 ^ 63 -> Forall (point_ok p) pts ->
  HasPrefix text (lit "-- ") = false ->
  points_loop ps new ((point_text <$> pts) ++ [text]) st = Ret (inr (ps ++ pts, new ++ [text])) st.
Proof.
  intros Hcs Hlen Hpts Ht. revert ps. induction Hpts as [|pnt pts Hpnt Hpts IH]; intros ps.
  - cbn [fmap list_fmap app points_loop]. rewrite Ht. by rewrite app_nil_r.
  - rewrite fmap_cons. cbn [app points_loop].
    change (HasPrefix (point_text pnt) (lit "-- ")) with true. cbv iota.
    rewrite (bind_run _ _ _ _ _ (parse_point_run _ _ _ Hcs Hlen Hpnt)), IH. by rewrite <- app_assoc.
Qed.

(** ** The lines after the calls *)

Lemma numeric_no_newline w : Forall numeric w -> Forall (fun c => c <> newline) w.
Proof.
  intros Hw. eapply Forall_impl; [exact Hw|]. unfold numeric, newline. intros c Hc. lia.
Qed.

Lemma fmt_0x_last k : 0 <= k < 2 ^ 64 -> exists m d, fmt_0x k = m ++ [d] /\ isspace d = false.
Proof.
  intros Hk. destruct (fmt_0x_spec k Hk) as (_ & Hn & Hne).
  destruct (exists_last Hne) as (m & d & E). exists m, d. split; [done|].
  rewrite E in Hn. apply Forall_app in Hn as [_ Hn]. apply numeric_nospace. by inversion Hn.
Qed.

Lemma point_text_line p pnt :
  alen (Calls p) < 2 ^ 63 -> point_ok p pnt ->
  Forall (fun c => c <> newline) (point_text pnt) /\ TrimSpace (point_text pnt) = point_text pnt.
Proof.
  intros Hlen (Hc & Ha & Ho). assert (Hr := proj1 (aget_is_Some _ _) Hc). split.
  - destruct (fmt_0x_spec (call pnt)) as (_ & Hn0 & _); [lia|].
    destruct (fmt_0x_spec (addr pnt)) as (_ & Hn1 & _); [lia|].
    destruct (fmt_0x_spec (order pnt)) as (_ & Hn2 & _); [lia|].
    unfold point_text. rewrite !Forall_app.
    split_and!; try (by apply numeric_no_newline); repeat constructor; done.
  - destruct (fmt_0x_last (order pnt) Ho) as (m & d & E & Hd).
    eapply trim_id; [reflexivity| |done|exact Hd]. unfold point_text. by rewrite E, !app_assoc.
Qed.

Lemma flush_text_line vec :
  vector_ok vec ->
  Forall (fun c => c <> newline) (flush_text vec) /\ TrimSpace (32 :: flush_text vec) = flush_text vec.
Proof.
  intros (Ht & Hv & _).
  assert (Hc : forall l, Forall array_char l -> Forall (fun c => c <> newline) l).
  { intros l Hl. eapply Forall_impl; [exact Hl|]. intros c Hc%array_char_spec. naive_solver. }
  split.
  - unfold flush_text, FlushVector_String. rewrite !Forall_app.
    split_and!; try (by apply Hc; auto using table_chars, vector_chars); repeat constructor; done.
  - change (TrimSpace (32 :: flush_text vec)) with (TrimSpace (flush_text vec)).
    eapply (trim_id _ _ _ _ 125); [reflexivity| |done|done].
    unfold flush_text, FlushVector_String. by rewrite !app_assoc.
Qed.

(** The comments once the pending one is kept. *)
Definition kept_comments (st : parser) : list (list Z) :=
  if bool_decide (p_comment st = []) then Comments st else Comments st ++ [p_comment st].

Lemma keep_comment_run st : keep_comment st = Ret tt (st <| Comments := kept_comments st |>).
Proof.
  unfold keep_comment, kept_comments. erewrite bind_run by reflexivity. unfold id.
  destruct (bool_decide (p_comment st = [])); by destruct st.
Qed.

Lemma comment_line_run fuel st text rest :
  p_e st = false -> p_data st <> [] -> first_line (p_data st) = (35 :: text, rest) ->
  comment_lines (S fuel) st =
  comment_lines fuel (mk_parser rest (35 :: text) false (TrimSpace text) (prg st) (kept_comments st)).
Proof.
  intros He Hd Hl. cbn [comment_lines].
  erewrite bind_run.
  2:{ unfold Scan. erewrite bind_run by reflexivity. unfold id. rewrite He, bool_decide_eq_false_2 by done.
      cbn [orb]. rewrite Hl. erewrite bind_run by reflexivity. reflexivity. }
  cbn [negb]. erewrite (bind_run EOF _ _ false) by reflexivity. cbv iota.
  erewrite (bind_run Char).
  2:{ unfold Char. erewrite bind_run by reflexivity. unfold id, set. cbn. rewrite He. reflexivity. }
  change (35 =? 35) with true. cbv iota.
  rewrite (bind_run _ _ _ _ _ (keep_comment_run _)). erewrite bind_run by reflexivity.
  f_equal.
Qed.

Lemma comment_lines_end fuel st :
  p_data st = [] -> comment_lines (S fuel) st = Ret true (st <| Comments := kept_comments st |>).
Proof.
  intros Hd. cbn [comment_lines]. erewrite bind_run.
  2:{ unfold Scan. erewrite bind_run by reflexivity. unfold id. rewrite Hd, orb_true_r. reflexivity. }
  cbn [negb]. by rewrite (bind_run _ _ _ _ _ (keep_comment_run _)).
Qed.

(** What is read from the text of a schedule and a flush vector. *)
Lemma comment_lines_run p pts vec fuel st :
  alen (Calls p) < 2 ^ 63 -> Forall (point_ok p) pts -> vector_ok vec -> p_e st = false ->
  p_data st = (pts ≫= serialize_point p) ++ lit "# " ++ flush_text vec ->
  (length pts + 2 <= fuel)%nat ->
  exists s, comment_lines fuel st =
    Ret true (mk_parser [] s false (flush_text vec) (prg st)
                (kept_comments st ++ (point_text <$> pts) ++ [flush_text vec])).
Proof.
  intros Hlen Hpts Hvec. destruct (flush_text_line _ Hvec) as [Hnl Htrim].
  revert fuel st. induction Hpts as [|pnt pts Hpnt Hpts IH]; intros [|fuel] st He Hd Hf; try (cbn in Hf; lia).
  - destruct fuel as [|fuel]; [cbn in Hf; lia|].
    rewrite (comment_line_run _ _ (32 :: flush_text vec) []); [|done|by rewrite Hd|].
    2:{ rewrite Hd. apply (first_line_end (35 :: 32 :: flush_text vec)). do 2 (constructor; [done|]). exact Hnl. }
    rewrite Htrim, comment_lines_end by done. eexists. unfold kept_comments, set. cbn. done.
  - rewrite bind_cons, serialize_point_text in Hd by done. rewrite <- app_assoc in Hd.
    destruct (point_text_line p pnt Hlen Hpnt) as [Hn Ht].
    erewrite comment_line_run; [|done|by rewrite Hd|].
    2:{ rewrite Hd. rewrite <- app_comm_cons, <- app_assoc.
        apply (first_line_app (35 :: point_text pnt)). by constructor. }
    destruct (IH fuel (mk_parser ((pts ≫= serialize_point p) ++ lit "# " ++ flush_text vec)
      (35 :: point_text pnt) false (TrimSpace (point_text pnt)) (prg st) (kept_comments st))) as [s E];
      [done|done|cbn in Hf; lia|].
    exists s. rewrite E. do 2 f_equal. unfold kept_comments at 1. rewrite Ht. cbn. by rewrite <- app_assoc.
Qed.

(** ** A whole program *)

Lemma ident_run st w c s :
  p_s st = w ++ c :: s -> Forall numeric w -> w <> [] -> ident_char c = false ->
  Ident st = Ret w (st <| p_s := skip_ws (c :: s) |>).
Proof.
  intros Hs Hw Hne Hc.
  assert (E : span_ident (w ++ c :: s) = (w, c :: s)).
  { clear Hs Hne. induction Hw as [|d w Hd Hw IH]; cbn [app span_ident]; [by rewrite Hc|].
    by rewrite numeric_ident, IH. }
  unfold Ident. erewrite bind_run by reflexivity. unfold id. rewrite Hs, E, bool_decide_eq_false_2 by done.
  erewrite bind_run by reflexivity. unfold SkipWs. erewrite bind_run by reflexivity. by destruct st.
Qed.

Lemma parse_run st c s :
  p_e st = false -> p_s st = c :: s -> Parse c st = Ret tt (st <| p_s := skip_ws s |>).
Proof.
  intros He Hs. unfold Parse. erewrite bind_run by reflexivity. unfold id. rewrite He, Hs, Z.eqb_refl.
  cbn [negb]. erewrite bind_run by reflexivity. unfold SkipWs, modify. by destruct st.
Qed.

Lemma skip_ws_numeric w s : Forall numeric w -> w <> [] -> skip_ws (w ++ s) = w ++ s.
Proof.
  intros [|c w' Hc Hw] Hne; [done|]. cbn [app skip_ws].
  destruct (Z.eqb_spec c 32), (Z.eqb_spec c 9); unfold numeric in Hc; (lia || done).
Qed.

Definition call_ok (c : Call) : Prop := 0 <= Call_Thread c < 2 ^ 64 /\ 0 <= Call_Epoch c < 2 ^ 64.

(** The end of the line of a call, once the blanks before it are skipped. *)
Definition concurrency_text (c : Call) : list Z :=
  60 :: fmt_0x (Call_Thread c) ++ 44 :: 32 :: fmt_0x (Call_Epoch c) ++ [62].

Lemma concurrency_line c :
  call_ok c -> skip_ws (first_line (serialize_concurrency c)).1 = concurrency_text c.
Proof.
  intros [Ht He]. destruct (fmt_0x_spec _ Ht) as (_ & Hn0 & _), (fmt_0x_spec _ He) as (_ & Hn1 & _).
  assert (E : serialize_concurrency c = (32 :: concurrency_text c) ++ newline :: []).
  { unfold serialize_concurrency, concurrency_text. cbn [lit app].
    do 2 (rewrite <- app_assoc; cbn [app]). done. }
  rewrite E, first_line_app; [done|]. do 2 (constructor; [done|]). unfold concurrency_text.
  apply Forall_app. split; [by apply numeric_no_newline|]. do 2 (constructor; [done|]).
  apply Forall_app. split; [by apply numeric_no_newline|]. by constructor.
Qed.

Lemma parse_concurrency_run st c :
  call_ok c -> p_e st = false -> p_s st = concurrency_text c ->
  parse_concurrency (mk_call 0 0) st = Ret (Some c) (st <| p_s := [] |>).
Proof.
  intros [Ht Hep] He Hs. destruct (fmt_0x_spec _ Ht) as (Hp0 & Hn0 & Hne0).
  destruct (fmt_0x_spec _ Hep) as (Hp1 & Hn1 & Hne1).
  destruct st as [data rs e cm q cs]. cbn in He, Hs. subst e rs.
  unfold parse_concurrency. erewrite (bind_run EOF _ _ false) by reflexivity. cbv iota.
  erewrite (bind_run Char _ _ 60) by reflexivity. cbn [negb Z.eqb Pos.eqb].
  erewrite (bind_run (Parse 60)) by (by apply parse_run). rewrite skip_ws_numeric by done.
  erewrite (bind_run parseConcurrencyInfo).
  2:{ unfold parseConcurrencyInfo.
      erewrite (bind_run Ident) by (by eapply ident_run). rewrite Hp0.
      erewrite (bind_run (Parse 44)) by (by apply parse_run).
      erewrite (bind_run Ident).
      2:{ eapply (ident_run _ (fmt_0x (Call_Epoch c)) 62 []); [|done..].
          change (skip_ws (32 :: ?x)) with (skip_ws x). by rewrite skip_ws_numeric. }
      rewrite Hp1. reflexivity. }
  cbv beta iota. erewrite (bind_run (Parse 62)) by (by apply parse_run).
  unfold SkipWs. erewrite bind_run by reflexivity. by destruct c.
Qed.

(** What the text holds of a program: all but the filter and the hint. *)
Definition restored (p : Prog) : Prog :=
  mk_prog (Calls p) (Threaded p) (Contender_Calls p) (mk_schedule (points (Prog_Schedule p)) [])
    (Prog_FlushVector p) None.

(** The program when its calls have been parsed. *)
Definition only_calls (p : Prog) : Prog :=
  mk_prog (Calls p) false [] empty_schedule (mk_flush_vector [] []) None.

(** A program the fuzzer stores: fields in range, the contenders are the calls
    with points, in program order, and the sanity checks hold. *)
Record storable (p : Prog) : Prop := {
  st_calls : Forall call_ok (Calls p);
  st_length : alen (Calls p) < 2 ^ 63;
  st_points : Forall (point_ok p) (points (Prog_Schedule p));
  st_vector : vector_ok (Prog_FlushVector p);
  st_contenders : Contender_Calls p = scheduled_calls p;
  st_threaded : Threaded p = negb (Schedule_Len (Prog_Schedule p) =? 0);
  st_two : Threaded p = true -> alen (Contender_Calls p) = 2;
  st_sane : sanitizeRazzer (restored p) = Ret None (restored p)
}.

Lemma parseSchedule_run p st :
  storable p -> prg st = only_calls p ->
  Comments st = (point_text <$> points (Prog_Schedule p)) ++ [flush_text (Prog_FlushVector p)] ->
  parseSchedule st =
  Ret None (st <| prg := only_calls p <| Prog_Schedule := Prog_Schedule (restored p) |> |>
               <| Comments := [flush_text (Prog_FlushVector p)] |>).
Proof.
  intros Hp Hprg Hc. unfold parseSchedule. erewrite bind_run by reflexivity. rewrite Hc.
  erewrite (bind_run (points_loop _ _ _)).
  2:{ apply (points_loop_run p); [by rewrite Hprg|apply Hp|apply Hp|reflexivity]. }
  cbv beta iota. erewrite bind_run by reflexivity. unfold mret, prog_ret. f_equal.
  destruct st. cbn in Hprg. subst. done.
Qed.

Lemma unscheduled_calls p : points (Prog_Schedule p) = [] -> scheduled_calls p = [].
Proof.
  intros E. unfold scheduled_calls. induction (seqZ _ _) as [|ci l IH]; [done|].
  rewrite filter_cons_False; [done|]. unfold Match. rewrite E. by intros [].
Qed.

Lemma inspectThreaded_run p st :
  storable p -> prg st = only_calls p <| Prog_Schedule := Prog_Schedule (restored p) |> ->
  inspectThreaded st = Ret None (st <| prg := restored p <| Prog_FlushVector := mk_flush_vector [] [] |> |>).
Proof.
  intros Hp Hprg. pose proof (st_threaded _ Hp) as Ht. pose proof (st_contenders _ Hp) as Hcs.
  pose proof (st_two _ Hp) as H2. unfold inspectThreaded. erewrite bind_run by reflexivity.
  destruct st as [data rs e cm q cs]. cbn in Hprg. subst q. cbn [prg].
  change (Schedule_Len (Prog_Schedule (only_calls p <| Prog_Schedule := _ |>)))
    with (Schedule_Len (Prog_Schedule p)).
  destruct (Z.eqb_spec (Schedule_Len (Prog_Schedule p)) 0) as [E|E]; cbn [negb] in Ht.
  - assert (Hn : points (Prog_Schedule p) = []) by (by apply nil_length_inv, Nat2Z.inj).
    rewrite unscheduled_calls in Hcs by done.
    erewrite bind_run by reflexivity. unfold restored. rewrite Hcs, Ht. reflexivity.
  - change (scheduled_calls (only_calls p <| Prog_Schedule := _ |>)) with (scheduled_calls p).
    rewrite <- Hcs. do 2 (erewrite bind_run by reflexivity). cbn [prg set Contender_Calls only_calls app].
    rewrite H2 by done. cbn [negb Z.eqb Pos.eqb].
    erewrite bind_run by reflexivity. unfold restored. rewrite Ht. reflexivity.
Qed.

Lemma parseFlushVector_run p st :
  storable p -> prg st = restored p <| Prog_FlushVector := mk_flush_vector [] [] |> ->
  Comments st = [flush_text (Prog_FlushVector p)] ->
  parseFlushVector st = Ret None (st <| prg := restored p |>).
Proof.
  intros Hp Hprg Hc. pose proof (st_vector _ Hp) as Hv. unfold parseFlushVector.
  erewrite bind_run by reflexivity. rewrite Hc.
  erewrite (bind_run (flush_loop _)).
  2:{ cbn [flush_loop]. change (HasPrefix (flush_text _) _) with true. cbv iota.
      apply flush_comment_run; [done|by rewrite Hprg]. }
  cbv beta iota. erewrite bind_run by reflexivity. destruct st. cbn in Hprg. subst.
  cbn [prg set Prog_FlushVector]. destruct Hv as (_ & _ & ->). reflexivity.
Qed.

Lemma postProcess_run p st :
  storable p -> prg st = only_calls p ->
  Comments st = (point_text <$> points (Prog_Schedule p)) ++ [flush_text (Prog_FlushVector p)] ->
  postProcess st = Ret None (st <| prg := restored p |>
                                <| Comments := [flush_text (Prog_FlushVector p)] |>).
Proof.
  intros Hp Hprg Hc. unfold postProcess. cbn [until_error]. unfold id.
  rewrite (bind_run _ _ _ _ _ (parseSchedule_run p st Hp Hprg Hc)). cbv beta iota.
  erewrite (bind_run inspectThreaded) by (by apply (inspectThreaded_run p)). cbv beta iota.
  erewrite (bind_run parseFlushVector) by (by apply (parseFlushVector_run p)). cbv beta iota.
  erewrite (bind_run (on_prg _)).
  2:{ unfold on_prg. cbn [prg set]. rewrite (st_sane _ Hp). reflexivity. }
  reflexivity.
Qed.

(** ** Threaded programs are storable *)

Lemma filter_none {A} (P : A -> Prop) `{forall x, Decision (P x)} l :
  Forall (fun x => ~ P x) l -> filter P l = [].
Proof. induction 1; [done|]. by rewrite filter_cons_False. Qed.

Lemma filter_two (P : Z -> Prop) `{forall x, Decision (P x)} a b n :
  0 <= a < b -> b < n -> (forall x, P x <-> x = a \/ x = b) -> filter P (seqZ 0 n) = [a; b].
Proof.
  intros Ha Hb HP.
  replace n with (a + (1 + ((b - a - 1) + (1 + (n - b - 1))))) by lia.
  rewrite !seqZ_app, !filter_app by lia.
  rewrite !(filter_none P (seqZ _ (_ - _ - 1))), (filter_none P (seqZ 0 a));
    try (apply Forall_seqZ; intros x Hx; rewrite HP; lia).
  cbn [app]. rewrite !(seqZ_cons _ 1), !seqZ_nil by lia. cbn [app].
  rewrite !filter_cons_True, filter_nil by (apply HP; lia). cbn [app]. repeat (f_equal; try lia).
Qed.

Lemma threaded_call_ok a b n :
  0 <= a < b -> b < Z.of_nat n -> Z.of_nat n < 2 ^ 63 -> Forall call_ok (threaded_calls a b n).
Proof.
  intros Ha Hb Hn. apply Forall_fmap, Forall_forall. intros k Hk%elem_of_seq.
  unfold compose, threaded_call, call_ok.
  destruct (Z.ltb_spec (Z.of_nat k) a), (Z.eqb_spec (Z.of_nat k) a); cbn; lia.
Qed.

(** What [Threading] makes of a sequential program can be stored, when the
    contenders are given in program order. *)
Lemma threaded_storable n c1 c2 p p' :
  threaded_prog n c1 c2 p p' -> 0 <= c1 < c2 -> c2 < Z.of_nat n -> Z.of_nat n < 2 ^ 63 ->
  vector_ok (Prog_FlushVector p') -> storable p'.
Proof.
  intros (Hc & Ht & Hcc & Hpts & Hfv & Hhi) H1 H2 Hn Hv.
  rewrite Z.min_l, Z.max_r in Hc by lia.
  assert (Hlen : alen (Calls p') = Z.of_nat n).
  { rewrite Hc. unfold alen, threaded_calls. by rewrite length_fmap, length_seq. }
  split; [..|done| | | |].
  - rewrite Hc. by apply threaded_call_ok.
  - by rewrite Hlen.
  - rewrite Hpts. do 2 (constructor; [split; [apply aget_is_Some; rewrite Hlen; cbn; lia|cbn; unfold dummyAddr; lia]|]).
    constructor.
  - rewrite Hcc. unfold scheduled_calls. rewrite Hlen. symmetry. apply filter_two; [lia|done|].
    intros x. unfold Schedule_Len, Match, alen. rewrite Hpts. cbn [points].
    rewrite !filter_cons, filter_nil. cbn [call]. repeat destruct (decide _); cbn; lia.
  - unfold Schedule_Len. by rewrite Ht, Hpts.
  - intros _. by rewrite Hcc.
  - apply (threaded_sanitize n c1 c2 (restored p')); [|lia..].
    unfold threaded_prog. cbn. rewrite Z.min_l, Z.max_r by lia. by split_and!.
Qed.

(** C26. What the fuzzer adds to the text of a program reads back: at the end of
    each call's line the parser finds its thread and epoch, and the lines
    after the calls restore the schedule, the contenders, the threaded flag
    and the flush vector, for every stored program, without an error; the
    program is the one written but for its filter and hint, which are not part
    of the text. *)
Theorem program_text_roundtrip (p : Prog) (st : parser) :
  storable p -> p_e st = false -> p_comment st = [] -> Comments st = [] -> prg st = only_calls p ->
  Forall (fun c =>
    parse_concurrency (mk_call 0 0) (st <| p_s := skip_ws (fst (first_line (serialize_concurrency c))) |>) =
    Ret (Some c) (st <| p_s := [] |>)) (Calls p) /\
  exists st',
    parse_tail (length (points (Prog_Schedule p)) + 2)
      (st <| p_data := serialize_schedule p ++ serialize_flushVector p |>) = Ret (Some None) st' /\
    prg st' = restored p /\ p_data st' = [] /\ p_e st' = false.
Proof.
  intros Hp He Hcm Hc Hprg. split.
  - eapply Forall_impl; [apply Hp|]. intros c Hok. rewrite concurrency_line by done.
    by rewrite (parse_concurrency_run _ c).
  - destruct (comment_lines_run p (points (Prog_Schedule p)) (Prog_FlushVector p)
      (length (points (Prog_Schedule p)) + 2)
      (st <| p_data := serialize_schedule p ++ serialize_flushVector p |>)) as [s E];
      [apply Hp..|done|done|done|].
    eexists. split.
    { unfold parse_tail. rewrite (bind_run _ _ _ _ _ E). cbv iota.
      erewrite (bind_run postProcess).
      2:{ apply postProcess_run; [done|done|]. unfold kept_comments, set. cbn. by rewrite Hcm, Hc. }
      reflexivity. }
    done.
Qed.

(** Four calls, the second and the last threaded, with a flush table. *)
Definition stored_sample : Prog :=
  mk_prog (threaded_calls 1 3 4) true [1; 3]
    (mk_schedule [mk_point 1 dummyAddr 0; mk_point 3 dummyAddr 1] [])
    (mk_flush_vector [mk_table_entry 0xffffffff81000010 0; mk_table_entry 0xffffffff8100002f 1] []) None.

(** The parser at the end of the calls. *)
Definition parser_sample : parser := mk_parser [] [] false [] (only_calls stored_sample) [].

Lemma program_text_roundtrip_witness :
  serialize_schedule stored_sample ++ serialize_flushVector stored_sample =
    lit "#-- 0x1, 0xffffffffffffffff, 0x0" ++ [newline] ++
    lit "#-- 0x3, 0xffffffffffffffff, 0x1" ++ [newline] ++
    lit "# flush vector: {[{0xffffffff81000010 0} {0xffffffff8100002f 1}] []}" /\
  exists st',
    parse_tail 4 (parser_sample <| p_data :=
      serialize_schedule stored_sample ++ serialize_flushVector stored_sample |>) = Ret (Some None) st' /\
    prg st' = stored_sample.
Proof.
  split; [vm_compute; reflexivity|].
  assert (Hp : storable stored_sample).
  { apply (threaded_storable 4 1 3 stored_sample); [split_and!; reflexivity|lia..|].
    split_and!; [|constructor|reflexivity]. repeat constructor; cbn; lia. }
  destruct (program_text_roundtrip stored_sample parser_sample Hp eq_refl eq_refl eq_refl eq_refl)
    as [_ (st' & E & Hst & _)].
  exists st'. split; [exact E|exact Hst].
Defined.

(** A point of the call one past the last passes the test of its index; the
    access to the calls panics. *)
Example call_index_panics :
  parse_point (lit "-- 0x4, 0x0, 0x0") parser_sample = Exit "index out of range" /\
  parse_point (lit "-- 0x5, 0x0, 0x0") parser_sample = Ret (inl "wrong call index") parser_sample.
Proof. split; vm_compute; reflexivity. Qed.

(** The order of the contenders is not in the text: written with the later one
    first, they are read back in program order. *)
Example contenders_reordered :
  exists st',
    parse_tail 4 (parser_sample <| p_data :=
      serialize_schedule (stored_sample <| Contender_Calls := [3; 1] |>) ++
      serialize_flushVector stored_sample |>) = Ret (Some None) st' /\
    Contender_Calls (prg st') = [1; 3].
Proof. eexists. split; vm_compute; reflexivity. Qed.

(** A negative value of the table is written but not read. *)
Example negative_value_rejected :
  flush_comment (flush_text (mk_flush_vector [mk_table_entry 16 (-1)] [])) parser_sample =
  Ret (Some "invalid flush vector") parser_sample.
Proof. vm_compute. reflexivity. Qed.
