(* ===== verification/Request.v ===== *)
(** * Requests to the executor (pkg/ipc/ipc.go, sys/targets/targets.go,
      executor/executor.cc)

    For every execution the fuzzer sends the executor a request of eight
    64-bit words: magic number, flags of the environment and of the execution,
    process number, timeouts and size of the program.  The two sides know each
    other's flags by bit position only.  The file models the timeouts, the
    request, the executor's reading of it, and proves that the executor
    accepts the fuzzer's requests and sees the flags the fuzzer set.

    The configuration is the one of Linux: shared memory and fork server. *)

From stdpp Require Import base list strings.
From Stdlib Require Import ZArith Lia.
From S2P Require Import Prelude.

Local Open Scope Z_scope.
Local Open Scope record_scope.

(** ** The fuzzer's side *)

(** [EnvFlags]: the constants of the [iota] block. *)
Inductive EnvFlag :=
| FlagDebug | FlagSignal | FlagSandboxSetuid | FlagSandboxNamespace | FlagSandboxAndroid
| FlagExtraCover | FlagEnableTun | FlagEnableNetDev | FlagEnableNetReset | FlagEnableCgroups
| FlagEnableCloseFds | FlagEnableDevlinkPCI | FlagEnableVhciInjection | FlagEnableWifi
| FlagDelayKcovMmap | FlagEnableNicVF.

Definition EnvFlag_bit (f : EnvFlag) : Z :=
  match f with
  | FlagDebug => 0 | FlagSignal => 1 | FlagSandboxSetuid => 2 | FlagSandboxNamespace => 3
  | FlagSandboxAndroid => 4 | FlagExtraCover => 5 | FlagEnableTun => 6 | FlagEnableNetDev => 7
  | FlagEnableNetReset => 8 | FlagEnableCgroups => 9 | FlagEnableCloseFds => 10
  | FlagEnableDevlinkPCI => 11 | FlagEnableVhciInjection => 12 | FlagEnableWifi => 13
  | FlagDelayKcovMmap => 14 | FlagEnableNicVF => 15
  end.

(** [ExecFlags]. *)
Inductive ExecFlag :=
| FlagCollectSignal | FlagCollectCover | FlagDedupCover | FlagCollectComps | FlagThreaded
| FlagEnableCoverageFilter | FlagTurnOnKSSB | FlagCollectAccess.

Definition ExecFlag_bit (f : ExecFlag) : Z :=
  match f with
  | FlagCollectSignal => 0 | FlagCollectCover => 1 | FlagDedupCover => 2 | FlagCollectComps => 3
  | FlagThreaded => 4 | FlagEnableCoverageFilter => 5 | FlagTurnOnKSSB => 10
  | FlagCollectAccess => 11
  end.

(** [flags & Flag != 0], for a flag given by its bit. *)
Definition has_flag (flags bit : Z) : bool := negb (Z.land flags (Z.shiftl 1 bit) =? 0).

(** Durations are in nanoseconds. *)
Definition Millisecond : Z := 10 ^ 6.
Definition Second : Z := 10 ^ 9.
Definition Minute : Z := 60 * Second.
Definition Hour : Z := 60 * Minute.

Record Timeouts := mk_timeouts {
  Slowdown : Z;
  Scale : Z;
  Timeout_Syscall : Z;
  Timeout_Program : Z;
  NoOutput : Z;
  VMRunningTime : Z;
  NoOutputRunningTime : Z
}.

#[export] Instance timeouts_eta : Eta Timeouts := fun t =>
  mk_timeouts (Slowdown t) (Scale t) (Timeout_Syscall t) (Timeout_Program t) (NoOutput t)
    (VMRunningTime t) (NoOutputRunningTime t).

Definition or_default (v dflt : Z) : Z := if v =? 0 then dflt else v.

(** [target.Timeouts(slowdown)], from the base values of the target; [None] is
    the panic on a slowdown that is not positive. *)
Definition target_Timeouts (base : Timeouts) (slowdown : Z) : option Timeouts :=
  if slowdown <=? 0 then None
  else
    let scale := if 3 <? slowdown then 3 else slowdown in
    let noOutput := or_default (NoOutput base) (5 * Minute) * scale in
    Some (mk_timeouts slowdown scale
      (or_default (Timeout_Syscall base) (50 * Millisecond) * slowdown)
      (or_default (Timeout_Program base) (5 * Second) * scale)
      noOutput
      (or_default (VMRunningTime base) Hour * scale)
      (noOutput + Minute)).

Definition inMagic : Z := 0xbadc0ffeebadface.

Record executeReq := mk_execute_req {
  req_magic : Z;
  envFlags : Z;
  execFlags : Z;
  req_pid : Z;
  syscallTimeoutMS : Z;
  programTimeoutMS : Z;
  req_slowdownScale : Z;
  progSize : Z
}.

(** The request built by [exec]; with shared memory [progData] is nil. *)
Definition make_request (flags opts pid : Z) (t : Timeouts) : executeReq :=
  mk_execute_req inMagic (u64 flags) (u64 opts) (u64 pid)
    (u64 (Z.quot (Timeout_Syscall t) Millisecond)) (u64 (Z.quot (Timeout_Program t) Millisecond))
    (u64 (Scale t)) 0.

(** ** The executor's side *)

Definition kInMagic : Z := 0xbadc0ffeebadface.
Definition kMaxInput : Z := Z.shiftl 4 20.

Record flags_t := mk_flags {
  flag_debug : bool;
  flag_coverage : bool;
  flag_sandbox_none : bool;
  flag_sandbox_setuid : bool;
  flag_sandbox_namespace : bool;
  flag_sandbox_android : bool;
  flag_extra_coverage : bool;
  flag_net_injection : bool;
  flag_net_devices : bool;
  flag_net_reset : bool;
  flag_cgroups : bool;
  flag_close_fds : bool;
  flag_devlink_pci : bool;
  flag_nic_vf : bool;
  flag_vhci_injection : bool;
  flag_wifi : bool;
  flag_delay_kcov_mmap : bool;
  flag_collect_cover : bool;
  flag_collect_signal : bool;
  flag_dedup_cover : bool;
  flag_threaded : bool;
  flag_coverage_filter : bool;
  flag_turn_on_kssb : bool;
  flag_collect_access : bool;
  flag_comparisons : bool
}.

(** The globals a request sets. *)
Record settings := mk_settings {
  flags : flags_t;
  procid : Z;
  syscall_timeout_ms : Z;
  program_timeout_ms : Z;
  slowdown_scale : Z
}.

#[export] Instance settings_eta : Eta settings := fun s =>
  mk_settings (flags s) (procid s) (syscall_timeout_ms s) (program_timeout_ms s) (slowdown_scale s).

(** [flags & (1 << n)], as a truth value. *)
Definition bit (v n : Z) : bool := negb (Z.land v (Z.shiftl 1 n) =? 0).

(** The sandbox flags are only ever set. *)
Definition parse_env_flags (v : Z) (f : flags_t) : flags_t :=
  let '(none, setuid, namespace, android) :=
    let none := flag_sandbox_none f in
    let setuid := flag_sandbox_setuid f in
    let namespace := flag_sandbox_namespace f in
    let android := flag_sandbox_android f in
    if bit v 2 then (none, true, namespace, android)
    else if bit v 3 then (none, setuid, true, android)
    else if bit v 4 then (none, setuid, namespace, true)
    else (true, setuid, namespace, android) in
  {| flag_debug := bit v 0;
     flag_coverage := bit v 1;
     flag_sandbox_none := none;
     flag_sandbox_setuid := setuid;
     flag_sandbox_namespace := namespace;
     flag_sandbox_android := android;
     flag_extra_coverage := false;
     flag_net_injection := bit v 6;
     flag_net_devices := bit v 7;
     flag_net_reset := bit v 8;
     flag_cgroups := bit v 9;
     flag_close_fds := bit v 10;
     flag_devlink_pci := bit v 11;
     flag_vhci_injection := bit v 12;
     flag_wifi := bit v 13;
     flag_delay_kcov_mmap := bit v 14;
     flag_nic_vf := bit v 15;
     flag_collect_cover := flag_collect_cover f;
     flag_collect_signal := flag_collect_signal f;
     flag_dedup_cover := flag_dedup_cover f;
     flag_threaded := flag_threaded f;
     flag_coverage_filter := flag_coverage_filter f;
     flag_turn_on_kssb := flag_turn_on_kssb f;
     flag_collect_access := flag_collect_access f;
     flag_comparisons := flag_comparisons f |}.

(** The flags of the execution: comparisons are off and threads on, whatever
    the request says. *)
Definition set_exec_flags (v : Z) (f : flags_t) : flags_t :=
  {| flag_debug := flag_debug f;
     flag_coverage := flag_coverage f;
     flag_sandbox_none := flag_sandbox_none f;
     flag_sandbox_setuid := flag_sandbox_setuid f;
     flag_sandbox_namespace := flag_sandbox_namespace f;
     flag_sandbox_android := flag_sandbox_android f;
     flag_extra_coverage := flag_extra_coverage f;
     flag_net_injection := flag_net_injection f;
     flag_net_devices := flag_net_devices f;
     flag_net_reset := flag_net_reset f;
     flag_cgroups := flag_cgroups f;
     flag_close_fds := flag_close_fds f;
     flag_devlink_pci := flag_devlink_pci f;
     flag_vhci_injection := flag_vhci_injection f;
     flag_wifi := flag_wifi f;
     flag_delay_kcov_mmap := flag_delay_kcov_mmap f;
     flag_nic_vf := flag_nic_vf f;
     flag_collect_signal := bit v 0;
     flag_collect_cover := bit v 1;
     flag_dedup_cover := bit v 2;
     flag_comparisons := false;
     flag_threaded := true;
     flag_coverage_filter := bit v 5;
     flag_turn_on_kssb := bit v 10;
     flag_collect_access := bit v 11 |}.

Abbreviation failmsg := exit_.

(** [receive_execute], on the request read from the pipe. *)
Definition receive_execute (req : executeReq) : prog settings unit :=
  if negb (req_magic req =? kInMagic) then failmsg "bad execute request magic"
  else if kMaxInput <? progSize req then failmsg "bad execute prog size"
  else
    modify (fun s => mk_settings (parse_env_flags (envFlags req) (flags s)) (req_pid req)
      (syscallTimeoutMS req) (programTimeoutMS req) (req_slowdownScale req));;
    modify (fun s => s <| flags ::= set_exec_flags (execFlags req) |>);;
    s ← gets id;
    (if flag_turn_on_kssb (flags s)
     then modify (fun s => s <| slowdown_scale ::= fun n => u64 (n * 10) |>) else mret tt);;
    s ← gets id;
    if (syscall_timeout_ms s =? 0) || (program_timeout_ms s <=? syscall_timeout_ms s) ||
       (slowdown_scale s =? 0)
    then failmsg "bad timeouts"
    else if negb (progSize req =? 0) then failmsg "need_prog: no program"
    else mret tt.

Definition cover_collection_required (f : flags_t) : bool :=
  flag_coverage f && (flag_collect_signal f || flag_collect_cover f || flag_comparisons f).

(** Static storage. *)
Definition zero_flags : flags_t :=
  mk_flags false false false false false false false false false false false false false false false
    false false false false false false false false false false.
Definition zero_settings : settings := mk_settings zero_flags 0 0 0 0.

(** ** The two sides agree *)

(** What of the executor's state stands for a flag of the fuzzer.  The
    sandboxes exclude each other, see [sandbox_of]; [FlagExtraCover],
    [FlagCollectComps] and [FlagThreaded] are not read. *)
Definition env_view (f : EnvFlag) : option (flags_t -> bool) :=
  match f with
  | FlagDebug => Some flag_debug
  | FlagSignal => Some flag_coverage
  | FlagSandboxSetuid | FlagSandboxNamespace | FlagSandboxAndroid | FlagExtraCover => None
  | FlagEnableTun => Some flag_net_injection
  | FlagEnableNetDev => Some flag_net_devices
  | FlagEnableNetReset => Some flag_net_reset
  | FlagEnableCgroups => Some flag_cgroups
  | FlagEnableCloseFds => Some flag_close_fds
  | FlagEnableDevlinkPCI => Some flag_devlink_pci
  | FlagEnableVhciInjection => Some flag_vhci_injection
  | FlagEnableWifi => Some flag_wifi
  | FlagDelayKcovMmap => Some flag_delay_kcov_mmap
  | FlagEnableNicVF => Some flag_nic_vf
  end.

Definition exec_view (f : ExecFlag) : option (flags_t -> bool) :=
  match f with
  | FlagCollectSignal => Some flag_collect_signal
  | FlagCollectCover => Some flag_collect_cover
  | FlagDedupCover => Some flag_dedup_cover
  | FlagCollectComps | FlagThreaded => None
  | FlagEnableCoverageFilter => Some flag_coverage_filter
  | FlagTurnOnKSSB => Some flag_turn_on_kssb
  | FlagCollectAccess => Some flag_collect_access
  end.

(** The sandbox the fuzzer asks for: the first of the three whose flag is set. *)
Definition sandbox_of (v : Z) : flags_t -> bool :=
  if has_flag v (EnvFlag_bit FlagSandboxSetuid) then flag_sandbox_setuid
  else if has_flag v (EnvFlag_bit FlagSandboxNamespace) then flag_sandbox_namespace
  else if has_flag v (EnvFlag_bit FlagSandboxAndroid) then flag_sandbox_android
  else flag_sandbox_none.

(** The globals after a request was accepted. *)
Definition requested (v opts pid : Z) (t : Timeouts) (s : settings) : Prop :=
  (forall f g, env_view f = Some g -> g (flags s) = has_flag v (EnvFlag_bit f)) /\
  (forall f g, exec_view f = Some g -> g (flags s) = has_flag opts (ExecFlag_bit f)) /\
  sandbox_of v (flags s) = true /\
  flag_extra_coverage (flags s) = false /\ flag_comparisons (flags s) = false /\
  flag_threaded (flags s) = true /\ procid s = pid /\
  syscall_timeout_ms s * Millisecond = Timeout_Syscall t /\
  program_timeout_ms s * Millisecond = Timeout_Program t /\
  slowdown_scale s = Scale t * (if has_flag opts (ExecFlag_bit FlagTurnOnKSSB) then 10 else 1).

(** The flags once a request was read. *)
Definition read_flags (v opts : Z) (f : flags_t) : flags_t := set_exec_flags opts (parse_env_flags v f).

Lemma read_flags_view v opts f :
  (forall e g, env_view e = Some g -> g (read_flags v opts f) = has_flag v (EnvFlag_bit e)) /\
  (forall e g, exec_view e = Some g -> g (read_flags v opts f) = has_flag opts (ExecFlag_bit e)) /\
  sandbox_of v (read_flags v opts f) = true.
Proof.
  unfold read_flags, set_exec_flags, parse_env_flags, sandbox_of. change has_flag with bit.
  cbn [EnvFlag_bit ExecFlag_bit]. set (b2 := bit v 2). set (b3 := bit v 3). set (b4 := bit v 4).
  split_and!; [intros [] g Hg; simplify_eq/=; by destruct b2, b3, b4..|by destruct b2, b3, b4].
Qed.

(** The default timeouts, scaled. *)
Lemma default_timeouts base slowdown t :
  Timeout_Syscall base = 0 -> Timeout_Program base = 0 -> target_Timeouts base slowdown = Some t ->
  0 < slowdown /\ Scale t = Z.min 3 slowdown /\
  Timeout_Syscall t = 50 * slowdown * Millisecond /\ Timeout_Program t = 5000 * Scale t * Millisecond.
Proof.
  unfold target_Timeouts. intros Hs Hp. destruct (Z.leb_spec slowdown 0); [done|]. intros [= <-].
  cbn. rewrite Hs, Hp. unfold or_default, Millisecond, Second. cbn.
  destruct (Z.ltb_spec 3 slowdown); split_and!; lia.
Qed.

(** The executor accepts a request exactly when the timeout of a program is
    longer than that of a call. *)
Lemma receive_execute_run v opts pid t s :
  Timeout_Syscall t = 50 * Slowdown t * Millisecond -> Timeout_Program t = 5000 * Scale t * Millisecond ->
  0 < Slowdown t < 2 ^ 32 -> Scale t = Z.min 3 (Slowdown t) ->
  0 <= v < 2 ^ 64 -> 0 <= opts < 2 ^ 64 -> 0 <= pid < 2 ^ 64 ->
  receive_execute (make_request v opts pid t) s =
  if 50 * Slowdown t <? 5000 * Scale t
  then Ret tt (mk_settings (read_flags v opts (flags s)) pid (50 * Slowdown t) (5000 * Scale t)
                 (if bit opts 10 then Scale t * 10 else Scale t))
  else Exit "bad timeouts".
Proof.
  intros Hs Hp Hd Hsc Hv Ho Hpid. unfold make_request. rewrite Hs, Hp, !Z.quot_mul by done.
  rewrite !wrapu_id by lia. unfold receive_execute. cbn [req_magic progSize envFlags execFlags req_pid
    syscallTimeoutMS programTimeoutMS req_slowdownScale].
  change (inMagic =? kInMagic) with true. change (kMaxInput <? 0) with false. cbn [negb].
  do 3 (erewrite bind_run by reflexivity). destruct s as [f p a b c]. unfold id, set. cbn -[bit wrapu].
  change (flag_turn_on_kssb _) with (bit opts 10).
  destruct (bit opts 10); (erewrite bind_run by reflexivity); (erewrite bind_run by reflexivity);
    cbn -[bit Z.eqb Z.leb Z.ltb wrapu]; rewrite ?(wrapu_id 64 (Scale t * 10)) by lia.
  all: destruct (Z.eqb_spec (50 * Slowdown t) 0); [lia|].
  all: destruct (Z.leb_spec (5000 * Scale t) (50 * Slowdown t)), (Z.ltb_spec (50 * Slowdown t) (5000 * Scale t));
    try lia; [reflexivity|].
  all: cbn [orb]; rewrite (proj2 (Z.eqb_neq _ 0)) by lia; reflexivity.
Qed.

(** C33. The fuzzer and the executor agree on requests: with the default
    timeouts every request is accepted up to a slowdown of 299, and then each
    flag the executor reads has the value the fuzzer gave it and the sandbox is
    the one asked for; the executor does not read the flags for extra coverage,
    comparisons and threads: the first two are off and threads are on whatever
    the fuzzer asked for; and the timeouts are those of the fuzzer, slowed down ten times with the
    store-buffer emulation; from a slowdown of 300 on, where a call may take
    as long as a program, every request is refused. *)
Theorem request_agreement (base t : Timeouts) (slowdown v opts pid : Z) (s : settings) :
  Timeout_Syscall base = 0 -> Timeout_Program base = 0 ->
  target_Timeouts base slowdown = Some t -> slowdown < 2 ^ 32 ->
  0 <= v < 2 ^ 64 -> 0 <= opts < 2 ^ 64 -> 0 <= pid < 2 ^ 64 ->
  (slowdown < 300 ->
   exists s', receive_execute (make_request v opts pid t) s = Ret tt s' /\ requested v opts pid t s') /\
  (300 <= slowdown -> receive_execute (make_request v opts pid t) s = Exit "bad timeouts").
Proof.
  intros Hbs Hbp Ht Hd Hv Ho Hpid.
  destruct (default_timeouts base slowdown t) as (Hpos & Hsc & Hs & Hp); [done..|].
  assert (Slowdown t = slowdown) as Hsl.
  { unfold target_Timeouts in Ht. destruct (slowdown <=? 0); [done|]. by injection Ht as <-. }
  rewrite <- Hsl in *. rewrite receive_execute_run by (done || lia).
  destruct (Z.ltb_spec (50 * Slowdown t) (5000 * Scale t)); split; try lia; [|done].
  intros _. eexists. split; [done|].
  destruct (read_flags_view v opts (flags s)) as (He & Hx & Hsb).
  unfold requested. cbn [flags procid syscall_timeout_ms program_timeout_ms slowdown_scale].
  split_and!; try done.
  - unfold read_flags, set_exec_flags, parse_env_flags. by destruct (bit v 2), (bit v 3), (bit v 4).
  - change (has_flag opts (ExecFlag_bit FlagTurnOnKSSB)) with (bit opts 10). destruct (bit opts 10); lia.
Qed.

(** The target gives no base values; signals are collected in the sandbox of
    namespaces, with the store-buffer emulation. *)
Definition base_timeouts : Timeouts := mk_timeouts 0 0 0 0 0 0 0.

Lemma request_agreement_witness :
  exists t s',
    target_Timeouts base_timeouts 10 = Some t /\
    receive_execute (make_request 0x20a 0xc01 1 t) zero_settings = Ret tt s' /\
    flag_sandbox_namespace (flags s') = true /\ flag_collect_access (flags s') = true /\
    slowdown_scale s' = 30.
Proof.
  destruct (request_agreement base_timeouts _ 10 0x20a 0xc01 1 zero_settings eq_refl eq_refl eq_refl)
    as [Hok _]; [lia..|].
  destruct Hok as (s' & E & He & Hx & Hsb & _ & _ & _ & _ & _ & _ & Hsl); [lia|].
  eexists _, s'. split; [reflexivity|]. split; [exact E|]. split_and!.
  - exact Hsb.
  - exact (Hx FlagCollectAccess _ eq_refl).
  - exact Hsl.
Defined.
