(* ===== verification/Output.v ===== *)
(** * What the executor reports (executor/executor.cc, executor_linux.h,
      cov_filter.h)

    The executor writes to a region of memory it shares with the fuzzer: first
    the number of reports, then a report per call with the call's result, the
    signal and the coverage of its code, its memory accesses and the fate of
    its scheduling points.  The file models the buffers in which the kernel
    leaves coverage, the deduplication and filtering of signals, and the
    writing of reports.

    Memory regions are lists of words: 32-bit ones for the output region, of
    which the list holds what has been written, 64-bit ones for coverage
    buffers.  A pointer into a region is an index. *)

From stdpp Require Import base list gmap sorting strings.
From Stdlib Require Import ZArith Lia.
From S2P Require Import Prelude Request.

Local Open Scope Z_scope.
Local Open Scope record_scope.

(** ** Constants *)

Definition kOutMagic : Z := 0xbadf00d.
Definition call_flag_executed : Z := 1.
Definition call_flag_finished : Z := 2.
Definition call_flag_blocked : Z := 4.
Definition call_flag_fault_injected : Z := 8.
Definition call_flag_retry : Z := 16.
Definition kCoverSize : Z := Z.shiftl 256 10.
Definition KCOV_CMP_CONST : Z := 1.
Definition KCOV_CMP_SIZE_MASK : Z := 6.
Definition KCOV_CMP_SIZE1 : Z := 0.
Definition KCOV_CMP_SIZE2 : Z := 2.
Definition KCOV_CMP_SIZE4 : Z := 4.
Definition KCOV_CMP_SIZE8 : Z := 6.
Definition dedup_table_size : Z := Z.shiftl 8 10.
Definition kMaxOutputComparisons : Z := Z.shiftl 14 20.
Definition kMaxOutputCoverage : Z := Z.shiftl (Z.shiftl 6 20) 2.
Definition kMaxOutputSignal : Z := Z.shiftl (Z.shiftl 4 20) 2.
Definition kMinOutput : Z := Z.shiftl 256 10.
Definition kInitialOutput : Z := kMinOutput.

(** The size of the file behind the region, in pkg/ipc/ipc.go. *)
Definition outputSize : Z := Z.shiftl 16 20.

(** ** Coverage buffers *)

Inductive cov_type := code_coverage | read_from_coverage.

(** [cover_t]: [cov_data] is the mapped buffer. *)
Record cover_t := mk_cover {
  cov_size : Z;
  cov_typ : cov_type;
  cov_data : list Z;
  pc_offset : Z
}.

#[export] Instance cover_eta : Eta cover_t := fun c =>
  mk_cover (cov_size c) (cov_typ c) (cov_data c) (pc_offset c).

(** The kernel counts the records in the first word of the buffer. *)
Definition cover_reset {W} (f : flags_t) (c : cover_t) : prog W cover_t :=
  if negb (flag_coverage f) then mret c
  else deref "cov->data" (aget (cov_data c) 0);; mret (c <| cov_data ::= fun l => aset l 0 0 |>).

Definition cover_collect {W} (c : cover_t) : prog W cover_t :=
  n ← deref "cov->data" (aget (cov_data c) 0);
  mret (c <| cov_size := u32 n |>).

(** ** The output region and the other globals *)

Record output := mk_output {
  out : list Z;
  output_size : Z;
  dedup_table : list Z;
  completed : Z;
  extra_cov : cover_t
}.

#[export] Instance output_eta : Eta output := fun o =>
  mk_output (out o) (output_size o) (dedup_table o) (completed o) (extra_cov o).

(** [segv_handler]: a write to a page beyond the end of the mapped file raises
    [SIGBUS], and outside [NONFAILING] the handler exits. *)
Definition sigbus {A} : prog output A := exit_ "SIGBUS".

(** The result is the position written; sizes are in bytes. *)
Definition write_output (v : Z) : prog output Z :=
  o ← gets id;
  let pos := alen (out o) in
  if output_size o <=? 4 * pos then failmsg "output overflow"
  else if outputSize <? 4 * (pos + 1) then sigbus
  else modify (fun o => o <| out ::= fun l => l ++ [u32 v] |>);; mret pos.

Definition write_output_64 (v : Z) : prog output Z :=
  o ← gets id;
  let pos := alen (out o) in
  if output_size o <=? 4 * (pos + 1) then failmsg "output overflow"
  else if outputSize <? 4 * (pos + 2) then sigbus
  else modify (fun o => o <| out ::= fun l => l ++ [u32 v; u32 (Z.shiftr v 32)] |>);; mret (pos + 2).

(** [*pos = v]. *)
Definition fill (pos v : Z) : prog output unit :=
  modify (fun o => o <| out ::= fun l => aset l pos (u32 v) |>).

Definition write_completed (n : Z) : prog output unit := fill 0 n.

(** [mmap_output] and [realloc_output_data]: the size of the region, which may
    exceed that of the file. *)
Definition mmap_output (size : Z) : prog output unit :=
  o ← gets id;
  if size <=? output_size o then mret tt
  else if negb (size `mod` 4096 =? 0) then failmsg "trying to mmap output area that is not divisible by page size"
  else modify (fun o => o <| output_size := size |>).

Definition realloc_output_data (f : flags_t) : prog output unit :=
  if flag_comparisons f then mmap_output kMaxOutputComparisons
  else if flag_collect_cover f then mmap_output kMaxOutputCoverage
  else if flag_collect_signal f then mmap_output kMaxOutputSignal
  else mret tt.

(** ** Signals *)

Definition hash (a : Z) : Z :=
  let a := Z.lxor (Z.lxor a 61) (Z.shiftr a 16) in
  let a := u32 (a + u32 (Z.shiftl a 3)) in
  let a := Z.lxor a (Z.shiftr a 4) in
  let a := u32 (a * 0x27d4eb2d) in
  Z.lxor a (Z.shiftr a 15).

Definition set_slot (pos sig : Z) : prog output unit :=
  modify (fun o => o <| dedup_table ::= fun t => aset t pos sig |>).

(** [for (i = 0; i < 4; i++)], with [n] rounds to go. *)
Fixpoint dedup_loop (n : nat) (i sig : Z) : prog output bool :=
  match n with
  | O => set_slot (sig `mod` dedup_table_size) sig;; mret false
  | S n =>
      let pos := u32 (sig + i) `mod` dedup_table_size in
      t ← gets dedup_table;
      v ← deref "dedup_table" (aget t pos);
      if v =? sig then mret true
      else if v =? 0 then set_slot pos sig;; mret false
      else dedup_loop n (i + 1) sig
  end.
Definition dedup (sig : Z) : prog output bool := dedup_loop 4 0 sig.

(** The bitmap of the addresses to report, a bit for every 16 bytes. *)
Record cov_filter_t := mk_cov_filter { pcstart : Z; pcsize : Z; bitmap : list Z }.

(** The test of the size of the file in [init_coverage_filter]. *)
Definition cov_filter_size_ok (cf : cov_filter_t) (st_size : Z) : bool :=
  u32 st_size =? u32 (4 * 2 + (Z.shiftr (pcsize cf) 4 / 8 + 2)).

(** [use_cover_edges] on a 64-bit kernel; a bad address ends the process. *)
Definition use_cover_edges (pc : Z) : prog output bool :=
  if (pc <? 0xffffffff80000000) || (0xffffffffff000000 <=? pc) then exit_ "got bad pc" else mret true.

(** [std::unique]: the first element of each run of equal ones. *)
Fixpoint unique_from {A} (eqb : A -> A -> bool) (x : A) (l : list A) : list A :=
  match l with
  | [] => [x]
  | y :: l => if eqb x y then unique_from eqb x l else x :: unique_from eqb y l
  end.
Definition std_unique {A} (eqb : A -> A -> bool) (l : list A) : list A :=
  match l with [] => [] | x :: l => unique_from eqb x l end.

(** ** Comparisons *)

Record kcov_comparison_t := mk_comparison { cmp_type : Z; arg1 : Z; arg2 : Z; cmp_pc : Z }.

(** [operator==] and [operator<]; addresses are not compared. *)
Definition comparison_eq (a b : kcov_comparison_t) : bool :=
  (cmp_type a =? cmp_type b) && (arg1 a =? arg1 b) && (arg2 a =? arg2 b).
Definition comparison_lt (a b : kcov_comparison_t) : bool :=
  if negb (cmp_type a =? cmp_type b) then cmp_type a <? cmp_type b
  else if negb (arg1 a =? arg1 b) then arg1 a <? arg1 b
  else arg2 a <? arg2 b.

(** [std::sort] leaves equivalent elements in any order. *)
Class StdSort := {
  sort_comparisons : list kcov_comparison_t -> list kcov_comparison_t;
  sort_comparisons_perm l : sort_comparisons l ≡ₚ l;
  sort_comparisons_sorted l : StronglySorted (fun a b => comparison_lt b a = false) (sort_comparisons l)
}.

Definition comparison_write (c : kcov_comparison_t) : prog output unit :=
  if Z.lor KCOV_CMP_CONST KCOV_CMP_SIZE_MASK <? cmp_type c then failmsg "invalid kcov comp type"
  else
    write_output (cmp_type c);;
    let size := Z.land (cmp_type c) KCOV_CMP_SIZE_MASK in
    let extend :=
      if size =? KCOV_CMP_SIZE1 then fun v => u64 (wraps 8 v)
      else if size =? KCOV_CMP_SIZE2 then fun v => u64 (wraps 16 v)
      else if size =? KCOV_CMP_SIZE4 then fun v => u64 (wraps 32 v)
      else fun v => v in
    let a1 := extend (arg1 c) in
    let a2 := extend (arg2 c) in
    if negb (size =? KCOV_CMP_SIZE8)
    then write_output a1;; write_output a2;; mret tt
    else write_output_64 a1;; write_output_64 a2;; mret tt.

(** ** Reports *)

(** The fields of [thread_t] that a report is made of; [ct_sched] are the
    orders of the scheduling points. *)
Record call_thread := mk_call_thread {
  ct_index : Z;
  ct_num : Z;
  ct_res : Z;
  ct_reserrno : Z;
  ct_fault_injected : bool;
  ct_retry : bool;
  ct_num_filter : Z;
  ct_sched : list Z;
  ct_footprint : list Z;
  ct_cov : cover_t;
  ct_rfcov : cover_t
}.

#[export] Instance call_thread_eta : Eta call_thread := fun t =>
  mk_call_thread (ct_index t) (ct_num t) (ct_res t) (ct_reserrno t) (ct_fault_injected t) (ct_retry t)
    (ct_num_filter t) (ct_sched t) (ct_footprint t) (ct_cov t) (ct_rfcov t).

Definition coverage_pre_call (f : flags_t) : prog call_thread unit :=
  if negb (flag_coverage f) then mret tt
  else
    t ← gets id;
    c ← cover_reset f (ct_cov t);
    r ← cover_reset f (ct_rfcov t);
    modify (fun t => t <| ct_cov := c |> <| ct_rfcov := r |>).

(** The second test looks at the size of [cov] again. *)
Definition coverage_post_call (f : flags_t) : prog call_thread unit :=
  if negb (flag_coverage f) then mret tt
  else
    t ← gets id;
    c ← cover_collect (ct_cov t);
    modify (fun t => t <| ct_cov := c |>);;
    if kCoverSize <=? cov_size c then failmsg "too much cover"
    else
      r ← cover_collect (ct_rfcov t);
      modify (fun t => t <| ct_rfcov := r |>);;
      if kCoverSize <=? cov_size c then failmsg "too much rf cover" else mret tt.

(** [completed++; write_completed(completed)]. *)
Definition count_report : prog output unit :=
  modify (fun o => o <| completed ::= fun n => u32 (n + 1) |>);;
  n ← gets completed;
  write_completed n.

Definition set_extra_cov (c : cover_t) : prog output unit :=
  modify (fun o => o <| extra_cov := c |>).

Section reports.
(** The flags, the filter if its file was found, and the address of the output
    region. *)
Context (f : flags_t) (cov_filter : option cov_filter_t) (output_data : Z) `{StdSort}.

Definition coverage_filter (pc : Z) : prog output bool :=
  if negb (flag_coverage_filter f) then mret true
  else match cov_filter with
  | None => failmsg "coverage filter was enabled but bitmap initialization failed"
  | Some cf =>
      let pc32 := u32 (Z.land pc 0xffffffff) in
      if (pc32 <? pcstart cf) || (u32 (pcstart cf + pcsize cf) <? pc32) then mret false
      else
        let pc32 := Z.shiftr (u32 (pc32 - pcstart cf)) 4 in
        let idx := pc32 / 8 in
        let shift := pc32 `mod` 8 in
        b ← deref "bitmap" (aget (bitmap cf) idx);
        mret (0 <? Z.land b (Z.shiftl 1 shift))
  end.

(** The loop over the trace: the signal of an address is its xor with the hash
    of the previous one.  The result is the number of signals written. *)
Fixpoint signal_loop (n : nat) (cov : cover_t) (i prev_pc : Z) (prev_filter : bool) (nsig : Z)
    : prog output Z :=
  match n with
  | O => mret nsig
  | S n =>
      d ← deref "cover_data" (aget (cov_data cov) (i + 1));
      let pc := u64 (d + pc_offset cov) in
      let sig := u32 pc in
      edges ← use_cover_edges pc;
      let sig := if edges : bool then Z.lxor sig (hash (u32 prev_pc)) else sig in
      filter ← coverage_filter pc;
      let ignore := negb filter && negb prev_filter in
      dup ← (if ignore then mret true else dedup sig);
      nsig ← (if dup : bool then mret nsig else write_output sig;; mret (u32 (nsig + 1)));
      signal_loop n cov (i + 1) pc filter nsig
  end.

(** The addresses of the trace, [None] when the buffer is too small. *)
Definition cover_pcs (cov : cover_t) : option (list Z) :=
  let l := take (Z.to_nat (cov_size cov)) (drop 1 (cov_data cov)) in
  if Z.of_nat (length l) =? cov_size cov then Some l else None.

Definition write_code_coverage_signal (cov : cover_t) (signal_count_pos cover_count_pos : Z)
    : prog output unit :=
  (if flag_collect_signal f then
     nsig ← signal_loop (Z.to_nat (cov_size cov)) cov 0 0 true 0;
     fill signal_count_pos nsig
   else mret tt);;
  if flag_collect_cover f then
    pcs ← deref "cover_data" (cover_pcs cov);
    let pcs := if flag_dedup_cover f then std_unique Z.eqb (merge_sort Z.le pcs) else pcs in
    foreach pcs (fun pc => write_output (pc + pc_offset cov);; mret tt);;
    fill cover_count_pos (alen pcs)
  else mret tt.

(** [struct kmemcov_access] takes five 64-bit words; the first record holds
    the count.  The type is an enumeration of 32 bits. *)
Definition read_access (data : list Z) (i : Z) : option (list Z) :=
  let l := take 5 (drop (Z.to_nat (5 * (i + 1))) data) in
  if (length l =? 5)%nat then Some l else None.

Definition write_access (cov : cover_t) (i : Z) : prog output unit :=
  a ← deref "cover_data" (read_access (cov_data cov) i);
  foreach a (fun w => write_output w;; mret tt).

(** Signals of accesses are not defined: the position given must be null. *)
Definition write_read_from_coverage_signal (cov : cover_t) (signal_count_pos : option Z)
    (cover_count_pos : Z) : prog output unit :=
  match signal_count_pos with
  | Some _ => failmsg "bad signal_count_pos in write_read_from_coverage_signal"
  | None =>
      foreach (seqZ 0 (cov_size cov)) (write_access cov);;
      fill cover_count_pos (cov_size cov)
  end.

Definition write_coverage_signal (cov : cover_t) (signal_count_pos : option Z) (cover_count_pos : Z)
    : prog output unit :=
  match cov_typ cov with
  | code_coverage =>
      pos ← (if flag_collect_signal f then deref "signal_count_pos" signal_count_pos
             else mret (default 0 signal_count_pos));
      write_code_coverage_signal cov pos cover_count_pos
  | read_from_coverage => write_read_from_coverage_signal cov signal_count_pos cover_count_pos
  end.

Definition comparison_ignore (c : kcov_comparison_t) : prog output bool :=
  o ← gets id;
  let out_end := output_data + output_size o in
  let ours a := (output_data <=? a) && (a <=? out_end) in
  let kptr a := (0xffff880000000000 <=? a) && (a <=? 0xffff890000000000) in
  if (arg1 c =? 0) && ((arg2 c =? 0) || negb (Z.land (cmp_type c) KCOV_CMP_CONST =? 0)) then mret true
  else if (Z.land (cmp_type c) KCOV_CMP_SIZE_MASK =? KCOV_CMP_SIZE8) &&
          (ours (arg1 c) || ours (arg2 c) || (kptr (arg1 c) && kptr (arg2 c)) ||
           (kptr (arg1 c) && (arg2 c =? 0)) || (kptr (arg2 c) && (arg1 c =? 0)))
  then mret true
  else
    b ← coverage_filter (cmp_pc c);
    mret (negb b).

(** The comparisons in the buffer, four words each, after the count. *)
Fixpoint read_comparisons (n : nat) (l : list Z) : option (list kcov_comparison_t) :=
  match n with
  | O => Some []
  | S n =>
      match l with
      | t :: a :: b :: pc :: l => cs ← read_comparisons n l; Some (mk_comparison t a b pc :: cs)
      | _ => None
      end
  end.

Fixpoint comparisons_loop (cs : list kcov_comparison_t) (n : Z) : prog output Z :=
  match cs with
  | [] => mret n
  | c :: cs =>
      ignore ← comparison_ignore c;
      if ignore : bool then comparisons_loop cs n
      else comparison_write c;; comparisons_loop cs (u32 (n + 1))
  end.

Definition write_comparisons (cov : cover_t) (comps_count_pos : Z) : prog output unit :=
  match read_comparisons (Z.to_nat (cov_size cov)) (drop 1 (cov_data cov)) with
  | None => failmsg "too many comparisons"
  | Some cs =>
      n ← comparisons_loop (std_unique comparison_eq (sort_comparisons cs)) 0;
      fill comps_count_pos n
  end.

Definition write_outcome (th : call_thread) (i : Z) : prog output unit :=
  o ← deref "th->sched" (aget (ct_sched th) i);
  write_output o;;
  fp ← deref "th->footprint" (aget (ct_footprint th) i);
  write_output fp;;
  mret tt.

Definition call_flags (th : call_thread) (finished blocked : bool) : Z :=
  let fl := Z.lor call_flag_executed (if blocked then call_flag_blocked else 0) in
  let fl := if finished
            then Z.lor fl (Z.lor call_flag_finished
                             (if ct_fault_injected th then call_flag_fault_injected else 0))
            else fl in
  Z.lor fl (if ct_retry th then call_flag_retry else 0).

(** [last]: whether [th] is the thread scheduled last. *)
Definition write_call_output (th : call_thread) (finished last : bool) : prog output unit :=
  let blocked := finished && negb last in
  let num_filter := u32 (ct_num_filter th) in
  let reserrno := if finished then (if negb (ct_res th =? -1) then 0 else ct_reserrno th) else 999 in
  write_output kOutMagic;;
  write_output (ct_index th);;
  write_output (ct_num th);;
  write_output reserrno;;
  write_output (call_flags th finished blocked);;
  signal_count_pos ← write_output 0;
  cover_count_pos ← write_output 0;
  comps_count_pos ← write_output 0;
  rfcover_count_pos ← write_output 0;
  write_output num_filter;;
  (if flag_comparisons f then write_comparisons (ct_cov th) comps_count_pos
   else if flag_collect_signal f || flag_collect_cover f then
     write_coverage_signal (ct_cov th) (Some signal_count_pos) cover_count_pos;;
     write_coverage_signal (ct_rfcov th) None rfcover_count_pos
   else mret tt);;
  foreach (seqZ 0 (i32 num_filter)) (write_outcome th);;
  count_report.

Definition write_extra_output : prog output unit :=
  if negb (cover_collection_required f) || negb (flag_extra_coverage f) || flag_comparisons f
  then mret tt
  else
    o ← gets id;
    c ← cover_collect (extra_cov o);
    set_extra_cov c;;
    if cov_size c =? 0 then mret tt
    else
      write_output kOutMagic;;
      write_output (-1);;
      write_output (-1);;
      write_output 999;;
      write_output 0;;
      signal_count_pos ← write_output 0;
      cover_count_pos ← write_output 0;
      write_output 0;;
      write_coverage_signal c (Some signal_count_pos) cover_count_pos;;
      c ← cover_reset f c;
      set_extra_cov c;;
      count_report.
End reports.

(** The region at the start of [execute_one]: the number of reports is
    written first. *)
Definition start_output (f : flags_t) : prog output unit :=
  realloc_output_data f;;
  modify (fun o => o <| out := [] |>);;
  write_output 0;;
  mret tt.
