(* ===== verification/Ipc.v ===== *)
(** * Reading the executor's reports (pkg/ipc/ipc.go)

    [parseOutput] turns the words of the shared region into the information
    the fuzzer keeps of each call: result, flags, signal, coverage, operands of
    comparisons, memory accesses and the outcome of the scheduling points.
    The region is a list of 32-bit words; both sides run on one machine, so
    that the order of bytes plays no role. *)

From stdpp Require Import base list gmap sets strings.
From Stdlib Require Import ZArith Lia.
From S2P Require Import Prelude Accesses Comms Hints Threading Fuzzer.

Local Open Scope Z_scope.
Local Open Scope record_scope.

Definition outMagic : Z := 0xbadf00d.
Definition extraReplyIndex : Z := 0xffffffff.
Definition compSizeMask : Z := 6.
Definition compSize8 : Z := 6.
Definition compConstMask : Z := 1.

(** [prog.CompMap]. *)
Abbreviation CompMap := (gmap Z (gset Z)).

Definition AddComp (m : CompMap) (a1 a2 : Z) : CompMap := <[a1 := {[a2]} ∪ default ∅ (m !! a1)]> m.

(** [CallInfo]; nil slices and maps are empty ones. *)
Record call_info := mk_info {
  Flags : Z;
  Signal_ : list Z;
  Cover : list Z;
  Comps : CompMap;
  Access_ : SerialAccess;
  Errno : Z;
  Outcomes : list SchedpointOutcome;
  Info_Thread : Z;
  Info_Epoch : Z
}.

#[export] Instance call_info_eta : Eta call_info := fun i =>
  mk_info (Flags i) (Signal_ i) (Cover i) (Comps i) (Access_ i) (Errno i) (Outcomes i) (Info_Thread i)
    (Info_Epoch i).

Definition no_info : call_info := mk_info 0 [] [] ∅ [] 0 [] 0 0.

Record ProgInfo := mk_prog_info { Info_Calls : list call_info; Extra : call_info }.

(** What the fuzzer uses of it. *)
Definition fuzzer_info (i : call_info) : CallInfo := mk_call_info (Access_ i) (Flags i) (Outcomes i).

(** The header of a report. *)
Record callReply := mk_reply {
  magic : Z;
  index : Z;
  num : Z;
  errno : Z;
  reply_flags : Z;
  signalSize : Z;
  coverSize : Z;
  compsSize : Z;
  rfCoverSize : Z;
  footprintSize : Z
}.

(** The readers return the value and what is left, [None] when the text is too
    short. *)
Definition readReply (l : list Z) : option (callReply * list Z) :=
  match l with
  | a :: b :: c :: d :: e :: f :: g :: h :: i :: j :: l => Some (mk_reply a b c d e f g h i j, l)
  | _ => None
  end.

Definition readUint32 (l : list Z) : option (Z * list Z) :=
  match l with v :: l => Some (v, l) | [] => None end.

Definition readUint64 (l : list Z) : option (Z * list Z) :=
  match l with lo :: hi :: l => Some (lo + 2 ^ 32 * hi, l) | _ => None end.

Definition readUint32Array (l : list Z) (size : Z) : option (list Z * list Z) :=
  if size =? 0 then Some ([], l)
  else if alen l <? size then None
  else Some (take (Z.to_nat size) l, drop (Z.to_nat size) l).

(** Five words an access; the thread is that of the call. *)
Fixpoint accesses_of (thread : Z) (array : list Z) : SerialAccess :=
  match array with
  | a :: b :: c :: d :: e :: array => mk_access a b c d e thread :: accesses_of thread array
  | _ => []
  end.

Definition readReadFromCoverages (l : list Z) (size : Z) (inf : call_info)
    : option (SerialAccess * list Z) :=
  '(array, l) ← readUint32Array l (u32 (size * 5));
  if negb (Z.rem (alen array) 5 =? 0) then None
  else Some (accesses_of (Info_Thread inf) array, l).

(** A comparison: the values its operands were compared with.  The constant
    operand, which comes first, is not looked up. *)
Definition add_comparison (m : CompMap) (typ op1 op2 : Z) : CompMap :=
  if op1 =? op2 then m
  else
    let m := AddComp m op2 op1 in
    if negb (Z.land typ compConstMask =? 0) then m else AddComp m op1 op2.

Fixpoint comps_loop (n : nat) (m : CompMap) (l : list Z) : string + (CompMap * list Z) :=
  match n with
  | O => inr (m, l)
  | S n =>
      match readUint32 l with
      | None => inl "failed to read comp"
      | Some (typ, l) =>
          if Z.lor compConstMask compSizeMask <? typ then inl "bad comp type"
          else
            let ops :=
              if Z.land typ compSizeMask =? compSize8
              then '(op1, l) ← readUint64 l; '(op2, l) ← readUint64 l; Some (op1, op2, l)
              else '(op1, l) ← readUint32 l; '(op2, l) ← readUint32 l; Some (op1, op2, l) in
            match ops with
            | None => inl "failed to read comp op"
            | Some (op1, op2, l) => comps_loop n (add_comparison m typ op1 op2) l
            end
      end
  end.

Definition readComps (l : list Z) (compsSize : Z) : string + (CompMap * list Z) :=
  comps_loop (Z.to_nat compsSize) ∅ l.

Section parse.
(** The identifiers of the program's calls, and the order in which maps are
    read. *)
Context (ids : list Z) `{GoRange}.

Definition or_error {A} (msg : string) (o : option A) : string + A :=
  match o with Some a => inr a | None => inl msg end.

(** The report of a call that is in the program and has none yet. *)
Definition reply_info (p : Prog) (calls : list call_info) (r : callReply) : string + call_info :=
  match aget calls (index r), aget ids (index r), aget (Calls p) (index r) with
  | Some inf, Some id, Some c =>
      if negb (num r =? id) then inl "wrong call num"
      else if negb (Flags inf =? 0) || negb (bool_decide (Signal_ inf = [])) then inl "duplicate reply"
      else inr (mk_info (reply_flags r) (Signal_ inf) (Cover inf) (Comps inf) (Access_ inf) (errno r)
                  (Outcomes inf) (Call_Thread c) (Call_Epoch c))
  | _, _, _ => inl "bad call index"
  end.

(** What follows the header, in order. *)
Definition read_body (p : Prog) (r : callReply) (inf : call_info) (l : list Z)
    : string + (call_info * list Z) :=
  match readUint32Array l (signalSize r) with
  | None => inl "signal overflow"
  | Some (signal, l) =>
  match readUint32Array l (coverSize r) with
  | None => inl "cover overflow"
  | Some (cover, l) =>
  match readReadFromCoverages l (rfCoverSize r) inf with
  | None => inl "rfcover overflow"
  | Some (accs, l) =>
      let accs := if Threaded p && negb (IsContender (Contender_Calls p) (index r)) then [] else accs in
  match readComps l (compsSize r) with
  | inl e => inl e
  | inr (comps, l) =>
  match readFootprint l (footprintSize r) with
  | None => inl "footprint"
  | Some (outcomes, l) =>
      inr (mk_info (Flags inf) signal cover comps accs (Errno inf) outcomes (Info_Thread inf)
             (Info_Epoch inf), l)
  end end end end end.

(** One report: the calls, the extra parts and what is left. *)
Definition parse_report (p : Prog) (calls extra : list call_info) (l : list Z)
    : string + (list call_info * list call_info * list Z) :=
  match readReply l with
  | None => inl "failed to read call reply"
  | Some (r, l) =>
      if negb (magic r =? outMagic) then inl "bad reply magic"
      else if negb (index r =? extraReplyIndex) then
        match reply_info p calls r with
        | inl e => inl e
        | inr inf =>
            match read_body p r inf l with
            | inl e => inl e
            | inr (inf, l) => inr (aset calls (index r) inf, extra, l)
            end
        end
      else
        match read_body p r no_info l with
        | inl e => inl e
        | inr (inf, l) => inr (calls, extra ++ [inf], l)
        end
  end.

Fixpoint parse_reports (n : nat) (p : Prog) (calls extra : list call_info) (l : list Z)
    : string + (list call_info * list call_info) :=
  match n with
  | O => inr (calls, extra)
  | S n =>
      match parse_report p calls extra l with
      | inl e => inl e
      | inr (calls, extra, l) => parse_reports n p calls extra l
      end
  end.

(** Coverage and signal of the background threads; the signals are a set. *)
Definition convertExtra (extraParts : list call_info) (dedupCover : bool) : call_info :=
  let cover :=
    if dedupCover then range_set (⋃ ((fun part => list_to_set (Cover part) : gset Z) <$> extraParts))
    else part ← extraParts; Cover part in
  let signal := range_set (⋃ ((fun part => list_to_set (Signal_ part) : gset Z) <$> extraParts)) in
  mk_info 0 signal cover ∅ [] 0 [] 0 0.

Definition parseOutput (p : Prog) (dedupCover : bool) (out : list Z) : string + ProgInfo :=
  match readUint32 out with
  | None => inl "failed to read number of calls"
  | Some (ncmd, l) =>
      match parse_reports (Z.to_nat ncmd) p (replicate (length (Calls p)) no_info) [] l with
      | inl e => inl e
      | inr (calls, []) => inr (mk_prog_info calls no_info)
      | inr (calls, extraParts) => inr (mk_prog_info calls (convertExtra extraParts dedupCover))
      end
  end.
End parse.
