(* ===== verification/OutputSpec.v ===== *)
(** * The fuzzer reads what the executor reported

    A report is a header and five arrays.  [report_words] lays it out;
    [write_call_output] is shown to write the layout of a report that
    describes the call, and [parseOutput] to read every such layout back.  On
    the way: the deduplication of signals loses nothing but the signal 0, and
    the bitmap of the coverage filter is read within its bounds. *)

From stdpp Require Import base list gmap sets sorting strings.
From Stdlib Require Import ZArith Lia.
From S2P Require Import Prelude Accesses Comms Hints Threading Fuzzer Request Output Ipc.

Local Open Scope Z_scope.
Local Open Scope record_scope.

(** ** The layout of a report *)

(** A comparison as it is written: type and operands. *)
Record comp := mk_comp { comp_type : Z; op1 : Z; op2 : Z }.

Definition comp_wide (c : comp) : bool := Z.land (comp_type c) compSizeMask =? compSize8.

Definition comp_words (c : comp) : list Z :=
  comp_type c ::
  if comp_wide c
  then [u32 (op1 c); u32 (Z.shiftr (op1 c) 32); u32 (op2 c); u32 (Z.shiftr (op2 c) 32)]
  else [op1 c; op2 c].

Definition comp_ok (c : comp) : Prop :=
  0 <= comp_type c <= 7 /\
  if comp_wide c then 0 <= op1 c < 2 ^ 64 /\ 0 <= op2 c < 2 ^ 64 else True.

Record report := mk_report {
  r_index : Z;
  r_num : Z;
  r_errno : Z;
  r_flags : Z;
  r_signal : list Z;
  r_cover : list Z;
  r_accesses : list (list Z);
  r_comps : list comp;
  r_outcomes : list SchedpointOutcome
}.

Definition outcome_words (o : SchedpointOutcome) : list Z := [Outcome_Order o; Outcome_Footprint o].

Definition report_header (r : report) : list Z :=
  [outMagic; r_index r; r_num r; r_errno r; r_flags r; alen (r_signal r); alen (r_cover r);
   alen (r_comps r); alen (r_accesses r); alen (r_outcomes r)].

Definition report_body (r : report) : list Z :=
  r_signal r ++ r_cover r ++ concat (r_accesses r) ++ (r_comps r ≫= comp_words) ++
  (r_outcomes r ≫= outcome_words).

Definition report_words (r : report) : list Z := report_header r ++ report_body r.

Definition report_ok (r : report) : Prop :=
  Forall (fun w => length w = 5%nat) (r_accesses r) /\ 5 * alen (r_accesses r) < 2 ^ 32 /\
  Forall comp_ok (r_comps r) /\ 2 * alen (r_outcomes r) < 2 ^ 32.

(** ** Reading the layout *)

Lemma readUint32Array_app l rest : readUint32Array (l ++ rest) (alen l) = Some (l, rest).
Proof.
  unfold readUint32Array, alen. destruct l as [|x l]; [done|].
  destruct (Z.eqb_spec (Z.of_nat (length (x :: l))) 0) as [E|_]; [cbn in E; lia|].
  destruct (Z.ltb_spec (Z.of_nat (length ((x :: l) ++ rest))) (Z.of_nat (length (x :: l)))) as [E|_].
  { rewrite length_app in E. lia. }
  by rewrite Nat2Z.id, take_app_length, drop_app_length.
Qed.

Lemma alen_concat {A} (ls : list (list A)) n :
  Forall (fun w => length w = n) ls -> alen (concat ls) = Z.of_nat n * alen ls.
Proof.
  unfold alen. induction 1 as [|w ls Hw _ IH]; cbn [concat length]; [lia|].
  rewrite length_app, Nat2Z.inj_add, IH, Hw. lia.
Qed.

(** An access as it is written. *)
Definition access_of (thread : Z) (w : list Z) : Access :=
  match w with
  | [a; b; c; d; e] => mk_access a b c d e thread
  | _ => mk_access 0 0 0 0 0 thread
  end.

Lemma accesses_of_concat thread ws :
  Forall (fun w => length w = 5%nat) ws -> accesses_of thread (concat ws) = access_of thread <$> ws.
Proof.
  induction 1 as [|w ws Hw _ IH]; [done|]. cbn [concat fmap list_fmap].
  destruct w as [|a [|b [|c [|d [|e [|x w]]]]]]; try discriminate Hw. cbn. by rewrite IH.
Qed.

Lemma readReadFromCoverages_app ws rest inf :
  Forall (fun w => length w = 5%nat) ws -> 5 * alen ws < 2 ^ 32 ->
  readReadFromCoverages (concat ws ++ rest) (alen ws) inf =
  Some (access_of (Info_Thread inf) <$> ws, rest).
Proof.
  intros Hws Hlen. unfold readReadFromCoverages. pose proof (alen_nonneg ws).
  rewrite wrapu_id by lia. pose proof (alen_concat ws 5 Hws) as Ec.
  replace (alen ws * 5) with (alen (concat ws)) by lia. rewrite readUint32Array_app. cbn.
  rewrite Ec. replace (Z.of_nat 5 * alen ws) with (alen ws * 5) by lia.
  rewrite Z.rem_mul by done. cbn. by rewrite accesses_of_concat.
Qed.

Lemma u64_halves v : 0 <= v < 2 ^ 64 -> u32 v + 2 ^ 32 * u32 (Z.shiftr v 32) = v.
Proof.
  intros Hv. rewrite Z.shiftr_div_pow2 by lia. rewrite (wrapu_id 32 (v / 2 ^ 32)).
  - unfold wrapu. pose proof (Z.div_mod v (2 ^ 32) ltac:(lia)). lia.
  - split; [apply Z.div_pos; lia|]. apply Z.div_lt_upper_bound; lia.
Qed.

Definition add_comp (m : CompMap) (c : comp) : CompMap := add_comparison m (comp_type c) (op1 c) (op2 c).

Lemma comps_loop_app cs m rest :
  Forall comp_ok cs ->
  comps_loop (length cs) m ((cs ≫= comp_words) ++ rest) = inr (foldl add_comp m cs, rest).
Proof.
  intros Hcs. revert m. induction Hcs as [|c cs [Ht Hc] Hcs IH]; intros m; [done|].
  rewrite bind_cons. cbn [length comps_loop foldl]. unfold comp_words at 1. cbn [app readUint32].
  change (Z.lor compConstMask compSizeMask) with 7.
  destruct (Z.ltb_spec 7 (comp_type c)) as [E|_]; [lia|].
  unfold comp_wide in *. destruct (Z.land (comp_type c) compSizeMask =? compSize8); cbn.
  - rewrite !u64_halves by tauto. by rewrite IH.
  - by rewrite IH.
Qed.

Lemma read_outcomes_app os : read_outcomes (os ≫= outcome_words) = os.
Proof. induction os as [|[o fp] os IH]; [done|]. cbn. by rewrite IH. Qed.

Lemma readFootprint_app os rest :
  2 * alen os < 2 ^ 32 ->
  readFootprint ((os ≫= outcome_words) ++ rest) (alen os) = Some (os, rest).
Proof.
  intros Hlen. unfold readFootprint. pose proof (alen_nonneg os). rewrite wrapu_id by lia.
  assert (E : length (os ≫= outcome_words) = Z.to_nat (alen os * 2)).
  { clear. unfold alen. induction os as [|o os IH]; [done|]. rewrite bind_cons. cbn [length app].
    cbn. rewrite IH. lia. }
  rewrite <- E. destruct (Nat.ltb_spec (length ((os ≫= outcome_words) ++ rest)) (length (os ≫= outcome_words)))
    as [Hl|_]; [rewrite length_app in Hl; lia|].
  by rewrite take_app_length, drop_app_length, read_outcomes_app.
Qed.

(** What the fuzzer learns from a report on the call [c]. *)
Definition report_info (p : Prog) (r : report) (c : Call) : call_info :=
  mk_info (r_flags r) (r_signal r) (r_cover r) (foldl add_comp ∅ (r_comps r))
    (if Threaded p && negb (IsContender (Contender_Calls p) (r_index r)) then [] else access_of (Call_Thread c) <$> r_accesses r)
    (r_errno r) (r_outcomes r) (Call_Thread c) (Call_Epoch c).

Lemma read_body_app p r rep inf rest :
  report_ok r -> index rep = r_index r ->
  signalSize rep = alen (r_signal r) -> coverSize rep = alen (r_cover r) ->
  compsSize rep = alen (r_comps r) -> rfCoverSize rep = alen (r_accesses r) ->
  footprintSize rep = alen (r_outcomes r) ->
  read_body p rep inf (report_body r ++ rest) =
  inr (mk_info (Flags inf) (r_signal r) (r_cover r) (foldl add_comp ∅ (r_comps r))
         (if Threaded p && negb (IsContender (Contender_Calls p) (r_index r)) then []
          else access_of (Info_Thread inf) <$> r_accesses r)
         (Errno inf) (r_outcomes r) (Info_Thread inf) (Info_Epoch inf), rest).
Proof.
  intros (Ha & Hal & Hc & Ho) Ei Es Ec Ep Er Ef. unfold read_body, report_body.
  rewrite Es, Ec, Ep, Er, Ef, Ei, <- !app_assoc, !readUint32Array_app.
  rewrite readReadFromCoverages_app by done. unfold readComps, alen. rewrite Nat2Z.id.
  rewrite comps_loop_app by done. fold (alen (r_outcomes r)). by rewrite readFootprint_app.
Qed.

(** A report about a call of the program. *)
Definition report_for (p : Prog) (ids : list Z) (r : report) : Prop :=
  report_ok r /\ 0 <= r_index r < extraReplyIndex /\ is_Some (aget (Calls p) (r_index r)) /\
  aget ids (r_index r) = Some (r_num r).

Definition learn (p : Prog) (calls : list call_info) (r : report) : list call_info :=
  match aget (Calls p) (r_index r) with
  | Some c => aset calls (r_index r) (report_info p r c)
  | None => calls
  end.

Lemma parse_report_app p ids calls extra r rest :
  report_for p ids r -> aget calls (r_index r) = Some no_info ->
  parse_report ids p calls extra (report_words r ++ rest) = inr (learn p calls r, extra, rest).
Proof.
  intros (Hok & Hi & [c Hc] & Hid) Hf. unfold parse_report, report_words, report_header.
  rewrite <- app_assoc. cbn [app readReply magic index]. rewrite Z.eqb_refl. cbn [negb].
  destruct (Z.eqb_spec (r_index r) extraReplyIndex); [lia|]. cbn [negb].
  unfold reply_info. cbn [index num reply_flags errno]. rewrite Hf, Hid, Hc, Z.eqb_refl. cbn.
  erewrite read_body_app by done. unfold learn. by rewrite Hc.
Qed.

Lemma parse_reports_app p ids calls extra rs rest :
  Forall (report_for p ids) rs -> NoDup (r_index <$> rs) ->
  Forall (fun r => aget calls (r_index r) = Some no_info) rs ->
  parse_reports ids (length rs) p calls extra ((rs ≫= report_words) ++ rest) =
  inr (foldl (learn p) calls rs, extra).
Proof.
  intros Hrs. revert calls. induction Hrs as [|r rs Hr Hrs IH]; intros calls Hnd Hf; [done|].
  rewrite fmap_cons in Hnd. apply NoDup_cons in Hnd as [Hni Hnd].
  inversion Hf as [|?? Hf1 Hf2]; subst. rewrite bind_cons. cbn [length parse_reports].
  rewrite <- app_assoc, parse_report_app by done. cbn [foldl]. apply IH; [done|].
  rewrite Forall_forall in Hf2 |- *. intros r' Hr'. unfold learn.
  destruct (aget (Calls p) (r_index r)); [|by apply Hf2].
  rewrite aget_aset_ne; [by apply Hf2|]. intros E. apply Hni. rewrite E. by apply list_elem_of_fmap_2.
Qed.

Lemma learned p calls rs r c :
  NoDup (r_index <$> rs) -> r ∈ rs -> aget (Calls p) (r_index r) = Some c ->
  is_Some (aget calls (r_index r)) ->
  aget (foldl (learn p) calls rs) (r_index r) = Some (report_info p r c).
Proof.
  revert calls. induction rs as [|r' rs IH] using rev_ind; intros calls Hnd Hr Hc Hs; [set_solver|].
  rewrite foldl_app. cbn [foldl]. rewrite fmap_app in Hnd. apply NoDup_app in Hnd as (Hnd & Hdis & _).
  assert (Hlen : forall rs, is_Some (aget (foldl (learn p) calls rs) (r_index r))).
  { clear -Hs. intros rs. induction rs as [|x rs IH] using rev_ind; [done|].
    rewrite foldl_app. cbn [foldl]. unfold learn at 1. destruct (aget (Calls p) (r_index x)); [|done].
    apply aget_is_Some. rewrite alen_aset. by apply aget_is_Some. }
  unfold learn at 1. apply elem_of_app in Hr as [Hr|Hr].
  - assert (r_index r' <> r_index r) as Hne.
    { intros E. apply (Hdis (r_index r)); [by apply list_elem_of_fmap_2|]. cbn. rewrite E. set_solver. }
    destruct (aget (Calls p) (r_index r')); [rewrite aget_aset_ne by done|]; by apply IH.
  - apply list_elem_of_singleton in Hr as ->. rewrite Hc. apply aget_aset_eq, aget_is_Some, Hlen.
Qed.

Lemma not_learned p calls rs i :
  (forall r, r ∈ rs -> r_index r <> i) -> aget (foldl (learn p) calls rs) i = aget calls i.
Proof.
  revert calls. induction rs as [|r rs IH]; intros calls Hi; [done|]. cbn [foldl].
  rewrite IH by set_solver. unfold learn. destruct (aget (Calls p) (r_index r)); [|done].
  rewrite aget_aset_ne; [done|]. apply Hi. set_solver.
Qed.

(** The region: the number of reports and the reports. *)
Lemma parseOutput_reports p ids dedup_ rs rest `{GoRange} :
  Forall (report_for p ids) rs -> NoDup (r_index <$> rs) ->
  parseOutput ids p dedup_ (alen rs :: (rs ≫= report_words) ++ rest) =
  inr (mk_prog_info (foldl (learn p) (replicate (length (Calls p)) no_info) rs) no_info).
Proof.
  intros Hrs Hnd. unfold parseOutput. cbn [readUint32]. unfold alen. rewrite Nat2Z.id.
  rewrite parse_reports_app; [done|done|done|]. eapply Forall_impl; [exact Hrs|].
  intros r (_ & _ & Hs%aget_is_Some & _). by apply aget_replicate.
Qed.

(** ** Signals *)

Lemma shiftr_u32 a n : 0 <= a < 2 ^ 32 -> 0 <= n -> 0 <= Z.shiftr a n < 2 ^ 32.
Proof.
  intros Ha Hn. rewrite Z.shiftr_div_pow2 by done. assert (0 < 2 ^ n) by (apply Z.pow_pos_nonneg; lia).
  split; [apply Z.div_pos; lia|]. apply Z.div_lt_upper_bound; [done|]. nia.
Qed.

Lemma hash_range a : 0 <= hash a < 2 ^ 32.
Proof.
  unfold hash. apply lxor_u32; [by apply wrapu_range|]. apply shiftr_u32; [by apply wrapu_range|done].
Qed.

Definition edge (prev pc : Z) : Z := Z.lxor (u32 pc) (hash (u32 prev)).

Lemma edge_range prev pc : 0 <= edge prev pc < 2 ^ 32.
Proof. apply lxor_u32; [by apply wrapu_range|apply hash_range]. Qed.

(** The signals of a trace before deduplication: an edge is left out when both
    its ends are filtered out. *)
Fixpoint edges (passes : Z -> bool) (prev : Z) (prev_passes : bool) (pcs : list Z) : list Z :=
  match pcs with
  | [] => []
  | pc :: pcs =>
      (if passes pc || prev_passes then [edge prev pc] else []) ++ edges passes pc (passes pc) pcs
  end.

(** *** Deduplication

    [H] are the signals reported so far, the latest first. *)

(** Where signal [s] may displace signal [e]: its home is one of the four slots
    of [e]. *)
Definition collides (s e : Z) : bool := (s - e) `mod` dedup_table_size <? 4.

(** [e] was reported and no signal reported since collides with it. *)
Fixpoint remembered (H : list Z) (e : Z) : bool :=
  match H with
  | [] => false
  | s :: H => (s =? e) || (negb (collides s e) && remembered H e)
  end.

(** The slots of the signal 0, which marks free slots, are taken. *)
Definition zero_crowded (H : list Z) : Prop :=
  forall i, 0 <= i < 4 -> exists v, v ∈ H /\ v <> 0 /\ collides i v = true.

(** A signal that is reported. *)
Definition new_signal (H : list Z) (e : Z) : Prop :=
  (e <> 0 /\ remembered H e = false) \/ (e = 0 /\ zero_crowded H).

(** The history once [sigs] are reported. *)
Abbreviation after sigs H := (rev sigs ++ H).

(** The table after [H] was reported. *)
Record table_ok (H : list Z) (t : list Z) : Prop := {
  tb_len : alen t = dedup_table_size;
  tb_held p v : aget t p = Some v -> v = 0 \/ (v ∈ H /\ collides p v = true);
  tb_kept e : e <> 0 -> remembered H e = true -> exists i, 0 <= i < 4 /\
    aget t ((e + i) `mod` dedup_table_size) = Some e /\
    forall j, 0 <= j < i -> aget t ((e + j) `mod` dedup_table_size) <> Some 0
}.

Lemma collides_slot e i : 0 <= i < 4 -> collides ((e + i) `mod` dedup_table_size) e = true.
Proof.
  intros Hi. unfold collides. apply Z.ltb_lt. rewrite Zminus_mod_idemp_l.
  replace (e + i - e) with i by lia. change dedup_table_size with 8192. rewrite Z.mod_small; lia.
Qed.

Lemma slot_collides s e i :
  0 <= i < 4 -> (e + i) `mod` dedup_table_size = s `mod` dedup_table_size -> collides s e = true.
Proof.
  intros Hi E. rewrite <- (collides_slot e i Hi), E. unfold collides. by rewrite Zminus_mod_idemp_l.
Qed.

Lemma remembered_reported H e : remembered H e = true -> e ∈ H.
Proof.
  induction H as [|s H IH]; [done|]. cbn. intros [->%Z.eqb_eq|[_ Hr]%andb_true_iff]%orb_true_iff; [by left|].
  right. by apply IH.
Qed.

Lemma remembered_before s H e :
  s <> e -> remembered (s :: H) e = true -> collides s e = false /\ remembered H e = true.
Proof.
  intros Hne. cbn. apply Z.eqb_neq in Hne as ->. cbn. rewrite andb_true_iff, negb_true_iff. done.
Qed.

Lemma slot_wraps sig i : u32 (sig + i) `mod` dedup_table_size = (sig + i) `mod` dedup_table_size.
Proof.
  unfold wrapu. change dedup_table_size with (2 ^ 13). change (2 ^ 32) with (2 ^ 13 * 2 ^ 19).
  rewrite Z.rem_mul_r, Z.mul_comm, Z.mod_add, Z.mod_mod by done. done.
Qed.

(** Storing a reported signal: at a free slot, or at its home, which may
    displace a signal. *)
Lemma table_ok_set H t sig i :
  table_ok H t -> 0 <= i < 4 ->
  (forall j, 0 <= j < i -> aget t ((sig + j) `mod` dedup_table_size) <> Some 0) ->
  (sig <> 0 /\ aget t ((sig + i) `mod` dedup_table_size) = Some 0) \/ i = 0 ->
  table_ok (sig :: H) (aset t ((sig + i) `mod` dedup_table_size) sig).
Proof.
  intros Ht Hi Hbefore Hwhere. set (pos := (sig + i) `mod` dedup_table_size).
  assert (Hpos : 0 <= pos < alen t) by (rewrite (tb_len _ _ Ht); by apply Z.mod_pos_bound).
  split; [rewrite alen_aset; by apply Ht| |].
  - intros p v Hv. destruct (decide (p = pos)) as [->|Hp].
    + rewrite aget_aset_eq in Hv by done. injection Hv as <-. right. split; [by left|by apply collides_slot].
    + rewrite aget_aset_ne in Hv by done. destruct (tb_held _ _ Ht _ _ Hv) as [?|[? ?]]; [by left|].
      right. split; [by right|done].
  - intros e He Hr. destruct (decide (sig = e)) as [<-|Hne].
    { exists i. split; [done|]. fold pos. split; [by apply aget_aset_eq|]. intros j Hj E.
      destruct (decide ((sig + j) `mod` dedup_table_size = pos)) as [Ep|Ep].
      - rewrite Ep, aget_aset_eq in E by done. congruence.
      - rewrite aget_aset_ne in E by done. by apply (Hbefore j Hj). }
    apply remembered_before in Hr as [Hc Hr]; [|done].
    destruct (tb_kept _ _ Ht e He Hr) as (k & Hk & Ek & Hbk).
    assert (Hfar : forall j, 0 <= j <= k -> (e + j) `mod` dedup_table_size = pos ->
      sig <> 0 /\ aget t pos = Some 0).
    { intros j Hj Ep. destruct Hwhere as [Hw|E0]; [exact Hw|]. subst i. exfalso.
      unfold pos in Ep. rewrite Z.add_0_r in Ep. rewrite (slot_collides sig e j) in Hc by (done || lia). done. }
    exists k. split; [done|]. split.
    + rewrite aget_aset_ne; [done|]. intros Ep. destruct (Hfar k) as [_ E]; [lia|done|]. congruence.
    + intros j Hj E. destruct (decide ((e + j) `mod` dedup_table_size = pos)) as [Ep|Ep].
      * rewrite Ep, aget_aset_eq in E by done. destruct (Hfar j) as [Hs _]; [lia|done|]. congruence.
      * rewrite aget_aset_ne in E by done. by apply (Hbk j Hj).
Qed.

(** A remembered signal is found in its slots. *)
Lemma remembered_found H t sig i :
  table_ok H t -> 0 <= i -> sig <> 0 -> remembered H sig = true ->
  (forall j, 0 <= j < i -> exists v, aget t ((sig + j) `mod` dedup_table_size) = Some v /\ v <> sig) ->
  i < 4 /\ aget t ((sig + i) `mod` dedup_table_size) <> Some 0.
Proof.
  intros Ht H0 Hs Hr Hb. destruct (tb_kept _ _ Ht sig Hs Hr) as (k & Hk & Ek & Hbk).
  assert (i <= k).
  { destruct (Z.le_gt_cases i k) as [|Hlt]; [done|]. destruct (Hb k) as (v & E & Hv); [lia|]. congruence. }
  split; [lia|]. intros E. destruct (decide (i = k)) as [->|]; [congruence|]. apply (Hbk i); [lia|done].
Qed.

(** [dedup] suppresses only the signal 0 and signals reported before, and it
    suppresses the remembered ones. *)
Lemma dedup_loop_run H n i sig l sz t c x :
  table_ok H t -> 0 <= i -> i + Z.of_nat n = 4 ->
  (forall j, 0 <= j < i -> exists v, aget t ((sig + j) `mod` dedup_table_size) = Some v /\ v <> sig /\ v <> 0) ->
  exists b t',
    dedup_loop n i sig (mk_output l sz t c x) = Ret b (mk_output l sz t' c x) /\
    if b : bool then t' = t /\ (sig = 0 \/ sig ∈ H) else table_ok (sig :: H) t' /\ new_signal H sig.
Proof.
  intros Ht. revert i. induction n as [|n IH]; intros i H0 Hn Hb; cbn [dedup_loop].
  { eexists false, _. split; [reflexivity|]. split.
    - pose proof (table_ok_set H t sig 0 Ht) as Hset. rewrite Z.add_0_r in Hset. apply Hset; [lia|lia|by right].
    - destruct (decide (sig = 0)) as [->|Hs]; [right|left]; (split; [done|]).
      + intros j Hj. destruct (Hb j) as (v & E & _ & Hv); [lia|]. exists v.
        rewrite Z.add_0_l, Z.mod_small in E by (change dedup_table_size with 8192; lia).
        destruct (tb_held _ _ Ht _ _ E) as [?|[? ?]]; [done|]. done.
      + apply not_true_iff_false. intros Hr.
        destruct (remembered_found H t sig i Ht H0 Hs Hr) as [? _]; [|lia].
        intros j Hj. destruct (Hb j Hj) as (v & ? & ? & _). by exists v. }
  rewrite slot_wraps. set (pos := (sig + i) `mod` dedup_table_size).
  assert (Hpos : is_Some (aget t pos)).
  { apply aget_is_Some. rewrite (tb_len _ _ Ht). by apply Z.mod_pos_bound. }
  destruct Hpos as [v Hv]. erewrite bind_run by reflexivity. cbn [dedup_table].
  erewrite bind_run by (rewrite Hv; reflexivity). destruct (Z.eqb_spec v sig) as [->|Hvs].
  { exists true, t. split; [reflexivity|]. split; [done|]. destruct (tb_held _ _ Ht _ _ Hv) as [?|[? _]]; auto. }
  destruct (Z.eqb_spec v 0) as [->|Hv0].
  - eexists false, _. split; [reflexivity|]. split.
    + apply (table_ok_set H t sig i); [done|lia| |left; split; [congruence|done]].
      intros j Hj E. destruct (Hb j Hj) as (v & E' & _ & ?). congruence.
    + left. split; [done|]. apply not_true_iff_false. intros Hr.
      destruct (remembered_found H t sig i Ht H0) as [_ Hf]; [done|done| |by apply Hf].
      intros j Hj. destruct (Hb j Hj) as (v & ? & ? & _). by exists v.
  - apply IH; [lia|lia|]. intros j Hj. destruct (decide (j = i)) as [->|]; [by exists v|]. apply Hb. lia.
Qed.

Lemma dedup_run H sig l sz t c x :
  table_ok H t -> exists b t',
    dedup sig (mk_output l sz t c x) = Ret b (mk_output l sz t' c x) /\
    if b : bool then t' = t /\ (sig = 0 \/ sig ∈ H) else table_ok (sig :: H) t' /\ new_signal H sig.
Proof. intros Ht. apply dedup_loop_run; [done|done|done|lia]. Qed.

Section writing.
Context (f : flags_t) (cov_filter : option cov_filter_t) (output_data : Z) `{StdSort}.

(** A filter read from a file of the right size. *)
Definition cov_filter_ok (cf : cov_filter_t) : Prop :=
  0 <= pcstart cf < 2 ^ 32 /\ 0 <= pcsize cf < 2 ^ 32 /\
  alen (bitmap cf) = Z.shiftr (pcsize cf) 4 / 8 + 2 /\
  Forall (fun b => 0 <= b < 256) (bitmap cf).

Definition filter_ok : Prop :=
  flag_coverage_filter f = true -> exists cf, cov_filter = Some cf /\ cov_filter_ok cf.

(** The addresses the filter lets through. *)
Definition passes (pc : Z) : bool :=
  if negb (flag_coverage_filter f) then true
  else match cov_filter with
  | None => false
  | Some cf =>
      let pc32 := u32 pc in
      let at_ := Z.shiftr (pc32 - pcstart cf) 4 in
      (pcstart cf <=? pc32) && (pc32 <=? u32 (pcstart cf + pcsize cf)) &&
      Z.testbit (default 0 (aget (bitmap cf) (at_ / 8))) (at_ `mod` 8)
  end.

Lemma land_bit b n : 0 <= n -> 0 <= b -> (0 <? Z.land b (Z.shiftl 1 n)) = Z.testbit b n.
Proof.
  intros Hn Hb. assert (E : Z.land b (Z.shiftl 1 n) = if Z.testbit b n then 2 ^ n else 0).
  { apply Z.bits_inj'. intros k Hk. rewrite Z.land_spec, Z.shiftl_1_l.
    destruct (decide (k = n)) as [->|Hkn].
    - rewrite Z.pow2_bits_true by done. destruct (Z.testbit b n); [by rewrite Z.pow2_bits_true|].
      by rewrite Z.bits_0.
    - rewrite Z.pow2_bits_false, andb_false_r by done. destruct (Z.testbit b n);
        [by rewrite Z.pow2_bits_false|by rewrite Z.bits_0]. }
  rewrite E. pose proof (Z.pow_pos_nonneg 2 n ltac:(lia) Hn). destruct (Z.testbit b n);
    [by apply Z.ltb_lt|done].
Qed.

(** The bitmap is read within its bounds, also when the end of the range of
    addresses overflows. *)
Lemma coverage_filter_run pc o :
  filter_ok -> coverage_filter f cov_filter pc o = Ret (passes pc) o.
Proof.
  unfold filter_ok, coverage_filter, passes. intros Hok.
  destruct (flag_coverage_filter f); [|done]. cbn [negb].
  destruct (Hok eq_refl) as (cf & -> & Hs & Hz & Hb & Hbytes). clear Hok.
  change 0xffffffff with (Z.ones 32). rewrite Z.land_ones by done. fold (wrapu 32 pc).
  rewrite (wrapu_id 32 (u32 pc)) by (by apply wrapu_range).
  pose proof (wrapu_range 32 pc ltac:(lia)) as Hp.
  pose proof (wrapu_range 32 (pcstart cf + pcsize cf) ltac:(lia)) as He.
  destruct (Z.ltb_spec (u32 pc) (pcstart cf)), (Z.leb_spec (pcstart cf) (u32 pc)); try lia; [done|].
  destruct (Z.ltb_spec (u32 (pcstart cf + pcsize cf)) (u32 pc)),
    (Z.leb_spec (u32 pc) (u32 (pcstart cf + pcsize cf))); try lia; [done|]. cbn [orb andb].
  rewrite (wrapu_id 32 (u32 pc - pcstart cf)) by lia.
  assert (Hle : u32 pc - pcstart cf <= pcsize cf).
  { unfold wrapu in *. destruct (Z.lt_ge_cases (pcstart cf + pcsize cf) (2 ^ 32)).
    - rewrite (Z.mod_small (pcstart cf + pcsize cf)) in * by lia. lia.
    - replace ((pcstart cf + pcsize cf) `mod` 2 ^ 32) with (pcstart cf + pcsize cf - 2 ^ 32) in *; [lia|].
      apply (Z.mod_unique_pos _ _ 1); lia. }
  rewrite !Z.shiftr_div_pow2 in * by done. change (2 ^ 4) with 16 in *.
  set (k := (u32 pc - pcstart cf) / 16).
  assert (0 <= k <= pcsize cf / 16) by (split; [apply Z.div_pos; lia|apply Z.div_le_mono; lia]).
  assert (Hs2 : is_Some (aget (bitmap cf) (k / 8))).
  { apply aget_is_Some. rewrite Hb. split; [apply Z.div_pos; lia|].
    assert (k / 8 <= pcsize cf / 16 / 8) by (apply Z.div_le_mono; lia). lia. }
  destruct Hs2 as [b Hb2]. rewrite Hb2. erewrite bind_run by reflexivity. cbn [default].
  unfold mret, prog_ret. f_equal. apply land_bit; [apply Z.mod_pos_bound; lia|].
  rewrite Forall_forall in Hbytes. unfold aget in Hb2. destruct (k / 8 <? 0); [done|].
  apply list_elem_of_lookup_2, Hbytes in Hb2. unfold id. lia.
Qed.

(** The ways in which reporting may end the executor. *)
Definition may_stop (s : string) : Prop := s = "output overflow" \/ s = "got bad pc" \/ s = "SIGBUS".

Lemma stop_overflow : may_stop "output overflow".
Proof. by left. Qed.
Lemma stop_bad_pc : may_stop "got bad pc".
Proof. by right; left. Qed.
Lemma stop_sigbus : may_stop "SIGBUS".
Proof. by right; right. Qed.

Lemma wp_write_output v Q l sz t c x :
  Q (alen l) (mk_output (l ++ [u32 v]) sz t c x) ->
  wp may_stop (write_output v) Q (mk_output l sz t c x).
Proof.
  intros HQ. unfold write_output. apply wp_bind, wp_gets. unfold id. cbn [out output_size].
  apply wp_if; intros _; [apply stop_overflow|]. apply wp_if; intros _; [apply stop_sigbus|done].
Qed.

Lemma wp_write_output_64 v Q l sz t c x :
  Q (alen l + 2) (mk_output (l ++ [u32 v; u32 (Z.shiftr v 32)]) sz t c x) ->
  wp may_stop (write_output_64 v) Q (mk_output l sz t c x).
Proof.
  intros HQ. unfold write_output_64. apply wp_bind, wp_gets. unfold id. cbn [out output_size].
  apply wp_if; intros _; [apply stop_overflow|]. apply wp_if; intros _; [apply stop_sigbus|done].
Qed.

Lemma wp_write_all {A} (g : A -> Z) xs Q l sz t c x :
  Q tt (mk_output (l ++ ((fun y => u32 (g y)) <$> xs)) sz t c x) ->
  wp may_stop (foreach xs (fun y => write_output (g y);; mret tt)) Q (mk_output l sz t c x).
Proof.
  revert l. induction xs as [|y xs IH]; intros l HQ; [by rewrite app_nil_r in HQ|].
  cbn [foreach]. apply wp_bind, wp_bind, wp_write_output, wp_ret, IH.
  rewrite <- app_assoc. exact HQ.
Qed.

(** The signals [sigs] reported for the edges [es], in order: an edge left out
    is 0 or was reported before; an edge reported is new. *)
Fixpoint signals_of (H es sigs : list Z) : Prop :=
  match es with
  | [] => sigs = []
  | e :: es =>
      ((e = 0 \/ e ∈ H) /\ signals_of H es sigs) \/
      exists sigs', sigs = e :: sigs' /\ new_signal H e /\ signals_of (e :: H) es sigs'
  end.

(** The loop over a trace; [nsig] counts what is written. *)
Lemma wp_signal_loop n cov i prev pf nsig pcs H0 l sz t c x :
  filter_ok -> table_ok H0 t -> length pcs = n -> 0 <= nsig -> nsig + Z.of_nat n < 2 ^ 32 ->
  (forall k pc, pcs !! k = Some pc ->
     exists d, aget (cov_data cov) (i + Z.of_nat k + 1) = Some d /\ pc = u64 (d + pc_offset cov)) ->
  wp may_stop (signal_loop f cov_filter n cov i prev pf nsig)
    (fun nsig' o' => exists sigs t', o' = mk_output (l ++ sigs) sz t' c x /\
       table_ok (after sigs H0) t' /\ nsig' = nsig + alen sigs /\ alen sigs <= Z.of_nat n /\
       Forall (fun s => 0 <= s < 2 ^ 32) sigs /\ signals_of H0 (edges passes prev pf pcs) sigs)
    (mk_output l sz t c x).
Proof.
  intros Hf. revert i prev pf nsig pcs H0 l t.
  induction n as [|n IH]; intros i prev pf nsig pcs H0 l t Ht Hn Hns Hlt Hpcs.
  { destruct pcs; [|done]. cbn [signal_loop]. apply wp_ret. exists [], t. rewrite app_nil_r.
    split_and!; [done| |unfold alen; cbn; lia|done|constructor|done]. done. }
  destruct pcs as [|pc pcs]; [done|]. cbn [length] in Hn. injection Hn as Hn.
  destruct (Hpcs 0%nat pc eq_refl) as (d & Hd & Epc). rewrite Z.add_0_r in Hd.
  cbn [signal_loop]. apply wp_bind, wp_deref. exists d. split; [done|]. rewrite <- Epc.
  apply wp_bind. unfold use_cover_edges. apply wp_if; intros _; [apply stop_bad_pc|]. apply wp_ret. cbv iota.
  fold (edge prev pc). apply wp_bind. eapply wp_run; [by apply coverage_filter_run|].
  assert (Hrest : forall k pc', pcs !! k = Some pc' ->
    exists d, aget (cov_data cov) (i + 1 + Z.of_nat k + 1) = Some d /\ pc' = u64 (d + pc_offset cov)).
  { intros k pc' Hk. destruct (Hpcs (S k) pc' Hk) as (d' & Hd' & E'). exists d'. split; [|done].
    rewrite <- Hd'. f_equal. lia. }
  assert (Hkeep : negb (passes pc) && negb pf = negb (passes pc || pf)) by (by rewrite negb_orb).
  rewrite Hkeep. cbn [edges]. destruct (passes pc || pf); cbn [negb].
  - apply wp_bind. destruct (dedup_run H0 (edge prev pc) l sz t c x Ht) as (b & t' & E & Hb).
    eapply wp_run; [exact E|]. destruct b.
    + destruct Hb as [-> Hb]. apply wp_bind, wp_ret.
      eapply wp_mono; [apply (IH _ _ _ _ pcs H0); [done|done|lia|lia|done]|].
      intros nsig' o' (sigs & t2 & -> & Ht2 & -> & Hl & Hr & Hs). exists sigs, t2.
      split_and!; [done|done|done|lia|done|]. by left.
    + destruct Hb as [Ht' Hnew]. apply wp_bind, wp_bind, wp_write_output, wp_ret.
      rewrite (wrapu_id 32 (edge prev pc)) by apply edge_range. rewrite wrapu_id by lia.
      eapply wp_mono; [apply (IH _ _ _ _ pcs (edge prev pc :: H0)); [done|done|lia|lia|done]|].
      intros nsig' o' (sigs & t2 & -> & Ht2 & -> & Hl & Hr & Hs).
      exists (edge prev pc :: sigs), t2. rewrite <- app_assoc, alen_cons. cbn [rev]. rewrite <- app_assoc.
      split_and!; [done|done|lia|lia|constructor; [apply edge_range|done]|]. right. by exists sigs.
  - apply wp_bind, wp_ret. apply wp_bind, wp_ret.
    eapply wp_mono; [apply (IH _ _ _ _ pcs H0); [done|done|lia|lia|done]|].
    intros nsig' o' (sigs & t2 & -> & Ht2 & -> & Hl & Hr & Hs). exists sigs, t2.
    split_and!; [done|done|done|lia|done|done].
Qed.
(** ** The parts of a report *)

Lemma aset_middle (l0 h b : list Z) k v :
  0 <= k < alen h -> aset (l0 ++ h ++ b) (alen l0 + k) v = l0 ++ aset h k v ++ b.
Proof.
  intros Hk. unfold aset, alen in *. destruct (Z.ltb_spec (Z.of_nat (length l0) + k) 0); [lia|].
  destruct (Z.ltb_spec k 0); [lia|].
  replace (Z.to_nat (Z.of_nat (length l0) + k)) with (length l0 + Z.to_nat k)%nat by lia.
  rewrite insert_app_r. f_equal. rewrite insert_app_l by lia. done.
Qed.

Lemma wp_fill k v Q l0 h b sz t c x :
  0 <= k < alen h -> Q tt (mk_output (l0 ++ aset h k (u32 v) ++ b) sz t c x) ->
  wp may_stop (fill (alen l0 + k) v) Q (mk_output (l0 ++ h ++ b) sz t c x).
Proof. intros Hk HQ. unfold fill, set. apply wp_modify. cbn. by rewrite aset_middle. Qed.

Lemma wp_foreach_push {A} (g : A -> list Z) (xs : list A) body Q l sz t c x :
  (forall y l Q, y ∈ xs -> Q tt (mk_output (l ++ g y) sz t c x) ->
     wp may_stop (body y) Q (mk_output l sz t c x)) ->
  Q tt (mk_output (l ++ (xs ≫= g)) sz t c x) ->
  wp may_stop (foreach xs body) Q (mk_output l sz t c x).
Proof.
  revert l. induction xs as [|y xs IH]; intros l Hb HQ; [by rewrite app_nil_r in HQ|].
  cbn [foreach]. apply wp_bind, Hb; [set_solver|]. apply IH; [intros; apply Hb; set_solver|].
  by rewrite <- app_assoc.
Qed.

(** *** Code coverage *)

Definition raw_pcs (cov : cover_t) : list Z := take (Z.to_nat (cov_size cov)) (drop 1 (cov_data cov)).
Definition trace_pcs (cov : cover_t) : list Z := (fun d => u64 (d + pc_offset cov)) <$> raw_pcs cov.
Definition reported_pcs (cov : cover_t) : list Z :=
  (fun pc => u32 (pc + pc_offset cov)) <$>
  (if flag_dedup_cover f then std_unique Z.eqb (merge_sort Z.le (raw_pcs cov)) else raw_pcs cov).

(** A buffer of addresses that holds as many as were counted. *)
Definition code_cover_ok (cov : cover_t) : Prop :=
  cov_typ cov = code_coverage /\ 0 <= cov_size cov < 2 ^ 32 /\ cov_size cov + 1 <= alen (cov_data cov).

Lemma raw_pcs_length cov : code_cover_ok cov -> Z.of_nat (length (raw_pcs cov)) = cov_size cov.
Proof.
  intros (_ & Hs & Hl). unfold raw_pcs, alen in *. rewrite length_take, length_drop. lia.
Qed.

Lemma unique_from_length {A} (eqb : A -> A -> bool) x l :
  (length (unique_from eqb x l) <= S (length l))%nat.
Proof.
  revert x. induction l as [|y l IH]; intros x; [done|]. cbn. destruct (eqb x y); cbn.
  - specialize (IH x). lia.
  - specialize (IH y). lia.
Qed.

Lemma std_unique_length {A} (eqb : A -> A -> bool) l : (length (std_unique eqb l) <= length l)%nat.
Proof. destruct l; [done|]. apply unique_from_length. Qed.

Lemma reported_pcs_length cov : code_cover_ok cov -> alen (reported_pcs cov) <= cov_size cov.
Proof.
  intros Hok. rewrite <- (raw_pcs_length cov Hok). unfold reported_pcs, alen. rewrite length_fmap.
  destruct (flag_dedup_cover f); [|done].
  pose proof (std_unique_length Z.eqb (merge_sort Z.le (raw_pcs cov))).
  pose proof (Permutation_length (merge_sort_Permutation Z.le (raw_pcs cov))). lia.
Qed.

(** What is written of a trace, when [H0] was reported before. *)
Definition code_part (H0 : list Z) (cov : cover_t) (sigs covs : list Z) : Prop :=
  (if flag_collect_signal f then signals_of H0 (edges passes 0 true (trace_pcs cov)) sigs else sigs = []) /\
  covs = (if flag_collect_cover f then reported_pcs cov else []).

(** The header when signals and addresses are written. *)
Definition code_header (h : list Z) (sigs covs : list Z) : list Z := aset (aset h 5 (alen sigs)) 6 (alen covs).

Lemma wp_code_signal cov H0 l0 h b sz t c x (Q : unit -> output -> Prop) :
  filter_ok -> table_ok H0 t -> code_cover_ok cov -> alen h = 10 -> aget h 5 = Some 0 ->
  (forall sigs t', table_ok (after sigs H0) t' ->
     (if flag_collect_signal f then signals_of H0 (edges passes 0 true (trace_pcs cov)) sigs else sigs = []) ->
     Q tt (mk_output (l0 ++ aset h 5 (alen sigs) ++ b ++ sigs) sz t' c x)) ->
  wp may_stop
    (if flag_collect_signal f
     then nsig ← signal_loop f cov_filter (Z.to_nat (cov_size cov)) cov 0 0 true 0; fill (alen l0 + 5) nsig
     else mret tt) Q (mk_output (l0 ++ h ++ b) sz t c x).
Proof.
  intros Hf Ht Hok Hh H5 HQ. destruct (flag_collect_signal f).
  - pose proof (raw_pcs_length cov Hok) as Hl. pose proof Hok as (_ & Hs & _).
    apply wp_bind. eapply wp_mono.
    { apply (wp_signal_loop _ _ _ _ _ _ (trace_pcs cov) H0); [done|done| |done|lia|].
      - unfold trace_pcs. rewrite length_fmap. lia.
      - intros k pc Hk. unfold trace_pcs in Hk. apply list_lookup_fmap_Some in Hk as (d & -> & Hk).
        exists d. split; [|done]. unfold raw_pcs in Hk. apply lookup_take_Some in Hk as [Hk _].
        rewrite lookup_drop in Hk. unfold aget. destruct (Z.ltb_spec (0 + Z.of_nat k + 1) 0); [lia|].
        rewrite <- Hk. f_equal. lia. }
    intros nsig o' (sigs & t' & -> & Ht' & -> & Hn & Hr & Hsig). rewrite <- !app_assoc.
    apply wp_fill; [lia|]. rewrite Z.add_0_l, wrapu_id by (pose proof (alen_nonneg sigs); lia). by apply HQ.
  - apply wp_ret. specialize (HQ [] t). rewrite app_nil_r in HQ. change (alen []) with 0 in HQ.
    rewrite (aset_id h 5 0) in HQ by done. by apply HQ.
Qed.

Lemma wp_code_coverage cov H0 l0 h sz t c x (Q : unit -> output -> Prop) :
  filter_ok -> table_ok H0 t -> code_cover_ok cov -> alen h = 10 ->
  aget h 5 = Some 0 -> aget h 6 = Some 0 ->
  (forall sigs covs t', table_ok (after sigs H0) t' -> code_part H0 cov sigs covs ->
     Q tt (mk_output (l0 ++ code_header h sigs covs ++ sigs ++ covs) sz t' c x)) ->
  wp may_stop (write_coverage_signal f cov_filter cov (Some (alen l0 + 5)) (alen l0 + 6)) Q
    (mk_output (l0 ++ h ++ []) sz t c x).
Proof.
  intros Hf Ht Hok Hh H5 H6 HQ. pose proof Hok as (Hty & Hs & Hl). unfold write_coverage_signal.
  rewrite Hty. apply wp_bind.
  assert (Hpos : forall Q', Q' (alen l0 + 5) (mk_output (l0 ++ h ++ []) sz t c x) ->
    wp may_stop (if flag_collect_signal f then deref "signal_count_pos" (Some (alen l0 + 5))
                 else mret (default 0 (Some (alen l0 + 5)))) Q' (mk_output (l0 ++ h ++ []) sz t c x)).
  { intros Q' HQ'. by destruct (flag_collect_signal f). }
  apply Hpos. clear Hpos. unfold write_code_coverage_signal. apply wp_bind.
  apply (wp_code_signal cov H0); [done..|]. intros sigs t' Ht' Hsig. cbn [app].
  assert (Hh' : alen (aset h 5 (alen sigs)) = 10) by (by rewrite alen_aset).
  destruct (flag_collect_cover f) eqn:Hcc.
  - apply wp_bind, wp_deref. exists (raw_pcs cov). split.
    { unfold cover_pcs. fold (raw_pcs cov). by rewrite raw_pcs_length, Z.eqb_refl. }
    apply wp_bind. rewrite app_assoc.
    apply (wp_write_all (fun pc => pc + pc_offset cov)).
    pose proof (reported_pcs_length cov Hok) as Hr. rewrite <- !app_assoc. apply wp_fill; [lia|].
    specialize (HQ sigs (reported_pcs cov) t' Ht'). unfold code_header in HQ.
    assert (E : alen (reported_pcs cov) =
      alen (if flag_dedup_cover f then std_unique Z.eqb (merge_sort Z.le (raw_pcs cov)) else raw_pcs cov)).
    { unfold reported_pcs, alen. by rewrite length_fmap. }
    rewrite <- E, wrapu_id by (pose proof (alen_nonneg (reported_pcs cov)); lia).
    apply HQ. split; [done|]. by rewrite Hcc.
  - apply wp_ret. specialize (HQ sigs [] t' Ht'). unfold code_header in HQ.
    change (alen []) with 0 in HQ. rewrite app_nil_r, (aset_id _ 6 0) in HQ; [|].
    + apply HQ. split; [done|]. by rewrite Hcc.
    + by rewrite aget_aset_ne.
Qed.
(** *** Memory accesses *)

(** The words of access [i], truncated. *)
Definition access_words (cov : cover_t) (i : Z) : list Z :=
  u32 <$> take 5 (drop (Z.to_nat (5 * (i + 1))) (cov_data cov)).
Definition reported_accesses (cov : cover_t) : list (list Z) := access_words cov <$> seqZ 0 (cov_size cov).

(** A buffer of accesses that holds as many as were counted. *)
Definition access_cover_ok (cov : cover_t) : Prop :=
  cov_typ cov = read_from_coverage /\ 0 <= cov_size cov < kCoverSize /\
  5 * (cov_size cov + 1) <= alen (cov_data cov).

Lemma access_words_length cov i :
  access_cover_ok cov -> 0 <= i < cov_size cov ->
  length (take 5 (drop (Z.to_nat (5 * (i + 1))) (cov_data cov))) = 5%nat.
Proof. intros (_ & Hs & Hl) Hi. unfold alen in Hl. rewrite length_take, length_drop. lia. Qed.

Lemma reported_accesses_ok cov :
  access_cover_ok cov ->
  Forall (fun w => length w = 5%nat) (reported_accesses cov) /\ alen (reported_accesses cov) = cov_size cov.
Proof.
  intros Hok. pose proof Hok as (_ & Hs & _). split.
  - apply Forall_fmap, Forall_seqZ. intros i Hi. unfold compose, access_words. rewrite length_fmap.
    apply access_words_length; [done|lia].
  - unfold reported_accesses, alen. rewrite length_fmap, length_seqZ. lia.
Qed.

Lemma wp_access_coverage cov l0 h b sz t c x (Q : unit -> output -> Prop) :
  access_cover_ok cov -> alen h = 10 ->
  Q tt (mk_output (l0 ++ aset h 8 (alen (reported_accesses cov)) ++ b ++ concat (reported_accesses cov)) sz t c x) ->
  wp may_stop (write_coverage_signal f cov_filter cov None (alen l0 + 8)) Q
    (mk_output (l0 ++ h ++ b) sz t c x).
Proof.
  intros Hok Hh HQ. pose proof Hok as (Hty & Hs & Hl). unfold write_coverage_signal. rewrite Hty.
  unfold write_read_from_coverage_signal. apply wp_bind.
  apply (wp_foreach_push (access_words cov)).
  - intros i l Q' Hi%elem_of_seqZ HQ'. unfold write_access. apply wp_bind, wp_deref.
    eexists. split.
    { unfold read_access. by rewrite access_words_length by (done || lia). }
    by apply (wp_write_all (fun w => w)).
  - rewrite <- !app_assoc. apply wp_fill; [lia|].
    rewrite (proj2 (reported_accesses_ok cov Hok)) in HQ. change kCoverSize with 262144 in Hs.
    rewrite wrapu_id by lia. unfold reported_accesses in HQ.
    by rewrite <- flat_map_concat_map in HQ.
Qed.

(** *** Comparisons *)

Definition comparison_ok (c : kcov_comparison_t) : Prop :=
  0 <= cmp_type c <= 7 /\ 0 <= arg1 c < 2 ^ 64 /\ 0 <= arg2 c < 2 ^ 64.

(** A comparison as it is written: narrow operands are sign-extended to 32
    bits. *)
Definition written_comp (c : kcov_comparison_t) : comp :=
  let size := Z.land (cmp_type c) KCOV_CMP_SIZE_MASK in
  let narrow v :=
    if size =? KCOV_CMP_SIZE1 then u32 (u64 (wraps 8 v))
    else if size =? KCOV_CMP_SIZE2 then u32 (u64 (wraps 16 v))
    else if size =? KCOV_CMP_SIZE4 then u32 (u64 (wraps 32 v))
    else v in
  mk_comp (cmp_type c) (narrow (arg1 c)) (narrow (arg2 c)).

Lemma cmp_size_cases ty :
  0 <= ty <= 7 -> Z.land ty KCOV_CMP_SIZE_MASK ∈ [KCOV_CMP_SIZE1; KCOV_CMP_SIZE2; KCOV_CMP_SIZE4; KCOV_CMP_SIZE8].
Proof.
  intros Hty. assert (Hin : ty ∈ seqZ 0 8) by (apply elem_of_seqZ; lia). revert Hin.
  change (seqZ 0 8) with [0; 1; 2; 3; 4; 5; 6; 7]. rewrite !elem_of_cons, elem_of_nil.
  intros Hin. destruct_or?; subst; vm_compute; set_solver.
Qed.

Lemma written_comp_ok c : comparison_ok c -> comp_ok (written_comp c).
Proof.
  intros (Ht & H1 & H2). split; [done|]. unfold comp_wide, written_comp. cbn [comp_type op1 op2].
  change compSizeMask with KCOV_CMP_SIZE_MASK. change compSize8 with KCOV_CMP_SIZE8.
  destruct (Z.eqb_spec (Z.land (cmp_type c) KCOV_CMP_SIZE_MASK) KCOV_CMP_SIZE8) as [->|]; [|done].
  cbn. done.
Qed.

Lemma wp_comparison_write cmp l sz t c x (Q : unit -> output -> Prop) :
  comparison_ok cmp -> Q tt (mk_output (l ++ comp_words (written_comp cmp)) sz t c x) ->
  wp may_stop (comparison_write cmp) Q (mk_output l sz t c x).
Proof.
  intros (Ht & H1 & H2) HQ. unfold comparison_write.
  change (Z.lor KCOV_CMP_CONST KCOV_CMP_SIZE_MASK) with 7.
  apply wp_if; intros E; [apply Z.ltb_lt in E; lia|]. apply wp_bind, wp_write_output.
  rewrite (wrapu_id 32 (cmp_type cmp)) by lia.
  unfold comp_words, written_comp, comp_wide in HQ. cbn [comp_type op1 op2] in HQ.
  change compSizeMask with KCOV_CMP_SIZE_MASK in HQ. change compSize8 with KCOV_CMP_SIZE8 in HQ.
  pose proof (cmp_size_cases (cmp_type cmp) Ht) as Hsz. rewrite !elem_of_cons, elem_of_nil in Hsz.
  cbv zeta in *. destruct Hsz as [Hsz|[Hsz|[Hsz|[Hsz|[]]]]]; rewrite Hsz in *; cbn in HQ |- *.
  4:{ apply wp_bind, wp_write_output_64, wp_bind, wp_write_output_64, wp_ret. rewrite <- !app_assoc. exact HQ. }
  all: apply wp_bind, wp_write_output, wp_bind, wp_write_output, wp_ret; rewrite <- !app_assoc; exact HQ.
Qed.

(** The comparisons that are not written, when the region has [sz] bytes. *)
Definition ignored (sz : Z) (cmp : kcov_comparison_t) : bool :=
  let ours a := (output_data <=? a) && (a <=? output_data + sz) in
  let kptr a := (0xffff880000000000 <=? a) && (a <=? 0xffff890000000000) in
  (arg1 cmp =? 0) && ((arg2 cmp =? 0) || negb (Z.land (cmp_type cmp) KCOV_CMP_CONST =? 0)) ||
  (Z.land (cmp_type cmp) KCOV_CMP_SIZE_MASK =? KCOV_CMP_SIZE8) &&
    (ours (arg1 cmp) || ours (arg2 cmp) || (kptr (arg1 cmp) && kptr (arg2 cmp)) ||
     (kptr (arg1 cmp) && (arg2 cmp =? 0)) || (kptr (arg2 cmp) && (arg1 cmp =? 0))) ||
  negb (passes (cmp_pc cmp)).

Lemma comparison_ignore_run cmp o :
  filter_ok -> comparison_ignore f cov_filter output_data cmp o = Ret (ignored (output_size o) cmp) o.
Proof.
  intros Hf. unfold comparison_ignore, ignored. erewrite bind_run by reflexivity. unfold id.
  destruct (_ && (_ || negb _)); [done|]. cbn [orb].
  destruct (_ && (_ || _)); [done|]. cbn [orb].
  by rewrite (bind_run _ _ _ _ _ (coverage_filter_run (cmp_pc cmp) o Hf)).
Qed.

Definition kept_comparisons (sz : Z) (cs : list kcov_comparison_t) : list kcov_comparison_t :=
  filter (fun cmp => ignored sz cmp = false) cs.

Lemma wp_comparisons_loop cs n l sz t c x (Q : Z -> output -> Prop) :
  filter_ok -> Forall comparison_ok cs -> 0 <= n -> n + alen cs < 2 ^ 32 ->
  Q (n + alen (kept_comparisons sz cs))
    (mk_output (l ++ ((written_comp <$> kept_comparisons sz cs) ≫= comp_words)) sz t c x) ->
  wp may_stop (comparisons_loop f cov_filter output_data cs n) Q (mk_output l sz t c x).
Proof.
  intros Hf Hcs. revert n l. induction Hcs as [|cmp cs Hc Hcs IH]; intros n l H0 Hn HQ.
  { cbn in HQ. rewrite app_nil_r, Z.add_0_r in HQ. done. }
  rewrite alen_cons in Hn. cbn [comparisons_loop]. apply wp_bind.
  eapply wp_run; [by apply comparison_ignore_run|]. cbn [output_size].
  unfold kept_comparisons in HQ. rewrite filter_cons in HQ.
  destruct (ignored sz cmp); [rewrite decide_False in HQ by done|rewrite decide_True in HQ by done].
  - by apply IH; [|lia|].
  - rewrite alen_cons, fmap_cons, bind_cons in HQ. apply wp_bind, wp_comparison_write; [done|].
    pose proof (alen_nonneg cs). rewrite wrapu_id by lia. apply IH; [lia|lia|].
    rewrite <- app_assoc, <- Z.add_assoc. exact HQ.
Qed.
Lemma std_unique_Forall {A} (P : A -> Prop) (eqb : A -> A -> bool) l :
  Forall P l -> Forall P (std_unique eqb l).
Proof.
  assert (Hu : forall x l, P x -> Forall P l -> Forall P (unique_from eqb x l)).
  { intros x l' Hx Hl. revert x Hx. induction Hl as [|y l' Hy Hl IH]; intros x Hx; cbn; [by constructor|].
    destruct (eqb x y); [by apply IH|]. constructor; [done|]. by apply IH. }
  intros []; [constructor|]. by apply Hu.
Qed.

(** A buffer of comparisons. *)
Definition comparison_cover_ok (cov : cover_t) : Prop :=
  0 <= cov_size cov < 2 ^ 32 /\
  exists cs, read_comparisons (Z.to_nat (cov_size cov)) (drop 1 (cov_data cov)) = Some cs /\
    Forall comparison_ok cs.

Definition reported_comps (sz : Z) (cov : cover_t) : list comp :=
  match read_comparisons (Z.to_nat (cov_size cov)) (drop 1 (cov_data cov)) with
  | Some cs => written_comp <$> kept_comparisons sz (std_unique comparison_eq (sort_comparisons cs))
  | None => []
  end.

Lemma read_comparisons_length n l cs : read_comparisons n l = Some cs -> length cs = n.
Proof.
  revert l cs. induction n as [|n IH]; intros l cs; cbn; [by intros [= <-]|].
  destruct l as [|a [|b [|d [|e l]]]]; try done.
  destruct (read_comparisons n l) as [cs'|] eqn:E; [|done]. cbn. intros [= <-]. cbn. f_equal. by eapply IH.
Qed.

Lemma sorted_comparisons cs :
  Forall comparison_ok cs ->
  Forall comparison_ok (std_unique comparison_eq (sort_comparisons cs)) /\
  alen (std_unique comparison_eq (sort_comparisons cs)) <= alen cs.
Proof.
  intros Hcs. split.
  - apply std_unique_Forall. by rewrite sort_comparisons_perm.
  - unfold alen. pose proof (std_unique_length comparison_eq (sort_comparisons cs)).
    pose proof (Permutation_length (sort_comparisons_perm cs)). lia.
Qed.

Lemma kept_length sz cs : alen (kept_comparisons sz cs) <= alen cs.
Proof. unfold alen, kept_comparisons. pose proof (length_filter (fun cmp => ignored sz cmp = false) cs). lia. Qed.

Lemma wp_write_comparisons cov l0 h sz t c x (Q : unit -> output -> Prop) :
  filter_ok -> comparison_cover_ok cov -> alen h = 10 ->
  Q tt (mk_output (l0 ++ aset h 7 (alen (reported_comps sz cov)) ++ (reported_comps sz cov ≫= comp_words)) sz t c x) ->
  wp may_stop (write_comparisons f cov_filter output_data cov (alen l0 + 7)) Q
    (mk_output (l0 ++ h ++ []) sz t c x).
Proof.
  intros Hf (Hs & cs & Ecs & Hcs) Hh HQ. unfold write_comparisons. unfold reported_comps in HQ.
  rewrite Ecs in HQ |- *. pose proof (read_comparisons_length _ _ _ Ecs) as Hlen.
  destruct (sorted_comparisons cs Hcs) as [Hok Hle].
  pose proof (kept_length sz (std_unique comparison_eq (sort_comparisons cs))) as Hk.
  assert (alen cs = cov_size cov) by (unfold alen; lia).
  pose proof (alen_nonneg (kept_comparisons sz (std_unique comparison_eq (sort_comparisons cs)))).
  apply wp_bind, wp_comparisons_loop; [done|done|done|lia|]. rewrite <- !app_assoc.
  apply wp_fill; [lia|]. rewrite Z.add_0_l, wrapu_id by lia.
  unfold alen in HQ at 1. rewrite length_fmap in HQ. exact HQ.
Qed.

Lemma reported_comps_ok sz cov : comparison_cover_ok cov -> Forall comp_ok (reported_comps sz cov).
Proof.
  intros (_ & cs & Ecs & Hcs). unfold reported_comps. rewrite Ecs. apply Forall_fmap.
  destruct (sorted_comparisons cs Hcs) as [Hok _]. rewrite Forall_forall in Hok |- *.
  intros cmp [_ Hc]%list_elem_of_filter. by apply written_comp_ok, Hok.
Qed.

(** *** Within the file *)

(** What is written lies within the file that the fuzzer reads. *)
Definition in_file (o : output) : Prop := 4 * alen (out o) <= outputSize.

Definition stays {A} (m : prog output A) : Prop := forall o, in_file o -> wlp m (fun _ => in_file) o.

Lemma stays_bind {A B} (m : prog output A) (g : A -> prog output B) :
  stays m -> (forall a, stays (g a)) -> stays (m ≫= g).
Proof. intros Hm Hg o Ho. apply wlp_bind. eapply wlp_mono; [by apply Hm|]. intros a o' Ho'. by apply Hg. Qed.

Lemma stays_foreach {A} (xs : list A) body : (forall y, stays (body y)) -> stays (foreach xs body).
Proof. intros Hb o Ho. apply (wlp_foreach in_file); [done|intros; by apply Hb|done]. Qed.

Lemma stays_deref {A} what (a : option A) : stays (deref what a).
Proof. intros o Ho. by destruct a. Qed.

Lemma stays_write_output v : stays (write_output v).
Proof.
  intros o Ho. unfold write_output. apply wlp_bind, wlp_gets. unfold id.
  destruct (_ <=? _); [done|]. destruct (Z.ltb_spec outputSize (4 * (alen (out o) + 1))); [done|].
  apply wlp_bind, wlp_modify, wlp_ret. unfold in_file, set. cbn. rewrite alen_app, alen_cons.
  change (alen []) with 0. lia.
Qed.

Lemma stays_write_output_64 v : stays (write_output_64 v).
Proof.
  intros o Ho. unfold write_output_64. apply wlp_bind, wlp_gets. unfold id.
  destruct (_ <=? _); [done|]. destruct (Z.ltb_spec outputSize (4 * (alen (out o) + 2))); [done|].
  apply wlp_bind, wlp_modify, wlp_ret. unfold in_file, set. cbn. rewrite alen_app, !alen_cons.
  change (alen []) with 0. lia.
Qed.

Lemma stays_fill pos v : stays (fill pos v).
Proof. intros o Ho. apply wlp_modify. unfold in_file, set. cbn. by rewrite alen_aset. Qed.

Create HintDb stays.
Hint Resolve stays_deref stays_write_output stays_write_output_64 stays_fill : stays.

Ltac stays_step :=
  first [ solve [auto with stays] | apply stays_bind; [|intros ?] | apply stays_foreach; intros ?
        | by intros ? ? | case_match ].
Ltac stays_auto := repeat stays_step.

Lemma stays_coverage_filter pc : stays (coverage_filter f cov_filter pc).
Proof. unfold coverage_filter. stays_auto. Qed.

Lemma stays_dedup n i sig : stays (dedup_loop n i sig).
Proof. revert i. induction n as [|n IH]; intros i; cbn [dedup_loop]; stays_auto. Qed.
Hint Resolve stays_coverage_filter stays_dedup : stays.

Lemma stays_signal_loop n cov i prev pf nsig : stays (signal_loop f cov_filter n cov i prev pf nsig).
Proof.
  revert i prev pf nsig. induction n as [|n IH]; intros i prev pf nsig; cbn [signal_loop]; [by intros ? ?|].
  unfold use_cover_edges, dedup. stays_auto.
Qed.
Hint Resolve stays_signal_loop : stays.

Lemma stays_coverage cov pos cpos : stays (write_coverage_signal f cov_filter cov pos cpos).
Proof.
  unfold write_coverage_signal, write_code_coverage_signal, write_read_from_coverage_signal, write_access.
  stays_auto.
Qed.

Lemma stays_comparisons_loop cs n : stays (comparisons_loop f cov_filter output_data cs n).
Proof.
  revert n. induction cs as [|cmp cs IH]; intros n; cbn [comparisons_loop]; [by intros ? ?|].
  unfold comparison_ignore, comparison_write. stays_auto.
Qed.
Hint Resolve stays_coverage stays_comparisons_loop : stays.

Lemma stays_call_output th finished last :
  stays (write_call_output f cov_filter output_data th finished last).
Proof.
  unfold write_call_output, write_comparisons, write_outcome, count_report, write_completed. stays_auto.
Qed.

(** *** Outcomes *)

Definition reported_outcome (th : call_thread) (i : Z) : SchedpointOutcome :=
  mk_outcome (u32 (default 0 (aget (ct_sched th) i))) (u32 (default 0 (aget (ct_footprint th) i))).
Definition reported_outcomes (th : call_thread) : list SchedpointOutcome :=
  reported_outcome th <$> seqZ 0 (ct_num_filter th).

Definition outcomes_ok (th : call_thread) : Prop :=
  0 <= ct_num_filter th < 2 ^ 31 /\ ct_num_filter th <= alen (ct_sched th) /\
  ct_num_filter th <= alen (ct_footprint th).

Lemma wp_write_outcomes th l sz t c x (Q : unit -> output -> Prop) :
  outcomes_ok th ->
  Q tt (mk_output (l ++ (reported_outcomes th ≫= outcome_words)) sz t c x) ->
  wp may_stop (foreach (seqZ 0 (i32 (u32 (ct_num_filter th)))) (write_outcome th)) Q (mk_output l sz t c x).
Proof.
  intros (Hn & Hs & Hfp) HQ. rewrite wrapu_id, wraps_id by lia.
  apply (wp_foreach_push (fun i => outcome_words (reported_outcome th i))).
  - intros i l' Q' Hi%elem_of_seqZ HQ'. unfold write_outcome.
    destruct (proj2 (aget_is_Some (ct_sched th) i)) as [o Ho]; [lia|].
    destruct (proj2 (aget_is_Some (ct_footprint th) i)) as [fp Hf]; [lia|].
    unfold reported_outcome in HQ'. rewrite Ho, Hf in HQ'. rewrite Ho, Hf.
    apply wp_bind, wp_deref. eexists. split; [done|]. apply wp_bind, wp_write_output.
    apply wp_bind, wp_deref. eexists. split; [done|]. apply wp_bind, wp_write_output, wp_ret.
    rewrite <- app_assoc. exact HQ'.
  - unfold reported_outcomes in HQ. by rewrite list_fmap_bind in HQ.
Qed.
End writing.
