(* ===== verification/ReportSpec.v ===== *)
(** * From the executor's calls to the fuzzer's information

    The reports written by [write_call_output] in the course of an execution,
    one after the other, are read back by [parseOutput]: each call's
    information describes its thread, and no other call has any. *)

From stdpp Require Import base list gmap sets sorting strings.
From Stdlib Require Import ZArith Lia.
From S2P Require Import Prelude Accesses Comms Hints Threading Fuzzer Request Output Ipc OutputSpec.

Local Open Scope Z_scope.
Local Open Scope record_scope.

Section reporting.
Context (f : flags_t) (cov_filter : option cov_filter_t) (output_data : Z) `{StdSort}.

(** The errno that is reported. *)
Definition reported_errno (th : call_thread) (finished : bool) : Z :=
  if finished then (if negb (ct_res th =? -1) then 0 else ct_reserrno th) else 999.

(** The report [r] describes the thread [th]; [H0] was reported before. *)
Definition describes (H0 : list Z) (sz : Z) (th : call_thread) (finished last : bool) (r : report) : Prop :=
  r_index r = u32 (ct_index th) /\ r_num r = u32 (ct_num th) /\
  r_errno r = u32 (reported_errno th finished) /\
  r_flags r = u32 (call_flags th finished (finished && negb last)) /\
  (if flag_comparisons f
   then r_signal r = [] /\ r_cover r = [] /\ r_accesses r = [] /\
        r_comps r = reported_comps f cov_filter output_data sz (ct_cov th)
   else if flag_collect_signal f || flag_collect_cover f
   then code_part f cov_filter H0 (ct_cov th) (r_signal r) (r_cover r) /\
        r_accesses r = reported_accesses (ct_rfcov th) /\ r_comps r = []
   else r_signal r = [] /\ r_cover r = [] /\ r_accesses r = [] /\ r_comps r = []) /\
  r_outcomes r = reported_outcomes th.

(** The coverage of the thread was collected. *)
Definition thread_ok (th : call_thread) : Prop :=
  outcomes_ok th /\
  if flag_comparisons f then comparison_cover_ok (ct_cov th)
  else flag_collect_signal f || flag_collect_cover f = true ->
       code_cover_ok (ct_cov th) /\ access_cover_ok (ct_rfcov th).

Lemma describes_report_ok H0 sz th finished last r :
  thread_ok th -> describes H0 sz th finished last r -> report_ok r.
Proof.
  intros [(Hn & _) Hth] (_ & _ & _ & _ & Hp & Ho). unfold report_ok. rewrite Ho.
  assert (2 * alen (reported_outcomes th) < 2 ^ 32).
  { unfold reported_outcomes, alen. rewrite length_fmap, length_seqZ. lia. }
  destruct (flag_comparisons f).
  - destruct Hp as (_ & _ & -> & ->). split_and!; [constructor|done|by apply reported_comps_ok|done].
  - destruct (flag_collect_signal f || flag_collect_cover f).
    + destruct Hp as (_ & -> & ->). destruct (Hth eq_refl) as [_ Hacc].
      destruct (reported_accesses_ok _ Hacc) as [H5 Hl]. destruct Hacc as (_ & Hs & _).
      change kCoverSize with 262144 in Hs. split_and!; [done|lia|constructor|done].
    + destruct Hp as (_ & _ & -> & ->). by split_and!; [constructor| |constructor|].
Qed.

(** The header before the counts are filled in. *)
Definition first_header (th : call_thread) (finished last : bool) : list Z :=
  [outMagic; u32 (ct_index th); u32 (ct_num th); u32 (reported_errno th finished);
   u32 (call_flags th finished (finished && negb last)); 0; 0; 0; 0; u32 (ct_num_filter th)].

(** The coverage part of a report. *)
Lemma wp_coverage_part H0 th finished last l0 sz t c x (Q : unit -> output -> Prop) :
  filter_ok f cov_filter -> table_ok H0 t -> thread_ok th ->
  (forall r t', describes H0 sz th finished last r -> table_ok (after (r_signal r) H0) t' ->
     Q tt (mk_output (l0 ++ report_header r ++ r_signal r ++ r_cover r ++ concat (r_accesses r) ++
                      (r_comps r ≫= comp_words)) sz t' c x)) ->
  wp may_stop
    (if flag_comparisons f then write_comparisons f cov_filter output_data (ct_cov th) (alen l0 + 7)
     else if flag_collect_signal f || flag_collect_cover f then
       write_coverage_signal f cov_filter (ct_cov th) (Some (alen l0 + 5)) (alen l0 + 6);;
       write_coverage_signal f cov_filter (ct_rfcov th) None (alen l0 + 8)
     else mret tt) Q (mk_output (l0 ++ first_header th finished last ++ []) sz t c x).
Proof.
  intros Hf Ht [Hout Hth] HQ.
  assert (En : u32 (ct_num_filter th) = alen (reported_outcomes th)).
  { destruct Hout as (Hn & _). rewrite wrapu_id by lia. unfold reported_outcomes, alen.
    rewrite length_fmap, length_seqZ. lia. }
  set (mk := fun sigs covs accs comps => mk_report (u32 (ct_index th)) (u32 (ct_num th))
    (u32 (reported_errno th finished)) (u32 (call_flags th finished (finished && negb last)))
    sigs covs accs comps (reported_outcomes th)).
  unfold describes in HQ. destruct (flag_comparisons f) eqn:Ec.
  - apply wp_write_comparisons; [done|done|done|].
    specialize (HQ (mk [] [] [] (reported_comps f cov_filter output_data sz (ct_cov th))) t).
    unfold report_header, first_header in *. rewrite En. cbn in HQ |- *. apply HQ; [by split_and!|done].
  - destruct (flag_collect_signal f || flag_collect_cover f).
    + destruct (Hth eq_refl) as [Hcode Hacc]. apply wp_bind.
      apply (wp_code_coverage f cov_filter (ct_cov th) H0); [done..|].
      intros sigs covs t' Ht' Hpart. rewrite <- (app_nil_r (sigs ++ covs)).
      apply wp_access_coverage; [done|done|]. rewrite app_nil_r.
      specialize (HQ (mk sigs covs (reported_accesses (ct_rfcov th)) []) t').
      unfold report_header, first_header in *. rewrite En. cbn in HQ |- *. rewrite <- app_assoc, app_nil_r in *.
      apply HQ; [by split_and!|done].
    + apply wp_ret. specialize (HQ (mk [] [] [] []) t). unfold report_header, first_header in *.
      rewrite En. cbn in HQ |- *. apply HQ; [by split_and!|done].
Qed.

Lemma wp_write_call_output H0 th finished last n0 ws sz t c x (Q : unit -> output -> Prop) :
  filter_ok f cov_filter -> table_ok H0 t -> thread_ok th ->
  (forall r t', describes H0 sz th finished last r -> table_ok (after (r_signal r) H0) t' ->
     Q tt (mk_output (u32 (c + 1) :: ws ++ report_words r) sz t' (u32 (c + 1)) x)) ->
  wp may_stop (write_call_output f cov_filter output_data th finished last) Q
    (mk_output (n0 :: ws) sz t c x).
Proof.
  intros Hf Ht Hth HQ. unfold write_call_output. fold (reported_errno th finished).
  do 10 (apply wp_bind, wp_write_output). rewrite <- !app_assoc. cbn [app].
  set (l0 := n0 :: ws). change (n0 :: ws ++ ?y) with (l0 ++ y).
  rewrite !alen_app. change (alen [_; _; _; _; _]) with 5. change (alen [_; _; _; _; _; _]) with 6.
  change (alen [_; _; _; _; _; _; _]) with 7. change (alen [_; _; _; _; _; _; _; _]) with 8.
  rewrite (wrapu_id 32 (u32 (ct_num_filter th))) by (by apply wrapu_range).
  change [u32 kOutMagic; _; _; _; _; _; _; _; _; _] with (first_header th finished last).
  rewrite <- (app_nil_r (first_header th finished last)). apply wp_bind.
  apply (wp_coverage_part H0 th finished last); [done..|]. intros r t' Hr Ht'.
  apply wp_bind, wp_write_outcomes; [apply Hth|]. unfold count_report.
  apply wp_bind, wp_modify, wp_bind, wp_gets. unfold write_completed, fill. apply wp_modify.
  specialize (HQ r t' Hr Ht'). pose proof Hr as (_ & _ & _ & _ & _ & Ho).
  unfold report_words, report_body in HQ. rewrite Ho in HQ. unfold set, l0. cbn -[wrapu report_header].
  rewrite (wrapu_id 32 (u32 (c + 1))) by (by apply wrapu_range).
  rewrite <- !app_assoc in *. exact HQ.
Qed.

(** *** Several reports *)

(** Threads in the order in which they are reported. *)
Fixpoint write_reports (ths : list (call_thread * bool * bool)) : prog output unit :=
  match ths with
  | [] => mret tt
  | (th, finished, last) :: ths =>
      write_call_output f cov_filter output_data th finished last;; write_reports ths
  end.

(** The reports describe the threads, one by one; the signals of each are
    known to the next. *)
Fixpoint describe_all (H0 : list Z) (sz : Z) (ths : list (call_thread * bool * bool)) (rs : list report) : Prop :=
  match ths, rs with
  | [], [] => True
  | (th, finished, last) :: ths, r :: rs =>
      describes H0 sz th finished last r /\ describe_all (after (r_signal r) H0) sz ths rs
  | _, _ => False
  end.

Lemma wp_write_reports H0 ths n0 ws sz t c x (Q : unit -> output -> Prop) :
  filter_ok f cov_filter -> table_ok H0 t -> Forall (fun p => thread_ok p.1.1) ths -> 
  0 <= c -> c + alen ths < 2 ^ 32 -> n0 = c ->
  (forall rs t', describe_all H0 sz ths rs ->
     Q tt (mk_output (c + alen ths :: ws ++ (rs ≫= report_words)) sz t' (c + alen ths) x)) ->
  wp may_stop (write_reports ths) Q (mk_output (n0 :: ws) sz t c x).
Proof.
  intros Hf. revert H0 n0 ws t c. induction ths as [|[[th fin] last] ths IH]; intros H0 n0 ws t c Ht Hths Hc0 Hc -> HQ.
  { apply wp_ret. specialize (HQ [] t I). cbn in HQ. rewrite Z.add_0_r, app_nil_r in HQ. done. }
  inversion Hths as [|?? Hth Hths']; subst. rewrite alen_cons in Hc, HQ. cbn [write_reports].
  pose proof (alen_nonneg ths). apply wp_bind, (wp_write_call_output H0); [done..|].
  intros r t' Hr Ht'. rewrite wrapu_id by lia.
  apply (IH (after (r_signal r) H0)); [done|done|lia|lia|done|].
  intros rs t2 Hrs. rewrite <- app_assoc.
  specialize (HQ (r :: rs) t2). rewrite bind_cons in HQ.
  replace (c + 1 + alen ths) with (c + (1 + alen ths)) by lia. apply HQ. done.
Qed.
End reporting.

(** ** The two sides together *)

(** The size of the region once it was grown for the request. *)
Definition region_size (f : flags_t) (sz : Z) : Z :=
  if flag_comparisons f then sz `max` kMaxOutputComparisons
  else if flag_collect_cover f then sz `max` kMaxOutputCoverage
  else if flag_collect_signal f then sz `max` kMaxOutputSignal
  else sz.

Lemma mmap_output_run size l sz t c x :
  size `mod` 4096 = 0 ->
  mmap_output size (mk_output l sz t c x) = Ret tt (mk_output l (sz `max` size) t c x).
Proof.
  intros Hs. unfold mmap_output. erewrite bind_run by reflexivity. unfold id. cbn [output_size].
  destruct (Z.leb_spec size sz); [by rewrite Z.max_l by lia|]. rewrite Hs, Z.max_r by lia. done.
Qed.

Lemma realloc_output_data_run f l sz t c x :
  realloc_output_data f (mk_output l sz t c x) = Ret tt (mk_output l (region_size f sz) t c x).
Proof. unfold realloc_output_data, region_size. repeat case_match; by rewrite ?mmap_output_run. Qed.

(** The thread executes a call of the program. *)
Definition thread_for (p : Prog) (ids : list Z) (th : call_thread) : Prop :=
  0 <= ct_index th < extraReplyIndex /\ is_Some (aget (Calls p) (ct_index th)) /\
  0 <= ct_num th < 2 ^ 32 /\ aget ids (ct_index th) = Some (ct_num th).

Section both.
Context (f : flags_t) (cov_filter : option cov_filter_t) (output_data : Z) `{StdSort}.
Context (p : Prog) (ids : list Z).

Abbreviation described := (describe_all f cov_filter output_data).

Lemma described_index H0 sz ths rs :
  described H0 sz ths rs -> Forall (fun q => thread_for p ids q.1.1) ths ->
  r_index <$> rs = (fun q => ct_index q.1.1) <$> ths.
Proof.
  revert H0 rs. induction ths as [|[[th fin] last] ths IH]; intros H0 [|r rs]; try done.
  intros [(Hi & _) Hrs] Hf. inversion Hf as [|?? (Hx & _) Hf']; subst.
  change extraReplyIndex with (2 ^ 32 - 1) in Hx. cbn in Hx |- *.
  rewrite Hi, wrapu_id, (IH _ _ Hrs Hf') by lia. done.
Qed.

Lemma described_for H0 sz ths rs :
  described H0 sz ths rs -> Forall (fun q => thread_for p ids q.1.1) ths ->
  Forall (fun q => thread_ok f q.1.1) ths -> Forall (report_for p ids) rs.
Proof.
  revert H0 rs. induction ths as [|[[th fin] last] ths IH]; intros H0 [|r rs]; try done.
  intros [Hr Hrs] Hf Hok. inversion Hf as [|?? (Hx & Hc & Hn & Hid) Hf']; subst.
  inversion Hok as [|?? Hok1 Hok']; subst. cbn in Hx, Hc, Hn, Hid, Hok1.
  constructor; [|by eapply IH]. split; [by eapply describes_report_ok|].
  destruct Hr as (Hi & Hnum & _). change extraReplyIndex with (2 ^ 32 - 1) in *.
  by rewrite Hi, Hnum, !wrapu_id by lia.
Qed.
End both.

(** Nothing is written past the end of the file. *)
Lemma reports_in_file f cov_filter output_data `{StdSort} ths l sz t c x :
  wlp (start_output f;; write_reports f cov_filter output_data ths) (fun _ => in_file) (mk_output l sz t c x).
Proof.
  apply wlp_bind. unfold start_output. apply wlp_bind.
  unfold wlp at 1. rewrite realloc_output_data_run. apply wlp_bind, wlp_modify, wlp_bind.
  eapply wlp_mono; [apply stays_write_output; done|]. intros a o Ho. apply wlp_ret. revert o Ho.
  change (stays (write_reports f cov_filter output_data ths)).
  induction ths as [|[[th fin] last] ths IH]; [by intros o Ho|]. cbn [write_reports].
  apply stays_bind; [apply stays_call_output|by intros _].
Qed.

(** C27. The reports of an execution reach the fuzzer.  The executor grows the
    region, writes the count and then a report per call: with the filter and
    the coverage buffers well formed it ends, or stops because the region is
    full, because the region is longer than the file behind it and the file is
    full, or because an address lies outside the kernel; it does nothing
    undefined.  When it ends, the reports lie within the file, and
    [parseOutput] reads them without error, whatever follows them.  The
    information of a call that was reported is that of its report: result and
    flags of the thread, the signals of its trace in order, the addresses, the
    comparisons that are not ignored, the accesses of a contender, and the fate
    of the scheduling points.  A signal is left out only if it is 0 or was
    reported before; a signal that was reported and not displaced from the
    table since is left out, and so is 0 unless its slots are taken.  A call
    that was not reported has no information. *)
Theorem reports_reach_the_fuzzer f cov_filter output_data `{StdSort} `{GoRange} p ids dedup_cover
    ths l sz t x rest :
  filter_ok f cov_filter -> table_ok [] t -> Forall (fun q => thread_ok f q.1.1) ths ->
  Forall (fun q => thread_for p ids q.1.1) ths -> NoDup ((fun q => ct_index q.1.1) <$> ths) ->
  alen ths < 2 ^ 32 ->
  wp may_stop (start_output f;; write_reports f cov_filter output_data ths)
    (fun _ w => (exists rs calls,
       describe_all f cov_filter output_data [] (region_size f sz) ths rs /\
       parseOutput ids p dedup_cover (out w ++ rest) = inr (mk_prog_info calls no_info) /\
       (forall k th fin last r c, ths !! k = Some (th, fin, last) -> rs !! k = Some r ->
          aget (Calls p) (ct_index th) = Some c ->
          aget calls (ct_index th) = Some (report_info p r c)) /\
       (forall i, i ∉ (fun q => ct_index q.1.1) <$> ths -> 0 <= i < alen (Calls p) ->
          aget calls i = Some no_info)) /\
       in_file w)
    (mk_output l sz t 0 x).
Proof.
  intros Hf Ht Hok Hfor Hnd Hlen. apply wp_wlp; [|apply reports_in_file]. apply wp_bind. unfold start_output.
  eapply wp_bind, wp_run. { apply realloc_output_data_run. }
  apply wp_bind, wp_modify, wp_bind, wp_write_output, wp_ret. cbn [app].
  apply (wp_write_reports _ _ _ [] ths 0 [] (region_size f sz) t 0 x); [done|done|done|done|lia|done|].
  intros rs t' Hrs. pose proof (described_index _ _ _ p ids _ _ _ _ Hrs Hfor) as Hidx.
  pose proof (described_for _ _ _ p ids _ _ _ _ Hrs Hfor Hok) as Hrep.
  assert (El : alen ths = alen rs).
  { unfold alen. apply (f_equal length) in Hidx. rewrite !length_fmap in Hidx. lia. }
  exists rs, (foldl (learn p) (replicate (length (Calls p)) no_info) rs). split_and!; [done| | |].
  - cbn [out app]. rewrite El. apply parseOutput_reports; [done|]. by rewrite Hidx.
  - intros k th fin last r c Hk Hr Hc.
    assert (Ei : r_index r = ct_index th).
    { apply (f_equal (.!! k)) in Hidx. rewrite !list_lookup_fmap, Hk, Hr in Hidx. by injection Hidx. }
    rewrite <- Ei in Hc |- *. apply learned; [by rewrite Hidx|by eapply list_elem_of_lookup_2|done|].
    exists no_info. apply aget_replicate. split; [done|]. by apply aget_is_Some.
  - intros i Hi Hr. rewrite not_learned; [by apply aget_replicate|].
    intros r Hr' <-. apply Hi. rewrite <- Hidx. by apply list_elem_of_fmap_2.
Qed.

(** ** An execution *)

#[local] Instance not_gt_dec : RelDecision (fun a b => comparison_lt b a = false).
Proof. intros a b. apply bool_eq_dec. Defined.

Lemma not_gt_total : Total (fun a b => comparison_lt b a = false).
Proof.
  intros a b. unfold comparison_lt.
  destruct (Z.eqb_spec (cmp_type a) (cmp_type b)), (Z.eqb_spec (cmp_type b) (cmp_type a)); try congruence; cbn; [|lia].
  destruct (Z.eqb_spec (arg1 a) (arg1 b)), (Z.eqb_spec (arg1 b) (arg1 a)); try congruence; cbn; lia.
Qed.

Lemma not_gt_trans : Transitive (fun a b => comparison_lt b a = false).
Proof.
  intros a b c. unfold comparison_lt.
  destruct (Z.eqb_spec (cmp_type b) (cmp_type a)), (Z.eqb_spec (cmp_type c) (cmp_type b)),
    (Z.eqb_spec (cmp_type c) (cmp_type a)); cbn; try lia.
  destruct (Z.eqb_spec (arg1 b) (arg1 a)), (Z.eqb_spec (arg1 c) (arg1 b)),
    (Z.eqb_spec (arg1 c) (arg1 a)); cbn; lia.
Qed.

Definition merge_std_sort : StdSort := {|
  sort_comparisons := merge_sort (fun a b => comparison_lt b a = false);
  sort_comparisons_perm := merge_sort_Permutation _;
  sort_comparisons_sorted l := @StronglySorted_merge_sort _ _ _ not_gt_trans not_gt_total l
|}.

(** Signals and addresses are asked for; addresses are filtered. *)
Definition signal_flags : flags_t :=
  mk_flags false true true false false false false false false false false false false false false false
    false true true true true true true true false.

Definition some_filter : cov_filter_t := mk_cov_filter 0x81000000 0x100 [0x0f; 0; 0; 0].

(** Two calls: one that failed and has two accesses, one that did not
    finish. *)
Definition failed_call : call_thread :=
  mk_call_thread 0 7 (-1) 22 false false 1 [3] [1]
    (mk_cover 3 code_coverage [3; 0xffffffff81000010; 0xffffffff81000020; 0xffffffff81000010] 0)
    (mk_cover 2 read_from_coverage
       ([2; 0; 0; 0; 0] ++ [0x10; 0x8000; 4; 0; 100] ++ [0x14; 0x8004; 4; 1; 101]) 0).
Definition stuck_call : call_thread :=
  mk_call_thread 1 9 0 0 false false 0 [] []
    (mk_cover 1 code_coverage [1; 0xffffffff81000010] 0) (mk_cover 0 read_from_coverage [0; 0; 0; 0; 0] 0).

Definition two_calls : Prog :=
  mk_prog [mk_call 0 0; mk_call 1 0; mk_call 0 1] true [0; 1] (mk_schedule [] []) (mk_flush_vector [] []) None.

Lemma fresh_table : table_ok [] (replicate (Z.to_nat dedup_table_size) 0).
Proof.
  split; [unfold alen; rewrite length_replicate; done| |done].
  intros p v [-> _]%aget_replicate. by left.
Qed.

Lemma some_filter_ok : filter_ok signal_flags (Some some_filter).
Proof. intros _. exists some_filter. split; [done|]. split_and!; try done. repeat constructor; lia. Qed.

Lemma two_threads_ok :
  Forall (fun q => thread_ok signal_flags q.1.1) [(failed_call, true, true); (stuck_call, false, false)].
Proof.
  apply Forall_cons_2; [|apply Forall_cons_2; [|apply Forall_nil_2]];
    (split; [by split_and!|]); intros _; by split_and!.
Qed.

Lemma two_threads_for :
  Forall (fun q => thread_for two_calls [7; 9; 5] q.1.1) [(failed_call, true, true); (stuck_call, false, false)].
Proof. apply Forall_cons_2; [|apply Forall_cons_2; [|apply Forall_nil_2]]; split_and!; done || by eexists. Qed.

Lemma two_indices :
  NoDup ((fun q => ct_index q.1.1) <$> [(failed_call, true, true); (stuck_call, false, false)]).
Proof. by apply (bool_decide_unpack _). Qed.

Lemma two_absent :
  2 ∉ (fun q => ct_index q.1.1) <$> [(failed_call, true, true); (stuck_call, false, false)].
Proof. by apply (bool_decide_unpack _). Qed.

Lemma two_is_a_call : 0 <= 2 < alen (Calls two_calls).
Proof. done. Qed.

Abbreviation two_reports :=
  (start_output signal_flags;;
   write_reports signal_flags (Some some_filter) 0x1000 (H := merge_std_sort)
     [(failed_call, true, true); (stuck_call, false, false)]).
Abbreviation fresh_output :=
  (mk_output [] kInitialOutput (replicate (Z.to_nat dedup_table_size) 0) 0 (mk_cover 0 code_coverage [] 0)).

Lemma wp_ends {W A} E (m : prog W A) Q w :
  wp E m Q w -> match m w with Ret _ _ => true | _ => false end = true -> exists a w', m w = Ret a w' /\ Q a w'.
Proof. unfold wp. destruct (m w); try done. eauto. Qed.

Lemma reports_reach_the_fuzzer_witness :
  exists w calls, two_reports fresh_output = Ret tt w /\
    parseOutput [7; 9; 5] two_calls false (H := range_in_order) (out w ++ [1; 2; 3]) =
      inr (mk_prog_info calls no_info) /\
    aget calls 2 = Some no_info.
Proof.
  destruct (wp_ends may_stop two_reports _ fresh_output
    (reports_reach_the_fuzzer (H := merge_std_sort) (H0 := range_in_order) signal_flags
    (Some some_filter) 0x1000 two_calls [7; 9; 5] false
    [(failed_call, true, true); (stuck_call, false, false)] [] kInitialOutput
    (replicate (Z.to_nat dedup_table_size) 0) (mk_cover 0 code_coverage [] 0) [1; 2; 3]
    some_filter_ok fresh_table two_threads_ok two_threads_for two_indices eq_refl))
    as ([] & w & E & (rs & calls & _ & Hp & _ & Hno) & _).
  - vm_compute. reflexivity.
  - exact (ex_intro _ w (ex_intro _ calls (conj E (conj Hp (Hno 2 two_absent two_is_a_call))))).
Defined.
