(* ===== verification/Call.v ===== *)
(** * Executing a call (executor/executor.cc, common_linux.h)

    What a worker of the executor does with a call: it arms fault injection,
    switches the emulation of store buffers on, installs the schedule, empties
    the coverage buffers, makes the call, collects coverage and outcomes,
    switches the emulation off, and runs the call some more times when asked
    to.

    The kernel and the hypervisor are an interface, [Kernel]: what system calls
    and hypercalls return, and what the kernel leaves in the coverage buffers.
    Setup models the hypercalls themselves. *)

From stdpp Require Import base list gmap sorting strings pretty.
From Stdlib Require Import ZArith Lia.
From S2P Require Import Prelude Machine VmiHint ExecWire Accesses Comms Hints Threading Fuzzer Request Output Ipc OutputSpec ReportSpec.

Local Open Scope Z_scope.
Local Open Scope record_scope.

(** ** The kernel and the hypervisor *)

(** What an execution of a call leaves: its result, unless a fault abandoned
    it before the assignment; [errno], unless it was left alone; and the
    coverage buffers. *)
Record executed := mk_executed {
  ex_res : option Z;
  ex_errno : option Z;
  ex_cov : list Z;
  ex_rfcov : list Z
}.

(** What HCALL_FOOTPRINT_BP leaves: its result, and the variables [count],
    [footprint] and [retry]; [count] and [retry] are not initialised, so they
    have no value unless the hypercall writes them. *)
Record footprints := mk_footprints {
  fp_ret : Z; fp_count : option Z; fp_footprint : list Z; fp_retry : option Z
}.

Class Kernel (K : Type) := {
  kssb_switch : K -> Z * K;
  open_fail_nth : K -> Z * K;
  write_fail_nth : Z -> string -> K -> Z * K;
  read_fail_nth : Z -> K -> list Z * K;
  execute_syscall : Z -> list Z -> list Z -> list Z -> K -> executed * K;
  bp_hypercall : Z -> Z -> Z -> Z -> K -> Z * K;
  footprint_bp : list Z -> K -> footprints * K
}.

(** ** The worker *)

Section worker.
Context {K : Type} `{!Kernel K}.

(** A worker with the call it was given; [wk_errno] is its [errno]. *)
Record worker := mk_worker {
  wk_thread : call_thread;
  wk_args : list Z;
  wk_num_sched : Z;
  wk_sched : list schedule_t;
  wk_fail_nth : Z;
  wk_rerun : Z;
  wk_soft_fail_state : bool;
  wk_errno : Z;
  wk_kernel : K
}.

#[export] Instance worker_eta : Eta worker := fun w =>
  mk_worker (wk_thread w) (wk_args w) (wk_num_sched w) (wk_sched w) (wk_fail_nth w) (wk_rerun w)
    (wk_soft_fail_state w) (wk_errno w) (wk_kernel w).

(** Code that works on the fields of the report. *)
Definition in_thread {A} (m : prog call_thread A) : prog worker A := fun w =>
  match m (wk_thread w) with
  | Ret a t => Ret a (w <| wk_thread := t |>)
  | Exit s => Exit s
  | UB s => UB s
  | OutOfFuel => OutOfFuel
  end.

Definition set_thread (g : call_thread -> call_thread) : prog worker unit := modify (set wk_thread g).

(** A request to the kernel or the hypervisor. *)
Definition ask {A} (op : K -> A * K) : prog worker A := fun w =>
  Ret (op (wk_kernel w)).1 (w <| wk_kernel := (op (wk_kernel w)).2 |>).

Definition turn_onoff_kssb_switch (f : flags_t) : prog worker unit :=
  if flag_turn_on_kssb f then
    r ← ask kssb_switch;
    if negb (r =? 0) then failmsg "kssb switch failed" else mret tt
  else mret tt.

Definition inject_fault (nth : Z) : prog worker Z :=
  fd ← ask open_fail_nth;
  if fd =? -1 then failmsg "failed to open /proc/thread-self/fail-nth"
  else
    let buf := pretty nth in
    n ← ask (write_fail_nth fd buf);
    if negb (n =? Z.of_nat (String.length buf)) then failmsg "failed to write /proc/thread-self/fail-nth"
    else mret fd.

(** The fault was injected when the counter has come down to 0. *)
Definition fault_injected (fail_fd : Z) : prog worker bool :=
  buf ← ask (read_fail_nth fail_fd);
  if alen buf <=? 0 then failmsg "failed to read /proc/thread-self/fail-nth"
  else
    n ← ask (write_fail_nth fail_fd "0");
    if negb (n =? 1) then failmsg "failed to write /proc/thread-self/fail-nth"
    else mret (bool_decide (buf = [48; 10])).

(** [while (res == -EAGAIN && --attempt)] *)
Fixpoint activate (attempt : nat) (res : Z) : prog worker Z :=
  match attempt with
  | S (S _ as n) =>
      if res =? neg_errno EAGAIN
      then res ← ask (bp_hypercall HCALL_ACTIVATE_BP 0 0 0); activate n res
      else mret res
  | _ => mret res
  end.

Definition install_bp (sched : list schedule_t) (i : Z) : prog worker unit :=
  s ← deref "sched" (aget sched i);
  ask (bp_hypercall HCALL_INSTALL_BP (s_addr s) (s_order s) (s_filter s));; mret tt.

(** The results of these hypercalls are only printed. *)
Definition setup_schedule (num_sched : Z) (sched : list schedule_t) : prog worker unit :=
  if num_sched =? 0 then mret tt
  else
    foreach (seqZ 0 num_sched) (install_bp sched);;
    res ← ask (bp_hypercall HCALL_ACTIVATE_BP 0 0 0);
    activate 10 res;; mret tt.

Definition clear_schedule (num_sched : Z) : prog worker bool :=
  if num_sched =? 0 then mret false
  else
    ask (bp_hypercall HCALL_DEACTIVATE_BP 0 0 0);;
    t ← gets wk_thread;
    fp ← ask (footprint_bp (ct_footprint t));
    count ← (if fp_ret fp =? 0 then deref "count" (fp_count fp) else mret 0);
    set_thread (fun t => t <| ct_footprint := fp_footprint fp |> <| ct_num_filter := count |>);;
    ask (bp_hypercall HCALL_CLEAR_BP 0 0 0);;
    retry ← deref "retry" (fp_retry fp);
    mret (negb (retry =? 0)).

(** [NONFAILING(execute_syscall(call, th->args))] *)
Definition run_syscall : prog worker (option Z) :=
  w ← gets id;
  let t := wk_thread w in
  e ← ask (execute_syscall (ct_num t) (wk_args w) (cov_data (ct_cov t)) (cov_data (ct_rfcov t)));
  modify (fun w => w <| wk_errno ::= fun v => default v (ex_errno e) |>);;
  set_thread (fun t => t <| ct_cov ::= set cov_data (fun _ => ex_cov e) |>
                         <| ct_rfcov ::= set cov_data (fun _ => ex_rfcov e) |>);;
  mret (ex_res e).

(** The call with its coverage, between the two switches. *)
Definition guarded_call (f : flags_t) : prog worker unit :=
  turn_onoff_kssb_switch f;;
  w ← gets id;
  setup_schedule (i32 (wk_num_sched w)) (wk_sched w);;
  in_thread (coverage_pre_call f);;
  r ← run_syscall;
  set_thread (set ct_res (fun v => default v r));;
  in_thread (coverage_post_call f);;
  retry ← clear_schedule (i32 (wk_num_sched w));
  set_thread (set ct_retry (fun _ => retry));;
  turn_onoff_kssb_switch f.

Definition rerun_syscall (_ : Z) : prog worker unit := run_syscall;; mret tt.

(** [call->attrs.ignore_return], by the number of the call. *)
Context (ignore_return : Z -> bool).

Definition set_reserrno : prog worker unit :=
  w ← gets id;
  let t := wk_thread w in
  let e := u32 (wk_errno w) in
  let e := if ((ct_res t =? -1) && (e =? 0)) || ignore_return (ct_num t) then EINVAL else e in
  set_thread (set ct_reserrno (fun _ => e)).

Definition arm_fault : prog worker Z :=
  w ← gets id;
  if 0 <? wk_fail_nth w then
    if 0 <? wk_rerun w then failmsg "both fault injection and rerun are enabled for the same call"
    else
      fd ← inject_fault (wk_fail_nth w);
      modify (set wk_soft_fail_state (fun _ => true));; mret fd
  else mret (-1).

Definition read_fault (fail_fd : Z) : prog worker unit :=
  set_thread (set ct_fault_injected (fun _ => false));;
  w ← gets id;
  if 0 <? wk_fail_nth w then
    b ← fault_injected fail_fd;
    set_thread (set ct_fault_injected (fun _ => b))
  else mret tt.

(** [execute_call] up to the loop that runs the call again. *)
Definition first_execution (f : flags_t) : prog worker unit :=
  modify (set wk_soft_fail_state (fun _ => false));;
  fail_fd ← arm_fault;
  set_thread (set ct_res (fun _ => -1));;
  modify (set wk_errno (fun _ => EFAULT));;
  guarded_call f;;
  set_reserrno;;
  modify (set wk_soft_fail_state (fun _ => false));;
  read_fault fail_fd.

Definition execute_call (f : flags_t) : prog worker unit :=
  w ← gets id;
  first_execution f;;
  foreach (seqZ 0 (wk_rerun w)) rerun_syscall.
End worker.
Arguments worker : clear implicits.
