(* ===== verification/CallSpec.v ===== *)
(** * Executing a call: what is reported

    A call that was executed can be reported whatever the kernel did, as long
    as the kernel keeps to the format of its coverage buffers; a failed call
    has an errno; and running the call again does not change its report. *)

From stdpp Require Import base list gmap sets sorting strings pretty.
From Stdlib Require Import ZArith Lia.
From S2P Require Import Prelude Machine VmiHint ExecWire Accesses Comms Hints Threading Fuzzer Request Output Ipc OutputSpec ReportSpec Call.

Local Open Scope Z_scope.
Local Open Scope record_scope.

(** ** What the kernel promises *)

(** The buffers: the first word counts the records, which lie in the buffer. *)
Definition code_buffer (l : list Z) : Prop :=
  exists n, aget l 0 = Some n /\ 0 <= n < 2 ^ 32 /\ n + 1 <= alen l.

Definition access_buffer (l : list Z) : Prop :=
  exists n, aget l 0 = Some n /\ 0 <= n /\ 5 * (n + 1) <= alen l.

Definition comparison_buffer (l : list Z) : Prop :=
  exists n cs, aget l 0 = Some n /\ 0 <= n < 2 ^ 32 /\
    read_comparisons (Z.to_nat n) (drop 1 l) = Some cs /\ Forall comparison_ok cs.

Definition trace_buffer (f : flags_t) (l : list Z) : Prop :=
  if flag_comparisons f then comparison_buffer l else code_buffer l.

(** Records of [k] words after a header of [h] words are added, none is
    changed. *)
Definition appends (h k : Z) (l l' : list Z) : Prop :=
  exists n n', aget l 0 = Some n /\ aget l' 0 = Some n' /\ 0 <= n <= n' /\
    take (Z.to_nat (k * n)) (drop (Z.to_nat h) l') = take (Z.to_nat (k * n)) (drop (Z.to_nat h) l).

Definition trace_words (f : flags_t) : Z := if flag_comparisons f then 4 else 1.

(** The kernel adds records to buffers that are well formed, within the memory
    that is mapped; the hypervisor, when HCALL_FOOTPRINT_BP succeeds, writes its
    three variables and reports no more breakpoints than there is room for. *)
Class KernelLaws (f : flags_t) (K : Type) `{!Kernel K} := {
  syscall_records num args cov rfcov (k : K) :
    trace_buffer f cov -> access_buffer rfcov ->
    let e := (execute_syscall num args cov rfcov k).1 in
    trace_buffer f (ex_cov e) /\ access_buffer (ex_rfcov e) /\
    appends 1 (trace_words f) cov (ex_cov e) /\ appends 5 5 rfcov (ex_rfcov e) /\
    alen (ex_rfcov e) = alen rfcov;
  footprint_room l (k : K) :
    let fp := (footprint_bp l k).1 in
    fp_ret fp = 0 -> alen (fp_footprint fp) = alen l /\ is_Some (fp_retry fp) /\
      exists count, fp_count fp = Some count /\ 0 <= count <= alen l
}.

(** HCALL_FOOTPRINT_BP succeeds for a call with breakpoints. *)
Definition footprint_answered {K} `{!Kernel K} (num_sched : Z) : Prop :=
  num_sched = 0 \/ forall l (k : K), fp_ret (footprint_bp l k).1 = 0.

Lemma appends_trans h k l1 l2 l3 : 0 <= k -> appends h k l1 l2 -> appends h k l2 l3 -> appends h k l1 l3.
Proof.
  intros Hk (n1 & n2 & E1 & E2 & H12 & T12) (n2' & n3 & E2' & E3 & H23 & T23).
  rewrite E2 in E2'. injection E2' as <-. exists n1, n3. split_and!; [exact E1|exact E3|lia|lia|].
  assert (Hm : (Z.to_nat (k * n1) <= Z.to_nat (k * n2))%nat) by nia.
  rewrite <- T12. apply (f_equal (take (Z.to_nat (k * n1)))) in T23.
  by rewrite !take_take, !Nat.min_l in T23 by done.
Qed.

(** ** Emptied and collected buffers *)

Lemma emptied_trace f l : 1 <= alen l -> trace_buffer f (aset l 0 0).
Proof.
  intros Hl. unfold trace_buffer. destruct (flag_comparisons f); [exists 0, []|exists 0];
    (split; [apply aget_aset_eq; lia|]); split_and!; try done. by rewrite alen_aset.
Qed.

Lemma emptied_access l : 5 <= alen l -> access_buffer (aset l 0 0).
Proof.
  intros Hl. exists 0. split; [apply aget_aset_eq; lia|]. rewrite alen_aset. split_and!; done || lia.
Qed.

(** A collected buffer. *)
Lemma collected_trace f (c : cover_t) n :
  cov_typ c = code_coverage -> trace_buffer f (cov_data c) -> aget (cov_data c) 0 = Some n ->
  cov_size c = u32 n ->
  aget (cov_data c) 0 = Some (cov_size c) /\ (if flag_comparisons f then comparison_cover_ok c else code_cover_ok c).
Proof.
  intros Ht Hb En Es. unfold trace_buffer in Hb.
  destruct (flag_comparisons f);
    [destruct Hb as (n' & cs & E & Hn & Hr & Hcs)|destruct Hb as (n' & E & Hn & Hl)];
    rewrite En in E; injection E as <-; rewrite wrapu_id in Es by lia; subst n; (split; [done|]).
  - exact (conj Hn (ex_intro _ cs (conj Hr Hcs))).
  - exact (conj Ht (conj Hn Hl)).
Qed.

Lemma collected_access (c : cover_t) n :
  cov_typ c = read_from_coverage -> access_buffer (cov_data c) -> alen (cov_data c) <= 5 * kCoverSize ->
  aget (cov_data c) 0 = Some n -> cov_size c = u32 n ->
  aget (cov_data c) 0 = Some (cov_size c) /\ access_cover_ok c.
Proof.
  intros Ht (n' & E & Hn & Hl) Hmap En Es. rewrite En in E. injection E as <-.
  change kCoverSize with 262144 in Hmap. rewrite wrapu_id in Es by lia. subst n.
  split; [exact En|]. split; [exact Ht|]. split; [change kCoverSize with 262144; lia|exact Hl].
Qed.

(** ** Later executions *)

Lemma taken_drop {A} a b c (l l' : list A) :
  (b + c <= a)%nat -> take a l' = take a l -> take c (drop b l') = take c (drop b l).
Proof.
  intros Hle E. apply (f_equal (drop b)), (f_equal (take c)) in E.
  rewrite !skipn_firstn_comm, !take_take, !Nat.min_l in E by lia. done.
Qed.

Lemma read_comparisons_room n l cs : read_comparisons n l = Some cs -> (4 * n <= length l)%nat.
Proof.
  revert l cs. induction n as [|n IH]; intros l cs; [lia|]. cbn [read_comparisons].
  destruct l as [|a [|b [|c [|d l]]]]; try done.
  destruct (read_comparisons n l) as [cs'|] eqn:E; [|done]. intros _. apply IH in E. cbn. lia.
Qed.

Lemma read_comparisons_take n l l' :
  take (4 * n) l' = take (4 * n) l -> (4 * n <= length l)%nat -> (4 * n <= length l')%nat ->
  read_comparisons n l' = read_comparisons n l.
Proof.
  revert l l'. induction n as [|n IH]; intros l l' E Hl Hl'; [done|].
  replace (4 * S n)%nat with (S (S (S (S (4 * n))))) in E, Hl, Hl' by lia.
  destruct l as [|a [|b [|c [|d l]]]], l' as [|a' [|b' [|c' [|d' l']]]]; cbn in E, Hl, Hl'; try lia.
  injection E as -> -> -> -> E. cbn [read_comparisons]. by rewrite (IH l l') by (done || lia).
Qed.

(** The buffer of [c] has become [l]: its count is still that of [c]. *)
Lemma appended_pcs (c : cover_t) l :
  aget (cov_data c) 0 = Some (cov_size c) -> appends 1 1 (cov_data c) l ->
  raw_pcs (c <| cov_data := l |>) = raw_pcs c.
Proof.
  intros En (n & n' & E & _ & _ & T). rewrite En in E. injection E as <-.
  unfold raw_pcs. cbn. by rewrite Z.mul_1_l in T.
Qed.

Lemma appended_accesses (c : cover_t) l :
  aget (cov_data c) 0 = Some (cov_size c) -> appends 5 5 (cov_data c) l ->
  reported_accesses (c <| cov_data := l |>) = reported_accesses c.
Proof.
  intros En (n & n' & E & _ & _ & T). rewrite En in E. injection E as <-.
  unfold reported_accesses. cbn [cov_size]. apply list_fmap_ext. intros i x Hx%list_elem_of_lookup_2%elem_of_seqZ.
  unfold access_words. f_equal. change (cov_data (c <| cov_data := l |>)) with l.
  replace (Z.to_nat (5 * (x + 1))) with (Z.to_nat 5 + Z.to_nat (5 * x))%nat by lia. rewrite <- !drop_drop.
  eapply taken_drop; [|exact T]. lia.
Qed.

Lemma appended_comparisons (c : cover_t) l :
  aget (cov_data c) 0 = Some (cov_size c) -> comparison_cover_ok c -> comparison_buffer l ->
  appends 1 4 (cov_data c) l ->
  read_comparisons (Z.to_nat (cov_size c)) (drop 1 l) =
  read_comparisons (Z.to_nat (cov_size c)) (drop 1 (cov_data c)).
Proof.
  intros En (Hs & cs & Hr & _) (m & cs' & Em & Hm & Hr' & _) (n & n' & E & E' & Hn & T).
  rewrite En in E. injection E as <-. rewrite Em in E'. injection E' as <-.
  apply read_comparisons_room in Hr, Hr'. apply read_comparisons_take; [|done|lia].
  by replace (4 * Z.to_nat (cov_size c))%nat with (Z.to_nat (4 * cov_size c)) by lia.
Qed.

(** ** Threads whose call was executed *)

(** The counts have been collected, and what they count is in the buffers. *)
Definition collected (f : flags_t) (t : call_thread) : Prop :=
  aget (cov_data (ct_cov t)) 0 = Some (cov_size (ct_cov t)) /\
  aget (cov_data (ct_rfcov t)) 0 = Some (cov_size (ct_rfcov t)) /\
  (if flag_comparisons f then comparison_cover_ok (ct_cov t) else code_cover_ok (ct_cov t)) /\
  access_cover_ok (ct_rfcov t) /\ outcomes_ok t.

Definition with_buffers (t : call_thread) (cov rfcov : list Z) : call_thread :=
  t <| ct_cov ::= set cov_data (fun _ => cov) |> <| ct_rfcov ::= set cov_data (fun _ => rfcov) |>.

(** The buffers after later executions. *)
Definition later_buffers (f : flags_t) (t : call_thread) (cov rfcov : list Z) : Prop :=
  trace_buffer f cov /\ access_buffer rfcov /\
  appends 1 (trace_words f) (cov_data (ct_cov t)) cov /\ appends 5 5 (cov_data (ct_rfcov t)) rfcov.

Lemma collected_thread_ok f t : collected f t -> thread_ok f t.
Proof. intros (_ & _ & Ht & Ha & Ho). split; [done|]. by destruct (flag_comparisons f). Qed.

Lemma later_trace_ok f t cov rfcov :
  collected f t -> later_buffers f t cov rfcov ->
  let c := (ct_cov t) <| cov_data := cov |> in
  if flag_comparisons f then comparison_cover_ok c else code_cover_ok c.
Proof.
  intros (En & _ & Hc & _) (Hb & _ & Ha & _). cbn zeta. unfold trace_buffer, trace_words in *.
  destruct (flag_comparisons f).
  - pose proof Hc as (Hs & cs & Hr & Hcs). split; [done|]. exists cs. split; [|done].
    exact (eq_trans (appended_comparisons _ cov En Hc Hb Ha) Hr).
  - destruct Hc as (Ht & Hs & _), Hb as (m & Em & Hm & Hl), Ha as (n & n' & E & E' & Hn & _).
    rewrite En in E. injection E as <-. rewrite Em in E'. injection E' as <-.
    split; [done|]. split; [done|]. cbn. lia.
Qed.

Lemma later_thread_ok f t cov rfcov :
  collected f t -> later_buffers f t cov rfcov -> thread_ok f (with_buffers t cov rfcov).
Proof.
  intros Hc Hl. pose proof (later_trace_ok _ _ _ _ Hc Hl) as Ht. cbn zeta in Ht.
  destruct Hc as (_ & En & _ & (Hty & Hs & _) & Ho), Hl as (_ & (m & Em & Hm & Hl) & _ & n & n' & E & E' & Hn & _).
  rewrite En in E. injection E as <-. rewrite Em in E'. injection E' as <-.
  split; [exact Ho|]. destruct (flag_comparisons f); [exact Ht|]. intros _. split; [exact Ht|].
  split; [done|]. split; [done|]. cbn. lia.
Qed.

Lemma later_describes f cov_filter output_data `{StdSort} R sz t cov rfcov fin last r :
  collected f t -> later_buffers f t cov rfcov ->
  describes f cov_filter output_data R sz (with_buffers t cov rfcov) fin last r <->
  describes f cov_filter output_data R sz t fin last r.
Proof.
  intros (En & En' & Hc & _) (Hb & _ & Ha & Ha'). unfold describes.
  pose proof (appended_accesses _ rfcov En' Ha') as Er. unfold trace_buffer, trace_words in *.
  destruct (flag_comparisons f).
  - assert (Ec : reported_comps f cov_filter output_data sz (ct_cov (with_buffers t cov rfcov)) =
      reported_comps f cov_filter output_data sz (ct_cov t)).
    { unfold reported_comps. change (cov_data (ct_cov (with_buffers t cov rfcov))) with cov.
      change (cov_size (ct_cov (with_buffers t cov rfcov))) with (cov_size (ct_cov t)).
      by rewrite (appended_comparisons _ cov). }
    by rewrite Ec.
  - pose proof (appended_pcs _ cov En Ha) as Ep. unfold code_part, reported_pcs, trace_pcs.
    change (ct_cov (with_buffers t cov rfcov)) with (ct_cov t <| cov_data := cov |>).
    change (ct_rfcov (with_buffers t cov rfcov)) with (ct_rfcov t <| cov_data := rfcov |>).
    by rewrite Ep, Er.
Qed.

(** ** Running a worker *)

Definition call_may_stop (s : string) : Prop :=
  s = "too much cover" \/ s = "kssb switch failed" \/
  s = "failed to open /proc/thread-self/fail-nth" \/ s = "failed to write /proc/thread-self/fail-nth" \/
  s = "failed to read /proc/thread-self/fail-nth".

Section calls.
Context {K : Type} `{!Kernel K}.
Implicit Types (w : worker K) (k : K).

Lemma wp_in_thread {A} E (m : prog call_thread A) (Q : A -> worker K -> Prop) w :
  wp E m (fun a t => Q a (w <| wk_thread := t |>)) (wk_thread w) -> wp E (in_thread m) Q w.
Proof. unfold wp, in_thread. by destruct (m (wk_thread w)). Qed.

Lemma wp_ask {A} E (op : K -> A * K) (Q : A -> worker K -> Prop) w :
  Q (op (wk_kernel w)).1 (w <| wk_kernel := (op (wk_kernel w)).2 |>) -> wp E (ask op) Q w.
Proof. done. Qed.

(** Code that only talks to the kernel. *)
Definition only_asks {A} (m : prog (worker K) A) : Prop :=
  forall (Q : A -> worker K -> Prop) w, (forall a k, Q a (w <| wk_kernel := k |>)) -> wp call_may_stop m Q w.

Lemma only_asks_ret {A} (a : A) : only_asks (mret a).
Proof. intros Q [] HQ. apply wp_ret. exact (HQ a _). Qed.

Lemma only_asks_ask {A} (op : K -> A * K) : only_asks (ask op).
Proof. intros Q w HQ. apply wp_ask, HQ. Qed.

Lemma only_asks_bind {A B} (m : prog (worker K) A) (g : A -> prog (worker K) B) :
  only_asks m -> (forall a, only_asks (g a)) -> only_asks (m ≫= g).
Proof. intros Hm Hg Q w HQ. apply wp_bind, Hm. intros a k. apply Hg. intros b k'. exact (HQ b k'). Qed.

Lemma only_asks_exit {A} s : call_may_stop s -> only_asks (A := A) (failmsg s).
Proof. by intros Hs Q w _. Qed.

Lemma only_asks_if {A} (b : bool) (m1 m2 : prog (worker K) A) :
  only_asks m1 -> only_asks m2 -> only_asks (if b then m1 else m2).
Proof. by destruct b. Qed.

Lemma only_asks_foreach {A} (l : list A) (body : A -> prog (worker K) unit) :
  (forall x, x ∈ l -> only_asks (body x)) -> only_asks (foreach l body).
Proof.
  induction l as [|x l IH]; intros Hb; [apply only_asks_ret|]. cbn [foreach].
  apply only_asks_bind; [apply Hb; set_solver|]. intros _. apply IH. intros y Hy. apply Hb. set_solver.
Qed.

Ltac asks :=
  repeat first
    [ apply only_asks_ret | apply only_asks_ask
    | apply only_asks_exit; unfold call_may_stop; tauto
    | apply only_asks_if | apply only_asks_bind; [|intros ?] ].

Lemma switch_asks f : only_asks (turn_onoff_kssb_switch f).
Proof. unfold turn_onoff_kssb_switch. asks. Qed.

Lemma inject_fault_asks nth : only_asks (inject_fault nth).
Proof. unfold inject_fault. asks. Qed.

Lemma fault_injected_asks fd : only_asks (fault_injected fd).
Proof. unfold fault_injected. asks. Qed.

Lemma activate_asks n res : only_asks (activate n res).
Proof.
  revert res. induction n as [|n IH]; intros res; [cbn; asks|]. cbn [activate].
  destruct n; asks. apply IH.
Qed.

Lemma setup_schedule_asks num_sched sched :
  num_sched <= alen sched -> only_asks (setup_schedule num_sched sched).
Proof.
  intros Hn. unfold setup_schedule. apply only_asks_if; [asks|].
  apply only_asks_bind; [|intros _; asks; apply activate_asks].
  apply only_asks_foreach. intros i Hi%elem_of_seqZ. unfold install_bp.
  destruct (proj2 (aget_is_Some sched i)) as [s Hs]; [lia|]. rewrite Hs. cbn [deref].
  apply only_asks_bind; [apply only_asks_ret|]. intros ?. asks.
Qed.

Lemma wp_coverage_pre_call f E (Q : unit -> call_thread -> Prop) t :
  flag_coverage f = true -> 1 <= alen (cov_data (ct_cov t)) -> 5 <= alen (cov_data (ct_rfcov t)) ->
  Q tt (with_buffers t (aset (cov_data (ct_cov t)) 0 0) (aset (cov_data (ct_rfcov t)) 0 0)) ->
  wp E (coverage_pre_call f) Q t.
Proof.
  intros Hf Hc Hr HQ. unfold coverage_pre_call, cover_reset. rewrite Hf. cbn [negb].
  destruct (proj2 (aget_is_Some (cov_data (ct_cov t)) 0)) as [x Hx]; [lia|].
  destruct (proj2 (aget_is_Some (cov_data (ct_rfcov t)) 0)) as [y Hy]; [lia|].
  apply wp_bind, wp_gets. unfold id. rewrite Hx, Hy. exact HQ.
Qed.

Definition with_sizes (t : call_thread) (n n' : Z) : call_thread :=
  t <| ct_cov ::= set cov_size (fun _ => u32 n) |> <| ct_rfcov ::= set cov_size (fun _ => u32 n') |>.

Lemma wp_coverage_post_call f (Q : unit -> call_thread -> Prop) t n n' :
  flag_coverage f = true ->
  aget (cov_data (ct_cov t)) 0 = Some n -> aget (cov_data (ct_rfcov t)) 0 = Some n' ->
  Q tt (with_sizes t n n') -> wp call_may_stop (coverage_post_call f) Q t.
Proof.
  intros Hf Hn Hn' HQ. unfold coverage_post_call, cover_collect. rewrite Hf. cbn [negb].
  apply wp_bind, wp_gets. unfold id. rewrite Hn, Hn'. cbn [deref].
  apply wp_bind, wp_bind, wp_ret, wp_ret, wp_bind, wp_modify.
  change (cov_size (ct_cov t <| cov_size := u32 n |>)) with (u32 n).
  destruct (kCoverSize <=? u32 n); [by left|]. exact HQ.
Qed.

Definition with_outcomes (t : call_thread) (count : Z) (fp : list Z) : call_thread :=
  t <| ct_footprint := fp |> <| ct_num_filter := count |>.

(** What [clear_schedule] leaves when the worker had [t]: without breakpoints
    the outcomes are those of the worker's previous call, otherwise those the
    hypervisor reports. *)
Definition cleared (num_sched : Z) (t : call_thread) (retry : bool) (count : Z) (fp : list Z) : Prop :=
  (num_sched = 0 -> retry = false /\ count = ct_num_filter t /\ fp = ct_footprint t) /\
  (num_sched <> 0 -> exists (k : K) r, let a := (footprint_bp (ct_footprint t) k).1 in
     fp_count a = Some count /\ fp_footprint a = fp /\ fp_retry a = Some r /\ retry = negb (r =? 0)).

Lemma wp_clear_schedule f `{!KernelLaws f K} num_sched (Q : bool -> worker K -> Prop) w :
  footprint_answered (K := K) num_sched ->
  0 <= ct_num_filter (wk_thread w) <= alen (ct_footprint (wk_thread w)) ->
  (forall retry count fp k, cleared num_sched (wk_thread w) retry count fp ->
     alen fp = alen (ct_footprint (wk_thread w)) -> 0 <= count <= alen fp ->
     Q retry (w <| wk_thread ::= fun t => with_outcomes t count fp |> <| wk_kernel := k |>)) ->
  wp call_may_stop (clear_schedule num_sched) Q w.
Proof.
  intros Hans Hok HQ. unfold clear_schedule. destruct (Z.eqb_spec num_sched 0) as [E0|E0].
  { apply wp_ret. destruct w as [[] ? ? ? ? ? ? ? k]. by apply (HQ false _ _ k). }
  destruct Hans as [?|Hans]; [done|]. apply wp_bind, wp_ask, wp_bind, wp_gets, wp_bind, wp_ask.
  match goal with |- context [footprint_bp ?l ?k] =>
    pose proof (footprint_room l k (Hans l k)) as (Hl & [r Hr] & count & Hc & Hcount); rewrite (Hans l k);
    assert (Hcl : cleared num_sched (wk_thread w) (negb (r =? 0)) count (fp_footprint (footprint_bp l k).1))
      by (split; [done|]; intros _; exists k, r; done);
    destruct (footprint_bp l k) as [fp k'] end.
  cbn [fst snd] in *. rewrite Hc, Hr. apply wp_bind, wp_ret, wp_bind, wp_modify, wp_bind, wp_ask.
  apply wp_bind, wp_ret, wp_ret. apply (HQ _ count (fp_footprint fp)); [exact Hcl|exact Hl|]. rewrite Hl. exact Hcount.
Qed.

(** When HCALL_FOOTPRINT_BP fails and writes nothing, a variable without a
    value is read. *)
Lemma retry_uninitialised num_sched w :
  num_sched <> 0 ->
  (forall l (k : K), fp_ret (footprint_bp l k).1 <> 0 /\ fp_retry (footprint_bp l k).1 = None) ->
  clear_schedule num_sched w = UB "retry".
Proof.
  intros Hn Hfp. unfold clear_schedule. rewrite (proj2 (Z.eqb_neq _ _) Hn).
  do 3 erewrite bind_run by reflexivity.
  match goal with |- context [footprint_bp ?l ?k] =>
    destruct (Hfp l k) as [Hr E]; destruct (footprint_bp l k) as [fp k'] end.
  cbn [fst snd] in *. rewrite (proj2 (Z.eqb_neq _ _) Hr), E. by do 3 erewrite bind_run by reflexivity.
Qed.

(** ** The first execution *)

(** A worker with a call to execute; [cover_open] makes room for [kCoverSize]
    records in each buffer. *)
Definition worker_ok w : Prop :=
  let t := wk_thread w in
  alen (ct_sched t) = kMaxSchedule /\ alen (ct_footprint t) = kMaxSchedule /\
  0 <= ct_num_filter t <= kMaxSchedule /\
  0 <= wk_num_sched w <= kMaxSchedule /\ alen (wk_sched w) = kMaxSchedule /\
  cov_typ (ct_cov t) = code_coverage /\ 1 <= alen (cov_data (ct_cov t)) /\
  cov_typ (ct_rfcov t) = read_from_coverage /\ 5 <= alen (cov_data (ct_rfcov t)) <= 5 * kCoverSize.

(** The thread [t'] has the traces and the outcomes of an execution. *)
Definition executed_thread (f : flags_t) (t' : call_thread) : Prop :=
  collected f t' /\ trace_buffer f (cov_data (ct_cov t')) /\ access_buffer (cov_data (ct_rfcov t')).

(** The execution [e] of the call of [w] starts with empty buffers. *)
Definition execution_of w (e : executed) : Prop :=
  let t := wk_thread w in
  exists k, e = (execute_syscall (ct_num t) (wk_args w) (aset (cov_data (ct_cov t)) 0 0)
                   (aset (cov_data (ct_rfcov t)) 0 0) k).1.

(** The outcomes in [t'] after the call of [w]. *)
Definition outcomes_of w (t' : call_thread) : Prop :=
  cleared (wk_num_sched w) (wk_thread w) (ct_retry t') (ct_num_filter t') (ct_footprint t').

(** The outcomes and the traces that were collected. *)
Lemma executed_collected f t n n' :
  alen (ct_sched t) = kMaxSchedule -> alen (ct_footprint t) = kMaxSchedule ->
  0 <= ct_num_filter t <= kMaxSchedule ->
  cov_typ (ct_cov t) = code_coverage -> cov_typ (ct_rfcov t) = read_from_coverage ->
  trace_buffer f (cov_data (ct_cov t)) -> access_buffer (cov_data (ct_rfcov t)) ->
  alen (cov_data (ct_rfcov t)) <= 5 * kCoverSize ->
  aget (cov_data (ct_cov t)) 0 = Some n -> aget (cov_data (ct_rfcov t)) 0 = Some n' ->
  cov_size (ct_cov t) = u32 n -> cov_size (ct_rfcov t) = u32 n' -> executed_thread f t.
Proof.
  intros Hs Hfp Hc Ht Ht' Hb Hb' Hmap Hn Hn' Es Es'.
  destruct (collected_trace f _ n Ht Hb Hn Es) as [En Hok].
  destruct (collected_access _ n' Ht' Hb' Hmap Hn' Es') as [En' Hok'].
  split; [|done]. assert (kMaxSchedule < 2 ^ 31) by done.
  split; [done|]. split; [done|]. split; [done|]. split; [done|]. unfold outcomes_ok. lia.
Qed.

Lemma trace_buffer_count f l : trace_buffer f l -> exists n, aget l 0 = Some n.
Proof.
  unfold trace_buffer. destruct (flag_comparisons f); [intros (n & cs & Hn & _)|intros (n & Hn & _)]; by exists n.
Qed.

Lemma wp_guarded_call f `{!KernelLaws f K} (Q : unit -> worker K -> Prop) w :
  flag_coverage f = true -> worker_ok w -> footprint_answered (K := K) (wk_num_sched w) ->
  (forall e w', execution_of w e -> executed_thread f (wk_thread w') -> outcomes_of w (wk_thread w') ->
     ct_num (wk_thread w') = ct_num (wk_thread w) -> ct_index (wk_thread w') = ct_index (wk_thread w) ->
     ct_res (wk_thread w') = default (ct_res (wk_thread w)) (ex_res e) ->
     wk_errno w' = default (wk_errno w) (ex_errno e) ->
     cov_data (ct_cov (wk_thread w')) = ex_cov e -> cov_data (ct_rfcov (wk_thread w')) = ex_rfcov e -> Q tt w') ->
  wp call_may_stop (guarded_call f) Q w.
Proof.
  intros Hf (Hsc & Hfp & Hnf & Hns & Hws & Ht & Hcov & Ht' & Hrf & Hmap) Hans HQ. unfold guarded_call.
  apply wp_bind, switch_asks. intros _ k1. apply wp_bind, wp_gets. unfold id.
  change (wk_num_sched (w <| wk_kernel := k1 |>)) with (wk_num_sched w).
  change (wk_sched (w <| wk_kernel := k1 |>)) with (wk_sched w).
  assert (kMaxSchedule < 2 ^ 31) by done. rewrite wraps_id by lia.
  apply wp_bind, setup_schedule_asks; [lia|]. intros _ k2.
  apply wp_bind, wp_in_thread, wp_coverage_pre_call; [done|done|done|].
  apply wp_bind. unfold run_syscall. apply wp_bind, wp_gets, wp_bind, wp_ask. unfold id. cbn zeta.
  match goal with |- context [execute_syscall ?n ?a ?c ?r ?k] =>
    pose proof (syscall_records (f := f) n a c r k (emptied_trace f _ Hcov) (emptied_access _ Hrf)) as Hk;
    assert (He : execution_of w (execute_syscall n a c r k).1) by (by exists k);
    destruct (execute_syscall n a c r k) as [e k3] end.
  cbn [fst snd] in *. destruct Hk as (Hb & Hb' & _ & _ & Hlen).
  apply wp_bind, wp_modify, wp_bind, wp_modify, wp_ret, wp_bind, wp_modify.
  destruct (trace_buffer_count f _ Hb) as [n Hn], Hb' as (n' & Hn' & Hb'').
  apply wp_bind, wp_in_thread, (wp_coverage_post_call f _ _ n n'); [done|exact Hn|exact Hn'|].
  apply wp_bind, (wp_clear_schedule f); [exact Hans|cbn; rewrite Hfp; exact Hnf|].
  intros retry count fp k4 Hcl Hl Hc. apply wp_bind, wp_modify, switch_asks. intros [] k5.
  cbn in Hl. rewrite Hfp in Hl. rewrite Hl in Hc.
  apply (HQ e); [exact He| |exact Hcl|done|done|done|done|done|done].
  apply (executed_collected f _ n n'); [exact Hsc|exact Hl|exact Hc|exact Ht|exact Ht'|exact Hb| | |exact Hn|exact Hn'|done|done].
  - exact (ex_intro _ n' (conj Hn' Hb'')).
  - transitivity (alen (cov_data (ct_rfcov (wk_thread w)))); [|exact Hmap].
    apply Z.eq_le_incl. etransitivity; [exact Hlen|]. exact (alen_aset _ 0 0).
Qed.
(** The errno of a call. *)
Definition call_errno (ignore : bool) (res errno : Z) : Z :=
  let e := u32 errno in if ((res =? -1) && (e =? 0)) || ignore then EINVAL else e.

(** The thread [t'] has what the execution [e] of the call of [w] left. *)
Definition has_execution f (ignore_return : Z -> bool) w (e : executed) (t' : call_thread) : Prop :=
  let t := wk_thread w in
  execution_of w e /\ executed_thread f t' /\ outcomes_of w t' /\ ct_num t' = ct_num t /\ ct_index t' = ct_index t /\
  ct_res t' = default (-1) (ex_res e) /\
  ct_reserrno t' = call_errno (ignore_return (ct_num t)) (ct_res t') (default EFAULT (ex_errno e)) /\
  cov_data (ct_cov t') = ex_cov e /\ cov_data (ct_rfcov t') = ex_rfcov e.

Lemma wp_arm_fault (Q : Z -> worker K -> Prop) w :
  (wk_fail_nth w <= 0 \/ wk_rerun w <= 0) ->
  (forall fd sf k, Q fd (w <| wk_kernel := k |> <| wk_soft_fail_state := sf |>)) ->
  wp call_may_stop arm_fault Q w.
Proof.
  intros Hp HQ. unfold arm_fault. apply wp_bind, wp_gets. unfold id.
  destruct (Z.ltb_spec 0 (wk_fail_nth w)).
  - destruct (Z.ltb_spec 0 (wk_rerun w)); [lia|]. apply wp_bind, inject_fault_asks. intros fd k.
    apply wp_bind, wp_modify, wp_ret. apply HQ.
  - apply wp_ret. destruct w as [? ? ? ? ? ? sf ? k]. exact (HQ (-1) sf k).
Qed.

Lemma wp_read_fault fd (Q : unit -> worker K -> Prop) w :
  (forall b k, Q tt (w <| wk_thread ::= set ct_fault_injected (fun _ => b) |> <| wk_kernel := k |>)) ->
  wp call_may_stop (read_fault fd) Q w.
Proof.
  intros HQ. unfold read_fault. apply wp_bind, wp_modify, wp_bind, wp_gets. unfold id.
  destruct (0 <? _).
  - apply wp_bind, fault_injected_asks. intros b k. apply wp_modify, HQ.
  - apply wp_ret. exact (HQ false (wk_kernel w)).
Qed.

Lemma wp_first_execution f ignore_return `{!KernelLaws f K} (Q : unit -> worker K -> Prop) w :
  flag_coverage f = true -> worker_ok w -> footprint_answered (K := K) (wk_num_sched w) ->
  (wk_fail_nth w <= 0 \/ wk_rerun w <= 0) ->
  (forall e w', has_execution f ignore_return w e (wk_thread w') -> Q tt w') ->
  wp call_may_stop (first_execution ignore_return f) Q w.
Proof.
  intros Hf Hw Hans Hp HQ. unfold first_execution. apply wp_bind, wp_modify, wp_bind, wp_arm_fault; [exact Hp|].
  intros fd sf k. apply wp_bind, wp_modify, wp_bind, wp_modify, wp_bind, (wp_guarded_call f); [done|exact Hw|exact Hans|].
  intros e w' He Hx Ho Hn Hi Hr Her Hc Hc'. unfold set_reserrno. apply wp_bind, wp_bind, wp_gets, wp_modify.
  apply wp_bind, wp_modify, wp_read_fault. intros b k'. apply (HQ e). unfold id. cbn in Hn, Hi, Hr, Her.
  unfold has_execution, call_errno. rewrite <- Her, <- Hn.
  split_and!; [exact He|exact Hx|exact Ho|done|exact Hi|exact Hr|done|exact Hc|exact Hc'].
Qed.

(** Later executions change the buffers only. *)
Lemma wp_reruns f `{!KernelLaws f K} n (Q : unit -> worker K -> Prop) w :
  executed_thread f (wk_thread w) ->
  (forall w' cov rfcov, wk_thread w' = with_buffers (wk_thread w) cov rfcov ->
     later_buffers f (wk_thread w) cov rfcov -> Q tt w') ->
  wp call_may_stop (foreach (seqZ 0 n) rerun_syscall) Q w.
Proof.
  intros (Hcol & Hb & Hb') HQ.
  apply (wp_foreach _ (fun w' => exists cov rfcov, wk_thread w' = with_buffers (wk_thread w) cov rfcov /\
    later_buffers f (wk_thread w) cov rfcov)).
  - exists (cov_data (ct_cov (wk_thread w))), (cov_data (ct_rfcov (wk_thread w))).
    destruct Hcol as (Hn & Hn' & Ht & (_ & Hs & _) & _). split; [by destruct w as [[? ? ? ? ? ? ? ? ? [] []] ? ? ? ? ? ? ? ?]|].
    split; [done|]. split; [done|]. split; eexists _, _; (split_and!; [done|done| |lia|done]); [|lia].
    destruct (flag_comparisons f); [apply Ht|apply Ht].
  - intros i w' _ (cov & rfcov & Et & Hlb & Hla & Ha & Ha'). unfold rerun_syscall, run_syscall.
    apply wp_bind, wp_bind, wp_gets, wp_bind, wp_ask. unfold id. cbn zeta. rewrite Et.
    change (cov_data (ct_cov (with_buffers _ cov rfcov))) with cov.
    change (cov_data (ct_rfcov (with_buffers _ cov rfcov))) with rfcov.
    match goal with |- context [execute_syscall ?n ?a ?c ?r ?k] =>
      destruct (syscall_records (f := f) n a c r k Hlb Hla) as (H1 & H2 & H3 & H4 & _);
      destruct (execute_syscall n a c r k) as [e k3] end.
    cbn [fst snd] in *. apply wp_bind, wp_modify, wp_bind, wp_modify, wp_ret, wp_ret.
    exists (ex_cov e), (ex_rfcov e). split; [cbn; by rewrite Et|].
    assert (0 <= trace_words f) by (unfold trace_words; by destruct (flag_comparisons f)).
    split_and!; [done|done|by eapply appends_trans|by eapply appends_trans].
  - intros w' (cov & rfcov & Et & Hl). by eapply HQ.
Qed.
End calls.

Lemma call_errno_nonzero ignore errno : call_errno ignore (-1) errno <> 0.
Proof. unfold call_errno. cbn. destruct (Z.eqb_spec (u32 errno) 0), ignore; done. Qed.

Lemma reported_success f ignore_return `{!Kernel K} (w : worker K) e t :
  has_execution f ignore_return w e t -> reported_errno t true = 0 <-> ct_res t <> -1.
Proof.
  intros (_ & _ & _ & _ & _ & _ & He & _). unfold reported_errno. destruct (Z.eqb_spec (ct_res t) (-1)) as [Er|Er]; cbn.
  - rewrite He, Er. split; [|done]. by intros ?%call_errno_nonzero.
  - done.
Qed.

(** C28. With coverage on, a kernel that keeps to the format and the size of the
    coverage buffers and a hypervisor that answers HCALL_FOOTPRINT_BP if the
    call has breakpoints, [execute_call] does nothing undefined; it stops only
    because the coverage is too long, the emulation cannot be switched or fault
    injection is not available (which is not asked for together with a
    rerun).  Otherwise the thread can be reported, and its report is
    that of the first execution, made with empty buffers, however often the
    call is run again: its result (-1 if a fault abandoned it), its errno
    (EFAULT unless it set one; EINVAL if it failed without), its traces and its
    accesses.  The outcomes of breakpoints in it are those the hypervisor
    reported; for a call without breakpoints they are still those of the
    worker's previous call.  The errno reported is 0 exactly when the result is
    not -1. *)
Theorem call_reports_first_execution {K} `{!Kernel K} f `{!KernelLaws f K} ignore_return (w : worker K) :
  flag_coverage f = true -> worker_ok w -> footprint_answered (K := K) (wk_num_sched w) ->
  (wk_fail_nth w <= 0 \/ wk_rerun w <= 0) ->
  wp call_may_stop (execute_call ignore_return f)
    (fun _ w' => exists w1 e,
       first_execution ignore_return f w = Ret tt w1 /\
       has_execution f ignore_return w e (wk_thread w1) /\
       thread_ok f (wk_thread w') /\
       (reported_errno (wk_thread w') true = 0 <-> ex_res e <> None /\ ex_res e <> Some (-1)) /\
       forall (sort : StdSort) cov_filter output_data H0 sz fin last r,
         describes f cov_filter output_data H0 sz (wk_thread w') fin last r <->
         describes f cov_filter output_data H0 sz (wk_thread w1) fin last r) w.
Proof.
  intros Hf Hw Hans Hp. unfold execute_call. apply wp_bind, wp_gets. unfold id.
  destruct (wp_outcome _ _ _ _ (wp_first_execution f ignore_return
    (fun _ w' => exists e, has_execution f ignore_return w e (wk_thread w')) w Hf Hw Hans Hp
    (fun e w' He => ex_intro _ e He))) as [([] & w1 & E1 & e & He)|(s & E1 & Hs)]; [|apply wp_bind; unfold wp; by rewrite E1].
  eapply wp_bind, wp_run; [exact E1|]. apply (wp_reruns f); [apply He|].
  intros w' cov rfcov Et Hl. pose proof He as (_ & (Hc & _) & _ & _ & _ & Hr & _). exists w1, e. rewrite Et.
  split_and!; [done|done|by apply later_thread_ok| |by intros; apply later_describes].
  change (reported_errno (with_buffers (wk_thread w1) cov rfcov) true) with (reported_errno (wk_thread w1) true).
  rewrite (reported_success _ _ _ _ _ He), Hr. clear. destruct (ex_res e); cbn; intuition congruence.
Qed.

(** ** A call *)

(** A kernel that records an address per execution as long as there is room,
    and fails the first execution without an errno; its state counts
    executions. *)
Definition record1 (l : list Z) : list Z :=
  match l with
  | n :: rest => if (0 <=? n) && (n <? 100) && (n + 1 <=? alen rest) then (n + 1) :: aset rest n 0xffffffff81000010 else l
  | [] => []
  end.

#[local] Instance counting_kernel : Kernel Z := {|
  kssb_switch k := (0, k);
  open_fail_nth k := (3, k);
  write_fail_nth _ s k := (Z.of_nat (String.length s), k);
  read_fail_nth _ k := ([48; 10], k);
  execute_syscall _ _ cov rfcov k :=
    (mk_executed (Some (if k =? 0 then -1 else 5)) (if k =? 0 then Some 0 else None) (record1 cov) rfcov, k + 1);
  bp_hypercall _ _ _ _ k := (0, k);
  footprint_bp l k := (mk_footprints 0 (Some (Z.min 1 (alen l))) l (Some 0), k)
|}.

Definition rerun_worker : worker Z :=
  mk_worker
    (mk_call_thread 0 7 0 0 false false 0 (replicate 128 0) (replicate 128 0)
       (mk_cover 0 code_coverage (replicate 8 9) 0) (mk_cover 0 read_from_coverage (replicate 10 9) 0))
    [] 1 (replicate 128 (mk_schedule_t 0 0x1000 0 0)) 0 2 false 0 0.

Lemma appends_refl h k l n : aget l 0 = Some n -> 0 <= n -> appends h k l l.
Proof. intros E Hn. exists n, n. split_and!; done || lia. Qed.

Lemma record1_records l : code_buffer l -> code_buffer (record1 l) /\ appends 1 1 l (record1 l).
Proof.
  intros (n & E & Hn & Hl). destruct l as [|n0 rest]; [done|]. injection E as ->. rewrite alen_cons in Hl. cbn [record1].
  destruct (Z.leb_spec 0 n), (Z.ltb_spec n 100), (Z.leb_spec (n + 1) (alen rest)); cbn [andb]; try lia;
    try (split; [exists n; rewrite alen_cons; split_and!; done || lia|by eapply appends_refl]).
  split.
  - exists (n + 1). rewrite alen_cons, alen_aset. split_and!; done || lia.
  - exists n, (n + 1). split_and!; [done|done|lia|lia|]. change (Z.to_nat 1) with 1%nat. cbn [drop].
    rewrite Z.mul_1_l. unfold aset. destruct (Z.ltb_spec n 0); [lia|]. apply take_insert_ge. lia.
Qed.

#[local] Instance counting_laws : KernelLaws signal_flags Z.
Proof.
  split.
  - intros num args cov rfcov k Hb Hb'. destruct (record1_records cov Hb) as [H1 H2].
    split_and!; [exact H1|exact Hb'|exact H2| |done]. destruct Hb' as (n & E & Hn & _). eapply appends_refl; [exact E|lia].
  - intros l k. cbv zeta. intros _. pose proof (alen_nonneg l). split; [done|]. split; [by eexists|]. eexists. split; [reflexivity|lia].
Qed.

Lemma rerun_worker_ok : worker_ok rerun_worker.
Proof. unfold worker_ok. cbn zeta. split_and!; vm_compute; first [reflexivity | discriminate]. Qed.

Lemma rerun_answered : footprint_answered (K := Z) (wk_num_sched rerun_worker).
Proof. right. done. Qed.

Lemma rerun_returns :
  exists w', execute_call (fun _ => false) signal_flags rerun_worker = Ret tt w' /\
    ct_reserrno (wk_thread w') = EINVAL.
Proof. eexists. split; [vm_compute; reflexivity|reflexivity]. Qed.

(** The call fails first, and succeeds in the two executions that follow: the
    report is that of a call that failed, with EINVAL. *)
Lemma call_reports_first_execution_witness :
  exists w', execute_call (fun _ => false) signal_flags rerun_worker = Ret tt w' /\
    ct_reserrno (wk_thread w') = EINVAL /\ thread_ok signal_flags (wk_thread w').
Proof.
  destruct rerun_returns as (w' & E & Er).
  destruct (wp_returned _ _ _ _ _ _ (call_reports_first_execution signal_flags (fun _ => false) rerun_worker
    eq_refl rerun_worker_ok rerun_answered (or_introl (Z.le_refl 0))) E) as (w1 & e & _ & _ & Hok & _).
  exact (ex_intro _ w' (conj E (conj Er Hok))).
Defined.
