(* ===== verification/Copyin.v ===== *)
(** * The arguments in memory (executor/executor.cc, executor/common.h,
      prog/encodingexec.go, prog/checksum.go)

    Before a call is scheduled its arguments are copied to memory: integers
    of some size and byte order or parts of them, numbers as text, raw data,
    and Internet checksums of what was copied before.  After the call its
    results are read, for the arguments of later calls.  The file models the
    instructions [instr_copyin] and [instr_copyout] of the executor, and the
    encoder of raw data and checksums.

    Memory is a map from addresses to bytes; an address that is not in the map
    is not mapped.  [NONFAILING] code that touches one is abandoned. *)

From stdpp Require Import base list gmap strings.
From Stdlib Require Import ZArith Lia.
From S2P Require Import Prelude ExecWire.

Local Open Scope Z_scope.
Local Open Scope record_scope.

(** ** The encoder *)

Definition execArgData : Z := 2.
Definition execArgCsum : Z := 3.
Definition execArgDataReadable : Z := Z.shiftl 1 63.
Definition ExecArgCsumInet : Z := 0.
Definition ExecArgCsumChunkData : Z := 0.
Definition ExecArgCsumChunkConst : Z := 1.

(** Eight bytes a word, in the order of the machine. *)
Fixpoint words_of (l : list Z) : list Z :=
  match l with
  | a :: b :: c :: d :: e :: f :: g :: h :: l => le_value [a; b; c; d; e; f; g; h] :: words_of l
  | _ => []
  end.

(** The case of a [*DataArg] in [writeArg]. *)
Definition writeDataArg (data : list Z) (readable : bool) : prog execContext unit :=
  if alen data =? 0 then mret tt
  else
    write execArgData;;
    write (if readable then Z.lor (alen data) execArgDataReadable else alen data);;
    let pad := 8 - alen data `mod` 8 in
    let pad := if pad =? 8 then 0 else pad in
    let padded := alen data + pad in
    modify (fun w => if buf w <? padded then w <| eof := true |>
                     else w <| words ::= fun l => l ++ words_of (data ++ replicate (Z.to_nat pad) 0) |>
                            <| buf ::= fun n => n - padded |>).

(** A part of what a checksum is of: an argument in memory or a constant. *)
Inductive CsumChunk :=
| CsumChunkArg (addr size : Z)
| CsumChunkConst (value size : Z).

Definition writeChunk (c : CsumChunk) : prog execContext unit :=
  match c with
  | CsumChunkArg addr size => write ExecArgCsumChunkData;; write addr;; write size
  | CsumChunkConst value size => write ExecArgCsumChunkConst;; write value;; write size
  end.

(** A turn of the loop of [writeChecksums]. *)
Definition writeChecksum (addr size : Z) (chunks : list CsumChunk) : prog execContext unit :=
  write execInstrCopyin;; write addr;; write execArgCsum;; write size;;
  write ExecArgCsumInet;; write (alen chunks);; foreach chunks writeChunk.

(** The chunks of a checksum with a pseudo header; an argument is given by
    its address and size. *)
Definition composePseudoCsumIPv4 (tcpPacket srcAddr dstAddr : Z * Z) (protocol : Z) : list CsumChunk :=
  [CsumChunkArg srcAddr.1 srcAddr.2; CsumChunkArg dstAddr.1 dstAddr.2;
   CsumChunkConst (swap_bytes 2 protocol) 2; CsumChunkConst (swap_bytes 2 (wrapu 16 tcpPacket.2)) 2;
   CsumChunkArg tcpPacket.1 tcpPacket.2].

Definition composePseudoCsumIPv6 (tcpPacket srcAddr dstAddr : Z * Z) (protocol : Z) : list CsumChunk :=
  [CsumChunkArg srcAddr.1 srcAddr.2; CsumChunkArg dstAddr.1 dstAddr.2;
   CsumChunkConst (swap_bytes 4 (u32 tcpPacket.2)) 4; CsumChunkConst (swap_bytes 4 protocol) 4;
   CsumChunkArg tcpPacket.1 tcpPacket.2].

(** ** State of the executor *)

Definition arg_data : Z := 2.
Definition arg_csum : Z := 3.
Definition binary_format_strdec : Z := 2.
Definition binary_format_strhex : Z := 3.
Definition binary_format_stroct : Z := 4.
Definition arg_csum_inet : Z := 0.
Definition arg_csum_chunk_data : Z := 0.
Definition arg_csum_chunk_const : Z := 1.
Definition no_copyout : Z := u64 (-1).

Record res_t := mk_res { executed : bool; res_val : Z }.

(** What is left of the input, the memory, and the results of calls. *)
Record exec_state := mk_exec_state {
  ex_input : list Z;
  ex_mem : gmap Z Z;
  results : list res_t
}.

#[export] Instance exec_state_eta : Eta exec_state := fun s =>
  mk_exec_state (ex_input s) (ex_mem s) (results s).

Definition on_input {A} (m : prog (list Z) A) : prog exec_state A := fun s =>
  match m (ex_input s) with
  | Ret a l => Ret a (s <| ex_input := l |>)
  | Exit e => Exit e
  | UB e => UB e
  | OutOfFuel => OutOfFuel
  end.

Fixpoint load_bytes (m : gmap Z Z) (n : nat) (a : Z) : option (list Z) :=
  match n with
  | O => Some []
  | S n => b ← m !! a; l ← load_bytes m n (a + 1); Some (b :: l)
  end.

Fixpoint store_bytes (a : Z) (l : list Z) (m : gmap Z Z) : gmap Z Z :=
  match l with
  | [] => m
  | b :: l => <[a := b]> (store_bytes (a + 1) l m)
  end.

(** What is left behind by a copy or a sum that is abandoned: some of the
    bytes may have been copied, and the sum is anything. *)
Class Faults := {
  torn_copy : gmap Z Z -> Z -> list Z -> gmap Z Z;
  torn_sum : Z -> Z -> Z -> Z;
  torn_copy_elsewhere m a l b : ~ a <= b < a + alen l -> torn_copy m a l !! b = m !! b
}.

(** ** Integers *)

(** [((1ull << bf_len) - 1) << bf_off]; a shift of 64 or more is not defined. *)
Definition BITMASK (bf_off bf_len : Z) : prog exec_state Z :=
  if (64 <=? bf_len) || (64 <=? bf_off) then ub "BITMASK"
  else mret (u64 (Z.shiftl (Z.shiftl 1 bf_len - 1) bf_off)).

(** Loads and stores of integers of [n] bytes; the result tells whether the
    memory was mapped. *)
Definition load_int (n : nat) (addr : Z) : prog exec_state (option Z) :=
  m ← gets ex_mem;
  mret (le_value <$> load_bytes m n addr).

Definition store_int (n : nat) (addr v : Z) : prog exec_state bool :=
  m ← gets ex_mem;
  match load_bytes m n addr with
  | None => mret false
  | Some _ => modify (fun s => s <| ex_mem ::= store_bytes addr (le_bytes n v) |>);; mret true
  end.

(** [copyin_int<T>]. *)
Definition copyin_int (n : nat) (addr val bf bf_off bf_len : Z) : prog exec_state bool :=
  if (bf_off =? 0) && (bf_len =? 0) then
    v ← on_input (swap val (Z.of_nat n) bf);
    store_int n addr v
  else
    old ← load_int n addr;
    match old with
    | None => mret false
    | Some old =>
        x ← on_input (swap old (Z.of_nat n) bf);
        let shift := bf_off in
        mask ← BITMASK shift bf_len;
        let x := wrapu (8 * Z.of_nat n)
                   (Z.lor (Z.land x (u64 (Z.lnot mask))) (Z.land (u64 (Z.shiftl val shift)) mask)) in
        v ← on_input (swap x (Z.of_nat n) bf);
        store_int n addr v
    end.

(** ** Text and data *)

Definition digit (d : Z) : Z := if d <? 10 then 48 + d else 87 + d.

(** The [n] low digits of [v], the highest first; [%020llu] and the like print
    a number that has no more than that. *)
Fixpoint digits (base : Z) (n : nat) (v : Z) : list Z :=
  match n with
  | O => []
  | S n => digits base n (v / base) ++ [digit (v `mod` base)]
  end.

Section copying.
Context `{Faults} (procid : Z).

Definition copy_bytes (addr : Z) (l : list Z) : prog exec_state bool :=
  m ← gets ex_mem;
  match load_bytes m (length l) addr with
  | None => modify (fun s => s <| ex_mem := torn_copy m addr l |>);; mret false
  | Some _ => modify (fun s => s <| ex_mem := store_bytes addr l m |>);; mret true
  end.

(** [sprintf] writes a zero after the text. *)
Definition copyin (addr val size bf bf_off bf_len : Z) : prog exec_state unit :=
  let text n msg l :=
    if negb (size =? n) then failmsg msg else copy_bytes addr (l ++ [0]);; mret tt in
  if negb (bf =? binary_format_native) && negb (bf =? binary_format_bigendian) &&
     (negb (bf_off =? 0) || negb (bf_len =? 0))
  then failmsg "bitmask for string format"
  else if (bf =? binary_format_native) || (bf =? binary_format_bigendian) then
    if size =? 1 then copyin_int 1 addr val bf bf_off bf_len;; mret tt
    else if size =? 2 then copyin_int 2 addr val bf bf_off bf_len;; mret tt
    else if size =? 4 then copyin_int 4 addr val bf bf_off bf_len;; mret tt
    else if size =? 8 then copyin_int 8 addr val bf bf_off bf_len;; mret tt
    else failmsg "copyin: bad argument size"
  else if bf =? binary_format_strdec then text 20 "bad strdec size" (digits 10 20 val)
  else if bf =? binary_format_strhex then text 18 "bad strhex size" ([48; 120] ++ digits 16 16 val)
  else if bf =? binary_format_stroct then text 23 "bad stroct size" (digits 8 23 val)
  else failmsg "unknown binary format".

(** [None] when the memory is not mapped. *)
Definition copyout (addr size : Z) : prog exec_state (option Z) :=
  if size =? 1 then load_int 1 addr
  else if size =? 2 then load_int 2 addr
  else if size =? 4 then load_int 4 addr
  else if size =? 8 then load_int 8 addr
  else failmsg "copyout: bad argument size".

(** The case of [arg_data].  The copy reads the input; when the input is too
    short, the words are missed afterwards. *)
Definition copyin_data (addr : Z) : prog exec_state unit :=
  size ← on_input read_input;
  let size := Z.land size (2 ^ 63 - 1) in
  l ← gets ex_input;
  copy_bytes addr (take (Z.to_nat size) (l ≫= le_bytes 8));;
  on_input (read_words (Z.to_nat ((size + 7) / 8)));;
  mret tt.

(** ** Checksums *)

(** 16-bit words, and the last byte when the length is odd. *)
Fixpoint sum_words (acc : Z) (data : list Z) : Z :=
  match data with
  | [] => acc
  | [a] => u32 (acc + a)
  | a :: b :: data => sum_words (u32 (acc + (a + 256 * b))) data
  end.

(** [while (csum->acc > 0xffff)]; a 32-bit sum takes two rounds at most. *)
Fixpoint fold_acc (fuel : nat) (acc : Z) : prog exec_state Z :=
  match fuel with
  | O => fun _ => OutOfFuel
  | S fuel =>
      if 0xffff <? acc then fold_acc fuel (u32 (Z.land acc 0xffff + Z.shiftr acc 16)) else mret acc
  end.

Definition csum_inet_update (acc : Z) (data : list Z) : prog exec_state Z :=
  if alen data =? 0 then mret acc else fold_acc 3 (sum_words acc data).

Definition csum_inet_digest (acc : Z) : Z := wrapu 16 (Z.lnot acc).

Definition csum_chunk (acc : Z) : prog exec_state Z :=
  chunk_kind ← on_input read_input;
  chunk_value ← on_input read_input;
  chunk_size ← on_input read_input;
  if chunk_kind =? arg_csum_chunk_data then
    m ← gets ex_mem;
    match load_bytes m (Z.to_nat chunk_size) chunk_value with
    | Some l => csum_inet_update acc l
    | None => mret (torn_sum acc chunk_value chunk_size)
    end
  else if chunk_kind =? arg_csum_chunk_const then
    if negb (chunk_size =? 2) && negb (chunk_size =? 4) && negb (chunk_size =? 8)
    then failmsg "bad checksum const chunk size"
    else csum_inet_update acc (take (Z.to_nat chunk_size) (le_bytes 8 chunk_value))
  else failmsg "bad checksum chunk kind".

Fixpoint csum_chunks (n : nat) (acc : Z) : prog exec_state Z :=
  match n with
  | O => mret acc
  | S n => acc ← csum_chunk acc; csum_chunks n acc
  end.

Definition copyin_csum (addr : Z) : prog exec_state unit :=
  size ← on_input read_input;
  csum_kind ← on_input read_input;
  if csum_kind =? arg_csum_inet then
    if negb (size =? 2) then failmsg "bag inet checksum size"
    else
      chunks_num ← on_input read_input;
      acc ← csum_chunks (Z.to_nat chunks_num) 0;
      copyin addr (csum_inet_digest acc) 2 binary_format_native 0 0
  else failmsg "bad checksum kind".

(** ** Instructions *)

(** The end of [read_result]: the value of an argument. *)
Definition arg_val (a : arg_t) : prog exec_state Z :=
  match a with
  | arg_value v => mret v
  | arg_ref idx op_div op_add arg =>
      l ← gets results;
      r ← deref "results" (aget l idx);
      mret (if executed r
            then u64 ((if negb (op_div =? 0) then res_val r / op_div else res_val r) + op_add)
            else arg)
  end.

(** The instruction [instr_copyin]. *)
Definition exec_copyin : prog exec_state unit :=
  addr ← on_input read_input;
  typ ← on_input read_input;
  if typ =? arg_const then
    '(val, size, bf, bf_off, bf_len) ← on_input (read_const_arg procid);
    copyin addr val size bf bf_off bf_len
  else if typ =? arg_result then
    meta ← on_input read_input;
    a ← on_input read_result;
    val ← arg_val a;
    copyin addr val (Z.land meta 0xff) (Z.shiftr meta 8) 0 0
  else if typ =? arg_data then copyin_data addr
  else if typ =? arg_csum then copyin_csum addr
  else failmsg "bad argument type".

Definition set_result (index val : Z) : prog exec_state unit :=
  modify (fun s => s <| results ::= fun l => aset l index (mk_res true val) |>).

(** The [instr_copyout] instructions after a call, from the thread's own
    position in the input. *)
Fixpoint copyout_loop (pos : list Z) : prog exec_state unit :=
  match pos with
  | [] => failmsg "input command overflows input"
  | instr :: pos =>
      if instr =? instr_copyout then
        match pos with
        | [] => failmsg "input command overflows input"
        | index :: pos =>
            if kMaxCommands <=? index then failmsg "result overflows kMaxCommands"
            else match pos with
            | addr :: size :: pos =>
                val ← copyout addr size;
                (match val with Some v => set_result index v | None => mret tt end);;
                copyout_loop pos
            | _ => failmsg "input command overflows input"
            end
        end
      else mret tt
  end.

Definition copyout_call_results (copyout_index res : Z) (copyout_pos : list Z) : prog exec_state unit :=
  (if negb (copyout_index =? no_copyout) then
     if kMaxCommands <=? copyout_index then failmsg "result overflows kMaxCommands"
     else set_result copyout_index res
   else mret tt);;
  copyout_loop copyout_pos.
End copying.
