(* ===== verification/CopyinSpec.v ===== *)
(** * Arguments reach memory, results reach arguments

    Copying an integer to memory sets the bits of its field and nothing else;
    raw data and numbers as text arrive as they are; a checksum makes the
    packet it is part of valid; and the results of a call, read from memory,
    are the arguments of the later calls that refer to them. *)

From stdpp Require Import base list gmap strings.
From Stdlib Require Import ZArith Lia.
From S2P Require Import Prelude ExecWire ExecWireSpec Copyin.

Local Open Scope Z_scope.
Local Open Scope record_scope.

(** ** Memory *)

Definition is_byte (b : Z) : Prop := 0 <= b < 256.

Lemma load_bytes_length m n a l : load_bytes m n a = Some l -> length l = n.
Proof.
  revert a l. induction n as [|n IH]; intros a l; cbn; [by intros [= <-]|].
  destruct (m !! a); [|done]. cbn. destruct (load_bytes m n (a + 1)) as [l'|] eqn:E; [|done].
  cbn. intros [= <-]. cbn. by rewrite (IH _ _ E).
Qed.

Lemma load_bytes_ext m m' n a :
  (forall b, a <= b < a + Z.of_nat n -> m' !! b = m !! b) -> load_bytes m' n a = load_bytes m n a.
Proof.
  revert a. induction n as [|n IH]; intros a Hm; [done|]. cbn. rewrite Hm by lia.
  destruct (m !! a); [|done]. cbn. rewrite IH; [done|]. intros b Hb. apply Hm. lia.
Qed.

Lemma lookup_store_bytes a l m b :
  store_bytes a l m !! b = if decide (a <= b < a + alen l) then aget l (b - a) else m !! b.
Proof.
  revert a. induction l as [|x l IH]; intros a; cbn [store_bytes].
  { rewrite decide_False; [done|]. unfold alen. cbn. lia. }
  rewrite alen_cons. destruct (decide (b = a)) as [->|Hne].
  - rewrite lookup_insert_eq, decide_True by (pose proof (alen_nonneg l); lia). by rewrite Z.sub_diag.
  - rewrite lookup_insert_ne, IH by done.
    destruct (decide (a + 1 <= b < a + 1 + alen l)).
    + rewrite decide_True by lia. unfold aget.
      destruct (Z.ltb_spec (b - a) 0), (Z.ltb_spec (b - (a + 1)) 0); try lia.
      by replace (Z.to_nat (b - a)) with (S (Z.to_nat (b - (a + 1)))) by lia.
    + by rewrite decide_False by lia.
Qed.

Lemma load_store_same a l m : load_bytes (store_bytes a l m) (length l) a = Some l.
Proof.
  revert a m. induction l as [|x l IH]; intros a m; [done|]. cbn [length load_bytes store_bytes].
  rewrite lookup_insert_eq. cbn. rewrite (load_bytes_ext (store_bytes (a + 1) l m)); [by rewrite IH|].
  intros b Hb. apply lookup_insert_ne. lia.
Qed.

Lemma load_store_other a l m b n :
  b + Z.of_nat n <= a \/ a + alen l <= b -> load_bytes (store_bytes a l m) n b = load_bytes m n b.
Proof. intros Hd. apply load_bytes_ext. intros c Hc. by rewrite lookup_store_bytes, decide_False by lia. Qed.

Lemma on_input_run {A} (q : prog (list Z) A) inp inp' m r v :
  q inp = Ret v inp' -> on_input q (mk_exec_state inp m r) = Ret v (mk_exec_state inp' m r).
Proof. unfold on_input. cbn. by intros ->. Qed.

Lemma bind_ub {W A B} (q : prog W A) (k : A -> prog W B) w e : q w = UB e -> (a ← q; k a) w = UB e.
Proof. unfold mbind, prog_bind. by intros ->. Qed.

(** ** Integers in memory *)

(** The number that bytes hold, and the bytes that hold a number. *)
Definition field (bf : Z) (l : list Z) : Z :=
  if bf =? binary_format_native then le_value l else le_value (reverse l).
Definition unfield (bf : Z) (n : nat) (x : Z) : list Z :=
  if bf =? binary_format_native then le_bytes n x else reverse (le_bytes n x).

Lemma le_bytes_are_bytes n x : Forall is_byte (le_bytes n x).
Proof. revert x. induction n; intros x; cbn; constructor; [by apply Z.mod_pos_bound|done]. Qed.

Lemma le_bytes_value l : Forall is_byte l -> le_bytes (length l) (le_value l) = l.
Proof.
  induction 1 as [|b l Hb _ IH]; [done|]. cbn [length le_bytes le_value]. red in Hb.
  rewrite (Z.mod_small b) by done. rewrite (Z.mul_comm 256), Z.mod_add, Z.div_add by done.
  rewrite (Z.mod_small b), (Z.div_small b), Z.add_0_l by done. by rewrite IH.
Qed.

Lemma le_value_app l b : is_byte b -> le_value (l ++ [b]) = le_value l + 256 ^ alen l * b.
Proof.
  intros Hb. induction l as [|x l IH]; cbn [app le_value].
  - change (256 ^ alen []) with 1. rewrite Z.mod_small by done. lia.
  - rewrite IH, alen_cons, Z.pow_add_r by (pose proof (alen_nonneg l); lia). ring.
Qed.

Lemma swap_bytes_value n x : swap_bytes n x = le_value (reverse (le_bytes n x)).
Proof.
  revert x. induction n as [|n IH]; intros x; [done|]. cbn [swap_bytes le_bytes].
  rewrite reverse_cons, le_value_app by (by apply Z.mod_pos_bound).
  unfold alen. rewrite length_reverse, length_le_bytes, IH. lia.
Qed.

Lemma Forall_reverse_byte l : Forall is_byte l -> Forall is_byte (reverse l).
Proof. intros Hl. by apply Forall_reverse. Qed.

(** What [swap] returns, as bytes. *)
Definition int_format (n : nat) (bf : Z) : Prop :=
  (n = 1 \/ n = 2 \/ n = 4 \/ n = 8)%nat /\
  (bf = binary_format_native \/ bf = binary_format_bigendian /\ n <> 1%nat).

Lemma swap_run n bf x inp :
  int_format n bf -> exists y, swap x (Z.of_nat n) bf inp = Ret y inp /\ le_bytes n y = unfield bf n x.
Proof.
  intros [Hn [->|[-> Hn1]]]; [by exists x|]. exists (swap_bytes n x). split.
  - unfold swap. destruct Hn as [->|[->|[->| ->]]]; done.
  - rewrite swap_bytes_value. unfold unfield. cbn.
    rewrite <- (le_bytes_value (reverse (le_bytes n x))) at 2 by (apply Forall_reverse_byte, le_bytes_are_bytes).
    by rewrite length_reverse, length_le_bytes.
Qed.

Lemma swap_old n bf l inp :
  int_format n bf -> Forall is_byte l -> length l = n ->
  swap (le_value l) (Z.of_nat n) bf inp = Ret (field bf l) inp.
Proof.
  intros [Hn [->|[-> Hn1]]] Hl Hlen; [done|]. unfold field. cbn.
  rewrite <- (le_bytes_value l Hl) at 2. rewrite Hlen, <- swap_bytes_value.
  unfold swap. destruct Hn as [->|[->|[->| ->]]]; done.
Qed.

Lemma field_unfield bf n x : field bf (unfield bf n x) = wrapu (8 * Z.of_nat n) x.
Proof.
  unfold field, unfield, wrapu. destruct (bf =? binary_format_native).
  - apply le_value_bytes.
  - rewrite reverse_involutive. apply le_value_bytes.
Qed.

Lemma length_unfield bf n x : length (unfield bf n x) = n.
Proof. unfold unfield. case_match; rewrite ?length_reverse; apply length_le_bytes. Qed.

Lemma unfield_byte bf n x : Forall is_byte (unfield bf n x).
Proof. unfold unfield. case_match; [|apply Forall_reverse_byte]; apply le_bytes_are_bytes. Qed.

Lemma store_int_run n addr v inp m r l :
  load_bytes m n addr = Some l ->
  store_int n addr v (mk_exec_state inp m r) =
  Ret true (mk_exec_state inp (store_bytes addr (le_bytes n v) m) r).
Proof. intros Hl. unfold store_int. erewrite bind_run by reflexivity. cbn [ex_mem]. by rewrite Hl. Qed.

(** ** Bits *)

Lemma testbit_wrapu w x i : 0 <= i < w -> Z.testbit (wrapu w x) i = Z.testbit x i.
Proof. intros Hi. unfold wrapu. apply Z.mod_pow2_bits_low. lia. Qed.

Lemma mask_bits off len i :
  0 <= off -> 0 <= len -> off + len <= 64 -> 0 <= i < 64 ->
  Z.testbit (u64 (Z.shiftl (Z.shiftl 1 len - 1) off)) i = (off <=? i) && (i <? off + len).
Proof.
  intros Hoff Hlen Hs Hi. rewrite testbit_wrapu by lia. rewrite Z.shiftl_spec by lia.
  rewrite Z.shiftl_1_l, Z.sub_1_r, <- Z.ones_equiv.
  destruct (Z.leb_spec off i); [|by rewrite Z.testbit_neg_r by lia]. cbn.
  destruct (Z.ltb_spec i (off + len)); [apply Z.ones_spec_low|apply Z.ones_spec_high]; lia.
Qed.

(** The new value of the field: the bits from [off] on are those of [val]. *)
Definition merged (w off len val old : Z) : Z :=
  let mask := u64 (Z.shiftl (Z.shiftl 1 len - 1) off) in
  wrapu w (Z.lor (Z.land old (u64 (Z.lnot mask))) (Z.land (u64 (Z.shiftl val off)) mask)).

Lemma merged_bits w off len val old i :
  0 <= off -> 0 <= len -> off + len <= w -> w <= 64 -> 0 <= i < w ->
  Z.testbit (merged w off len val old) i =
  if (off <=? i) && (i <? off + len) then Z.testbit val (i - off) else Z.testbit old i.
Proof.
  intros Hoff Hlen Hs Hw Hi. unfold merged. rewrite testbit_wrapu by done.
  rewrite Z.lor_spec, !Z.land_spec, (testbit_wrapu 64 (Z.lnot _)), Z.lnot_spec, !mask_bits by lia.
  rewrite testbit_wrapu, Z.shiftl_spec by lia.
  destruct ((off <=? i) && (i <? off + len)); cbn.
  - by rewrite andb_false_r, andb_true_r.
  - by rewrite andb_true_r, andb_false_r, orb_false_r.
Qed.

(** An integer, or a part of it. *)
Definition part_of (n : nat) (off len : Z) : Prop :=
  off = 0 /\ len = 0 \/ 0 <= off /\ 0 < len < 64 /\ off + len <= 8 * Z.of_nat n.

Definition new_field (n : nat) (off len val old : Z) : Z :=
  if (off =? 0) && (len =? 0) then val else merged (8 * Z.of_nat n) off len val old.

Lemma copyin_int_run n addr val bf off len inp m r l :
  int_format n bf -> part_of n off len -> load_bytes m n addr = Some l -> Forall is_byte l ->
  copyin_int n addr val bf off len (mk_exec_state inp m r) =
  Ret true (mk_exec_state inp (store_bytes addr (unfield bf n (new_field n off len val (field bf l))) m) r).
Proof.
  intros Hf Hp Hl Hb. unfold copyin_int, new_field. destruct ((off =? 0) && (len =? 0)) eqn:E0.
  - destruct (swap_run n bf val inp Hf) as (y & Hy & <-).
    erewrite bind_run by (apply on_input_run, Hy). by apply (store_int_run _ _ _ _ _ _ l).
  - assert (Hrange : 0 <= off /\ 0 < len < 64 /\ off + len <= 8 * Z.of_nat n).
    { destruct Hp as [[-> ->]|Hp]; [discriminate E0|done]. }
    assert (Z.of_nat n <= 8) by (destruct Hf as [Hn _]; lia).
    unfold load_int. erewrite bind_run by (erewrite bind_run by reflexivity; cbn [ex_mem]; rewrite Hl; reflexivity).
    cbn [fmap option_fmap option_map]. pose proof (load_bytes_length _ _ _ _ Hl) as Hlen.
    erewrite bind_run by (apply on_input_run, swap_old; done). cbv zeta. unfold BITMASK.
    destruct (Z.leb_spec 64 len), (Z.leb_spec 64 off); try lia. erewrite bind_run by reflexivity.
    fold (merged (8 * Z.of_nat n) off len val (field bf l)).
    destruct (swap_run n bf (merged (8 * Z.of_nat n) off len val (field bf l)) inp Hf) as (y & Hy & <-).
    erewrite bind_run by (apply on_input_run, Hy). by apply (store_int_run _ _ _ _ _ _ l).
Qed.

Lemma new_field_bits n off len val old i :
  part_of n off len -> (n <= 8)%nat -> 0 <= i < 8 * Z.of_nat n ->
  Z.testbit (new_field n off len val old) i =
  if (off <=? i) && (i <? off + (if len =? 0 then 8 * Z.of_nat n else len))
  then Z.testbit val (i - off) else Z.testbit old i.
Proof.
  intros Hp Hn Hi. unfold new_field. destruct Hp as [[-> ->]|(Hoff & Hlen & Hs)].
  - rewrite Z.add_0_l, Z.sub_0_r. rewrite !Z.eqb_refl. cbn [andb].
    by destruct (Z.leb_spec 0 i), (Z.ltb_spec i (8 * Z.of_nat n)); try lia.
  - destruct (Z.eqb_spec len 0); [lia|]. rewrite andb_false_r. apply merged_bits; lia.
Qed.

Section copying_spec.
Context `{Faults} (procid : Z).

Lemma copyin_is_int n addr val bf off len s :
  int_format n bf ->
  copyin addr val (Z.of_nat n) bf off len s = (copyin_int n addr val bf off len;; mret tt) s.
Proof.
  intros [Hn Hbf]. unfold copyin.
  destruct Hbf as [->|[-> _]]; destruct Hn as [->|[->|[->| ->]]]; reflexivity.
Qed.

Lemma copyin_int_faults n addr val bf off len inp m r :
  int_format n bf -> load_bytes m n addr = None ->
  copyin_int n addr val bf off len (mk_exec_state inp m r) = Ret false (mk_exec_state inp m r).
Proof.
  intros Hf Hl. unfold copyin_int. case_match.
  - destruct (swap_run n bf val inp Hf) as (y & Hy & _). erewrite bind_run by (apply on_input_run, Hy).
    unfold store_int. erewrite bind_run by reflexivity. cbn [ex_mem]. by rewrite Hl.
  - unfold load_int. erewrite bind_run by (erewrite bind_run by reflexivity; cbn [ex_mem]; rewrite Hl; reflexivity).
    done.
Qed.
End copying_spec.

(** C30. Copying an integer to memory.  For the sizes of integers and both byte
    orders (one byte has only one), with the address mapped, [copyin] returns
    and the number in memory, read in its byte order, has the bits of the value
    in the field and its old bits elsewhere; no other byte changes.  A field of
    length 0 is the whole integer.  When the memory is not mapped nothing
    changes.  A field of 64 bits is not defined: the mask shifts a 64-bit
    number by 64. *)
Theorem copyin_sets_the_field `{Faults} n addr val bf off len inp m r :
  int_format n bf ->
  (forall l, part_of n off len -> load_bytes m n addr = Some l -> Forall is_byte l ->
     exists m' l', copyin addr val (Z.of_nat n) bf off len (mk_exec_state inp m r) =
                     Ret tt (mk_exec_state inp m' r) /\
       load_bytes m' n addr = Some l' /\
       (forall i, 0 <= i < 8 * Z.of_nat n -> Z.testbit (field bf l') i =
          if (off <=? i) && (i <? off + (if len =? 0 then 8 * Z.of_nat n else len))
          then Z.testbit val (i - off) else Z.testbit (field bf l) i) /\
       (forall b, ~ addr <= b < addr + Z.of_nat n -> m' !! b = m !! b)) /\
  (load_bytes m n addr = None ->
     copyin addr val (Z.of_nat n) bf off len (mk_exec_state inp m r) = Ret tt (mk_exec_state inp m r)) /\
  (forall l, load_bytes m n addr = Some l -> Forall is_byte l ->
     copyin addr val (Z.of_nat n) bf 0 64 (mk_exec_state inp m r) = UB "BITMASK").
Proof.
  intros Hf. assert (Hn : (n <= 8)%nat) by (destruct Hf; lia).
  split_and!; [intros l Hp Hl Hb|intros Hl|intros l Hl Hb]; rewrite copyin_is_int by done.
  - set (l' := unfield bf n (new_field n off len val (field bf l))).
    exists (store_bytes addr l' m), l'.
    assert (El : length l' = n) by apply length_unfield. split_and!.
    + by erewrite bind_run by (by apply copyin_int_run).
    + rewrite <- El. apply load_store_same.
    + intros i Hi. unfold l'. rewrite field_unfield, testbit_wrapu by done. by apply new_field_bits.
    + intros b Hnb. rewrite lookup_store_bytes, decide_False; [done|]. unfold alen. by rewrite El.
  - by erewrite bind_run by (by apply copyin_int_faults).
  - pose proof (load_bytes_length _ _ _ _ Hl) as Hlen. unfold copyin_int. cbn [Z.eqb andb]. unfold load_int.
    apply bind_ub.
    erewrite bind_run by (erewrite bind_run by reflexivity; cbn [ex_mem]; rewrite Hl; reflexivity).
    cbn [fmap option_fmap option_map]. by erewrite bind_run by (apply on_input_run, swap_old; done).
Qed.

(** Abandoned code leaves nothing behind. *)
Definition clean_faults : Faults :=
  {| torn_copy m _ _ := m; torn_sum acc _ _ := acc; torn_copy_elsewhere _ _ _ _ _ := eq_refl |}.

Definition two_bytes : gmap Z Z := <[100 := 0x12]> (<[101 := 0x34]> ∅).

Lemma copyin_sets_the_field_witness :
  exists m' l', copyin (H := clean_faults) 100 5 2 binary_format_bigendian 4 3 (mk_exec_state [] two_bytes []) =
                  Ret tt (mk_exec_state [] m' []) /\
    load_bytes m' 2 100 = Some l' /\
    forall i, 0 <= i < 16 -> Z.testbit (field binary_format_bigendian l') i =
      if (4 <=? i) && (i <? 7) then Z.testbit 5 (i - 4) else Z.testbit 0x1234 i.
Proof.
  destruct (copyin_sets_the_field (H := clean_faults) 2 100 5 binary_format_bigendian 4 3 [] two_bytes [])
    as (Hset & _ & _).
  - split; [auto|]. right. by split.
  - destruct (Hset [0x12; 0x34]) as (m' & l' & E & Hl & Hbits & _).
    + right. lia.
    + reflexivity.
    + repeat constructor; lia.
    + exists m', l'. split; [exact E|]. split; [exact Hl|]. exact Hbits.
Defined.

(** ** Raw data *)

Lemma words_of_bytes l :
  Forall is_byte l -> alen l `mod` 8 = 0 -> words_of l ≫= le_bytes 8 = l.
Proof.
  remember (length l) as n eqn:En. revert l En. induction (lt_wf n) as [n _ IH]. intros l En Hl Hm.
  destruct l as [|a [|b [|c [|d [|e [|f [|g [|h l]]]]]]]]; try (done || discriminate Hm).
  cbn [words_of]. rewrite bind_cons.
  change (a :: b :: c :: d :: e :: f :: g :: h :: l) with ([a; b; c; d; e; f; g; h] ++ l) in *.
  apply Forall_app in Hl as [Hl8 Hl]. pose proof (le_bytes_value _ Hl8) as E8. cbn [length] in E8.
  rewrite E8. f_equal.
  apply (IH (length l)); [subst; cbn; lia|done|done|].
  rewrite alen_app in Hm. rewrite <- Hm. change (alen [a; b; c; d; e; f; g; h]) with (1 * 8).
  rewrite Z.add_comm, Z.mod_add by done. done.
Qed.

Lemma length_words_of l : alen l `mod` 8 = 0 -> 8 * alen (words_of l) = alen l.
Proof.
  remember (length l) as n eqn:En. revert l En. induction (lt_wf n) as [n _ IH]. intros l En Hm.
  destruct l as [|a [|b [|c [|d [|e [|f [|g [|h l]]]]]]]]; try (done || discriminate Hm).
  cbn [words_of]. rewrite !alen_cons in *. 
  replace (1 + (1 + (1 + (1 + (1 + (1 + (1 + (1 + alen l)))))))) with (alen l + 1 * 8) in * by lia.
  rewrite Z.mod_add in Hm by done. specialize (IH (length l) ltac:(subst; cbn; lia) l eq_refl Hm). lia.
Qed.

(** The padding of data to words. *)
Definition padding (data : list Z) : list Z := replicate (Z.to_nat ((- alen data) `mod` 8)) 0.
Definition data_words (data : list Z) (readable : bool) : list Z :=
  [execArgData; if readable then Z.lor (alen data) execArgDataReadable else alen data] ++
  words_of (data ++ padding data).

Lemma pad_mod n : 0 <= n -> (if 8 - n `mod` 8 =? 8 then 0 else 8 - n `mod` 8) = (- n) `mod` 8.
Proof.
  intros Hn. pose proof (Z.mod_pos_bound n 8 ltac:(lia)).
  destruct (Z.eqb_spec (8 - n `mod` 8) 8) as [E|E].
  - rewrite Z.mod_opp_l_z by lia. done.
  - rewrite Z.mod_opp_l_nz by lia. done.
Qed.

Lemma padded_mod data : alen (data ++ padding data) `mod` 8 = 0.
Proof.
  unfold padding. rewrite alen_app. unfold alen at 2. rewrite length_replicate, Z2Nat.id by (apply Z.mod_pos_bound; lia).
  rewrite Z.add_mod_idemp_r, Z.add_opp_diag_r by done. done.
Qed.

(** ** Writing to the buffer of the encoder *)

(** [q] writes the words [l] if they fit; otherwise the context knows. *)
Definition writes (q : prog execContext unit) (l : list Z) : Prop := forall w, 0 <= buf w ->
  exists w', q w = Ret tt w' /\ 0 <= buf w' /\ (eof w = true -> eof w' = true) /\
    if decide (8 * alen l <= buf w)
    then w' = mk_exec_context (buf w - 8 * alen l) (words w ++ l) (eof w) (args w) (copyoutSeq w)
    else eof w' = true.

Lemma writes_ret : writes (mret tt) [].
Proof.
  intros [b ws e a c] Hb. eexists. split; [reflexivity|]. cbn in *. split_and!; try done.
  rewrite decide_True by done. by rewrite Z.sub_0_r, app_nil_r.
Qed.

Lemma writes_write v : is_u64 v -> writes (write v) [v].
Proof.
  intros Hv [b ws e a c] Hb. cbn in Hb. change (alen [v]) with 1. unfold write, modify. cbn [buf].
  destruct (Z.ltb_spec b 8).
  - eexists. split; [reflexivity|]. cbn [buf]. rewrite decide_False by lia. done.
  - eexists. split; [reflexivity|]. cbn -[Z.sub Z.mul]. rewrite decide_True by lia. split_and!; [lia|done|].
    by rewrite u64_id.
Qed.

Lemma writes_bind q1 q2 l1 l2 : writes q1 l1 -> writes q2 l2 -> writes (q1;; q2) (l1 ++ l2).
Proof.
  intros H1 H2 w Hb. destruct (H1 w Hb) as (w1 & E1 & Hb1 & Heof1 & Hw1).
  destruct (H2 w1 Hb1) as (w2 & E2 & Hb2 & Heof2 & Hw2). exists w2. erewrite bind_run by exact E1.
  split_and!; [done|done|auto|]. rewrite alen_app. pose proof (alen_nonneg l2). pose proof (alen_nonneg l1).
  destruct (decide (8 * alen l1 <= buf w)).
  - subst w1. cbn [buf words eof args copyoutSeq] in Hw2.
    destruct (decide (8 * alen l2 <= buf w - 8 * alen l1)).
    + rewrite decide_True by lia. rewrite app_assoc. subst w2. f_equal. lia.
    + by rewrite decide_False by lia.
  - rewrite decide_False by lia. auto.
Qed.

Lemma writes_foreach {A} (q : A -> prog execContext unit) (g : A -> list Z) l :
  Forall (fun x => writes (q x) (g x)) l -> writes (foreach l q) (l ≫= g).
Proof.
  induction 1 as [|x l Hx _ IH]; [apply writes_ret|]. cbn [foreach]. rewrite bind_cons. by apply writes_bind.
Qed.

(** What is known when the buffer did not overflow. *)
Lemma writes_fits q l w w' :
  writes q l -> 0 <= buf w -> q w = Ret tt w' -> eof w' = false -> words w' = words w ++ l.
Proof.
  intros Hq Hb E He. destruct (Hq w Hb) as (w2 & E2 & _ & _ & Hw). rewrite E in E2. injection E2 as <-.
  case_decide; [by rewrite Hw|congruence].
Qed.

Lemma writes_runs q l w : writes q l -> 0 <= buf w -> exists w', q w = Ret tt w'.
Proof. intros Hq Hb. destruct (Hq w Hb) as (w' & E & _). eauto. Qed.

Lemma alen_padding data : alen (padding data) = (- alen data) `mod` 8.
Proof. unfold padding, alen at 1. rewrite length_replicate, Z2Nat.id; [done|]. apply Z.mod_pos_bound. lia. Qed.

Lemma writes_data data readable :
  data <> [] -> alen data < 2 ^ 63 -> writes (writeDataArg data readable) (data_words data readable).
Proof.
  intros Hne Hlen. pose proof (alen_nonneg data). unfold writeDataArg, data_words.
  destruct (Z.eqb_spec (alen data) 0) as [E|_]; [by destruct data|]. rewrite pad_mod by done.
  apply (writes_bind _ _ [_]); [by apply writes_write|]. apply (writes_bind _ _ [_]).
  - apply writes_write. destruct readable; [|red; lia].
    unfold execArgDataReadable. rewrite lor_shiftl_add by lia. red. lia.
  - intros [b ws e a c] Hb. unfold modify. cbn [buf]. pose proof (length_words_of _ (padded_mod data)) as Hw.
    rewrite alen_app, alen_padding in Hw. rewrite Hw. cbn in Hb.
    destruct (Z.ltb_spec b (alen data + (- alen data) `mod` 8)).
    + eexists. split; [reflexivity|]. cbn [buf]. by rewrite decide_False by lia.
    + eexists. split; [reflexivity|]. cbn -[Z.sub Z.mul Z.add]. rewrite decide_True by lia. split_and!; [lia|done|done].
Qed.

Lemma data_bytes data :
  Forall is_byte data -> take (length data) (words_of (data ++ padding data) ≫= le_bytes 8) = data.
Proof.
  intros Hb. rewrite words_of_bytes by (apply padded_mod || (apply Forall_app; split; [done|];
    by apply Forall_replicate)). apply take_app_length.
Qed.

Lemma size_of_data (data : list Z) readable :
  alen data < 2 ^ 63 ->
  Z.land (if readable : bool then Z.lor (alen data) execArgDataReadable else alen data) (2 ^ 63 - 1) = alen data.
Proof.
  intros Hlen. pose proof (alen_nonneg data). change (2 ^ 63 - 1) with (Z.ones 63).
  rewrite Z.land_ones by done. destruct readable; [|by apply Z.mod_small].
  unfold execArgDataReadable. rewrite lor_shiftl_add, Z.mul_1_l by lia.
  rewrite <- (Z.mul_1_l (2 ^ 63)) at 1. rewrite Z.mod_add, Z.mod_small by lia. done.
Qed.

Lemma words_of_data data :
  Z.to_nat ((alen data + 7) / 8) = length (words_of (data ++ padding data)).
Proof.
  pose proof (length_words_of _ (padded_mod data)) as Hw. rewrite alen_app, alen_padding in Hw.
  pose proof (Z.mod_pos_bound (- alen data) 8 ltac:(lia)).
  assert (E : (alen data + 7) / 8 = alen (words_of (data ++ padding data))).
  { symmetry. apply (Z.div_unique _ _ _ (7 - (- alen data) `mod` 8)); lia. }
  rewrite E. unfold alen. by rewrite Nat2Z.id.
Qed.

Section data.
Context `{Faults} (procid : Z).

Lemma copy_bytes_run addr l inp m r :
  exists b m', copy_bytes addr l (mk_exec_state inp m r) = Ret b (mk_exec_state inp m' r) /\
    (forall x, ~ addr <= x < addr + alen l -> m' !! x = m !! x) /\
    (is_Some (load_bytes m (length l) addr) -> m' = store_bytes addr l m).
Proof.
  unfold copy_bytes. erewrite bind_run by reflexivity. cbn [ex_mem].
  destruct (load_bytes m (length l) addr).
  - eexists _, _. split; [reflexivity|]. split; [|done]. intros x Hx. by rewrite lookup_store_bytes, decide_False.
  - eexists _, _. split; [reflexivity|]. split; [|by intros []]. intros x Hx. by apply torn_copy_elsewhere.
Qed.

Lemma copyin_data_run addr data readable rest m r :
  Forall is_byte data -> alen data < 2 ^ 63 ->
  exists m', exec_copyin procid (mk_exec_state (addr :: data_words data readable ++ rest) m r) =
               Ret tt (mk_exec_state rest m' r) /\
    (forall x, ~ addr <= x < addr + alen data -> m' !! x = m !! x) /\
    (is_Some (load_bytes m (length data) addr) -> m' = store_bytes addr data m).
Proof.
  intros Hb Hlen. unfold exec_copyin, data_words. cbn [app].
  do 2 (erewrite bind_run by (by apply on_input_run)). cbn.
  unfold copyin_data. erewrite bind_run by (by apply on_input_run). erewrite bind_run by reflexivity.
  cbn [ex_input]. rewrite size_of_data by done. rewrite words_of_data.
  set (ws := words_of (data ++ padding data)).
  assert (Et : take (Z.to_nat (alen data)) ((ws ++ rest) ≫= le_bytes 8) = data).
  { unfold alen. rewrite Nat2Z.id, bind_app. pose proof (data_bytes data Hb) as Ed. fold ws in Ed.
    rewrite take_app_le; [done|]. apply (f_equal length) in Ed. rewrite length_take in Ed. lia. }
  rewrite Et. destruct (copy_bytes_run addr data (ws ++ rest) m r) as (b & m' & E & Hfr & Hst).
  exists m'. erewrite bind_run by exact E.
  by erewrite bind_run by (apply on_input_run, read_words_app).
Qed.
End data.

(** C32. Raw data reaches memory.  Whatever bytes the encoder is given, it either
    runs out of buffer, which it reports, or writes words which the executor
    reads to the last one: what follows them is the next instruction.  When
    memory is mapped the bytes are there; no byte outside changes, mapped or
    not. *)
Theorem data_reaches_memory `{Faults} procid addr data readable w :
  data <> [] -> Forall is_byte data -> alen data < 2 ^ 63 -> is_u64 addr -> 0 <= buf w ->
  exists w', (write execInstrCopyin;; write addr;; writeDataArg data readable) w = Ret tt w' /\
    (eof w' = false -> exists ws, words w' = words w ++ execInstrCopyin :: ws /\
       forall rest m r, exists m',
         exec_copyin procid (mk_exec_state (ws ++ rest) m r) = Ret tt (mk_exec_state rest m' r) /\
         (is_Some (load_bytes m (length data) addr) -> load_bytes m' (length data) addr = Some data) /\
         (forall x, ~ addr <= x < addr + alen data -> m' !! x = m !! x)).
Proof.
  intros Hne Hb Hlen Haddr Hbuf.
  assert (Hw : writes (write execInstrCopyin;; write addr;; writeDataArg data readable)
                 ([execInstrCopyin] ++ [addr] ++ data_words data readable)).
  { repeat apply writes_bind; [by apply writes_write|by apply writes_write|by apply writes_data]. }
  destruct (writes_runs _ _ w Hw Hbuf) as [w' E]. exists w'. split; [done|]. intros He.
  exists (addr :: data_words data readable). split; [by eapply writes_fits|]. intros rest m r.
  destruct (copyin_data_run procid addr data readable rest m r) as (m' & E' & Hfr & Hst); [done..|].
  exists m'. split_and!; [done| |done]. intros Hm. rewrite (Hst Hm). apply load_store_same.
Qed.

Lemma data_reaches_memory_witness :
  exists w' ws m', (write execInstrCopyin;; write 0x100;; writeDataArg [1; 2; 3] true)
                     (mk_exec_context 64 [] false ∅ 0) = Ret tt w' /\
    words w' = execInstrCopyin :: ws /\
    exec_copyin (H := clean_faults) 0 (mk_exec_state (ws ++ [5; 6]) (store_bytes 0x100 [0; 0; 0; 9] ∅) []) =
      Ret tt (mk_exec_state [5; 6] m' []) /\
    load_bytes m' 3 0x100 = Some [1; 2; 3].
Proof.
  destruct (data_reaches_memory (H := clean_faults) 0 0x100 [1; 2; 3] true (mk_exec_context 64 [] false ∅ 0))
    as (w' & E & Hw); [done|repeat constructor; lia|done|done|done|].
  assert (He : eof w' = false) by (vm_compute in E; injection E as <-; reflexivity).
  destruct (Hw He) as (ws & Hws & Hrun).
  destruct (Hrun [5; 6] (store_bytes 0x100 [0; 0; 0; 9] ∅) []) as (m' & Em & Hl & _).
  exists w', ws, m'. split; [exact E|]. split; [exact Hws|]. split; [exact Em|]. apply Hl. by eexists.
Defined.

(** ** Numbers as text *)

Definition undigit (c : Z) : Z := if c <? 58 then c - 48 else c - 87.
Definition text_value (base : Z) (l : list Z) : Z := foldl (fun acc c => acc * base + undigit c) 0 l.

Lemma undigit_digit d : 0 <= d < 16 -> undigit (digit d) = d.
Proof. intros Hd. unfold undigit, digit. destruct (Z.ltb_spec d 10); case_match; lia. Qed.

Lemma text_value_digits base n v :
  2 <= base <= 16 -> 0 <= v < base ^ Z.of_nat n -> text_value base (digits base n v) = v.
Proof.
  intros Hbase. revert v. induction n as [|n IH]; intros v Hv; [cbn in Hv |- *; lia|]. cbn [digits].
  unfold text_value in *. rewrite foldl_app. cbn [foldl].
  rewrite IH, undigit_digit.
  - rewrite Z.mul_comm. symmetry. by apply Z.div_mod; lia.
  - pose proof (Z.mod_pos_bound v base ltac:(lia)). lia.
  - rewrite Nat2Z.inj_succ, Z.pow_succ_r in Hv by lia.
    split; [apply Z.div_pos; lia|apply Z.div_lt_upper_bound; lia].
Qed.

Lemma length_digits base n v : length (digits base n v) = n.
Proof. revert v. induction n as [|n IH]; intros v; [done|]. cbn. rewrite length_app, IH. cbn. lia. Qed.

(** Base, prefix and number of digits of the formats. *)
Definition text_format (bf base : Z) (prefix : list Z) (n : nat) : Prop :=
  bf = binary_format_strdec /\ base = 10 /\ prefix = [] /\ n = 20%nat \/
  bf = binary_format_strhex /\ base = 16 /\ prefix = [48; 120] /\ n = 16%nat \/
  bf = binary_format_stroct /\ base = 8 /\ prefix = [] /\ n = 23%nat.

(** A 64-bit number copied as text, in decimal, hexadecimal or octal, can be
    read back: the field holds the prefix and the digits, and the digits have
    the value of the number.  The text does not end with the field: a zero is
    written to the byte after it, so that one byte outside the field
    changes. *)
Lemma copyin_text `{Faults} bf base prefix n addr val inp m r :
  text_format bf base prefix n -> 0 <= val < 2 ^ 64 ->
  let size := alen prefix + Z.of_nat n in
  is_Some (load_bytes m (Z.to_nat (size + 1)) addr) ->
  exists m' l, copyin addr val size bf 0 0 (mk_exec_state inp m r) = Ret tt (mk_exec_state inp m' r) /\
    load_bytes m' (Z.to_nat size) addr = Some (prefix ++ l) /\ text_value base l = val /\
    m' !! (addr + size) = Some 0 /\
    (forall x, ~ addr <= x <= addr + size -> m' !! x = m !! x).
Proof.
  intros Hf Hv size Hm. set (l := digits base n val).
  assert (Hl : length (prefix ++ l) = Z.to_nat size).
  { rewrite length_app. unfold l, size, alen. rewrite length_digits. lia. }
  assert (Hs : Z.of_nat (Z.to_nat size) = size) by (unfold size; pose proof (alen_nonneg prefix); lia).
  destruct (copy_bytes_run addr ((prefix ++ l) ++ [0]) inp m r) as (b & m' & E & Hfr & Hst).
  assert (El : length ((prefix ++ l) ++ [0]) = Z.to_nat (size + 1)) by (rewrite length_app, Hl; cbn; lia).
  rewrite El in Hst. specialize (Hst Hm). exists m', l. split_and!.
  - transitivity ((copy_bytes addr ((prefix ++ l) ++ [0]);; mret tt) (mk_exec_state inp m r));
      [|by erewrite bind_run by exact E].
    destruct Hf as [(-> & -> & -> & ->)|[(-> & -> & -> & ->)|(-> & -> & -> & ->)]]; reflexivity.
  - rewrite Hst, <- Hl. rewrite <- (load_store_same addr (prefix ++ l) m). apply load_bytes_ext.
    intros x Hx. rewrite !lookup_store_bytes, alen_app. unfold alen in *. rewrite !decide_True by (cbn; lia).
    unfold aget. destruct (Z.ltb_spec (x - addr) 0); [lia|]. apply lookup_app_l. lia.
  - apply text_value_digits; [by destruct Hf as [(_ & -> & _)|[(_ & -> & _)|(_ & -> & _)]]|].
    destruct Hf as [(_ & -> & _ & ->)|[(_ & -> & _ & ->)|(_ & -> & _ & ->)]]; cbn; lia.
  - rewrite Hst, lookup_store_bytes, alen_app. unfold alen. rewrite Hl, decide_True by (cbn; lia).
    unfold aget. destruct (Z.ltb_spec (addr + size - addr) 0); [lia|].
    replace (Z.to_nat (addr + size - addr)) with (length (prefix ++ l)) by lia. by rewrite list_lookup_middle.
  - intros x Hx. apply Hfr. unfold alen. rewrite El. lia.
Qed.

(** ** Results *)

(** What the results in memory leave in the table, from index [s] on. *)
Fixpoint collected (m : gmap Z Z) (s : Z) (outs : list (Z * Z * Z)) (rs : list res_t) : list res_t :=
  match outs with
  | [] => rs
  | (_, addr, size) :: outs =>
      collected m (s + 1) outs
        (match load_bytes m (Z.to_nat size) addr with
         | Some l => aset rs s (mk_res true (le_value l))
         | None => rs
         end)
  end.

Definition int_size (size : Z) : Prop := size = 1 \/ size = 2 \/ size = 4 \/ size = 8.

Lemma copyout_run addr size inp m r :
  int_size size -> copyout addr size (mk_exec_state inp m r) =
                   Ret (le_value <$> load_bytes m (Z.to_nat size) addr) (mk_exec_state inp m r).
Proof. intros [->|[->|[->| ->]]]; reflexivity. Qed.

Lemma copyout_loop_run outs st v rest inp m rs :
  0 <= st.2 -> st.2 + alen outs <= kMaxCommands -> Forall (fun o => int_size o.2) outs -> v <> instr_copyout ->
  copyout_loop (outs_words st outs ++ v :: rest) (mk_exec_state inp m rs) =
  Ret tt (mk_exec_state inp m (collected m st.2 outs rs)).
Proof.
  intros Hs Hn Hsz Hv. revert st rs Hs Hn. induction Hsz as [|[[res addr] size] outs Hsize _ IH]; intros st rs Hs Hn.
  { cbn [outs_words app copyout_loop collected]. by destruct (Z.eqb_spec v instr_copyout). }
  rewrite alen_cons in Hn. pose proof (alen_nonneg outs). change kMaxCommands with 1000 in *.
  cbn [outs_words app]. cbn -[instr_copyout kMaxCommands outs_words collected copyout]. rewrite Z.eqb_refl.
  change kMaxCommands with 1000. destruct (Z.leb_spec 1000 st.2); [lia|].
  erewrite bind_run by (by apply copyout_run). cbn [collected].
  assert (Enext : (indexed res st).2 = st.2 + 1) by (cbn; apply wrapu_id; lia).
  assert (Hrec : forall rs', copyout_loop (outs_words (indexed res st) outs ++ v :: rest) (mk_exec_state inp m rs') =
            Ret tt (mk_exec_state inp m (collected m (st.2 + 1) outs rs'))).
  { intros rs'. rewrite IH by (rewrite Enext; lia). by rewrite Enext. }
  destruct (load_bytes m (Z.to_nat size) addr); cbn [fmap option_fmap option_map];
    erewrite bind_run by reflexivity; apply Hrec.
Qed.

Lemma collected_elsewhere m s outs rs i :
  i < s \/ s + alen outs <= i -> aget (collected m s outs rs) i = aget rs i.
Proof.
  revert s rs. induction outs as [|[[res addr] size] outs IH]; intros s rs Hi; [done|]. cbn [collected].
  rewrite alen_cons in Hi. pose proof (alen_nonneg outs). rewrite IH by lia.
  case_match; [|done]. rewrite aget_aset_ne; [done|lia].
Qed.

Lemma collected_at m s outs rs k res addr size l :
  outs !! k = Some (res, addr, size) -> load_bytes m (Z.to_nat size) addr = Some l ->
  0 <= s -> s + alen outs <= alen rs ->
  aget (collected m s outs rs) (s + Z.of_nat k) = Some (mk_res true (le_value l)).
Proof.
  revert s rs k. induction outs as [|[[res' addr'] size'] outs IH]; intros s rs k Hk Hl Hs Hn; [done|].
  cbn [collected]. rewrite alen_cons in Hn. pose proof (alen_nonneg outs). destruct k as [|k].
  - injection Hk as -> -> ->. rewrite Hl. rewrite collected_elsewhere by lia. rewrite Z.add_0_r.
    apply aget_aset_eq. lia.
  - replace (s + Z.of_nat (S k)) with (s + 1 + Z.of_nat k) by lia. apply IH; [done|done|lia|].
    case_match; rewrite ?alen_aset; lia.
Qed.

Lemma collected_unmapped m s outs rs k res addr size :
  outs !! k = Some (res, addr, size) -> load_bytes m (Z.to_nat size) addr = None ->
  aget (collected m s outs rs) (s + Z.of_nat k) = aget rs (s + Z.of_nat k).
Proof.
  revert s rs k. induction outs as [|[[res' addr'] size'] outs IH]; intros s rs k Hk Hl; [done|].
  cbn [collected]. destruct k as [|k].
  - injection Hk as -> -> ->. rewrite Hl. apply collected_elsewhere. lia.
  - replace (s + Z.of_nat (S k)) with (s + 1 + Z.of_nat k) by lia. rewrite IH by done.
    case_match; [|done]. rewrite aget_aset_ne; [done|lia].
Qed.

(** The index the encoder remembers for a result. *)
Lemma indices (outs : list (Z * Z * Z)) st k res addr size :
  NoDup ((fun o => o.1.1) <$> outs) -> outs !! k = Some (res, addr, size) ->
  0 <= st.2 -> st.2 + alen outs < 2 ^ 64 ->
  (foldl (fun st '(res, _, _) => indexed res st) st outs).1 !! res = Some (st.2 + Z.of_nat k).
Proof.
  revert st k. induction outs as [|[[res' addr'] size'] outs IH]; intros st k Hnd Hk Hs Hn; [done|].
  rewrite fmap_cons in Hnd. apply NoDup_cons in Hnd as [Hni Hnd]. cbn [foldl].
  rewrite alen_cons in Hn. pose proof (alen_nonneg outs).
  assert (Enext : (indexed res' st).2 = st.2 + 1) by (cbn; apply wrapu_id; lia).
  destruct k as [|k].
  - injection Hk as -> -> ->. rewrite Z.add_0_r. clear IH Hs Hn Enext.
    assert (Hkeep : forall st', st'.1 !! res = Some st.2 ->
      (foldl (fun st '(res, _, _) => indexed res st) st' outs).1 !! res = Some st.2).
    { clear Hnd. induction outs as [|[[r a] z] outs IH]; intros st' Hst; [done|]. cbn [foldl]. apply IH.
      - rewrite fmap_cons in Hni. set_solver.
      - pose proof (alen_nonneg outs). lia.
      - cbn. rewrite lookup_insert_ne; [done|]. intros ->. apply Hni. rewrite fmap_cons. left. }
    apply Hkeep. cbn. by rewrite lookup_insert_eq.
  - rewrite (IH (indexed res' st) k) by (done || rewrite Enext; lia). rewrite Enext. f_equal. lia.
Qed.

(** The value of an argument that refers to a result. *)
Definition operated (op_div op_add v : Z) : Z := u64 ((if negb (op_div =? 0) then v / op_div else v) + op_add).

Lemma arg_val_run idx op_div op_add arg inp m rs r :
  aget rs idx = Some r ->
  arg_val (arg_ref idx op_div op_add arg) (mk_exec_state inp m rs) =
  Ret (if executed r then operated op_div op_add (res_val r) else arg) (mk_exec_state inp m rs).
Proof.
  intros Hr. unfold arg_val. erewrite bind_run by reflexivity. cbn [results]. rewrite Hr.
  erewrite bind_run by reflexivity. done.
Qed.

(** The call's own result. *)
Definition with_ret (copyout_index ret : Z) (rs : list res_t) : list res_t :=
  if copyout_index =? no_copyout then rs else aset rs copyout_index (mk_res true ret).

Lemma copyout_call_results_run copyout_index ret pos inp m rs :
  copyout_index = no_copyout \/ copyout_index < kMaxCommands ->
  copyout_call_results copyout_index ret pos (mk_exec_state inp m rs) =
  copyout_loop pos (mk_exec_state inp m (with_ret copyout_index ret rs)).
Proof.
  intros Hi. unfold copyout_call_results, with_ret. destruct (Z.eqb_spec copyout_index no_copyout); cbn [negb].
  - by erewrite bind_run by reflexivity.
  - destruct (Z.leb_spec kMaxCommands copyout_index); [lia|]. by erewrite bind_run by reflexivity.
Qed.

(** C31. Results reach the arguments that refer to them.  The encoder gives the
    results a call leaves in memory consecutive indices and writes the
    instructions that read them; with the words it wrote after the call,
    [copyout_call_results] fills the table.  An argument of a later call that
    refers to such a result, by the index the encoder remembers, then has the
    value found in memory, divided and added to as the argument says; when the
    memory was not mapped, the entry is what it was.  The call's own result is
    entered as well, and no other entry changes. *)
Theorem results_reach_arguments b w copyout_index ret v rest inp m rs :
  let s := copyoutSeq w in
  eof w = false -> 0 <= buf w -> 0 <= s -> s + alen (outs b) <= kMaxCommands -> alen rs = kMaxCommands ->
  NoDup ((fun o => o.1.1) <$> outs b) -> Forall (fun o => int_size o.2) (outs b) ->
  Forall (fun '(_, addr, size) => is_u64 addr /\ is_u64 size) (outs b) ->
  copyout_index = no_copyout \/ 0 <= copyout_index < s -> v <> instr_copyout ->
  exists w', writeCopyout b w = Ret tt w' /\
    (eof w' = false -> exists ws rs', words w' = words w ++ ws /\
       copyout_call_results copyout_index ret (ws ++ v :: rest) (mk_exec_state inp m rs) =
         Ret tt (mk_exec_state inp m rs') /\
       (forall res addr size, (res, addr, size) ∈ outs b -> exists idx, args w' !! res = Some idx /\
          match load_bytes m (Z.to_nat size) addr with
          | Some l => forall op_div op_add arg,
              arg_val (arg_ref idx op_div op_add arg) (mk_exec_state inp m rs') =
              Ret (operated op_div op_add (le_value l)) (mk_exec_state inp m rs')
          | None => aget rs' idx = aget rs idx
          end) /\
       (copyout_index <> no_copyout -> aget rs' copyout_index = Some (mk_res true ret)) /\
       (forall i, i <> copyout_index -> ~ s <= i < s + alen (outs b) -> aget rs' i = aget rs i)).
Proof.
  intros s He Hb Hs Hn Hrs Hnd Hsz Hu64 Hi Hv. change kMaxCommands with 1000 in *. pose proof (alen_nonneg (outs b)).
  pose proof (emits_outs (outs b) (args w, s) w eq_refl eq_refl) as E. fold (writeCopyout b) in E.
  eexists. split; [exact E|]. intros Hfit.
  pose proof (puts_fit (outs_words (args w, s) (outs b)) w He Hb) as Hp.
  set (w1 := puts (outs_words (args w, s) (outs b)) w) in *.
  change (eof (with_index ?st w1)) with (eof w1) in Hfit. case_decide; [|congruence]. destruct Hp as [Hw _].
  rewrite fmap_u64 in Hw by (apply outs_words_u64; [red; cbn; lia|done]).
  exists (outs_words (args w, s) (outs b)), (collected m s (outs b) (with_ret copyout_index ret rs)).
  assert (Hlen : alen (with_ret copyout_index ret rs) = 1000).
  { unfold with_ret. case_match; [done|]. by rewrite alen_aset. }
  split_and!; [exact Hw| | | |].
  - rewrite copyout_call_results_run by (change kMaxCommands with 1000; lia).
    by apply (copyout_loop_run _ (args w, s)).
  - intros res addr size [k Hk]%list_elem_of_lookup_1. exists (s + Z.of_nat k). split.
    { apply (indices (outs b) (args w, s) k res addr size); [done|done|cbn; lia|cbn; lia]. }
    destruct (load_bytes m (Z.to_nat size) addr) as [l|] eqn:El.
    + intros op_div op_add arg. erewrite arg_val_run by (eapply collected_at; [done|done|lia|lia]). done.
    + erewrite collected_unmapped by done. unfold with_ret. case_match; [done|].
      apply aget_aset_ne. lia.
  - intros Hne. destruct Hi as [?|Hi]; [done|]. rewrite collected_elsewhere by lia. unfold with_ret.
    destruct (Z.eqb_spec copyout_index no_copyout); [done|]. apply aget_aset_eq. lia.
  - intros i Hne Hout. rewrite collected_elsewhere by lia. unfold with_ret. case_match; [done|].
    by apply aget_aset_ne.
Qed.

(** The decoder of ExecWire and the executor read the same: an instruction
    that the decoder understands is executed by copying its argument. *)
Lemma decoded_copyin_runs `{Faults} procid inp inp' addr a size bf bf_off bf_len m r :
  read_copyin procid inp = Ret (ICopyin addr a size bf bf_off bf_len) inp' ->
  exec_copyin procid (mk_exec_state inp m r) =
  (v ← arg_val a; copyin addr v size bf bf_off bf_len) (mk_exec_state inp' m r).
Proof.
  unfold read_copyin, exec_copyin. destruct inp as [|ad [|typ inp]]; [done|done|].
  do 2 (erewrite bind_run by reflexivity). do 2 (erewrite bind_run by (by apply on_input_run)).
  destruct (typ =? arg_const).
  - destruct (read_const_arg procid inp) as [[[[[v sz] b] o] ln] inp1| | |] eqn:E;
      unfold mbind, prog_bind; rewrite E; try discriminate. intros [= <- <- <- <- <- <- <-].
    by rewrite (on_input_run _ _ _ m r _ E).
  - destruct (typ =? arg_result); [|done]. destruct inp as [|meta inp]; [done|].
    erewrite bind_run by reflexivity. intros Hd.
    erewrite bind_run by (by apply on_input_run).
    destruct (read_result inp) as [a1 inp1| | |] eqn:E; unfold mbind, prog_bind in Hd |- *; rewrite E in Hd;
      try discriminate Hd. injection Hd as <- <- <- <- <- <- <-. by rewrite (on_input_run _ _ _ m r _ E).
Qed.

Definition two_bytes_low : gmap Z Z := store_bytes 0x100 [0; 2] ∅.

(** A call that returns a value and leaves a two-byte result in memory. *)
Definition pipe_call : Body := mk_body 3 None [] [] [(7, 0x100, 2)].

Lemma results_reach_arguments_witness :
  exists w' ws rs' idx, writeCopyout pipe_call (mk_exec_context 64 [] false ∅ 1) = Ret tt w' /\
    words w' = ws /\ args w' !! 7 = Some idx /\
    copyout_call_results 0 5 (ws ++ [instr_eof])
      (mk_exec_state [] two_bytes_low (replicate 1000 (mk_res false 0))) =
      Ret tt (mk_exec_state [] two_bytes_low rs') /\
    arg_val (arg_ref idx 2 1 0) (mk_exec_state [] two_bytes_low rs') =
      Ret 0x101 (mk_exec_state [] two_bytes_low rs').
Proof.
  destruct (results_reach_arguments pipe_call (mk_exec_context 64 [] false ∅ 1) 0 5 instr_eof [] []
              two_bytes_low (replicate 1000 (mk_res false 0))) as (w' & E & Hw).
  - done.
  - done.
  - done.
  - done.
  - reflexivity.
  - by apply (bool_decide_unpack _).
  - apply Forall_cons_2; [right; left; done|constructor].
  - apply Forall_cons_2; [done|constructor].
  - right. done.
  - done.
  - assert (He : eof w' = false) by (vm_compute in E; injection E as <-; reflexivity).
    destruct (Hw He) as (ws & rs' & Hws & Hrun & Hres & _).
    destruct (Hres 7 0x100 2) as (idx & Hidx & Hval); [left|].
    exists w', ws, rs', idx. split; [exact E|]. split; [exact Hws|]. split; [exact Hidx|]. split; [exact Hrun|].
    exact (Hval 2 1 0).
Defined.
