(* ===== verification/CsumSpec.v ===== *)
(** * Checksums validate

    The checksum the executor computes is the one's complement of the one's
    complement sum of RFC 1071 over the 16-bit words of the chunks.  Once it is
    in its place, the sum over the same chunks is 0xffff, which is the test of
    a receiver. *)

From stdpp Require Import base list gmap strings.
From Stdlib Require Import ZArith Lia.
From S2P Require Import Prelude ExecWire ExecWireSpec Copyin CopyinSpec.

Local Open Scope Z_scope.
Local Open Scope record_scope.

(** ** The reference *)

(** One's complement addition of 16-bit words: the carry is added back. *)
Definition ones_add (a b : Z) : Z := if 0xffff <? a + b then a + b - 0xffff else a + b.

(** The words of bytes; an odd last byte stands for itself. *)
Fixpoint words16 (l : list Z) : list Z :=
  match l with
  | [] => []
  | [a] => [a]
  | a :: b :: l => (a + 256 * b) :: words16 l
  end.

Definition rfc1071_sum (l : list Z) : Z := foldl ones_add 0 l.

(** ** Sums modulo 0xffff *)

(** 0 only for 0; otherwise the representative from 1 to 0xffff. *)
Definition norm (a : Z) : Z := if a =? 0 then 0 else (a - 1) `mod` 65535 + 1.

Lemma norm_small a : 0 <= a <= 65535 -> norm a = a.
Proof. intros Ha. unfold norm. destruct (Z.eqb_spec a 0); [done|]. rewrite Z.mod_small; lia. Qed.

Lemma norm_range a : 0 <= a -> 0 <= norm a <= 65535.
Proof.
  intros Ha. unfold norm. destruct (Z.eqb_spec a 0); [lia|].
  pose proof (Z.mod_pos_bound (a - 1) 65535 ltac:(lia)). lia.
Qed.

Lemma norm_shift a q : 0 < a -> 0 <= q -> norm (a + q * 65535) = norm a.
Proof.
  intros Ha Hq. unfold norm. destruct (Z.eqb_spec a 0), (Z.eqb_spec (a + q * 65535) 0); try lia.
  replace (a + q * 65535 - 1) with (a - 1 + q * 65535) by lia. by rewrite Z.mod_add.
Qed.

Lemma norm_quot a : 0 < a -> a = norm a + (a - 1) / 65535 * 65535.
Proof.
  intros Ha. unfold norm. destruct (Z.eqb_spec a 0); [lia|].
  pose proof (Z.div_mod (a - 1) 65535 ltac:(lia)). lia.
Qed.

Lemma norm_add a b : 0 <= a -> 0 <= b -> norm (norm a + b) = norm (a + b).
Proof.
  intros Ha Hb. destruct (decide (a = 0)) as [->|Hne]; [done|].
  rewrite (norm_quot a) at 2 by lia.
  replace (norm a + (a - 1) / 65535 * 65535 + b) with (norm a + b + (a - 1) / 65535 * 65535) by lia.
  assert (0 < norm a).
  { unfold norm. destruct (Z.eqb_spec a 0); [lia|]. pose proof (Z.mod_pos_bound (a - 1) 65535 ltac:(lia)). lia. }
  rewrite norm_shift; [done|lia|]. apply Z.div_pos; lia.
Qed.

Lemma ones_add_norm a b : 0 <= a -> 0 <= b <= 65535 -> ones_add (norm a) b = norm (a + b).
Proof.
  intros Ha Hb. rewrite <- norm_add by lia. pose proof (norm_range a Ha). unfold ones_add.
  destruct (Z.ltb_spec 65535 (norm a + b)).
  - symmetry. transitivity (norm (norm a + b - 65535 + 1 * 65535)); [f_equal; lia|].
    by rewrite norm_shift, (norm_small (norm a + b - 65535)) by lia.
  - by rewrite (norm_small (norm a + b)) by lia.
Qed.

Definition total (ws : list Z) : Z := foldr Z.add 0 ws.

Lemma total_app l1 l2 : total (l1 ++ l2) = total l1 + total l2.
Proof. unfold total. induction l1 as [|x l1 IH]; [done|]. cbn [app foldr]. rewrite IH. apply Z.add_assoc. Qed.

Lemma total_nonneg ws : Forall (fun x => 0 <= x <= 65535) ws -> 0 <= total ws.
Proof. unfold total. induction 1 as [|x ws Hx _ IH]; cbn [foldr]; lia. Qed.

Lemma foldl_ones_add ws a :
  0 <= a -> Forall (fun x => 0 <= x <= 65535) ws -> foldl ones_add (norm a) ws = norm (a + total ws).
Proof.
  intros Ha Hws. revert a Ha. induction Hws as [|x ws Hx Hws IH]; intros a Ha; cbn [foldl].
  { by rewrite Z.add_0_r. }
  rewrite ones_add_norm, IH by lia. f_equal. unfold total. cbn [foldr]. lia.
Qed.

(** ** The executor's sum *)

Lemma fold_step acc :
  0xffff < acc -> acc < 2 ^ 32 ->
  let acc' := u32 (Z.land acc 0xffff + Z.shiftr acc 16) in
  norm acc' = norm acc /\ 0 < acc' <= 131070 /\ (acc <= 131070 -> acc' <= 65535).
Proof.
  intros Hl Hu acc'. change 0xffff with (Z.ones 16) in acc'.
  assert (E : acc' = acc `mod` 65536 + acc / 65536).
  { unfold acc'. rewrite Z.land_ones, Z.shiftr_div_pow2 by lia. change (2 ^ 16) with 65536.
    pose proof (Z.mod_pos_bound acc 65536 ltac:(lia)).
    assert (0 <= acc / 65536 < 65536) by (split; [apply Z.div_pos; lia|apply Z.div_lt_upper_bound; lia]).
    apply wrapu_id. lia. }
  pose proof (Z.div_mod acc 65536 ltac:(lia)). pose proof (Z.mod_pos_bound acc 65536 ltac:(lia)).
  assert (1 <= acc / 65536) by (apply Z.div_le_lower_bound; lia).
  assert (acc / 65536 < 65536) by (apply Z.div_lt_upper_bound; lia).
  rewrite E. split_and!; [|lia|lia|].
  - rewrite <- (norm_shift (acc `mod` 65536 + acc / 65536) (acc / 65536)) by lia. f_equal. lia.
  - intros Hs. assert (acc / 65536 <= 1); [|lia]. apply Z.lt_succ_r, Z.div_lt_upper_bound; lia.
Qed.

Lemma fold_acc_run acc s : 0 <= acc < 2 ^ 32 -> fold_acc 3 acc s = Ret (norm acc) s.
Proof.
  intros Hacc. cbn [fold_acc]. destruct (Z.ltb_spec 65535 acc); [|by rewrite norm_small by lia].
  destruct (fold_step acc) as (<- & Hr & _); [lia..|]. set (acc1 := u32 _) in *. clearbody acc1.
  destruct (Z.ltb_spec 65535 acc1); [|by rewrite norm_small by lia].
  destruct (fold_step acc1) as (<- & Hr1 & Hs); [lia..|]. set (acc2 := u32 _) in *. clearbody acc2.
  specialize (Hs ltac:(lia)). destruct (Z.ltb_spec 65535 acc2); [lia|]. by rewrite norm_small by lia.
Qed.

(** Two bytes at a time. *)
Lemma pairs_ind (P : list Z -> Prop) :
  P [] -> (forall a, P [a]) -> (forall a b l, P l -> P (a :: b :: l)) -> forall l, P l.
Proof.
  intros H0 H1 H2. fix IH 1. intros [|a [|b l]]; [exact H0|apply H1|apply H2, IH].
Qed.

Lemma words16_range l : Forall is_byte l -> Forall (fun x => 0 <= x <= 65535) (words16 l).
Proof.
  unfold is_byte. induction l as [|a|a b l IH] using pairs_ind; intros Hl.
  - constructor.
  - apply Forall_cons in Hl as [Ha _]. constructor; [lia|constructor].
  - apply Forall_cons in Hl as [Ha [Hb Hl]%Forall_cons]. constructor; [lia|auto].
Qed.

Lemma words16_bound l : Forall is_byte l -> 2 * total (words16 l) <= 65535 * alen l.
Proof.
  unfold is_byte. induction l as [|a|a b l IH] using pairs_ind; intros Hl.
  - done.
  - apply Forall_cons in Hl as [Ha _]. cbn -[Z.mul]. change (alen [a]) with 1. lia.
  - apply Forall_cons in Hl as [Ha [Hb Hl]%Forall_cons]. cbn -[Z.mul]. fold (total (words16 l)).
    rewrite !alen_cons. specialize (IH Hl). lia.
Qed.

Lemma sum_words_total acc l :
  0 <= acc -> Forall is_byte l -> acc + total (words16 l) < 2 ^ 32 -> sum_words acc l = acc + total (words16 l).
Proof.
  unfold is_byte. revert acc. induction l as [|a|a b l IH] using pairs_ind; intros acc Hacc Hl Hs.
  - cbn. lia.
  - apply Forall_cons in Hl as [Ha _]. cbn in *. rewrite Z.add_0_r in *. apply wrapu_id. lia.
  - apply Forall_cons in Hl as [Ha [Hb Hl]%Forall_cons]. cbn [sum_words words16] in *.
    change (total (?x :: ?ws)) with (x + total ws) in *.
    pose proof (total_nonneg _ (words16_range l Hl)). rewrite wrapu_id, IH by (done || lia). lia.
Qed.

(** A chunk of at most 128 KiB does not overflow the 32-bit sum. *)
Lemma csum_inet_update_run acc l s :
  0 <= acc <= 65535 -> Forall is_byte l -> alen l <= 131072 ->
  csum_inet_update acc l s = Ret (norm (acc + total (words16 l))) s.
Proof.
  intros Hacc Hl Hlen. unfold csum_inet_update. destruct (Z.eqb_spec (alen l) 0) as [E|_].
  - destruct l; [|done]. cbn. by rewrite Z.add_0_r, norm_small.
  - pose proof (words16_bound l Hl). pose proof (total_nonneg _ (words16_range l Hl)).
    rewrite sum_words_total by (done || lia). apply fold_acc_run. lia.
Qed.

Lemma digest_value acc : 0 <= acc <= 65535 -> csum_inet_digest acc = 65535 - acc.
Proof.
  intros Ha. unfold csum_inet_digest, wrapu, Z.lnot. symmetry. apply (Z.mod_unique _ _ (-1)); lia.
Qed.

(** ** Chunks *)

(** The bytes of a chunk. *)
Definition chunk_bytes (m : gmap Z Z) (c : CsumChunk) : option (list Z) :=
  match c with
  | CsumChunkArg addr size => load_bytes m (Z.to_nat size) addr
  | CsumChunkConst value size => Some (take (Z.to_nat size) (le_bytes 8 value))
  end.

Definition chunk_words (c : CsumChunk) : list Z :=
  match c with
  | CsumChunkArg addr size => [ExecArgCsumChunkData; addr; size]
  | CsumChunkConst value size => [ExecArgCsumChunkConst; value; size]
  end.

(** Mapped, of a size the executor takes, and at most 128 KiB. *)
Definition chunk_ok (m : gmap Z Z) (c : CsumChunk) : Prop :=
  Forall is_u64 (chunk_words c) /\
  (exists l, chunk_bytes m c = Some l /\ Forall is_byte l /\ alen l <= 131072) /\
  match c with CsumChunkArg _ _ => True | CsumChunkConst _ size => size = 2 \/ size = 4 \/ size = 8 end.

(** All words of the chunks. *)
Definition all_words (m : gmap Z Z) (cs : list CsumChunk) : list Z :=
  cs ≫= fun c => words16 (default [] (chunk_bytes m c)).

Lemma chunk_words16 m c : chunk_ok m c -> Forall (fun x => 0 <= x <= 65535) (words16 (default [] (chunk_bytes m c))).
Proof. intros (_ & (l & -> & Hl & _) & _). by apply words16_range. Qed.

Lemma all_words_range m cs : Forall (chunk_ok m) cs -> Forall (fun x => 0 <= x <= 65535) (all_words m cs).
Proof.
  induction 1 as [|c cs Hc _ IH]; [constructor|]. unfold all_words. rewrite bind_cons.
  apply Forall_app. split; [by apply chunk_words16|exact IH].
Qed.

Section checksums.
Context `{Faults} (procid : Z).

Lemma csum_chunk_run acc c rest m r :
  0 <= acc <= 65535 -> chunk_ok m c ->
  csum_chunk acc (mk_exec_state (chunk_words c ++ rest) m r) =
  Ret (norm (acc + total (words16 (default [] (chunk_bytes m c))))) (mk_exec_state rest m r).
Proof.
  intros Hacc (_ & (l & El & Hl & Hlen) & Hc). rewrite El. unfold csum_chunk.
  destruct c as [addr size|value size]; cbn [chunk_words chunk_bytes app] in *;
    do 3 (erewrite bind_run by (by apply on_input_run)); cbn -[csum_inet_update].
  - erewrite bind_run by reflexivity. cbn [ex_mem]. rewrite El. by apply csum_inet_update_run.
  - injection El as El. destruct Hc as [->|[->| ->]]; cbn -[csum_inet_update] in *; rewrite El;
      by apply csum_inet_update_run.
Qed.

Lemma csum_chunks_run cs a rest m r :
  0 <= a -> Forall (chunk_ok m) cs ->
  csum_chunks (length cs) (norm a) (mk_exec_state ((cs ≫= chunk_words) ++ rest) m r) =
  Ret (norm (a + total (all_words m cs))) (mk_exec_state rest m r).
Proof.
  intros Ha Hcs. revert a Ha. induction Hcs as [|c cs Hc Hcs IH]; intros a Ha.
  { cbn. by rewrite Z.add_0_r. }
  unfold all_words. rewrite !bind_cons. fold (all_words m cs). cbn [length csum_chunks]. rewrite <- app_assoc.
  pose proof (total_nonneg _ (chunk_words16 m c Hc)).
  erewrite bind_run by (apply csum_chunk_run; [by apply norm_range|done]).
  rewrite norm_add, IH, total_app by lia. f_equal. f_equal. lia.
Qed.

(** The instruction: the complement of the reference sum is stored. *)
Lemma csum_copyin_run addr cs rest m r l :
  Forall (chunk_ok m) cs -> load_bytes m 2 addr = Some l -> Forall is_byte l ->
  exec_copyin procid (mk_exec_state ([addr; execArgCsum; 2; ExecArgCsumInet; alen cs] ++ (cs ≫= chunk_words) ++ rest) m r) =
  Ret tt (mk_exec_state rest (store_bytes addr (le_bytes 2 (65535 - rfc1071_sum (all_words m cs))) m) r).
Proof.
  intros Hcs Hl Hb. unfold exec_copyin. cbn [app]. do 2 (erewrite bind_run by (by apply on_input_run)).
  cbn -[copyin csum_chunks]. unfold copyin_csum. do 2 (erewrite bind_run by (by apply on_input_run)).
  cbn -[copyin csum_chunks]. erewrite bind_run by (by apply on_input_run).
  unfold alen. rewrite Nat2Z.id. erewrite bind_run by (by apply (csum_chunks_run cs 0)).
  pose proof (all_words_range m cs Hcs) as Hws. pose proof (total_nonneg _ Hws).
  assert (Er : rfc1071_sum (all_words m cs) = norm (0 + total (all_words m cs))).
  { unfold rfc1071_sum. change 0 with (norm 0) at 1. by apply foldl_ones_add. }
  rewrite <- Er. rewrite digest_value by (rewrite Er; by apply norm_range).
  change 2 with (Z.of_nat 2) at 1. rewrite copyin_is_int by (split; [auto|by left]).
  by erewrite bind_run by (apply (copyin_int_run 2 _ _ _ _ _ _ _ _ l); [split; [auto|by left]|by left|done|done]).
Qed.
End checksums.

(** ** A checksum in its place *)

Lemma load_bytes_app m n1 n2 a :
  load_bytes m (n1 + n2) a =
  (l1 ← load_bytes m n1 a; l2 ← load_bytes m n2 (a + Z.of_nat n1); Some (l1 ++ l2)).
Proof.
  revert a. induction n1 as [|n1 IH]; intros a; cbn [Nat.add load_bytes].
  { cbn. rewrite Z.add_0_r. by destruct (load_bytes m n2 a). }
  destruct (m !! a); [|done]. cbn. rewrite IH.
  replace (a + Z.of_nat (S n1)) with (a + 1 + Z.of_nat n1) by lia.
  destruct (load_bytes m n1 (a + 1)); [|done]. cbn. by destruct (load_bytes m n2 _).
Qed.

Lemma words16_app l1 l2 : Nat.even (length l1) = true -> words16 (l1 ++ l2) = words16 l1 ++ words16 l2.
Proof.
  induction l1 as [|a|a b l1 IH] using pairs_ind; intros He; [done|done|]. cbn. by rewrite IH.
Qed.

(** The chunk does not touch the two bytes at [addr]. *)
Definition avoids (addr : Z) (c : CsumChunk) : Prop :=
  match c with
  | CsumChunkArg a n => a + n <= addr \/ addr + 2 <= a
  | CsumChunkConst _ _ => True
  end.

Lemma avoids_bytes m c addr l :
  chunk_ok m c -> avoids addr c -> length l = 2%nat -> chunk_bytes (store_bytes addr l m) c = chunk_bytes m c.
Proof.
  intros (Hu & _) Ha Hl. destruct c as [a n|]; [|done]. cbn [chunk_words chunk_bytes avoids] in *.
  rewrite !Forall_cons in Hu. destruct Hu as (_ & _ & Hn & _). red in Hn.
  apply load_store_other. unfold alen. rewrite Hl. lia.
Qed.

Lemma avoids_words m cs addr l :
  Forall (chunk_ok m) cs -> Forall (avoids addr) cs -> length l = 2%nat ->
  all_words (store_bytes addr l m) cs = all_words m cs /\ Forall (chunk_ok (store_bytes addr l m)) cs.
Proof.
  intros Hok Ha Hl. unfold all_words. induction Hok as [|c cs Hc _ IH]; [done|].
  inversion Ha as [|?? Hca Ha']; subst. destruct (IH Ha') as [Ew Hok]. rewrite !bind_cons.
  pose proof (avoids_bytes m c addr l Hc Hca Hl) as Eb. rewrite Eb, Ew. split; [done|].
  constructor; [|done]. unfold chunk_ok. by rewrite Eb.
Qed.

(** The checksum is in an argument, at an even offset. *)
Definition holds_field (addr a n : Z) : Prop := a <= addr /\ Z.even (addr - a) = true /\ addr + 2 <= a + n.

(** Storing two bytes over zeros adds their word to the sum. *)
Lemma field_words m addr a n x y :
  chunk_ok m (CsumChunkArg a n) -> holds_field addr a n -> load_bytes m 2 addr = Some [0; 0] ->
  is_byte x -> is_byte y ->
  let m' := store_bytes addr [x; y] m in
  total (all_words m' [CsumChunkArg a n]) = total (all_words m [CsumChunkArg a n]) + (x + 256 * y) /\
  chunk_ok m' (CsumChunkArg a n).
Proof.
  intros (Hu & (l & El & Hl & Hlen) & _) (Ha & He & Hn) H0 Hx Hy m'. cbn [chunk_bytes] in El.
  set (k1 := Z.to_nat (addr - a)). set (k3 := Z.to_nat (a + n - addr - 2)).
  assert (Ek : Z.to_nat n = (k1 + (2 + k3))%nat) by lia.
  assert (Ea : a + Z.of_nat k1 = addr) by lia.
  rewrite Ek, load_bytes_app, Ea, (load_bytes_app m 2 k3), H0 in El.
  destruct (load_bytes m k1 a) as [l1|] eqn:E1; [|done].
  destruct (load_bytes m k3 (addr + Z.of_nat 2)) as [l3|] eqn:E3; [|done]. injection El as <-.
  pose proof (load_bytes_length _ _ _ _ E1) as Hl1.
  assert (Em' : load_bytes m' (Z.to_nat n) a = Some (l1 ++ [x; y] ++ l3)).
  { rewrite Ek, load_bytes_app, Ea, (load_bytes_app m' 2 k3). unfold m'.
    pose proof (load_store_same addr [x; y] m) as Es. cbn [length] in Es. rewrite Es.
    rewrite !load_store_other, E1, E3; [done| |]; change (alen [x; y]) with 2; lia. }
  assert (Hev : Nat.even (length l1) = true).
  { rewrite Hl1. unfold k1. rewrite Nat.even_spec. apply Z.even_spec in He as [q Hq]. exists (Z.to_nat q). lia. }
  apply Forall_app in Hl as [Hb1 Hb2]. rewrite !Forall_cons in Hb2; destruct Hb2 as (_ & _ & Hb3). split.
  - unfold all_words. cbn [mbind list_bind chunk_bytes]. rewrite Em', Ek, load_bytes_app, Ea, (load_bytes_app m 2 k3), H0, E1, E3.
    cbn [mbind option_bind default from_option id]. rewrite !app_nil_r, !words16_app, !total_app by done.
    cbn [app words16]. change (total (?z :: ?ws)) with (z + total ws). lia.
  - split; [done|]. split; [|done]. exists (l1 ++ [x; y] ++ l3). split; [exact Em'|]. split.
    + apply Forall_app. split; [done|]. cbn [app]. by rewrite !Forall_cons.
    + cbn [app] in *. rewrite !alen_app, !alen_cons in *. exact Hlen.
Qed.

Lemma norm_complement t : 0 <= t -> norm (t + (65535 - norm t)) = 65535.
Proof.
  intros Ht. destruct (decide (t = 0)) as [->|Hne]; [done|]. rewrite (norm_quot t) at 1 by lia.
  replace (norm t + (t - 1) / 65535 * 65535 + (65535 - norm t)) with (65535 + (t - 1) / 65535 * 65535) by lia.
  rewrite norm_shift; [done|done|]. apply Z.div_pos; lia.
Qed.

Lemma rfc1071_norm m cs : Forall (chunk_ok m) cs -> rfc1071_sum (all_words m cs) = norm (total (all_words m cs)).
Proof.
  intros Hcs. unfold rfc1071_sum. change 0 with (norm 0) at 1.
  by rewrite foldl_ones_add by (done || by apply all_words_range).
Qed.

(** The complement of the sum, stored in the field, makes the sum 0xffff. *)
Lemma complement_validates m addr a n pre post :
  Forall (chunk_ok m) (pre ++ CsumChunkArg a n :: post) -> Forall (avoids addr) (pre ++ post) ->
  holds_field addr a n -> load_bytes m 2 addr = Some [0; 0] ->
  let cs := pre ++ CsumChunkArg a n :: post in
  rfc1071_sum (all_words (store_bytes addr (le_bytes 2 (65535 - rfc1071_sum (all_words m cs))) m) cs) = 65535.
Proof.
  intros Hok Hav Hf H0 cs. unfold cs in *. set (c := 65535 - rfc1071_sum (all_words m (pre ++ CsumChunkArg a n :: post))).
  set (m' := store_bytes addr (le_bytes 2 c) m).
  apply Forall_app in Hok as Hok'. destruct Hok' as [Hpre [Hc Hpost]%Forall_cons]. apply Forall_app in Hav as [Ha1 Ha2].
  assert (Hsplit : forall mm, total (all_words mm (pre ++ CsumChunkArg a n :: post)) =
    total (all_words mm pre) + (total (all_words mm [CsumChunkArg a n]) + total (all_words mm post))).
  { intros mm. unfold all_words. rewrite bind_app, bind_cons, !total_app. cbn [mbind list_bind].
    by rewrite app_nil_r. }
  destruct (avoids_words m pre addr (le_bytes 2 c)) as [Ep Hp]; [done|done|done|].
  destruct (avoids_words m post addr (le_bytes 2 c)) as [Eq Hq]; [done|done|done|].
  pose proof (le_bytes_are_bytes 2 c) as Hb. cbn [le_bytes] in Hb.
  rewrite !Forall_cons in Hb. destruct Hb as (Hx & Hy & _).
  destruct (field_words m addr a n _ _ Hc Hf H0 Hx Hy) as [Ef Hc'].
  change (store_bytes addr [c `mod` 256; (c / 256) `mod` 256] m) with m' in *. fold m' in Ep, Eq, Hp, Hq.
  rewrite rfc1071_norm by (apply Forall_app; split; [done|]; by constructor).
  rewrite Hsplit, Ep, Eq, Ef.
  pose proof (total_nonneg _ (all_words_range m _ Hok)) as Ht. pose proof (norm_range _ Ht) as Hr.
  assert (Ec : c `mod` 256 + 256 * ((c / 256) `mod` 256) = 65535 - norm (total (all_words m (pre ++ CsumChunkArg a n :: post)))).
  { assert (Ev : c = 65535 - norm (total (all_words m (pre ++ CsumChunkArg a n :: post))))
      by (unfold c; by rewrite rfc1071_norm).
    rewrite <- Ev. rewrite (Z.mod_small (c / 256)) by (split; [apply Z.div_pos; lia|apply Z.div_lt_upper_bound; lia]).
    pose proof (Z.div_mod c 256 ltac:(lia)). lia. }
  rewrite Ec. rewrite <- (norm_complement (total (all_words m (pre ++ CsumChunkArg a n :: post)))) at 2 by done.
  f_equal. rewrite Hsplit. lia.
Qed.

Lemma writes_chunk m c : chunk_ok m c -> writes (writeChunk c) (chunk_words c).
Proof.
  intros (Hu & _). destruct c; cbn [chunk_words writeChunk] in *; rewrite !Forall_cons in Hu;
    destruct Hu as (? & ? & ? & _); change [?a; ?b; ?d] with ([a] ++ [b] ++ [d]);
    repeat apply writes_bind; by apply writes_write.
Qed.

Lemma writes_checksum m addr cs :
  is_u64 addr -> Forall (chunk_ok m) cs -> alen cs < 2 ^ 64 ->
  writes (writeChecksum addr 2 cs)
    ([execInstrCopyin] ++ [addr; execArgCsum; 2; ExecArgCsumInet; alen cs] ++ (cs ≫= chunk_words)).
Proof.
  intros Ha Hcs Hlen. unfold writeChecksum. pose proof (alen_nonneg cs).
  change [addr; execArgCsum; 2; ExecArgCsumInet; alen cs]
    with ([addr] ++ [execArgCsum] ++ [2] ++ [ExecArgCsumInet] ++ [alen cs]). rewrite <- !app_assoc.
  repeat (apply writes_bind; [apply writes_write; (done || red; lia)|]).
  apply writes_foreach. eapply Forall_impl; [exact Hcs|]. intros c. apply writes_chunk.
Qed.

(** C29. Checksums are those of RFC 1071 and validate.  The encoder writes the
    chunks a checksum is of, or runs out of buffer; the executor reads exactly
    those words and stores two bytes, the one's complement of the one's
    complement sum over the 16-bit words of the chunks.  When the field is in
    one of the chunks, at an even offset and holding zero, as the encoder
    leaves it, and no other chunk overlaps it, the sum over the same chunks of
    the resulting memory is 0xffff.  Chunks have at most 128 KiB: beyond, the
    32-bit sum can overflow. *)
Theorem checksums_validate `{Faults} procid addr a n pre post m w :
  let cs := pre ++ CsumChunkArg a n :: post in
  Forall (chunk_ok m) cs -> Forall (avoids addr) (pre ++ post) -> holds_field addr a n ->
  load_bytes m 2 addr = Some [0; 0] -> is_u64 addr -> alen cs < 2 ^ 64 -> 0 <= buf w ->
  exists w', writeChecksum addr 2 cs w = Ret tt w' /\
    (eof w' = false -> exists ws, words w' = words w ++ execInstrCopyin :: ws /\
       forall rest r, exists m',
         exec_copyin procid (mk_exec_state (ws ++ rest) m r) = Ret tt (mk_exec_state rest m' r) /\
         le_value <$> load_bytes m' 2 addr = Some (0xffff - rfc1071_sum (all_words m cs)) /\
         (forall x, ~ addr <= x < addr + 2 -> m' !! x = m !! x) /\
         rfc1071_sum (all_words m' cs) = 0xffff).
Proof.
  intros cs Hok Hav Hf H0 Ha Hlen Hb. pose proof (writes_checksum m addr cs Ha Hok Hlen) as Hw.
  destruct (writes_runs _ _ w Hw Hb) as [w' E]. exists w'. split; [done|]. intros He.
  eexists. split; [by eapply writes_fits|]. intros rest r.
  exists (store_bytes addr (le_bytes 2 (65535 - rfc1071_sum (all_words m cs))) m). split_and!.
  - rewrite <- app_assoc. eapply csum_copyin_run; [done|exact H0|]. by repeat constructor.
  - pose proof (load_store_same addr (le_bytes 2 (65535 - rfc1071_sum (all_words m cs))) m) as Es.
    rewrite length_le_bytes in Es. rewrite Es. cbn [fmap option_fmap option_map]. rewrite le_value_bytes.
    rewrite rfc1071_norm by done. pose proof (norm_range _ (total_nonneg _ (all_words_range m cs Hok))).
    by rewrite Z.mod_small by lia.
  - intros x Hx. rewrite lookup_store_bytes, decide_False; [done|]. unfold alen. by rewrite length_le_bytes.
  - by apply complement_validates.
Qed.

(** A packet of ten bytes with its checksum at offset 2, and the pseudo header
    of IPv4. *)
Definition packet : gmap Z Z :=
  store_bytes 0x100 [0x12; 0x34; 0; 0; 0xff; 0xff; 0xab; 0xcd; 0xef; 1; 2] (store_bytes 0x200 [10; 0; 0; 1; 10; 0; 0; 2] ∅).

Lemma checksums_validate_witness :
  exists w' ws m',
    writeChecksum 0x102 2 (composePseudoCsumIPv4 (0x100, 11) (0x200, 4) (0x204, 4) 17)
      (mk_exec_context 256 [] false ∅ 0) = Ret tt w' /\
    words w' = execInstrCopyin :: ws /\
    exec_copyin (H := clean_faults) 0 (mk_exec_state (ws ++ [7]) packet []) =
      Ret tt (mk_exec_state [7] m' []) /\
    rfc1071_sum (all_words m' (composePseudoCsumIPv4 (0x100, 11) (0x200, 4) (0x204, 4) 17)) = 0xffff.
Proof.
  destruct (checksums_validate (H := clean_faults) 0 0x102 0x100 11
    [CsumChunkArg 0x200 4; CsumChunkArg 0x204 4; CsumChunkConst 0x1100 2; CsumChunkConst 0xb00 2] []
    packet (mk_exec_context 256 [] false ∅ 0)) as (w' & E & Hw).
  - repeat (apply Forall_cons_2; [split; [by repeat constructor|];
      split; [eexists; split; [reflexivity|]; split; [repeat constructor; done|done]|by auto]|]). apply Forall_nil_2.
  - repeat (apply Forall_cons_2; [cbn; lia|]). apply Forall_nil_2.
  - done.
  - reflexivity.
  - done.
  - done.
  - done.
  - assert (He : eof w' = false) by (vm_compute in E; injection E as <-; reflexivity).
    destruct (Hw He) as (ws & Hws & Hrun). destruct (Hrun [7] []) as (m' & Em & _ & _ & Hs).
    exists w', ws, m'. split; [exact E|]. split; [exact Hws|]. split; [exact Em|exact Hs].
Defined.
