(* ===== verification/WorkQueue.v ===== *)
(** * Work items (cpus-common.c)

    Code that must run on the thread of a vCPU is put on the vCPU's queue.
    [do_run_on_cpu] waits for its item, which lives on the caller's stack, to
    be done; [async_run_on_cpu] and [async_safe_run_on_cpu] do not wait.
    [process_queued_cpu_work] runs the items of a vCPU.  They synchronise by a
    lock for each queue, by the big lock and by the condition variable
    [qemu_work_cond].

    The file models them as a state machine with a program counter per thread;
    the thread of a vCPU has the vCPU's number.  A step takes a lock or is what
    a thread does between taking or releasing locks; the test of [wi.done] and
    the wait that follows are two steps.  The functions of items are opaque:
    the model records that they run.  The theorems: items run once and in
    order, an item on a stack is not touched after its owner has returned, and
    no wake-up is lost. *)

From stdpp Require Import base list gmap.
From Stdlib Require Import ZArith Lia.
From S2P Require Import Prelude.

Local Open Scope Z_scope.
Local Open Scope record_scope.

(** [func] and [data] are a number; [wi_owner] is the thread that asked.  An item
    that is not freed is on the owner's stack, and [done] is with the owner. *)
Record qemu_work_item := mk_work_item {
  wi_owner : Z;
  wi_func : Z;
  wi_free : bool;
  wi_exclusive : bool
}.

#[export] Instance work_item_eq_dec : EqDecision qemu_work_item.
Proof. solve_decision. Defined.

Inductive pc :=
| Outside
(* queue_work_on_cpu *)
| QueueLock (cpu : Z) (wi : qemu_work_item) | QueueInsert (cpu : Z) (wi : qemu_work_item)
(* do_run_on_cpu *)
| WaitTest (cpu : Z) (wi : qemu_work_item) | WaitSleep (cpu : Z) (wi : qemu_work_item)
| WaitAsleep (cpu : Z) (wi : qemu_work_item) | WaitAwake (cpu : Z) (wi : qemu_work_item)
(* process_queued_cpu_work *)
| ProcLock | ProcFirst | ProcLoop
| ProcRun (wi : qemu_work_item) | ProcExclusive (wi : qemu_work_item) | ProcIothread (wi : qemu_work_item)
| ProcRelock (wi : qemu_work_item) | ProcDone (wi : qemu_work_item)
| ProcBroadcast.

(** [queued] and [ran] are the items put on queues and taken from them and run,
    with their CPU; [asked] counts the items a thread waited for. *)
Record work := mk_work {
  iothread : option Z;
  work_mutex : Z -> option Z;
  work_list : Z -> list qemu_work_item;
  wi_done : Z -> bool;
  pc_of : Z -> pc;
  queued : list (Z * qemu_work_item);
  ran : list (Z * qemu_work_item);
  inlined : list (Z * Z);
  asked : Z -> nat
}.

#[export] Instance work_eta : Eta work := fun s =>
  mk_work (iothread s) (work_mutex s) (work_list s) (wi_done s) (pc_of s) (queued s) (ran s) (inlined s) (asked s).

Definition no_work : work :=
  mk_work None (fun _ => None) (fun _ => []) (fun _ => false) (fun _ => Outside) [] [] [] (fun _ => O).

(** What a thread does next: a call, going on in the function it is in, or
    waking up without a signal. *)
Inductive move :=
| Go
| LockIothread | UnlockIothread
| RunOnCpu (cpu func : Z) | AsyncRunOnCpu (cpu func : Z) | AsyncSafeRunOnCpu (cpu func : Z)
| ProcessQueuedCpuWork
| WakeUp.

Definition goto (t : Z) (l : pc) (s : work) : work := s <| pc_of ::= fun g => upd g t l |>.

Definition lock_work (t cpu : Z) (l : pc) (s : work) : option work :=
  match work_mutex s cpu with
  | None => Some (goto t l (s <| work_mutex ::= fun g => upd g cpu (Some t) |>))
  | Some _ => None
  end.
Definition unlock_work (cpu : Z) (s : work) : work := s <| work_mutex ::= fun g => upd g cpu None |>.

Definition lock_iothread (t : Z) (l : pc) (s : work) : option work :=
  match iothread s with None => Some (goto t l (s <| iothread := Some t |>)) | Some _ => None end.
Definition unlock_iothread (s : work) : work := s <| iothread := None |>.

(** [qemu_cond_broadcast(&qemu_work_cond)]. *)
Definition woken (l : pc) : pc := match l with WaitAsleep cpu wi => WaitAwake cpu wi | _ => l end.
Definition broadcast (s : work) : work := s <| pc_of ::= fun g t => woken (g t) |>.

Definition run_func (cpu : Z) (wi : qemu_work_item) (s : work) : work := s <| ran ::= fun l => l ++ [(cpu, wi)] |>.

(** The calls.  [run_on_cpu] is called with the big lock held, as is
    [process_queued_cpu_work]. *)
Definition do_run_on_cpu (t cpu func : Z) (s : work) : option work :=
  if negb (bool_decide (iothread s = Some t)) then None
  else if t =? cpu then Some (s <| inlined ::= fun l => l ++ [(cpu, func)] |>)
  else
    Some (goto t (QueueLock cpu (mk_work_item t func false false))
            (s <| wi_done ::= fun g => upd g t false |> <| asked ::= fun g => upd g t (S (g t)) |>)).

Definition async_run_on_cpu (t cpu func : Z) (s : work) : option work :=
  Some (goto t (QueueLock cpu (mk_work_item t func true false)) s).

Definition async_safe_run_on_cpu (t cpu func : Z) (s : work) : option work :=
  Some (goto t (QueueLock cpu (mk_work_item t func true true)) s).

(** Going on in [queue_work_on_cpu]; a caller that waits comes to its loop. *)
Definition queue_work_on_cpu (t : Z) (s : work) : option work :=
  match pc_of s t with
  | QueueLock cpu wi => lock_work t cpu (QueueInsert cpu wi) s
  | QueueInsert cpu wi =>
      let s := s <| work_list ::= fun g => upd g cpu (g cpu ++ [wi]) |> <| queued ::= fun l => l ++ [(cpu, wi)] |> in
      let s := if wi_free wi then s else s <| wi_done ::= fun g => upd g (wi_owner wi) false |> in
      Some (goto t (if wi_free wi then Outside else WaitTest cpu wi) (unlock_work cpu s))
  | _ => None
  end.

(** The loop of [do_run_on_cpu]. *)
Definition wait_done (t : Z) (s : work) : option work :=
  match pc_of s t with
  | WaitTest cpu wi => Some (goto t (if wi_done s (wi_owner wi) then Outside else WaitSleep cpu wi) s)
  | WaitSleep cpu wi => Some (goto t (WaitAsleep cpu wi) (unlock_iothread s))
  | WaitAwake cpu wi => lock_iothread t (WaitTest cpu wi) s
  | _ => None
  end.

Definition process_queued_cpu_work (t : Z) (s : work) : option work :=
  match pc_of s t with
  | ProcLock => lock_work t t ProcFirst s
  | ProcFirst =>
      match work_list s t with
      | [] => Some (goto t Outside (unlock_work t s))
      | _ => Some (goto t ProcLoop s)
      end
  | ProcLoop =>
      match work_list s t with
      | [] => Some (goto t ProcBroadcast (unlock_work t s))
      | wi :: l => Some (goto t (ProcRun wi) (unlock_work t (s <| work_list ::= fun g => upd g t l |>)))
      end
  | ProcRun wi =>
      if wi_exclusive wi then Some (goto t (ProcExclusive wi) (unlock_iothread s))
      else Some (goto t (ProcRelock wi) (run_func t wi s))
  | ProcExclusive wi => Some (goto t (ProcIothread wi) (run_func t wi s))
  | ProcIothread wi => lock_iothread t (ProcRelock wi) s
  | ProcRelock wi => lock_work t t (ProcDone wi) s
  | ProcDone wi =>
      Some (goto t ProcLoop (if wi_free wi then s else s <| wi_done ::= fun g => upd g (wi_owner wi) true |>))
  | ProcBroadcast => Some (goto t Outside (broadcast s))
  | _ => None
  end.

Definition step (t : Z) (mv : move) (s : work) : option work :=
  match mv, pc_of s t with
  | Go, (QueueLock _ _ | QueueInsert _ _) => queue_work_on_cpu t s
  | Go, (WaitTest _ _ | WaitSleep _ _ | WaitAwake _ _) => wait_done t s
  | Go, _ => process_queued_cpu_work t s
  | WakeUp, WaitAsleep cpu wi => Some (goto t (WaitAwake cpu wi) s)
  | LockIothread, Outside => lock_iothread t Outside s
  | UnlockIothread, Outside => if bool_decide (iothread s = Some t) then Some (unlock_iothread s) else None
  | RunOnCpu cpu func, Outside => do_run_on_cpu t cpu func s
  | AsyncRunOnCpu cpu func, Outside => async_run_on_cpu t cpu func s
  | AsyncSafeRunOnCpu cpu func, Outside => async_safe_run_on_cpu t cpu func s
  | ProcessQueuedCpuWork, Outside => if bool_decide (iothread s = Some t) then Some (goto t ProcLock s) else None
  | _, _ => None
  end.

Inductive reachable : work -> Prop :=
| reachable_init : reachable no_work
| reachable_step s t mv s' : reachable s -> step t mv s = Some s' -> reachable s'.

(** ** Invariants *)

(** Places where a thread has the big lock, and those where it has the lock of
    a queue. *)
Definition holds_iothread (l : pc) : bool :=
  match l with
  | QueueLock _ wi | QueueInsert _ wi => negb (wi_free wi)
  | WaitTest _ _ | WaitSleep _ _ => true
  | ProcLock | ProcFirst | ProcLoop | ProcRun _ | ProcRelock _ | ProcDone _ | ProcBroadcast => true
  | _ => false
  end.

Definition holds_work (t : Z) (l : pc) : option Z :=
  match l with
  | QueueInsert cpu _ => Some cpu
  | ProcFirst | ProcLoop | ProcDone _ => Some t
  | _ => None
  end.

(** The item a thread waits for, and the CPU it is queued at. *)
Definition waits (l : pc) : option (Z * qemu_work_item) :=
  match l with
  | WaitTest cpu wi | WaitSleep cpu wi | WaitAsleep cpu wi | WaitAwake cpu wi => Some (cpu, wi)
  | _ => None
  end.
Definition queues (l : pc) : option qemu_work_item :=
  match l with QueueLock _ wi | QueueInsert _ wi => Some wi | _ => None end.

(** The item taken from the queue: not done with yet, and not run yet. *)
Definition hand (l : pc) : list qemu_work_item :=
  match l with
  | ProcRun wi | ProcExclusive wi | ProcIothread wi | ProcRelock wi | ProcDone wi => [wi]
  | _ => []
  end.
Definition hand_unrun (l : pc) : list qemu_work_item :=
  match l with ProcRun wi | ProcExclusive wi => [wi] | _ => [] end.

Definition held (s : work) (cpu : Z) : list qemu_work_item := hand (pc_of s cpu) ++ work_list s cpu.
Definition unrun (s : work) (cpu : Z) : list qemu_work_item := hand_unrun (pc_of s cpu) ++ work_list s cpu.

(** The wake-up of [process_queued_cpu_work] is still to come. *)
Definition will_broadcast (l : pc) : bool :=
  match l with
  | ProcLoop | ProcRun _ | ProcExclusive _ | ProcIothread _ | ProcRelock _ | ProcDone _ | ProcBroadcast => true
  | _ => false
  end.

Definition of_cpu (cpu : Z) (l : list (Z * qemu_work_item)) : list qemu_work_item :=
  (filter (fun p => p.1 = cpu) l).*2.

Definition waited (wi : qemu_work_item) : bool := negb (wi_free wi).

Record inv (s : work) : Prop := mk_inv {
  inv_iothread t : holds_iothread (pc_of s t) = true -> iothread s = Some t;
  inv_mutex t cpu : holds_work t (pc_of s t) = Some cpu -> work_mutex s cpu = Some t;
  inv_order cpu : of_cpu cpu (queued s) = of_cpu cpu (ran s) ++ unrun s cpu;
  inv_alive cpu wi : wi ∈ held s cpu -> waited wi = true -> waits (pc_of s (wi_owner wi)) = Some (cpu, wi);
  inv_once cpu : NoDup (filter (fun wi => waited wi = true) (held s cpu));
  inv_wait t cpu wi : waits (pc_of s t) = Some (cpu, wi) ->
    wi_owner wi = t /\ waited wi = true /\ (wi_done s t = false <-> wi ∈ held s cpu);
  inv_queue t wi : queues (pc_of s t) = Some wi -> wi_owner wi = t;
  inv_sleep t cpu wi : pc_of s t = WaitSleep cpu wi -> wi_done s t = false;
  inv_wake t cpu wi : pc_of s t = WaitAsleep cpu wi -> wi_done s t = true -> will_broadcast (pc_of s cpu) = true
}.

Lemma of_cpu_app cpu l1 l2 : of_cpu cpu (l1 ++ l2) = of_cpu cpu l1 ++ of_cpu cpu l2.
Proof. unfold of_cpu. by rewrite filter_app, fmap_app. Qed.

Lemma of_cpu_one cpu c wi : of_cpu cpu [(c, wi)] = if decide (c = cpu) then [wi] else [].
Proof. unfold of_cpu. rewrite filter_cons, filter_nil. cbn. by case_decide. Qed.

(** The cases of a step. *)
Ltac step_cases H :=
  unfold step, do_run_on_cpu, async_run_on_cpu, async_safe_run_on_cpu, queue_work_on_cpu, wait_done,
    process_queued_cpu_work, lock_work, lock_iothread in H;
  repeat (case_match; try discriminate H); simplify_eq;
  repeat match goal with
  | Hb : negb _ = false |- _ => apply negb_false_iff in Hb
  | Hb : bool_decide _ = true |- _ => apply bool_decide_eq_true_1 in Hb
  end;
  unfold goto, unlock_work, unlock_iothread, broadcast, run_func, set;
  cbn [iothread work_mutex work_list wi_done pc_of queued ran inlined asked] in *.

Ltac split_threads :=
  unfold upd; intros; repeat case_decide; subst.

Lemma woken_same l :
  holds_iothread (woken l) = holds_iothread l /\ (forall t, holds_work t (woken l) = holds_work t l) /\
  waits (woken l) = waits l /\ queues (woken l) = queues l /\ hand (woken l) = hand l /\
  hand_unrun (woken l) = hand_unrun l /\ will_broadcast (woken l) = will_broadcast l.
Proof. by destruct l. Qed.

(** What an invariant says of the thread that makes the step. *)
Ltac about lem t E :=
  let Ht := fresh "Ht" in pose proof (lem t) as Ht; rewrite E in Ht; cbn in Ht.

Lemma step_iothread s t mv s' :
  inv s -> step t mv s = Some s' -> forall t', holds_iothread (pc_of s' t') = true -> iothread s' = Some t'.
Proof.
  intros I Hs. pose proof (inv_iothread s I) as Hio. pose proof (Hio t) as Ht.
  step_cases Hs; split_threads; cbn in *; try congruence; try (by apply Hio);
    try (rewrite (proj1 (woken_same _)) in *; by apply Hio);
    try match goal with E : pc_of _ _ = _ |- _ => rewrite E in *; cbn in * end; auto;
    try (match goal with Hw : holds_iothread (pc_of _ ?u) = true |- _ => pose proof (Hio u Hw) end;
         try specialize (Ht eq_refl); congruence).
  - apply Ht. by rewrite H1.
  - pose proof (Hio t' H) as Ht'. rewrite H1 in Ht'. injection Ht' as <-.
    by rewrite H0 in H.
Qed.

Lemma step_mutex s t mv s' :
  inv s -> step t mv s = Some s' ->
  forall t' cpu, holds_work t' (pc_of s' t') = Some cpu -> work_mutex s' cpu = Some t'.
Proof.
  intros I Hs. pose proof (inv_mutex s I) as Hm. pose proof (Hm t) as Ht.
  step_cases Hs; split_threads; cbn in *; try congruence; try (by apply Hm);
    try (rewrite (proj1 (proj2 (woken_same _))) in *; by apply Hm);
    try match goal with E : pc_of _ _ = _ |- _ => rewrite E in *; cbn in * end; auto; simplify_eq; auto;
    try (match goal with Hw : holds_work ?u (pc_of _ ?u) = Some _ |- _ => pose proof (Hm u _ Hw) end;
         try specialize (Ht _ eq_refl); congruence).
Qed.

Lemma step_order s t mv s' :
  inv s -> step t mv s = Some s' -> forall cpu, of_cpu cpu (queued s') = of_cpu cpu (ran s') ++ unrun s' cpu.
Proof.
  intros I Hs c. pose proof (inv_order s I c) as Ho. unfold unrun in *.
  step_cases Hs; rewrite ?of_cpu_app, ?of_cpu_one, Ho; split_threads; cbn in *;
    repeat match goal with E : pc_of _ _ = _ |- _ => rewrite E in *; clear E end;
    repeat match goal with E : work_list _ _ = _ |- _ => rewrite E in *; clear E end;
    cbn in *; rewrite ?app_nil_r, <- ?app_assoc; try done;
    try (by rewrite (proj1 (proj2 (proj2 (proj2 (proj2 (proj2 (woken_same _))))))));
    try congruence.
Qed.

(** A step changes the items held, the waiting threads and what is done in one
    of four ways. *)
Inductive shape (t : Z) (s s' : work) : Prop :=
| silent :
    (forall c, held s' c = held s c) -> (forall u, waits (pc_of s' u) = waits (pc_of s u)) ->
    (forall u, waits (pc_of s u) <> None -> wi_done s' u = wi_done s u) -> shape t s s'
| inserts c wi :
    pc_of s t = QueueInsert c wi ->
    (forall d, held s' d = if decide (d = c) then held s d ++ [wi] else held s d) ->
    (forall u, waits (pc_of s' u) = if decide (u = t /\ waited wi = true) then Some (c, wi) else waits (pc_of s u)) ->
    (forall u, wi_done s' u = if decide (u = wi_owner wi /\ waited wi = true) then false else wi_done s u) ->
    shape t s s'
| finishes wi :
    pc_of s t = ProcDone wi ->
    (forall d, held s d = (if decide (d = t) then [wi] else []) ++ held s' d) ->
    (forall u, waits (pc_of s' u) = waits (pc_of s u)) ->
    (forall u, wi_done s' u = if decide (u = wi_owner wi /\ waited wi = true) then true else wi_done s u) ->
    shape t s s'
| returns c wi :
    pc_of s t = WaitTest c wi -> wi_done s (wi_owner wi) = true ->
    (forall d, held s' d = held s d) ->
    (forall u, waits (pc_of s' u) = if decide (u = t) then None else waits (pc_of s u)) ->
    (forall u, wi_done s' u = wi_done s u) -> shape t s s'.

Ltac settle :=
  intros; unfold held; cbn [iothread work_mutex work_list wi_done pc_of queued ran inlined asked] in *;
  unfold upd in *; repeat case_decide; subst;
  repeat match goal with E : pc_of _ _ = _ |- _ => rewrite E in *; clear E end;
  repeat match goal with E : work_list _ _ = _ |- _ => rewrite E in *; clear E end;
  cbn in *; rewrite ?app_nil_r, ?app_assoc; unfold waited in *; try done;
  repeat match goal with F : wi_free _ = _ |- _ => rewrite F in *; clear F end;
  try (destruct_and?; congruence); try (by exfalso; intuition);
  try match goal with |- context [woken ?l] => by destruct l end.

Lemma step_shape s t mv s' : inv s -> step t mv s = Some s' -> shape t s s'.
Proof.
  intros I Hs. pose proof (inv_queue s I t) as Hq. step_cases Hs;
    try match goal with E : pc_of s t = QueueInsert ?c ?wi |- _ => apply (inserts _ _ _ c wi); [done|..] end;
    try match goal with E : pc_of s t = ProcDone ?wi |- _ => apply (finishes _ _ _ wi); [done|..] end;
    try (match goal with E : pc_of s t = WaitTest ?c ?wi, D : wi_done _ _ = true |- _ =>
           apply (returns _ _ _ c wi); [done|done|..] end);
    try (apply silent); settle.
Qed.

Lemma shape_alive s t s' :
  inv s -> shape t s s' ->
  forall cpu wi, wi ∈ held s' cpu -> waited wi = true -> waits (pc_of s' (wi_owner wi)) = Some (cpu, wi).
Proof.
  intros I [Hh Hw _|c wi E Hh Hw _|wi E Hh Hw _|c wi E D Hh Hw _] d w Hin Hwd; rewrite Hw.
  - rewrite Hh in Hin. by apply (inv_alive s I).
  - rewrite Hh in Hin. assert (Ht : waits (pc_of s t) = None) by (by rewrite E).
    assert (Hold : w ∈ held s d -> waits (pc_of s (wi_owner w)) = Some (d, w)) by (intros; by apply (inv_alive s I)).
    case_decide as Hd; [subst d; apply elem_of_app in Hin as [Hin|Hin%list_elem_of_singleton]|].
    + destruct (decide (wi_owner w = t /\ waited wi = true)) as [[Ho _]|_]; [|by apply Hold]. specialize (Hold Hin). congruence.
    + subst w. rewrite decide_True; [done|]. split; [|done]. apply (inv_queue s I). by rewrite E.
    + destruct (decide (wi_owner w = t /\ waited wi = true)) as [[Ho _]|_]; [|by apply Hold]. specialize (Hold Hin). congruence.
  - apply (inv_alive s I); [|done]. rewrite Hh. apply elem_of_app. by right.
  - rewrite Hh in Hin. pose proof (inv_alive s I d w Hin Hwd) as Ha. case_decide as Ho; [|done].
    rewrite Ho, E in Ha. injection Ha as <- <-.
    destruct (inv_wait s I t c wi) as (Ho' & _ & Hdone); [by rewrite E|].
    apply Hdone in Hin. congruence.
Qed.

Lemma shape_once s t s' :
  inv s -> shape t s s' -> forall cpu, NoDup (filter (fun wi => waited wi = true) (held s' cpu)).
Proof.
  intros I [Hh _ _|c wi E Hh _ _|wi E Hh _ _|c wi E _ Hh _ _] d; pose proof (inv_once s I d) as Hn.
  - by rewrite Hh.
  - rewrite Hh. case_decide as Hd; [subst d|done]. rewrite filter_app. apply NoDup_app. split; [done|]. split.
    + intros w Hw Hw1. rewrite filter_cons, filter_nil in Hw1. case_decide; [|set_solver].
      apply list_elem_of_singleton in Hw1 as ->. apply list_elem_of_filter in Hw as [Hwd Hin].
      pose proof (inv_alive s I c wi Hin Hwd) as Ha. rewrite (inv_queue s I t wi) in Ha by (by rewrite E).
      by rewrite E in Ha.
    + rewrite filter_cons, filter_nil. case_decide; [apply NoDup_singleton|constructor].
  - rewrite Hh, filter_app in Hn. by apply NoDup_app in Hn as (_ & _ & Hn).
  - by rewrite Hh.
Qed.

Lemma shape_wait s t s' :
  inv s -> shape t s s' -> forall u cpu wi, waits (pc_of s' u) = Some (cpu, wi) ->
  wi_owner wi = u /\ waited wi = true /\ (wi_done s' u = false <-> wi ∈ held s' cpu).
Proof.
  intros I [Hh Hw Hd|c wi E Hh Hw Hd|wi E Hh Hw Hd|c wi E D Hh Hw Hd] u d w Hu; rewrite Hw in Hu.
  - rewrite Hh, Hd by congruence. by apply (inv_wait s I).
  - assert (Ho : wi_owner wi = t) by (apply (inv_queue s I); by rewrite E).
    rewrite Hh, Hd, Ho. destruct (decide (u = t /\ waited wi = true)) as [[-> Hwd]|Hn].
    + injection Hu as <- <-. split_and!; [done|done|]. rewrite decide_True by done. set_solver.
    + destruct (inv_wait s I u d w Hu) as (Ho' & Hwd & Hdone). split_and!; [done|done|].
      destruct (decide (d = c)) as [->|_]; [|exact Hdone]. rewrite Hdone, elem_of_app, list_elem_of_singleton.
      split; [by left|]. intros [?|Hw']; [done|]. subst w. destruct Hn. split; congruence.
  - destruct (inv_wait s I u d w Hu) as (Ho' & Hwd & Hdone). split_and!; [done|done|]. rewrite Hd.
    assert (Hin : wi ∈ held s t) by (rewrite Hh, decide_True by done; set_solver).
    destruct (decide (u = wi_owner wi /\ waited wi = true)) as [[-> Hwd']|Hc].
    + pose proof (inv_alive s I t wi Hin Hwd') as Ha. rewrite Ha in Hu. injection Hu as <- <-.
      split; [done|]. intros Hin'. pose proof (inv_once s I t) as Hn. rewrite Hh, decide_True, filter_app in Hn by done.
      apply NoDup_app in Hn as (_ & Hn & _). destruct (Hn wi); apply list_elem_of_filter; (split; [done|set_solver]).
    + rewrite Hdone, Hh, elem_of_app. destruct (decide (d = t)) as [->|_]; [|set_solver].
      split; [|by right]. intros [->%list_elem_of_singleton|?]; [|done]. destruct Hc. by split.
  - destruct (decide (u = t)); [done|]. rewrite Hh, Hd. by apply (inv_wait s I).
Qed.

Lemma step_queue s t mv s' :
  inv s -> step t mv s = Some s' -> forall u wi, queues (pc_of s' u) = Some wi -> wi_owner wi = u.
Proof.
  intros I Hs. pose proof (inv_queue s I) as Hq. pose proof (Hq t) as Ht.
  step_cases Hs; settle; try (by eapply Hq); try (by simplify_eq); try (by apply Ht).
  match goal with Hx : queues (woken ?l) = _ |- _ => assert (queues l = queues (woken l)) as El by (by destruct l) end.
  apply Hq. by rewrite El.
Qed.

Lemma step_sleep s t mv s' :
  inv s -> step t mv s = Some s' -> forall u cpu wi, pc_of s' u = WaitSleep cpu wi -> wi_done s' u = false.
Proof.
  intros I Hs. pose proof (inv_sleep s I) as Hsl. pose proof (inv_iothread s I) as Hio.
  pose proof (inv_wait s I) as Hw.
  step_cases Hs; settle; try (by eapply Hsl); try (by simplify_eq).
  - destruct (Hw t cpu wi) as (<- & _); [by rewrite H0|done].
  - pose proof (Hio t) as Ht. pose proof (Hio (wi_owner wi)) as Hu. rewrite H0 in Ht. rewrite H in Hu.
    specialize (Ht eq_refl). specialize (Hu eq_refl). congruence.
  - destruct (pc_of s u) eqn:Eu; try discriminate H. by eapply Hsl.
Qed.

Lemma step_wake s t mv s' :
  inv s -> step t mv s = Some s' ->
  forall u cpu wi, pc_of s' u = WaitAsleep cpu wi -> wi_done s' u = true -> will_broadcast (pc_of s' cpu) = true.
Proof.
  intros I Hs. pose proof (inv_wake s I) as Hwk. pose proof (inv_sleep s I t) as Hsl.
  pose proof (inv_alive s I t) as Hal. pose proof (inv_wait s I) as Hw.
  step_cases Hs; settle; try (by eapply Hwk); try (by simplify_eq);
    try match goal with Hp : pc_of _ ?u = WaitAsleep _ _, Hd : wi_done _ ?u = true, E : pc_of _ ?v = _ |- _ =>
      pose proof (Hwk _ _ _ Hp Hd) as Hx; rewrite E in Hx; discriminate Hx end.
  - specialize (Hsl _ _ eq_refl). congruence.
  - specialize (Hsl _ _ eq_refl). congruence.
  - destruct (decide (cpu = t)) as [->|Hne]; [done|]. exfalso.
    specialize (Hal wi). rewrite H in Hal. unfold held in Hal. rewrite H0 in Hal. cbn in Hal. rewrite H1 in Hal.
    specialize (Hal ltac:(left) eq_refl). congruence.
  - by destruct (pc_of s u).
  - by destruct (pc_of s u).
Qed.

Lemma work_inv_init : inv no_work.
Proof. split; intros; try done; by apply elem_of_nil in H || constructor. Qed.

Lemma work_inv_step s t mv s' : inv s -> step t mv s = Some s' -> inv s'.
Proof.
  intros I Hs. pose proof (step_shape s t mv s' I Hs) as Hsh. split.
  - by eapply step_iothread.
  - by eapply step_mutex.
  - by eapply step_order.
  - by eapply shape_alive.
  - by eapply shape_once.
  - by eapply shape_wait.
  - by eapply step_queue.
  - by eapply step_sleep.
  - by eapply step_wake.
Qed.

Lemma reachable_inv s : reachable s -> inv s.
Proof. induction 1; [apply work_inv_init|by eapply work_inv_step]. Qed.

(** ** Calls that wait *)

(** How many of the items [t] waited for have run, and whether it waits for
    one that has not. *)
Definition count_run (t : Z) (l : list (Z * qemu_work_item)) : nat :=
  length (filter (fun p => wi_owner p.2 = t /\ waited p.2 = true) l).
Definition owed (s : work) (t : Z) : nat :=
  match queues (pc_of s t), waits (pc_of s t) with
  | Some wi, _ => if waited wi then 1 else 0
  | _, Some (cpu, wi) => if decide (wi ∈ unrun s cpu) then 1 else 0
  | None, None => 0
  end.

Lemma count_run_one t l cpu wi :
  count_run t (l ++ [(cpu, wi)]) =
  (count_run t l + if decide (wi_owner wi = t /\ waited wi = true) then 1 else 0)%nat.
Proof.
  unfold count_run. rewrite filter_app, length_app, filter_cons, filter_nil. cbn.
  by destruct (decide (wi_owner wi = t /\ waited wi = true)).
Qed.

Lemma unrun_held s cpu wi : wi ∈ unrun s cpu -> wi ∈ held s cpu.
Proof.
  unfold unrun, held. rewrite !elem_of_app. intros [Hw|Hw]; [left|by right].
  destruct (pc_of s cpu); cbn in *; set_solver.
Qed.

(** How a step changes the items that have not run. *)
Inductive run_shape (t : Z) (s s' : work) : Prop :=
| runs_nothing :
    ran s' = ran s -> (forall u, asked s' u = asked s u) -> (forall u, queues (pc_of s' u) = queues (pc_of s u)) ->
    (forall d, unrun s' d = unrun s d) -> (forall u, waits (pc_of s' u) = waits (pc_of s u)) -> run_shape t s s'
| runs_item wi :
    hand_unrun (pc_of s t) = [wi] -> ran s' = ran s ++ [(t, wi)] -> (forall u, asked s' u = asked s u) ->
    (forall d, unrun s d = (if decide (d = t) then [wi] else []) ++ unrun s' d) ->
    (forall u, queues (pc_of s' u) = queues (pc_of s u)) -> (forall u, waits (pc_of s' u) = waits (pc_of s u)) ->
    run_shape t s s'
| runs_queue c wi :
    pc_of s t = QueueInsert c wi -> ran s' = ran s -> (forall u, asked s' u = asked s u) ->
    (forall d, unrun s' d = unrun s d ++ if decide (d = c) then [wi] else []) ->
    (forall u, queues (pc_of s' u) = if decide (u = t) then None else queues (pc_of s u)) ->
    (forall u, waits (pc_of s' u) = if decide (u = t) then if waited wi then Some (c, wi) else None
                                    else waits (pc_of s u)) ->
    run_shape t s s'
| runs_return c wi :
    pc_of s t = WaitTest c wi -> wi_done s (wi_owner wi) = true -> ran s' = ran s ->
    (forall u, asked s' u = asked s u) -> (forall d, unrun s' d = unrun s d) ->
    (forall u, queues (pc_of s' u) = queues (pc_of s u)) ->
    (forall u, waits (pc_of s' u) = if decide (u = t) then None else waits (pc_of s u)) -> run_shape t s s'
| runs_call c wi :
    pc_of s t = Outside -> pc_of s' t = QueueLock c wi -> ran s' = ran s ->
    (forall u, asked s' u = ((if decide (u = t /\ waited wi = true) then 1 else 0) + asked s u)%nat) ->
    (forall d, unrun s' d = unrun s d) ->
    (forall u, queues (pc_of s' u) = if decide (u = t) then Some wi else queues (pc_of s u)) ->
    (forall u, waits (pc_of s' u) = waits (pc_of s u)) -> run_shape t s s'.

Lemma step_run_shape s t mv s' : inv s -> step t mv s = Some s' -> run_shape t s s'.
Proof.
  intros I Hs. step_cases Hs;
    try match goal with E : pc_of s t = QueueInsert ?c ?wi |- _ => apply (runs_queue _ _ _ c wi); [done|..] end;
    try (match goal with E : pc_of s t = WaitTest ?c ?wi, D : wi_done _ _ = true |- _ =>
           apply (runs_return _ _ _ c wi); [done|done|..] end);
    try (match goal with E : pc_of s t = ProcExclusive ?wi |- _ => apply (runs_item _ _ _ wi) end);
    try (match goal with E : pc_of s t = ProcRun ?wi, X : wi_exclusive ?wi = false |- _ => apply (runs_item _ _ _ wi) end);
    try (match goal with |- context [upd (pc_of s) t (QueueLock ?c ?wi)] => apply (runs_call _ _ _ c wi); [done|..] end);
    try (apply runs_nothing); unfold unrun; settle.
  all: done.
Qed.

(** Every item a thread waited for has run, but the one it still waits for. *)
Definition served (s : work) : Prop := forall t, asked s t = (count_run t (ran s) + owed s t)%nat.

(** The item in hand is not in the queue as well. *)
Lemma item_in_hand s t wi u d w :
  inv s -> hand_unrun (pc_of s t) = [wi] -> waits (pc_of s u) = Some (d, w) ->
  (wi_owner wi = u /\ waited wi = true) /\ d = t /\ w = wi /\ wi ∉ work_list s t \/
  ~ (wi_owner wi = u /\ waited wi = true) /\ (d = t -> w <> wi).
Proof.
  intros I Hh Hu. destruct (decide (wi_owner wi = u /\ waited wi = true)) as [[Ho Hwd]|Hn].
  - left. assert (Ehand : hand (pc_of s t) = [wi]) by (destruct (pc_of s t); try discriminate Hh; exact Hh).
    assert (Hin : wi ∈ held s t) by (unfold held; rewrite Ehand; set_solver).
    pose proof (inv_alive s I t wi Hin Hwd) as Ha. rewrite Ho, Hu in Ha. injection Ha as -> ->.
    split_and!; [done|done|done|done|]. intros Hl. pose proof (inv_once s I t) as Hn. unfold held in Hn.
    rewrite Ehand, filter_app in Hn. apply NoDup_app in Hn as (_ & Hn & _).
    destruct (Hn wi); apply list_elem_of_filter; (split; [done|set_solver]).
  - right. split; [done|]. intros -> ->. destruct (inv_wait s I u t wi Hu) as (? & ? & _). by destruct Hn.
Qed.

Lemma step_served s t mv s' : inv s -> served s -> step t mv s = Some s' -> served s'.
Proof.
  intros I Hsv Hs u. specialize (Hsv u). unfold owed in *.
  destruct (step_run_shape s t mv s' I Hs) as [Er Ea Eq Eu Ew|wi Hh Er Ea Eu Eq Ew|c wi E Er Ea Eu Eq Ew|
    c wi E D Er Ea Eu Eq Ew|c wi E E' Er Ea Eu Eq Ew]; rewrite Er, Ea, Hsv, ?Eq, Ew.
  - destruct (queues (pc_of s u)), (waits (pc_of s u)) as [[d w]|]; by rewrite ?Eu.
  - rewrite count_run_one. destruct (waits (pc_of s u)) as [[d w]|] eqn:Eu'.
    + assert (En : queues (pc_of s u) = None) by (destruct (pc_of s u); done). rewrite En.
      destruct (item_in_hand s t wi u d w I Hh Eu') as [(Hy & -> & -> & Hni)|(Hn & Hne)].
      * specialize (Eu t). rewrite decide_True in Eu by done.
        assert (El : unrun s' t = work_list s t) by (unfold unrun in Eu at 1; rewrite Hh in Eu; by injection Eu).
        rewrite (decide_True (P := wi_owner wi = u /\ _)) by done.
        rewrite (decide_True (P := wi ∈ unrun s t)) by (rewrite Eu; set_solver).
        rewrite (decide_False (P := wi ∈ unrun s' t)); [lia|by rewrite El].
      * rewrite (decide_False (P := wi_owner wi = u /\ _)) by done. specialize (Eu d).
        rewrite (decide_ext (w ∈ unrun s d) (w ∈ unrun s' d)); [lia|]. rewrite Eu, elem_of_app.
        destruct (decide (d = t)) as [->|_]; [|set_solver].
        split; [|by right]. intros [->%list_elem_of_singleton|?]; [by destruct (Hne eq_refl)|done].
    + rewrite decide_False; [lia|]. intros [Ho Hwd].
      assert (Ehand : hand (pc_of s t) = [wi]) by (destruct (pc_of s t); try discriminate Hh; exact Hh).
      pose proof (inv_alive s I t wi) as Ha. unfold held in Ha. rewrite Ehand in Ha.
      specialize (Ha ltac:(set_solver) Hwd). congruence.
  - destruct (decide (u = t)) as [->|Hne].
    + rewrite E. cbn [queues waits]. destruct (waited wi); [|done]. rewrite Eu, decide_True; [done|].
      rewrite decide_True by done. set_solver.
    + destruct (queues (pc_of s u)); [done|]. destruct (waits (pc_of s u)) as [[d w]|] eqn:Eu'; [|done].
      destruct (inv_wait s I u d w Eu') as (Ho & _).
      rewrite (decide_ext (w ∈ unrun s' d) (w ∈ unrun s d)); [done|]. rewrite Eu, elem_of_app.
      split; [|by left]. intros [?|Hin]; [done|]. case_decide; [|set_solver].
      apply list_elem_of_singleton in Hin as ->. pose proof (inv_queue s I t wi ltac:(by rewrite E)). congruence.
  - destruct (decide (u = t)) as [->|Hne].
    + rewrite E. cbn [queues waits]. rewrite decide_False; [done|]. intros Hin%unrun_held.
      destruct (inv_wait s I t c wi ltac:(by rewrite E)) as (Ho & _ & Hd). apply Hd in Hin. congruence.
    + destruct (queues (pc_of s u)), (waits (pc_of s u)) as [[d w]|]; by rewrite ?Eu.
  - destruct (decide (u = t)) as [->|Hne].
    + rewrite E. cbn [queues waits]. destruct (waited wi) eqn:Hw.
      * rewrite decide_True by done. lia.
      * rewrite decide_False by naive_solver. lia.
    + rewrite decide_False by naive_solver.
      destruct (queues (pc_of s u)), (waits (pc_of s u)) as [[d w]|]; by rewrite ?Eu.
Qed.

Lemma reachable_served s : reachable s -> served s.
Proof.
  induction 1 as [|s t mv s' Hr IH Hs]; [done|]. eapply step_served; [by apply reachable_inv|done|done].
Qed.

(** C16. Work items run once, in order, and while they exist.  In every reachable
    state, whatever the interleaving of callers and vCPUs, the items put on
    the queue of a vCPU are those that have run there, in the same order,
    followed by those still to run.  A thread that is not in [do_run_on_cpu]
    has had every item it asked for run.  An item on a caller's stack that a
    vCPU can still touch is the one its owner waits for: the frame is alive,
    and the waiting loop will not be left before [done] is set. *)
Theorem work_items_run_in_order s :
  reachable s ->
  (forall cpu, of_cpu cpu (queued s) = of_cpu cpu (ran s) ++ unrun s cpu) /\
  (forall t, pc_of s t = Outside -> asked s t = count_run t (ran s)) /\
  (forall cpu wi, wi ∈ held s cpu -> waited wi = true ->
     waits (pc_of s (wi_owner wi)) = Some (cpu, wi) /\ wi_done s (wi_owner wi) = false).
Proof.
  intros Hr. pose proof (reachable_inv s Hr) as I. split_and!.
  - apply (inv_order s I).
  - intros t Ht. rewrite (reachable_served s Hr t). unfold owed. rewrite Ht. cbn. lia.
  - intros cpu wi Hin Hw. pose proof (inv_alive s I cpu wi Hin Hw) as Ha. split; [done|].
    by apply (inv_wait s I _ _ _ Ha).
Qed.

(** ** Progress *)

(** The thread [t] goes on alone. *)
Inductive goes_on (t : Z) : work -> work -> Prop :=
| goes_refl s : goes_on t s s
| goes_step s s1 s2 : step t Go s = Some s1 -> goes_on t s1 s2 -> goes_on t s s2.

Lemma goes_on_trans t s1 s2 s3 : goes_on t s1 s2 -> goes_on t s2 s3 -> goes_on t s1 s3.
Proof. induction 1; [done|]. intros. econstructor; eauto. Qed.

Lemma goes_on_reachable t s s' : goes_on t s s' -> reachable s -> reachable s'.
Proof. induction 1 as [|s s1 s2 Hs _ IH]; [done|]. intros Hr. apply IH. by econstructor. Qed.

(** The state of a vCPU in its loop. *)
Definition in_loop (t : Z) (l : list qemu_work_item) (s : work) : Prop :=
  pc_of s t = ProcLoop /\ work_list s t = l /\ iothread s = Some t /\ work_mutex s t = Some t.

Ltac go :=
  unfold step, process_queued_cpu_work, lock_work, lock_iothread, goto, unlock_work, unlock_iothread, run_func, set;
  cbn [iothread work_mutex work_list wi_done pc_of queued ran inlined asked]; rewrite ?upd_eq.

(** One turn of the loop. *)
Lemma loop_turn t wi l s : in_loop t (wi :: l) s -> exists s', goes_on t s s' /\ in_loop t l s'.
Proof.
  intros (Hp & Hl & Hio & Hm).
  assert (Hrest : forall s1, pc_of s1 t = ProcRelock wi -> work_list s1 t = l -> iothread s1 = Some t ->
            work_mutex s1 t = None -> exists s', goes_on t s1 s' /\ in_loop t l s').
  { intros s1 H1 H2 H3 H4. eexists. split.
    - eapply goes_step; [go; rewrite H1; cbn; rewrite H4; reflexivity|].
      eapply goes_step; [go; cbn; reflexivity|]. apply goes_refl.
    - destruct (wi_free wi); (split; [by go|]; split; [exact H2|]; split; [exact H3|]; by go). }
  destruct (wi_exclusive wi) eqn:Ex.
  - edestruct Hrest as (s' & Hg & Hi); cycle 4.
    + exists s'. split; [|exact Hi]. eapply goes_step; [go; rewrite Hp, Hl; reflexivity|].
      eapply goes_step; [go; rewrite Ex; reflexivity|]. eapply goes_step; [go; reflexivity|].
      eapply goes_step; [go; reflexivity|]. exact Hg.
    + by go.
    + by go.
    + by go.
    + by go.
  - edestruct Hrest as (s' & Hg & Hi); cycle 4.
    + exists s'. split; [|exact Hi]. eapply goes_step; [go; rewrite Hp, Hl; reflexivity|].
      eapply goes_step; [go; rewrite Ex; reflexivity|]. exact Hg.
    + by go.
    + by go.
    + done.
    + by go.
Qed.

Lemma loop_ends t l s : in_loop t l s -> exists s', goes_on t s s' /\ pc_of s' t = ProcBroadcast /\ work_list s' t = [].
Proof.
  revert s. induction l as [|wi l IH]; intros s Hs.
  - destruct Hs as (Hp & Hl & _). eexists. split; [|split].
    + eapply goes_step; [go; rewrite Hp, Hl; reflexivity|apply goes_refl].
    + by go.
    + exact Hl.
  - destruct (loop_turn t wi l s Hs) as (s1 & Hg & H1). destruct (IH s1 H1) as (s2 & Hg2 & H2).
    exists s2. split; [by eapply goes_on_trans|done].
Qed.

(** C17. Waiting callers are woken.  In every reachable state a caller asleep in
    [do_run_on_cpu] waits for an item that the vCPU still has, or the vCPU is
    in [process_queued_cpu_work] with the broadcast ahead: no wake-up is lost.
    When a vCPU with the big lock processes its queue, it terminates with the
    queue empty, exclusive items included; then no caller sleeps for an item
    of that vCPU, and the items of all that have waited for it are done. *)
Theorem waiting_callers_are_woken s cpu :
  reachable s ->
  (forall t wi, pc_of s t = WaitAsleep cpu wi ->
     wi_done s t = false /\ wi ∈ held s cpu \/ wi_done s t = true /\ will_broadcast (pc_of s cpu) = true) /\
  (pc_of s cpu = Outside -> iothread s = Some cpu -> work_mutex s cpu = None ->
   exists s1 s', step cpu ProcessQueuedCpuWork s = Some s1 /\ goes_on cpu s1 s' /\
     pc_of s' cpu = Outside /\ work_list s' cpu = [] /\
     forall t wi, waits (pc_of s' t) = Some (cpu, wi) -> wi_done s' t = true /\ pc_of s' t <> WaitAsleep cpu wi).
Proof.
  intros Hr. pose proof (reachable_inv s Hr) as I. split.
  - intros t wi Ht. destruct (wi_done s t) eqn:D.
    + right. split; [done|]. by apply (inv_wake s I t cpu wi).
    + left. split; [done|]. by apply (inv_wait s I t cpu wi); [rewrite Ht|].
  - intros Hp Hio Hm.
    assert (Hs1 : step cpu ProcessQueuedCpuWork s = Some (goto cpu ProcLock s)).
    { unfold step. rewrite Hp. by rewrite bool_decide_eq_true_2. }
    assert (Hend : exists s', goes_on cpu (goto cpu ProcLock s) s' /\ pc_of s' cpu = Outside /\ work_list s' cpu = []).
    { destruct (work_list s cpu) as [|wi l] eqn:Hl.
      - eexists. split; [|split].
        + eapply goes_step; [go; cbn; rewrite Hm; reflexivity|].
          eapply goes_step; [go; rewrite Hl; reflexivity|]. apply goes_refl.
        + by go.
        + exact Hl.
      - edestruct (loop_ends cpu (wi :: l)) as (s2 & Hg & Hb & Hn); cycle 1.
        + exists (goto cpu Outside (broadcast s2)). split; [|split; [unfold goto, set; cbn; by rewrite upd_eq|exact Hn]].
          eapply goes_step; [go; cbn; rewrite Hm; reflexivity|]. eapply goes_step; [go; rewrite Hl; reflexivity|].
          eapply goes_on_trans; [exact Hg|]. eapply goes_step; [|apply goes_refl].
          unfold step, process_queued_cpu_work. by rewrite Hb.
        + split; [by go|]. split; [exact Hl|]. split; [exact Hio|by go]. }
    destruct Hend as (s' & Hg & Hp' & Hn). exists (goto cpu ProcLock s), s'. split_and!; [done|done|done|done|].
    assert (I' : inv s') by (eapply reachable_inv, goes_on_reachable; [exact Hg|]; by econstructor).
    intros t wi Ht. destruct (inv_wait s' I' t cpu wi Ht) as (_ & _ & Hd).
    assert (D : wi_done s' t = true).
    { destruct (wi_done s' t); [done|]. pose proof (proj1 Hd eq_refl) as Hin. unfold held in Hin.
      rewrite Hp', Hn in Hin. cbn in Hin. set_solver. }
    split; [done|]. intros Hsl. pose proof (inv_wake s' I' t cpu wi Hsl D) as Hwb. by rewrite Hp' in Hwb.
Qed.

(** ** Two vCPUs that wait for each other *)

Fixpoint run_moves (l : list (Z * move)) (s : work) : option work :=
  match l with
  | [] => Some s
  | (t, mv) :: l => match step t mv s with Some s' => run_moves l s' | None => None end
  end.

Lemma run_moves_reachable l s s' : run_moves l s = Some s' -> reachable s -> reachable s'.
Proof.
  revert s. induction l as [|[t mv] l IH]; intros s; cbn; [by intros [= <-]|].
  destruct (step t mv s) as [s1|] eqn:E; [|done]. intros Hm Hr. eapply IH; [exact Hm|]. by econstructor.
Qed.

Definition after (l : list (Z * move)) : work := default no_work (run_moves l no_work).

Lemma after_reachable l : reachable (after l).
Proof.
  unfold after. destruct (run_moves l no_work) as [s|] eqn:E; [|constructor].
  eapply run_moves_reachable; [exact E|constructor].
Qed.

(** A caller asleep, two callers asleep, and a call that has returned. *)
Definition one_asks : list (Z * move) :=
  [(0, LockIothread); (0, RunOnCpu 1 7); (0, Go); (0, Go); (0, Go); (0, Go); (1, LockIothread)].
Definition both_ask : list (Z * move) := one_asks ++ [(1, RunOnCpu 0 8); (1, Go); (1, Go); (1, Go); (1, Go)].
Definition one_is_served : list (Z * move) :=
  one_asks ++ (1, ProcessQueuedCpuWork) :: replicate 8 (1, Go) ++ [(1, UnlockIothread); (0, Go); (0, Go)].

(** Each of [t] and [u] waits for an item that is queued at the other. *)
Definition crossed (t u : Z) (s : work) : Prop :=
  (exists a, waits (pc_of s t) = Some (u, a) /\ a ∈ held s u) /\
  (exists b, waits (pc_of s u) = Some (t, b) /\ b ∈ held s t).

Lemma crossed_half t u s v s' :
  inv s -> shape v s s' -> (exists a, waits (pc_of s t) = Some (u, a) /\ a ∈ held s u) ->
  waits (pc_of s u) <> None -> exists a, waits (pc_of s' t) = Some (u, a) /\ a ∈ held s' u.
Proof.
  intros I Hs (a & Ha & Hin) Hu. exists a.
  destruct Hs as [Hh Hw _|c wi E Hh Hw _|wi E Hh Hw _|c wi E D Hh Hw _]; rewrite Hw.
  - by rewrite Hh.
  - rewrite decide_False, Hh; [|intros [-> _]; by rewrite E in Ha]. split; [done|]. destruct (decide (u = c)); [apply elem_of_app; by left|done].
  - split; [done|]. rewrite Hh in Hin. rewrite decide_False in Hin; [done|]. intros ->. by rewrite E in Hu.
  - rewrite Hh. split; [|done]. rewrite decide_False; [done|]. intros ->. rewrite E in Ha. injection Ha as -> ->.
    destruct (inv_wait s I v u a) as (Ho & _ & Hd); [by rewrite E|]. apply Hd in Hin. congruence.
Qed.

(** Calls that cross wait for ever: the thread of a vCPU that waits in
    [do_run_on_cpu] does not process its own queue.  There is a reachable state
    in which two vCPUs wait for items queued at each other, and no step of any
    thread leaves such a state. *)
Lemma crossed_calls_wait_forever :
  (exists s, reachable s /\ crossed 0 1 s) /\
  (forall t u s v mv s', reachable s -> crossed t u s -> step v mv s = Some s' -> crossed t u s').
Proof.
  split.
  - exists (after both_ask). split; [apply after_reachable|].
    split; eexists; (split; [vm_compute; reflexivity|]); apply (bool_decide_unpack _); vm_compute; exact I.
  - intros t u s v mv s' Hr [Ha Hb] Hs. pose proof (reachable_inv s Hr) as I.
    pose proof (step_shape s v mv s' I Hs) as Hsh. split.
    + eapply crossed_half; [done|done|done|]. destruct Hb as (b & -> & _). done.
    + eapply crossed_half; [done|done|done|]. destruct Ha as (a & -> & _). done.
Qed.

Lemma work_items_run_in_order_witness :
  of_cpu 1 (queued (after one_is_served)) = of_cpu 1 (ran (after one_is_served)) ++ unrun (after one_is_served) 1 /\
  asked (after one_is_served) 0 = count_run 0 (ran (after one_is_served)) /\ asked (after one_is_served) 0 = 1%nat.
Proof.
  destruct (work_items_run_in_order (after one_is_served) (after_reachable _)) as (Hord & Hserved & _).
  split; [exact (Hord 1)|]. split; [apply Hserved; vm_compute; reflexivity|vm_compute; reflexivity].
Defined.

Lemma waiting_callers_are_woken_witness :
  pc_of (after one_asks) 0 = WaitAsleep 1 (mk_work_item 0 7 false false) /\
  exists s1 s', step 1 ProcessQueuedCpuWork (after one_asks) = Some s1 /\ goes_on 1 s1 s' /\ work_list s' 1 = [].
Proof.
  destruct (waiting_callers_are_woken (after one_asks) 1 (after_reachable _)) as (_ & Hrun).
  split; [vm_compute; reflexivity|].
  destruct Hrun as (s1 & s' & H1 & Hg & _ & Hn & _); [vm_compute; reflexivity..|].
  exact (ex_intro _ s1 (ex_intro _ s' (conj H1 (conj Hg Hn)))).
Defined.
