(* ===== verification/CpuList.v ===== *)
(** * The list of CPUs (cpus-common.c)

    CPUs are numbered when they are added to the list, unless they come with a
    number.  The scheduler finds CPUs by their numbers; the file shows that the
    numbers identify them. *)

From stdpp Require Import base list gmap strings.
From Stdlib Require Import ZArith Lia.
From S2P Require Import Prelude.

Local Open Scope Z_scope.
Local Open Scope record_scope.

Definition UNASSIGNED_CPU_INDEX : Z := -1.

(** A CPU is a pointer. *)
Record cpu_list := mk_cpu_list {
  cpus : list Z;
  cpu_index_ : Z -> Z;
  cpu_index_auto_assigned : bool
}.

#[export] Instance cpu_list_eta : Eta cpu_list := fun s =>
  mk_cpu_list (cpus s) (cpu_index_ s) (cpu_index_auto_assigned s).

(** The loop over the list; the increment of an [int] can overflow. *)
Fixpoint free_index_loop (l : list Z) (max_cpu_index : Z) : prog cpu_list Z :=
  match l with
  | [] => mret max_cpu_index
  | some_cpu :: l =>
      s ← gets id;
      let i := cpu_index_ s some_cpu in
      if max_cpu_index <=? i then
        if i =? 2 ^ 31 - 1 then ub "cpu_index + 1" else free_index_loop l (i + 1)
      else free_index_loop l max_cpu_index
  end.

Definition cpu_get_free_index : prog cpu_list Z :=
  modify (fun s => s <| cpu_index_auto_assigned := true |>);;
  s ← gets id;
  free_index_loop (cpus s) 0.

Definition set_index (cpu i : Z) : prog cpu_list unit := modify (fun s => s <| cpu_index_ ::= fun g => upd g cpu i |>).

Definition cpu_list_add (cpu : Z) : prog cpu_list unit :=
  s ← gets id;
  (if cpu_index_ s cpu =? UNASSIGNED_CPU_INDEX then
     i ← cpu_get_free_index;
     set_index cpu i;;
     (if i =? UNASSIGNED_CPU_INDEX then exit_ "assert" else mret tt)
   else if cpu_index_auto_assigned s then exit_ "assert" else mret tt);;
  modify (fun s => s <| cpus ::= fun l => l ++ [cpu] |>).

Definition cpu_list_remove (cpu : Z) : prog cpu_list unit :=
  s ← gets id;
  if negb (bool_decide (cpu ∈ cpus s)) then mret tt
  else
    modify (fun s => s <| cpus ::= filter (fun c => c <> cpu) |>);;
    set_index cpu UNASSIGNED_CPU_INDEX.

(** [qemu_get_cpu]. *)
Definition find_cpu (index : Z) (s : cpu_list) : option Z :=
  find (fun c => cpu_index_ s c =? index) (cpus s).

(** ** Numbers identify CPUs *)

Record numbered (s : cpu_list) : Prop := mk_numbered {
  numbered_nodup : NoDup (cpus s);
  numbered_range c : c ∈ cpus s -> 0 <= cpu_index_ s c < 2 ^ 31;
  numbered_inj c d : c ∈ cpus s -> d ∈ cpus s -> cpu_index_ s c = cpu_index_ s d -> c = d
}.

Lemma find_cpu_spec s c : numbered s -> c ∈ cpus s -> find_cpu (cpu_index_ s c) s = Some c.
Proof.
  intros Hn Hc. unfold find_cpu. destruct (find _ _) as [d|] eqn:E.
  - apply find_some in E as [Hd Ei]. apply Z.eqb_eq in Ei. f_equal. apply (numbered_inj s Hn); [|done|done].
    by apply list_elem_of_In.
  - pose proof (find_none _ _ E c) as Hf. cbn in Hf. rewrite Z.eqb_refl in Hf. discriminate Hf. by apply list_elem_of_In.
Qed.

(** The free number is above all numbers in use. *)
Lemma free_index_run l m s :
  0 <= m -> Forall (fun c => 0 <= cpu_index_ s c < 2 ^ 31 - 1) l ->
  exists i, free_index_loop l m s = Ret i s /\ m <= i /\ (m < 2 ^ 31 -> i < 2 ^ 31) /\
    Forall (fun c => cpu_index_ s c < i) l.
Proof.
  intros Hm Hl. revert m Hm. induction Hl as [|c l Hc _ IH]; intros m Hm.
  { exists m. split_and!; [done|lia|done|constructor]. }
  cbn [free_index_loop]. erewrite bind_run by reflexivity. unfold id.
  destruct (Z.leb_spec m (cpu_index_ s c)).
  - destruct (Z.eqb_spec (cpu_index_ s c) (2 ^ 31 - 1)); [lia|].
    destruct (IH (cpu_index_ s c + 1)) as (i & E & Hi & Hb & Hf); [lia|]. exists i.
    split_and!; [done|lia|lia|]. constructor; [lia|done].
  - destruct (IH m Hm) as (i & E & Hi & Hb & Hf). exists i. split_and!; [done|lia|done|]. constructor; [lia|done].
Qed.

(** Adding a CPU without a number gives it one that no other has; a number
    that comes with the CPU is kept, as long as none was given automatically. *)
Lemma cpu_list_add_spec cpu s :
  numbered s -> cpu ∉ cpus s ->
  if cpu_index_ s cpu =? UNASSIGNED_CPU_INDEX then
    Forall (fun c => cpu_index_ s c < 2 ^ 31 - 1) (cpus s) ->
    exists i s', cpu_list_add cpu s = Ret tt s' /\ numbered s' /\ cpus s' = cpus s ++ [cpu] /\
      cpu_index_ s' = upd (cpu_index_ s) cpu i /\ cpu_index_auto_assigned s' = true
  else if cpu_index_auto_assigned s then cpu_list_add cpu s = Exit "assert"
  else 0 <= cpu_index_ s cpu < 2 ^ 31 -> find_cpu (cpu_index_ s cpu) s = None ->
    exists s', cpu_list_add cpu s = Ret tt s' /\ numbered s' /\ cpus s' = cpus s ++ [cpu] /\
      cpu_index_ s' = cpu_index_ s.
Proof.
  intros Hn Hc. unfold cpu_list_add. erewrite bind_run by reflexivity. unfold id.
  destruct (cpu_index_ s cpu =? UNASSIGNED_CPU_INDEX).
  - intros Hlt. set (s1 := s <| cpu_index_auto_assigned := true |>).
    destruct (free_index_run (cpus s) 0 s1) as (i & E & Hi & Hb & Hf); [lia| |].
    { rewrite Forall_forall in Hlt |- *. intros c Hin. specialize (Hlt c Hin).
      pose proof (numbered_range s Hn c Hin). cbn. lia. }
    exists i. eexists. split.
    { erewrite bind_run; [reflexivity|]. unfold cpu_get_free_index.
      erewrite bind_run by (erewrite bind_run by reflexivity; erewrite bind_run by reflexivity; exact E).
      erewrite bind_run by reflexivity. unfold UNASSIGNED_CPU_INDEX. destruct (Z.eqb_spec i (-1)); [lia|reflexivity]. }
    unfold set. cbn. split_and!; [|done|done|done].
    assert (Hold : forall c, c ∈ cpus s -> upd (cpu_index_ s) cpu i c = cpu_index_ s c).
    { intros c Hin. apply upd_ne. by intros ->. }
    rewrite Forall_forall in Hf. cbn in Hf. split; cbn.
    + apply NoDup_app. split_and!; [apply Hn|set_solver|apply NoDup_singleton].
    + intros c [Hin| ->%list_elem_of_singleton]%elem_of_app; [rewrite Hold by done; by apply (numbered_range s Hn)|].
      rewrite upd_eq. lia.
    + intros c d [Hin| ->%list_elem_of_singleton]%elem_of_app [Hin'| ->%list_elem_of_singleton]%elem_of_app;
        rewrite ?upd_eq, ?Hold by done; [by apply (numbered_inj s Hn)| | |done].
      * specialize (Hf c Hin). lia.
      * specialize (Hf d Hin'). lia.
  - destruct (cpu_index_auto_assigned s); [reflexivity|]. intros Hr Hnone.
    eexists. split; [erewrite bind_run by reflexivity; reflexivity|]. unfold set. cbn. split_and!; [|done|done].
    assert (Hfree : forall c, c ∈ cpus s -> cpu_index_ s c <> cpu_index_ s cpu).
    { intros c Hin Ei. pose proof (find_none _ _ Hnone c) as Hf. cbn in Hf. rewrite Ei, Z.eqb_refl in Hf.
      discriminate Hf. by apply list_elem_of_In. }
    split; cbn.
    + apply NoDup_app. split_and!; [apply Hn|set_solver|apply NoDup_singleton].
    + intros c [Hin| ->%list_elem_of_singleton]%elem_of_app; [by apply (numbered_range s Hn)|done].
    + intros c d [Hin| ->%list_elem_of_singleton]%elem_of_app [Hin'| ->%list_elem_of_singleton]%elem_of_app Ei;
        [by apply (numbered_inj s Hn)| | |done]; [by destruct (Hfree c Hin)|by destruct (Hfree d Hin')].
Qed.

(** Removing a CPU leaves the others with their numbers. *)
Lemma cpu_list_remove_spec cpu s :
  numbered s -> exists s', cpu_list_remove cpu s = Ret tt s' /\ numbered s' /\
    (forall c, c ∈ cpus s' <-> c ∈ cpus s /\ c <> cpu) /\ (forall c, c ∈ cpus s' -> cpu_index_ s' c = cpu_index_ s c).
Proof.
  intros Hn. unfold cpu_list_remove. erewrite bind_run by reflexivity. unfold id.
  destruct (bool_decide_reflect (cpu ∈ cpus s)) as [Hin|Hin]; cbn [negb].
  - eexists. split; [erewrite bind_run by reflexivity; reflexivity|]. unfold set. cbn.
    assert (Hel : forall c, c ∈ filter (fun c => c <> cpu) (cpus s) <-> c ∈ cpus s /\ c <> cpu).
    { intros c. rewrite list_elem_of_filter. tauto. }
    assert (Hold : forall c, c <> cpu -> upd (cpu_index_ s) cpu UNASSIGNED_CPU_INDEX c = cpu_index_ s c).
    { intros c Hc. by apply upd_ne. }
    split_and!; [|done|intros c [_ Hc]%Hel; by apply Hold]. split; cbn.
    + apply NoDup_filter, Hn.
    + intros c [Hc Hne]%Hel. rewrite Hold by done. by apply (numbered_range s Hn).
    + intros c d [Hc Hne]%Hel [Hd Hne']%Hel. rewrite !Hold by done. by apply (numbered_inj s Hn).
  - exists s. split_and!; [done|done| |done]. intros c. split; [|tauto]. intros Hc. split; [done|]. by intros ->.
Qed.
